(* ===== verification/_CoqProject ===== *)
-Q . S2P
Prelude.v
Machine.v
Logic.v
Api.v
Arena.v
Owned.v
Conc.v
Container.v
SoleAlloc.v
UsertestArena.v
Duet.v
Spsc.v
Threads.v
Crowd.v
Allocators.v
Ring.v
Vyukhov.v
VyukhovConc.v
VyukhovCrowd.v
FollySpsc.v
CkRing.v
IoUring.v
SpscRings.v
Kcov.v
KcovRace.v
Linked.v
CkStack.v
CkStackConc.v
StackCrowd.v
CkFifo.v
FifoConc.v
Usertest.v
UsertestCrowd.v
UsertestSpsc.v
MsQueue.v
MsQueueConc.v
MsQueueCrowd.v
UsertestMpmc.v
UsertestStack.v
Doubles.v
Metrics.v
Agents.v
Relay.v
RelaySpec.v
RelayConc.v
Setup.v
RelaySystem.v
Skeletons.v
Verdicts.v
RelayRings.v
Report.v
Main.v
Histories.v
Readers.v
Examples.v
ExamplesRings.v
ExamplesLists.v
ExamplesSystem.v
ExamplesUser.v
ExamplesRelay.v
ExamplesMpmc.v
