(* ===== verification/Prelude.v ===== *)
(** * BPF arena data structures: a verification library

    The repository has eight concurrent containers of key/value pairs that live in a BPF arena,
    memory shared by a kernel (BPF) program and a userspace process. Each is compiled twice,
    with suffix [_lkmm] (kernel accesses, [READ_ONCE], [can_loop]) and [_c] (C11 atomics). For
    each there is a pair of programs, a skeleton, that makes a relay of two of them: the kernel
    program inserts a pair into the lane KU whenever a file is created, a userspace thread moves
    pairs from KU to UK, and a probe that the process fires at shutdown pops UK in the kernel.

    ** What is where

    The model.
    - [Prelude] (this file): machine integers as [Z] with explicit reductions, bit operations,
      lists; the tactics and hints on them.
    - [Machine]: memory as a finite map of cells, programs as trees of accesses, loops with fuel,
      the access macros of [bpf_arena_common.h] and the atomics of [libarena_ds.h]. What the
      kernel and libc provide (pages, cpu id, clock, pid, page size) is the class [Kernel].
    - [Logic]: [wpr p m b Q], total correctness of a program run alone from memory [m] with loop
      budget [b]: no access to an unmapped cell, every loop ends within its fuel, and [Q] holds
      of the answer, the memory and the budget that is left. [prun] executes a program
      symbolically.
    - [Conc]: pools of threads, one access at a time in any order ([pool_step]); every schedule
      ends ([pool_terminates]); rely-guarantee triples, which also count the loop budget, and
      [pool_safe], which composes threads.
    - [Api]: [ds_api.h], and the interface [Allocator] with its laws [AllocLaws], [FreeLaws].
    - [Owned]: blocks of memory, who owns them, and framing.
    - [SoleAlloc]: allocators that may be called while other threads run, by one thread at a time
      ([SoleAllocLaws]) or by any number of them ([FreshAllocLaws]).

    The allocators of [libarena_ds.h].
    - [Arena]: both builds; the userspace one is proved to keep the laws of the interface.
    - [Allocators]: sessions of calls, range configuration, and the behaviour of the kernel build,
      which does not keep the laws (see the theorems).
    - [Setup]: [setup_userspace_allocator] of the skeletons.
    - [UsertestArena]: the bump allocator of the userspace tests, which keeps both sets of laws.

    The containers.
    - [Container]: the contract. A [discipline] is an abstract container as a transition system on
      lists; [ContainerLaws] says that a structure's [init], [insert] and [pop] are its steps and
      touch nothing but what the structure owns; [lifetime_refines] is the refinement theorem
      for whole lives. Structures are proved against it with an arbitrary allocator.
    - [Ring] (slots of circular arrays) with [Vyukhov], [FollySpsc], [CkRing], [IoUring], [Kcov];
      [Linked] (chains of nodes) with [CkStack], [CkFifo], [MsQueue]: for each file of [include/],
      the layout of its structures, every operation in both builds under its C name, the
      representation predicate ([..._repr], memory against a list of pairs), the specification of
      each operation, and the instance of the contract.
    - [Histories]: the resulting theorem for each structure. [Readers]: searching, iterating,
      counting and verifying.
    - [Duet]: a producer and a consumer on one structure, as a class of rely-guarantee laws
      ([DuetLaws]), and what follows from them for any pair of threads. [Spsc]: the laws hold of
      any ring of the class [SpscRing]; [SpscRings]: its three instances. [FifoConc]: they hold of
      the linked FIFO. [KcovRace]: the append buffer does not have the property.
    - [Threads]: histories of any number of threads and the books kept on each. [VyukhovConc]:
      the queue as a transition system in which operations can be in flight ([vsteps]), and the
      proof that any pool of producers and consumers implements it. [CkStackConc]: the stack under
      any pool of threads that push and pop. [MsQueueConc]: the same for the Michael-Scott queue.
    - [Crowd]: any number of threads on one structure, as a class of rely-guarantee laws
      ([CrowdLaws], [CrowdOps]) against which client threads are proved, and ledgers, what those
      threads keep in cells of their own. [VyukhovCrowd], [MsQueueCrowd], [StackCrowd]: instances.

    The programs.
    - [Metrics]: [ds_metrics.h]: rings of latency samples per category, the timing macro, the
      table printer. Two of its columns are computed with [Doubles], binary64 numbers, and the
      errors of the operations on them.
    - [Relay]: the handlers of a skeleton over two abstract lanes ([lsm_inode_create], the probe's
      [bpf_consume], [relay_worker], [verify_data_structure],
      [trigger_kernel_consumer_on_exit]), the global variables of the two programs as records,
      and [activities], any sequence of handler runs on the state of the system.
    - [RelaySpec]: the abstract relay and the simulation relation; each handler is a step of it.
    - [Agents]: a producer's and a consumer's procedure on one ring, as threads of the laws of
      [Duet]. [RelayConc]: file creations and the relay thread interleaved access by access, over
      any two rings; [RelayRings]: the rings.
    - [RelaySystem]: whole runs, and the end-to-end theorems, against the class [SkeletonLaws].
    - [Skeletons]: the eight programs, as instances. The stack's keeps flags instead of testing
      pointers and has handlers of its own. [Verdicts]: what [verify_data_structure] answers over
      the four structures that are arrays, on any header.
    - [Report]: [print_statistics], as the numbers it prints.
    - [Main]: the eight programs from the command line to the exit code: [parse_args], attachment,
      [main], as actions of a small state monad [io] over the running system; what the
      environment answers is a record [environment].
    - [Usertest], [UsertestSpsc]: the userspace concurrency tests with one producer and one
      consumer, threads and [main]. [UsertestCrowd], [UsertestMpmc]: those with several, of
      Vyukhov's and of the Michael-Scott queue. [UsertestStack]: the stack's, whose consumers check
      the keys off.

    [Examples], [ExamplesRings], [ExamplesLists], [ExamplesSystem], [ExamplesUser], [ExamplesRelay],
    [ExamplesMpmc] apply the theorems to concrete memories, which shows that their hypotheses can
    hold.

    ** What is proved

    - Histories (C1 - C8): from an uninitialised header on, every structure answers any sequence
      of inserts and pops as its abstract container does (a bounded queue or stack answer by
      answer, an unbounded one up to refusals for want of memory), in either build, with no
      fault, every loop ended, and other owners' memory untouched.
    - Concurrency (C9 - C15), under every interleaving of the accesses: Vyukhov's queue and the
      Michael-Scott queue with any number of producers and consumers are FIFOs whose refusals
      alone are looser than a sequential queue's, while another operation is in flight or by
      giving up; the stack is linearizable for any number of threads, and its retry loops end; the
      rings of Folly, ConcurrencyKit and io_uring and the linked FIFO are linearizable for one
      producer and one consumer. C30: the kcov-style buffer loses and invents pairs under an
      interleaving that is exhibited.
    - The relay (C16 - C22): any order of handlers refines the abstract relay; every pair that KU accepted
      is consumed, in a lane or was refused by UK, in one place only: the relay drops the refused
      pairs and no others, and duplicates, reorders or invents none (C17, and C18 up to order);
      what the relay thread offers UK is what it took out of KU also when file creations and the
      thread interleave access by access (C19); the shutdown procedure ends with UK drained and
      the counts equal (C20); the final verification of the array structures
      passes after any run, and says on any header whether it is consistent (C21); the printed
      statistics are the counts of the histories (C22).
    - The programs (C23 - C25): how [main] exits in every environment, with the real setup of the
      allocator, and what it has done by then; it acquires and releases its resources in order; parsing
      of the command line inverts printing. [shutdown_ok], a lemma: from the signal on, in any
      state the relay can be in, the program drains UK, verifies and prints the truth. The six
      tests (C26 - C28) pass whenever they end, in every interleaving of their threads.
    - Memory (C29, C31 - C34): the userspace allocator's sessions; what its setup hands out; the
      kernel allocator's carving, its underflow, and its use of a freed page. Lemmas:
      [user_set_range], [arena_init_ok].
    - Metrics (C35): the table, and how accurate its floating-point columns are; read-only
      operations and verifiers of the structures (C36, C37, C39; lemmas [ck_stack_readers],
      [ring_observers], [ring_verifiers], [verify_ok], [msq_verify_ok]), error behaviour (C38), the
      capacity test (C40).

    ** Bounds and fuel

    Loops whose bound is in the source carry it as fuel, with one turn to spare, so that running
    out of fuel is not a possible outcome and the theorems say so. [can_loop] is a budget [b] of
    turns given to each handler run; theorems on BPF builds ask for the turns a path needs
    ([c_budget], [c_init_budget]: at most one turn for an operation run alone, two for the
    Michael-Scott queue, the capacity for Vyukhov's initialisation) and say what happens
    without them where the code answers wrongly (C38). The compare-and-swap loops of the stack
    have no bound in the source and take a fuel parameter, which need only be positive for one
    thread, and more than the number of all operations for several (C10): an attempt fails only if
    another operation took effect. For several threads the same bound holds for the budget of the
    stack's BPF build; Vyukhov's queue needs none, since it answers [DS_ERROR_BUSY]. The Michael-Scott queue retries
    ten times by itself; its BPF threads are given the turns for that ([enough_budget]). Threads
    that poll ([Usertest], [UsertestCrowd], [UsertestStack]) get a number of attempts, over which the theorems quantify, and answer
    [None] when it is used up. The allocator's spin lock takes [spin] attempts; the test arena
    must not be asked for [2 ^ 64] bytes in all ([arena_room]).

    ** Not modelled

    - Weak memory: memory is sequentially consistent. The orderings are in the programs (type
      [order]) and have no effect. The litmus tests under [docs/] are about what is left out.
    - A relay's runs, in C16 to C24 but C19, are of handlers one after the other, in any order.
      C19 interleaves the accesses of file creations with those of the relay thread over the rings;
      the consumer in the kernel then runs alone, as at shutdown. Over the linked structures and
      with all three at once, the single operations are covered by C9 - C15. Creations on several
      cpus at once would need more than one producer, which the single-producer structures exclude.
    - Concurrent calls of the allocators of [libarena_ds.h]. The kernel build is per cpu and calls
      page services that are not part of the source; the userspace build takes a lock, and is
      proved for one thread at a time. Threads that allocate while others run are covered over the
      test arena: the stack's pushes are those of entries already allocated, and the Michael-Scott
      queue is proved over allocators that never hand out memory twice (with reuse, its pops read
      nodes that others have freed).
    - The relay's theorems (C16 - C18, C20 - C22) have as hypothesis that the lanes' headers, the
      metrics and the allocator's range are apart ([relay_booted]). The setup of the skeletons does
      not establish it (C29), because it gives the allocator pages that the metrics are in; the
      examples have a range behind the metrics. C23 and C24 do not need the hypothesis. The headers
      and the metrics are members of [skel->arena], at offsets that are parameters of the programs
      of [Main]. The two builds may have different allocators, over one heap ([user_build]).
    - Text: progress messages, the layout of printed tables and numbers, [printf]'s decimal digits.
      Loading, attaching, thread creation and signals are answers of the [environment]. The macros
      that declare operations in [ds_api.h] are textual.
    - Of [usertest/]: a failing [pthread_create], after which the process ends with threads running.
      [pthread_once] is the run of [usertest_arena_init_once] before there are threads.
    - [bpf_experimental.h], [third_party/]: vendored; of these, [can_loop] is an event of the model.
      The build files and scripts.

    What remains is what these entries name: an axiomatic weak memory model under the orderings the
    programs already carry, and the locked allocator under several threads. *)
From stdpp Require Import base numbers gmap list fin_maps.
From Stdlib Require Import ZArith Lia.

Open Scope Z_scope.

(** ** Machine integers

    A [w]-bit unsigned C integer is a [Z] in [0 .. 2^w - 1]; every C operation that can leave
    the range is followed by one of the reductions below, exactly where the C type makes the
    value wrap. *)

Definition u32 (x : Z) : Z := x mod 2 ^ 32.

Definition u64 (x : Z) : Z := x mod 2 ^ 64.

(** The two's complement reading of the low 64 (32) bits: what [(__s64)x] and [(int)x] give. *)
Definition s64 (x : Z) : Z := (x + 2 ^ 63) mod 2 ^ 64 - 2 ^ 63.

Definition s32 (x : Z) : Z := (x + 2 ^ 31) mod 2 ^ 32 - 2 ^ 31.

Lemma u64_range x : 0 <= u64 x < 2 ^ 64.
Proof. apply Z.mod_pos_bound; lia. Qed.

Lemma u32_range x : 0 <= u32 x < 2 ^ 32.
Proof. apply Z.mod_pos_bound; lia. Qed.

Lemma u64_id x : 0 <= x < 2 ^ 64 -> u64 x = x.
Proof. apply Z.mod_small. Qed.

Lemma u32_id x : 0 <= x < 2 ^ 32 -> u32 x = x.
Proof. apply Z.mod_small. Qed.

Lemma u64_add_l a b : u64 (u64 a + b) = u64 (a + b).
Proof. unfold u64. apply Zplus_mod_idemp_l. Qed.

Lemma u32_add_l a b : u32 (u32 a + b) = u32 (a + b).
Proof. unfold u32. apply Zplus_mod_idemp_l. Qed.

Lemma u64_add_r a b : u64 (a + u64 b) = u64 (a + b).
Proof. unfold u64. apply Zplus_mod_idemp_r. Qed.

Lemma u64_sub_l a b : u64 (u64 a - b) = u64 (a - b).
Proof. unfold u64. apply Zminus_mod_idemp_l. Qed.

Lemma u32_sub a b : u32 (u32 a - u32 b) = u32 (a - b).
Proof. unfold u32. symmetry. apply Zminus_mod. Qed.

(** The signed distance of two wrapped positions is their true distance as long as that
    distance fits in 63 bits: the fact every sequence-number comparison relies on. *)
Lemma s64_distance a b :
  - 2 ^ 63 <= a - b < 2 ^ 63 -> s64 (s64 (u64 a) - s64 (u64 b)) = a - b.
Proof.
  intros H. unfold s64, u64.
  assert (E : forall x, exists k, (x mod 2 ^ 64 + 2 ^ 63) mod 2 ^ 64 - 2 ^ 63 = x + k * 2 ^ 64).
  { intros x. exists (- (x / 2 ^ 64) - (x mod 2 ^ 64 + 2 ^ 63) / 2 ^ 64).
    pose proof (Z.div_mod x (2 ^ 64) ltac:(lia)).
    pose proof (Z.div_mod (x mod 2 ^ 64 + 2 ^ 63) (2 ^ 64) ltac:(lia)). lia. }
  destruct (E a) as [ka ->], (E b) as [kb ->].
  replace (a + ka * 2 ^ 64 - (b + kb * 2 ^ 64) + 2 ^ 63)
    with (a - b + 2 ^ 63 + (ka - kb) * 2 ^ 64) by lia.
  rewrite Z_mod_plus_full, Z.mod_small; lia.
Qed.

Lemma s32_id x : - 2 ^ 31 <= x < 2 ^ 31 -> s32 x = x.
Proof. intros H. unfold s32. rewrite Z.mod_small; lia. Qed.

(** ** Power-of-two capacities *)

Lemma land_mask x k : 0 <= k -> Z.land x (2 ^ k - 1) = x mod 2 ^ k.
Proof. intros Hk. rewrite <- Z.land_ones by lia. f_equal. rewrite Z.ones_equiv. lia. Qed.

(** [(v & (v - 1)) == 0] recognises exactly the powers of two among the positive integers. *)
Lemma pow2_test v : 0 < v -> Z.land v (v - 1) = 0 <-> exists k, 0 <= k /\ v = 2 ^ k.
Proof.
  intros Hv. split.
  - intros Hl. exists (Z.log2 v). split; [apply Z.log2_nonneg |].
    destruct (Z.log2_spec v Hv) as [Hlo Hhi].
    destruct (Z.eq_dec v (2 ^ Z.log2 v)) as [|Hne]; [done|]. exfalso.
    assert (Z.log2 (v - 1) = Z.log2 v) as Hlog.
    { apply Z.log2_unique; [apply Z.log2_nonneg|lia]. }
    assert (Hb1 : Z.testbit v (Z.log2 v) = true) by (apply Z.bit_log2; lia).
    assert (Hb2 : Z.testbit (v - 1) (Z.log2 v) = true).
    { rewrite <- Hlog. apply Z.bit_log2.
      pose proof (Z.pow_pos_nonneg 2 (Z.log2 v) ltac:(lia) (Z.log2_nonneg v)). lia. }
    assert (Z.testbit (Z.land v (v - 1)) (Z.log2 v) = true) as Hb
      by (rewrite Z.land_spec, Hb1, Hb2; done).
    rewrite Hl, Z.bits_0 in Hb. done.
  - intros (k & Hk & ->). rewrite land_mask by done.
    apply Z.mod_same. pose proof (Z.pow_pos_nonneg 2 k). lia.
Qed.

(** The same for a 32-bit word. *)
Lemma pow2_test_word v :
  0 < v < 2 ^ 32 -> Z.land v (u32 (v - 1)) = 0 <-> exists k, 0 <= k <= 31 /\ v = 2 ^ k.
Proof.
  intros Hv. rewrite u32_id, pow2_test by lia. split; intros (k & Hk & ->); exists k; [|lia].
  assert (k < 32); [|lia]. apply (Z.pow_lt_mono_r_iff 2); lia.
Qed.

(** Clearing the low bits of an address gives the start of its page, in unbounded integers and
    in 64-bit words. *)
Lemma land_page a k : 0 <= k -> Z.land a (Z.lnot (2 ^ k - 1)) = a - a mod 2 ^ k.
Proof.
  intros Hk. replace (2 ^ k - 1) with (Z.ones k) by (rewrite Z.ones_equiv; lia).
  rewrite <- Z.ldiff_land, Z.ldiff_ones_r, Z.shiftl_mul_pow2, Z.shiftr_div_pow2 by lia.
  pose proof (Z.pow_pos_nonneg 2 k). rewrite (Z.div_mod a (2 ^ k)) at 2 by lia. lia.
Qed.

Lemma land_page64 a k :
  0 <= k -> 0 <= a < 2 ^ 64 -> Z.land a (u64 (Z.lnot (2 ^ k - 1))) = a - a mod 2 ^ k.
Proof.
  intros Hk Ha. unfold u64. rewrite <- (land_page a k) by done.
  rewrite <- !(Z.land_ones _ 64), (Z.land_comm (Z.lnot _)), Z.land_assoc by lia.
  rewrite (Z.land_ones a 64), Z.mod_small by lia. done.
Qed.

Lemma lor_low x k : 0 <= k -> Z.lor x (2 ^ k - 1) = x - x mod 2 ^ k + (2 ^ k - 1).
Proof. intros Hk. pose proof (Z.add_lor_land x (2 ^ k - 1)). rewrite land_mask in *; lia. Qed.

(** A wrapped position indexes the same slot as the true one when the capacity divides the
    word's range. *)
Lemma mod_pow2_wrap x k w : 0 <= k <= w -> (x mod 2 ^ w) mod 2 ^ k = x mod 2 ^ k.
Proof.
  intros H. replace (2 ^ w) with (2 ^ k * 2 ^ (w - k))
    by (rewrite <- Z.pow_add_r by lia; f_equal; lia).
  rewrite Z.mul_comm.
  pose proof (Z.pow_pos_nonneg 2 k ltac:(lia) ltac:(lia)).
  pose proof (Z.pow_pos_nonneg 2 (w - k) ltac:(lia) ltac:(lia)).
  rewrite Z.mul_comm, Z.rem_mul_r by lia.
  rewrite Z.mul_comm, Z_mod_plus_full. apply Z.mod_mod. lia.
Qed.

(** Two positions of a window no wider than the ring fall in different slots. *)
Lemma mod_window_ne p q s : 0 < s -> p <> q -> Z.abs (p - q) < s -> p mod s <> q mod s.
Proof.
  intros Hs Hne Hw E.
  pose proof (Z.div_mod p s ltac:(lia)) as Hp. pose proof (Z.div_mod q s ltac:(lia)) as Hq.
  rewrite E in Hp. generalize dependent (p / s). generalize dependent (q / s).
  generalize (q mod s). intros r b Hq a Hp. clear E. subst p q.
  assert (Z.abs (s * (a - b)) < s) by (replace (s * (a - b)) with (s * a + r - (s * b + r)) by ring; done).
  assert (a - b <> 0) by (intros Hab; apply Hne; replace a with b by lia; done). nia.
Qed.

Lemma mod_window_eq p q s : 0 < s -> Z.abs (p - q) < s -> p mod s = q mod s -> p = q.
Proof.
  intros Hs Hw E. destruct (Z.eq_dec p q) as [|Hne]; [done|].
  exfalso. by apply (mod_window_ne p q s).
Qed.

(** Stepping an index with the "reset to zero at the end" idiom is stepping modulo the size. *)
Lemma mod_succ_reset p s :
  0 < s -> (if p mod s + 1 >=? s then 0 else p mod s + 1) = (p + 1) mod s.
Proof.
  intros Hs. pose proof (Z.mod_pos_bound p s Hs).
  rewrite <- Zplus_mod_idemp_l.
  destruct (p mod s + 1 >=? s) eqn:E.
  - apply Z.geb_le in E. replace (p mod s + 1) with s by lia. by rewrite Z.mod_same by lia.
  - rewrite Z.geb_leb, Z.leb_gt in E. by rewrite (Z.mod_small (p mod s + 1)) by lia.
Qed.

(** Whole pages of a range. *)
Lemma pages_lt j n p : 0 < p -> j * p < n * p -> j < n /\ j * p + p <= n * p.
Proof.
  intros Hp Hlt. assert (j < n) by (eapply Z.mul_lt_mono_pos_r; eauto). split; [done|].
  replace (j * p + p) with ((j + 1) * p) by ring. apply Z.mul_le_mono_nonneg_r; lia.
Qed.

Lemma pages_le j n p : 0 < p -> 0 <= j <= n -> 0 <= j * p <= n * p.
Proof.
  intros Hp Hle. split; [apply Z.mul_nonneg_nonneg; lia|]. apply Z.mul_le_mono_nonneg_r; lia.
Qed.

(** ** Finite maps with arithmetic keys *)

Section memory_lookup.
Context {A : Type}.
Implicit Types m : gmap Z A.

Lemma lookup_ins_same m a b v : a = b -> <[a:=v]> m !! b = Some v.
Proof. intros ->. apply lookup_insert_eq. Qed.

Lemma lookup_ins_other m a b v o : a <> b -> m !! b = o -> <[a:=v]> m !! b = o.
Proof. intros Hne <-. by apply lookup_insert_ne. Qed.

Lemma lookup_value m a v w : m !! a = Some v -> v = w -> m !! a = Some w.
Proof. by intros H <-. Qed.

Lemma lookup_ins_is_Some m a b v : is_Some (m !! b) -> is_Some (<[a:=v]> m !! b).
Proof. intros H. rewrite lookup_insert. case_decide; eauto. Qed.
End memory_lookup.

(** ** Lists indexed by integers *)

Definition Zlen {A} (l : list A) : Z := Z.of_nat (length l).

Lemma Zlen_nonneg {A} (l : list A) : 0 <= Zlen l.
Proof. unfold Zlen. lia. Qed.

Lemma Zlen_app {A} (l k : list A) : Zlen (l ++ k) = Zlen l + Zlen k.
Proof. unfold Zlen. rewrite length_app. lia. Qed.

Lemma Zlen_cons {A} (x : A) l : Zlen (x :: l) = 1 + Zlen l.
Proof. unfold Zlen. cbn [length]. lia. Qed.

Lemma Zlen_nil {A} : Zlen (@nil A) = 0.
Proof. done. Qed.

Lemma Zlen_snoc {A} (l : list A) x : Zlen (l ++ [x]) = Zlen l + 1.
Proof. by rewrite Zlen_app. Qed.

Lemma last_app_ne {A} (l k : list A) d : k <> [] -> List.last (l ++ k) d = List.last k d.
Proof.
  intros Hk. induction l as [|x l IH]; [done|]. cbn [app List.last].
  destruct (l ++ k) eqn:E; [|done]. apply app_eq_nil in E as [_ ->]. done.
Qed.

Lemma last_snoc {A} (l : list A) x d : List.last (l ++ [x]) d = x.
Proof. by rewrite last_app_ne. Qed.

Lemma last_elem {A} (l : list A) d : l <> [] -> List.last l d ∈ l.
Proof.
  intros Hl. rewrite (app_removelast_last d Hl) at 2. apply elem_of_app. right. left.
Qed.

Create HintDb arena discriminated.
#[export] Hint Resolve u64_range u32_range Zlen_nonneg : arena.
#[export] Hint Rewrite @Zlen_app @Zlen_cons @Zlen_nil : zlen.

(** Arithmetic after normalising list lengths. *)
Ltac zlia := autorewrite with zlen in *; lia.
