(* ===== verification/Machine.v ===== *)
(** * The machine: shared memory, the C primitives and programs over them.

    A C function of the repository is a [prog]: a finite tree whose nodes are the memory
    accesses and kernel services it performs, in program order, each continued by a function of
    the value it returned. Trees are run by [run] (one thread, no interference) and stepped by
    [exec], one access at a time; memory is sequentially consistent and the order annotation
    carried by each access records the one the source asks for.

    Memory maps the address of every scalar cell to its value. An access to an address that
    holds no cell is a fault: the program has dereferenced a bad pointer. *)
From stdpp Require Import base numbers gmap list fin_maps option.
From S2P Require Import Prelude.

Notation mem := (gmap Z Z).

(** The orderings named by the source: [Plain] is an ordinary C access, [Once] is
    [READ_ONCE]/[WRITE_ONCE], the others are the [ARENA_*] constants. *)
Inductive order := Plain | Once | Relaxed | Acquire | Release | AcqRel | SeqCst.

#[export] Instance order_eq_dec : EqDecision order.
Proof. solve_decision. Defined.

(** Atomic read-modify-write operations, on [w]-bit cells where the width matters. *)
Inductive rmw_op := FetchAdd (w : Z) | FetchSub (w : Z) | FetchAnd | FetchOr | Xchg.

Definition rmw_eval (op : rmw_op) (old v : Z) : Z :=
  match op with
  | FetchAdd w => (old + v) mod 2 ^ w
  | FetchSub w => (old - v) mod 2 ^ w
  | FetchAnd => Z.land old v
  | FetchOr => Z.lor old v
  | Xchg => v
  end.

(** Services of the kernel and of the C library the code calls: they are not part of the
    repository, so their behaviour is a parameter ([Kernel] below). *)
Inductive ext :=
  | AllocPages (n : Z)
  | FreePages (a n : Z)
  | CpuId
  | PidTgid
  | ClockNs
  | PageSize.

Class Kernel := kcall : ext -> mem -> Z * mem.

Inductive action :=
  | Load (o : order) (a : Z)
  | Store (o : order) (a v : Z)
  | Cas (succ fail : order) (a expected new : Z)
  | Rmw (o : order) (op : rmw_op) (a v : Z)
  | Fence (o : order)
  | CanLoop
  | Call (e : ext).

(** One access. [b] is the remaining [may_goto] budget of the running BPF program: [can_loop]
    answers true while it lasts and false from then on. *)
Definition exec `{Kernel} (e : action) (m : mem) (b : nat) : option (Z * mem * nat) :=
  match e with
  | Load _ a => v ← m !! a; Some (v, m, b)
  | Store _ a v => _ ← m !! a; Some (0, <[a:=v]> m, b)
  | Cas _ _ a expected new =>
      v ← m !! a; Some (v, if v =? expected then <[a:=new]> m else m, b)
  | Rmw _ op a v => old ← m !! a; Some (old, <[a:=rmw_eval op old v]> m, b)
  | Fence _ => Some (0, m, b)
  | CanLoop => match b with O => Some (0, m, O) | S b' => Some (1, m, b') end
  | Call e => Some (let '(r, m') := kcall e m in (r, m', b))
  end.

(** ** Programs *)

Inductive prog (A : Type) : Type :=
  | Ret (a : A)
  | Do (e : action) (k : Z -> prog A)
  | NoFuel.
Arguments Ret {A} a.
Arguments Do {A} e k.
Arguments NoFuel {A}.

Fixpoint pbind {A B} (f : A -> prog B) (p : prog A) : prog B :=
  match p with
  | Ret a => f a
  | Do e k => Do e (fun v => pbind f (k v))
  | NoFuel => NoFuel
  end.

#[export] Instance prog_mret : MRet prog := @Ret.
#[export] Instance prog_mbind : MBind prog := fun A B f p => pbind f p.

(** The result of running a program to its end: its value and the final state, a bad access, or
    a loop that outlived the fuel it was given. *)
Inductive outcome (A : Type) : Type :=
  | Done (a : A) (m : mem) (b : nat)
  | Fault
  | OutOfFuel.
Arguments Done {A} a m b.
Arguments Fault {A}.
Arguments OutOfFuel {A}.

Fixpoint run `{Kernel} {A} (p : prog A) (m : mem) (b : nat) : outcome A :=
  match p with
  | Ret a => Done a m b
  | Do e k =>
      match exec e m b with
      | Some (v, m', b') => run (k v) m' b'
      | None => Fault
      end
  | NoFuel => OutOfFuel
  end.

(** A C loop: [body] maps the loop's variables either to their next values ([inl]) or to the
    value the function leaves the loop with ([inr]). *)
Fixpoint loop {S A} (fuel : nat) (body : S -> prog (S + A)) (s : S) : prog A :=
  match fuel with
  | O => NoFuel
  | Datatypes.S fuel' =>
      r ← body s;
      match r with inl s' => loop fuel' body s' | inr a => Ret a end
  end.

Notation continue s := (Ret (inl s)) (only parsing).
Notation break a := (Ret (inr a)) (only parsing).

(** ** The C-level primitives *)

Definition load (o : order) (a : Z) : prog Z := Do (Load o a) Ret.
Definition store (o : order) (a v : Z) : prog unit := Do (Store o a v) (fun _ => Ret tt).
Definition cas (so fo : order) (a expected new : Z) : prog Z := Do (Cas so fo a expected new) Ret.
Definition rmw (o : order) (op : rmw_op) (a v : Z) : prog Z := Do (Rmw o op a v) Ret.
Definition fence (o : order) : prog unit := Do (Fence o) (fun _ => Ret tt).
Definition call (e : ext) : prog Z := Do (Call e) Ret.

(** [can_loop] of the BPF build (a [may_goto] instruction); the userspace build defines it
    as [1]. *)
Definition can_loop : prog bool := Do CanLoop (fun v => Ret (negb (v =? 0))).

(** Which of its two builds a dispatching function was compiled into ([__BPF__] or not). *)
Inductive side := BPF | USER.

#[export] Instance side_eq_dec : EqDecision side.
Proof. solve_decision. Defined.

(** Accesses of [bpf_arena_common.h], BPF build. *)
Definition READ_ONCE (a : Z) : prog Z := load Once a.
Definition WRITE_ONCE (a v : Z) : prog unit := store Once a v.
Definition barrier : prog unit := fence Plain.
Definition smp_store_release (a v : Z) : prog unit := barrier;; WRITE_ONCE a v.
Definition smp_load_acquire (a : Z) : prog Z := v ← READ_ONCE a; barrier;; Ret v.

(** Atomics of [libarena_ds.h], identical in the two builds. *)
Definition arena_atomic_cmpxchg (a expected new : Z) (so fo : order) : prog Z :=
  cas so fo a expected new.
Definition arena_atomic_exchange (a v : Z) (o : order) : prog Z := rmw o Xchg a v.
Definition arena_atomic_add (w a v : Z) (o : order) : prog Z := rmw o (FetchAdd w) a v.
Definition arena_atomic_sub (w a v : Z) (o : order) : prog Z := rmw o (FetchSub w) a v.
Definition arena_atomic_and (a v : Z) (o : order) : prog Z := rmw o FetchAnd a v.
Definition arena_atomic_or (a v : Z) (o : order) : prog Z := rmw o FetchOr a v.
Definition arena_atomic_load (a : Z) (o : order) : prog Z := load o a.
Definition arena_atomic_store (a v : Z) (o : order) : prog unit := store o a v.
Definition arena_atomic_inc (a : Z) : prog Z := arena_atomic_add 64 a 1 Relaxed.
Definition arena_atomic_dec (a : Z) : prog Z := arena_atomic_sub 64 a 1 Relaxed.
Definition arena_memory_barrier : prog unit := fence SeqCst.

(** What a dispatching operation needs of the loop budget: its BPF build runs [n] turns of
    [can_loop]. *)
Definition budget (s : side) (n b : nat) : Prop := s = BPF -> (n <= b)%nat.
