(* ===== verification/Logic.v ===== *)
(** * Total-correctness reasoning about programs run by one thread.

    [wpr p m b Q]: running [p] from memory [m] with loop budget [b] faults nowhere, ends within
    its fuel, and ends in a value and state that satisfy [Q]. The rules below follow the
    structure of a program; [prun] applies them as long as the next access reads a cell whose
    content is known. *)
From stdpp Require Import base numbers gmap list fin_maps option.
From S2P Require Import Prelude Machine.

Definition wpr `{Kernel} {A} (p : prog A) (m : mem) (b : nat) (Q : A -> mem -> nat -> Prop) : Prop :=
  match run p m b with Done a m' b' => Q a m' b' | _ => False end.

(** Cells outside [F] keep their contents. *)
Definition unchanged_outside (F : Z -> Prop) (m m' : mem) : Prop :=
  forall a, ~ F a -> m' !! a = m !! a.

(** Every mapped cell stays mapped. *)
Definition grows (m m' : mem) : Prop := forall a, is_Some (m !! a) -> is_Some (m' !! a).

(** Writes to mapped cells of [F]. *)
Definition updates (F : Z -> Prop) (m m' : mem) : Prop := unchanged_outside F m m' /\ grows m m'.

(** The [n] bytes at [p]. *)
Definition in_block (p n a : Z) : Prop := p <= a < p + n.

#[export] Instance in_block_dec p n a : Decision (in_block p n a).
Proof. unfold in_block. apply _. Defined.

Section rules.
Context `{K : Kernel}.
Implicit Types (m : mem) (b : nat).

Lemma wpr_done {A} (p : prog A) m b Q :
  wpr p m b Q <-> exists a m' b', run p m b = Done a m' b' /\ Q a m' b'.
Proof.
  unfold wpr. split.
  - destruct (run p m b) as [a m' b'| |] eqn:E; [|done|done]. eauto 6.
  - intros (a & m' & b' & -> & HQ). done.
Qed.

Lemma run_bind {A B} (p : prog B) (f : B -> prog A) m b :
  run (p ≫= f) m b =
  match run p m b with
  | Done a m' b' => run (f a) m' b'
  | Fault => Fault
  | OutOfFuel => OutOfFuel
  end.
Proof.
  unfold mbind, prog_mbind. revert m b.
  induction p as [a|e k IH|]; intros m b; cbn [pbind run]; [done| |done].
  destruct (exec e m b) as [[[v m'] b']|]; [apply IH | done].
Qed.

Lemma wpr_mono {A} (p : prog A) m b (Q Q' : A -> mem -> nat -> Prop) :
  wpr p m b Q -> (forall a m' b', Q a m' b' -> Q' a m' b') -> wpr p m b Q'.
Proof. unfold wpr. destruct (run p m b); eauto. Qed.

Lemma wpr_bind {A B} (p : prog B) (f : B -> prog A) m b Q :
  wpr p m b (fun a m' b' => wpr (f a) m' b' Q) -> wpr (p ≫= f) m b Q.
Proof. unfold wpr. rewrite run_bind. by destruct (run p m b). Qed.

(** Using a callee's specification in the middle of a body. *)
Lemma wpr_call {A B} (p : prog B) (f : B -> prog A) m b (P : B -> mem -> nat -> Prop) Q :
  wpr p m b P -> (forall a m' b', P a m' b' -> wpr (f a) m' b' Q) -> wpr (p ≫= f) m b Q.
Proof. intros HP HQ. apply wpr_bind. eapply wpr_mono; eauto. Qed.

(** A program's effect, read off the program that also returns [x]. *)
Lemma wpr_bind_ret {A B} (p : prog B) (x : A) m b Q :
  wpr (p ≫= fun _ => Ret x) m b Q -> wpr p m b (fun _ m' b' => Q x m' b').
Proof. unfold wpr. rewrite run_bind. by destruct (run p m b). Qed.

Lemma wpr_ret {A} (a : A) m b (Q : A -> mem -> nat -> Prop) : Q a m b -> wpr (Ret a) m b Q.
Proof. done. Qed.

Lemma wpr_conj {A} (p : prog A) m b (Q Q' : A -> mem -> nat -> Prop) :
  wpr p m b Q -> wpr p m b Q' -> wpr p m b (fun a m' b' => Q a m' b' /\ Q' a m' b').
Proof. unfold wpr. destruct (run p m b); eauto. Qed.
End rules.

Section primitive_rules.
Context `{K : Kernel}.
Implicit Types (m : mem) (b : nat).

Lemma wpr_load o a m b v Q : m !! a = Some v -> Q v m b -> wpr (load o a) m b Q.
Proof. intros E HQ. unfold wpr, load. cbn. by rewrite E. Qed.

Lemma wpr_store o a v m b Q :
  is_Some (m !! a) -> Q tt (<[a:=v]> m) b -> wpr (store o a v) m b Q.
Proof. intros [w E] HQ. unfold wpr, store. cbn. by rewrite E. Qed.

Lemma wpr_cas so fo a expected new m b v Q :
  m !! a = Some v -> Q v (if v =? expected then <[a:=new]> m else m) b ->
  wpr (cas so fo a expected new) m b Q.
Proof. intros E HQ. unfold wpr, cas. cbn. by rewrite E. Qed.

(** A compare-and-swap nobody interferes with succeeds. *)
Lemma wpr_cas_hit so fo a expected new m b Q :
  m !! a = Some expected -> Q expected (<[a:=new]> m) b ->
  wpr (cas so fo a expected new) m b Q.
Proof. intros E HQ. eapply wpr_cas; [done|]. by rewrite Z.eqb_refl. Qed.

Lemma wpr_rmw o op a v m b old Q :
  m !! a = Some old -> Q old (<[a:=rmw_eval op old v]> m) b -> wpr (rmw o op a v) m b Q.
Proof. intros E HQ. unfold wpr, rmw. cbn. by rewrite E. Qed.

Lemma wpr_fence o m b Q : Q tt m b -> wpr (fence o) m b Q.
Proof. done. Qed.

Lemma wpr_can_loop m b Q : (1 <= b)%nat -> Q true m (pred b) -> wpr can_loop m b Q.
Proof. intros Hb HQ. destruct b; [lia|done]. Qed.

Lemma wpr_can_loop_exhausted m Q : Q false m O -> wpr can_loop m O Q.
Proof. done. Qed.

Lemma wpr_call_ext e m b Q :
  (let '(r, m') := kcall e m in Q r m' b) -> wpr (call e) m b Q.
Proof. unfold wpr, call. cbn. by destruct (kcall e m). Qed.

(** One turn of a loop. *)
Lemma wpr_loop_unfold {S A} (body : S -> prog (S + A)) n s m b Q :
  wpr (body s) m b (fun r m' b' =>
    match r with inl s' => wpr (loop n body s') m' b' Q | inr a => Q a m' b' end) ->
  wpr (loop (Datatypes.S n) body s) m b Q.
Proof.
  intros H. cbn [loop]. eapply wpr_call; [exact H|].
  intros [s'|a] m' b' Hr; [done | by apply wpr_ret].
Qed.

(** Loops by invariant and measure: with more fuel than the measure the loop ends. *)
Lemma wpr_loop {S A} (body : S -> prog (S + A)) (I : nat -> S -> mem -> nat -> Prop)
      fuel n s m b Q :
  (forall n s m b, I n s m b ->
     wpr (body s) m b (fun r m' b' =>
       match r with
       | inl s' => exists n', (n' < n)%nat /\ I n' s' m' b'
       | inr a => Q a m' b'
       end)) ->
  I n s m b -> (n < fuel)%nat -> wpr (loop fuel body s) m b Q.
Proof.
  intros Hbody. revert n s m b.
  induction fuel as [|fuel IH]; intros n s m b HI Hn; [lia|].
  apply wpr_loop_unfold. eapply wpr_mono; [by apply (Hbody n)|].
  intros [s'|a] m' b' H; [|done]. destruct H as (n' & Hn' & HI').
  eapply IH; [exact HI' | lia].
Qed.
End primitive_rules.

Lemma unchanged_refl F m : unchanged_outside F m m.
Proof. by intros a _. Qed.

Lemma unchanged_trans F m1 m2 m3 :
  unchanged_outside F m1 m2 -> unchanged_outside F m2 m3 -> unchanged_outside F m1 m3.
Proof. intros H1 H2 a Ha. rewrite H2 by done. by apply H1. Qed.

Lemma unchanged_insert F m a v : F a -> unchanged_outside F m (<[a:=v]> m).
Proof. intros Ha c Hc. apply lookup_insert_ne. by intros ->. Qed.

Lemma unchanged_insert_trans F m m' a v :
  F a -> unchanged_outside F m m' -> unchanged_outside F m (<[a:=v]> m').
Proof. intros Ha H. eapply unchanged_trans; [done | by apply unchanged_insert]. Qed.

Lemma unchanged_mono (F G : Z -> Prop) m m' :
  unchanged_outside F m m' -> (forall a, F a -> G a) -> unchanged_outside G m m'.
Proof. intros H HFG a Ha. apply H. intros HF. by apply Ha, HFG. Qed.

Lemma grows_refl m : grows m m.
Proof. by intros a. Qed.

Lemma grows_insert m m' a v : grows m m' -> grows m (<[a:=v]> m').
Proof. intros H c Hc. apply lookup_ins_is_Some. by apply H. Qed.

Lemma grows_trans m1 m2 m3 : grows m1 m2 -> grows m2 m3 -> grows m1 m3.
Proof. intros H1 H2 a Ha. by apply H2, H1. Qed.

#[export] Hint Resolve unchanged_refl grows_refl grows_insert : arena.

Lemma updates_refl F m : updates F m m.
Proof. split; auto with arena. Qed.

Lemma updates_insert F m a v : F a -> updates F m (<[a:=v]> m).
Proof. split; [by apply unchanged_insert|auto with arena]. Qed.

Lemma updates_insert_trans F m m' a v : F a -> updates F m m' -> updates F m (<[a:=v]> m').
Proof. intros Ha [Hu Hg]. split; [by apply unchanged_insert_trans|auto with arena]. Qed.

Lemma updates_trans F m1 m2 m3 : updates F m1 m2 -> updates F m2 m3 -> updates F m1 m3.
Proof.
  intros [Hu1 Hg1] [Hu2 Hg2]. split; [by eapply unchanged_trans|by eapply grows_trans].
Qed.

Lemma updates_mono (F G : Z -> Prop) m m' :
  updates F m m' -> (forall a, F a -> G a) -> updates G m m'.
Proof. intros [Hu Hg] H. split; [by eapply unchanged_mono|done]. Qed.

(** ** Tactics *)

(** Field offsets are unfolded before arithmetic on addresses. *)
Create HintDb layout.

Ltac addr := autounfold with layout in *; unfold in_block in *; lia.

(** Reading a cell through the updates made since it was last known. *)
Ltac mlook :=
  lazymatch goal with
  | |- <[_:=_]> _ !! _ = _ =>
      first [ apply lookup_ins_same; first [reflexivity | addr]
            | apply lookup_ins_other; [addr | mlook]
            | eassumption ]
  | |- _ => first [ eassumption | solve [eauto with arena] ]
  end.

(** The same when the value is only equal to the wanted one by arithmetic. *)
Ltac mlookv := eapply lookup_value; [mlook | first [done | lia | solve [f_equal; lia] | rewrite ?u64_id, ?u32_id by lia; lia]].

Ltac msome :=
  lazymatch goal with
  | |- is_Some (<[_:=_]> _ !! _) => apply lookup_ins_is_Some; msome
  | |- _ => first [ assumption | eexists; eassumption | solve [eauto with arena] ]
  end.

Ltac prim_unfold :=
  unfold READ_ONCE, WRITE_ONCE, smp_store_release, smp_load_acquire, barrier,
    arena_atomic_cmpxchg, arena_atomic_exchange, arena_atomic_add, arena_atomic_sub,
    arena_atomic_and, arena_atomic_or, arena_atomic_load, arena_atomic_store,
    arena_atomic_inc, arena_atomic_dec, arena_memory_barrier.

Ltac pstep :=
  prim_unfold;
  lazymatch goal with
  | |- wpr (Ret _) _ _ _ => apply wpr_ret
  | |- wpr (_ ≫= _) _ _ _ => apply wpr_bind
  | |- wpr (load _ _) _ _ _ => eapply wpr_load; [mlook|]
  | |- wpr (store _ _ _) _ _ _ => apply wpr_store; [solve [msome]|]
  | |- wpr (cas _ _ _ _ _) _ _ _ =>
      first [ apply wpr_cas_hit; [mlook|] | eapply wpr_cas; [mlook|] ]
  | |- wpr (rmw _ _ _ _) _ _ _ => eapply wpr_rmw; [mlook|]
  | |- wpr (fence _) _ _ _ => apply wpr_fence
  | |- wpr can_loop _ _ _ => apply wpr_can_loop; [lia|]
  end; cbn beta iota.

Ltac prun := repeat pstep.

(** Case analysis on the condition the program tests next; impossible branches are closed by
    arithmetic. *)
Ltac pif :=
  lazymatch goal with
  | |- wpr (if ?c then _ else _) _ _ _ =>
      let E := fresh "Hc" in destruct c eqn:E; try (exfalso; first [done | lia]); cbn beta iota
  end.

(** The first turn of a loop. *)
Ltac ploop := apply wpr_loop_unfold; cbn beta iota.

(** A guard known to hold (or to fail), by computation or by arithmetic. *)
Ltac pif_true :=
  lazymatch goal with
  | |- wpr (if ?c then _ else _) _ _ _ =>
      first [ change c with true | replace c with true by (symmetry; lia) ]; cbn beta iota
  end.

Ltac pif_false :=
  lazymatch goal with
  | |- wpr (if ?c then _ else _) _ _ _ =>
      first [ change c with false | replace c with false by (symmetry; lia) ]; cbn beta iota
  end.

(** Runs on, deciding by arithmetic the tests that it can decide. *)
Ltac pgo := repeat first [ pstep | pif_false | pif_true ].

Ltac frame :=
  repeat (apply unchanged_insert_trans; [addr|]); try apply unchanged_refl; eauto with arena.
