(* ===== verification/Api.v ===== *)
(** * The common API ([include/ds_api.h]): result codes, operation types, key/value pairs,
    statistics and their printer, and the interface of the arena allocator that the data
    structures are written against ([bpf_arena_alloc]/[bpf_arena_free] of
    [include/libarena_ds.h]). *)
From stdpp Require Import base numbers gmap list fin_maps option strings.
From S2P Require Import Prelude Machine Logic.

(** ** [enum ds_result] *)

Definition DS_SUCCESS : Z := 0.
Definition DS_ERROR_NOT_FOUND : Z := -1.
Definition DS_ERROR_EXISTS : Z := -2.
Definition DS_ERROR_NOMEM : Z := -3.
Definition DS_ERROR_INVALID : Z := -4.
Definition DS_ERROR_CORRUPT : Z := -5.
Definition DS_ERROR_BUSY : Z := -6.
Definition DS_ERROR_FULL : Z := -7.

(** ** [enum ds_op_type] *)

Inductive ds_op_type :=
  | DS_OP_INIT | DS_OP_INSERT | DS_OP_DELETE | DS_OP_POP | DS_OP_SEARCH
  | DS_OP_VERIFY | DS_OP_ITERATE.

#[export] Instance ds_op_type_eq_dec : EqDecision ds_op_type.
Proof. solve_decision. Defined.

Definition ds_op_code (o : ds_op_type) : nat :=
  match o with
  | DS_OP_INIT => 0 | DS_OP_INSERT => 1 | DS_OP_DELETE => 2 | DS_OP_POP => 3
  | DS_OP_SEARCH => 4 | DS_OP_VERIFY => 5 | DS_OP_ITERATE => 6
  end%nat.

Definition DS_OP_MAX : nat := 7.

(** ** Key/value pairs *)

Record ds_kv := mk_kv { kv_key : Z; kv_value : Z }.

#[export] Instance ds_kv_eq_dec : EqDecision ds_kv.
Proof. solve_decision. Defined.

(** What a successful pop of [e] leaves in the caller's output pair ([None]: null pointer). *)
Definition out_pair (data : option ds_kv) (e : ds_kv) : option ds_kv :=
  match data with None => None | Some _ => Some e end.

(** A pair whose components are 64-bit words. *)
Definition kv_ok (e : ds_kv) : Prop := u64 (kv_key e) = kv_key e /\ u64 (kv_value e) = kv_value e.

(** ** Metadata and statistics *)

Record ds_metadata := {
  md_name : string;
  md_description : string;
  md_node_size : Z;
  md_requires_locking : Z
}.

Record ds_op_stats := { os_count : Z; os_failures : Z; os_total_time_ns : Z }.

Record ds_stats := {
  st_ops : list ds_op_stats;
  st_current_elements : Z;
  st_max_elements : Z;
  st_memory_used : Z
}.

(** [ds_get_timestamp]: the service answers the monotonic clock already in nanoseconds; the C
    code reduces seconds and nanoseconds to one 64-bit count. *)
Definition timestamp_ns (tv_sec tv_nsec : Z) : Z := u64 (u64 (u64 tv_sec * 1000000000) + u64 tv_nsec).

(** [ds_print_stats]: the rows of the table it prints. [op_names[i]] is a read of a six-entry
    array: [None] stands for the out-of-bounds read. *)
Definition op_names : list string :=
  ["INIT"; "INSERT"; "DELETE"; "SEARCH"; "VERIFY"; "ITERATE"]%string.

Record stats_row := {
  row_name : option string; row_count : Z; row_failures : Z; row_avg_ns : Z
}.

Definition ds_print_stats (stats : ds_stats) : list stats_row :=
  omap (fun i =>
          o ← st_ops stats !! i;
          if os_count o >? 0 then
            Some {| row_name := op_names !! i;
                    row_count := os_count o;
                    row_failures := os_failures o;
                    row_avg_ns := os_total_time_ns o / os_count o |}
          else None)
       (seq 0 DS_OP_MAX).

(** The table has one row per operation type that ran, but the names are one short: from pops
    on every row carries the name of the next operation type, and the row of iterations reads
    past the end of the names. *)
Lemma print_stats_misnames stats :
  length (st_ops stats) = DS_OP_MAX -> Forall (fun o => 0 < os_count o) (st_ops stats) ->
  map row_name (ds_print_stats stats) =
    [Some "INIT"; Some "INSERT"; Some "DELETE"; Some "SEARCH"; Some "VERIFY"; Some "ITERATE"; None]%string /\
  map row_count (ds_print_stats stats) = map os_count (st_ops stats).
Proof.
  destruct stats as [ops cur mx mu]. cbn [st_ops]. intros Hlen Hpos.
  do 7 (destruct ops as [|? ops]; [done|apply Forall_cons_1 in Hpos as [? Hpos]]).
  destruct ops; [|done]. unfold ds_print_stats, DS_OP_MAX. cbn [seq omap list_omap st_ops].
  cbn. repeat match goal with
  | H : 0 < ?x |- context [?x >? 0] => replace (x >? 0) with true by (symmetry; lia)
  end. done.
Qed.

(** [DS_VERIFY_CONDITION(cond, error)]: leave the function with [error] unless [cond]. *)
Definition DS_VERIFY_CONDITION {A} (cond : bool) (error : A) (k : prog A) : prog A :=
  if cond then k else Ret error.

(** ** The allocator interface

    [live] lists the blocks (address, length) the rest of the program owns; [heap_ok live m]
    says the allocator is in a sound state that leaves those blocks alone. *)

Notation block := (Z * Z)%type.

Definition in_live (live : list block) (a : Z) : Prop :=
  exists p n, (p, n) ∈ live /\ in_block p n a.

Definition disjoint_block (p n : Z) (live : list block) : Prop :=
  forall a, in_block p n a -> ~ in_live live a.

(** A block of 64-bit cells that can be read and written. *)
Definition mapped_words (p n : Z) (m : mem) : Prop :=
  forall i, 0 <= i -> 8 * i + 8 <= n -> is_Some (m !! (p + 8 * i)).

Class Allocator := {
  bpf_arena_alloc : Z -> prog Z;
  bpf_arena_free : Z -> prog unit;
  heap_ok : list block -> mem -> Prop;
  (** the addresses the allocator hands out *)
  in_arena : Z -> Prop;
  (** what a call needs beyond a sound heap *)
  alloc_pre : Z -> mem -> Prop;
  free_pre : Z -> mem -> Prop
}.

Class AllocLaws `{Kernel} (Al : Allocator) := {
  (** the owner of the live blocks may write to them *)
  heap_ok_frame live m m' :
    heap_ok live m -> unchanged_outside (in_live live) m m' -> grows m m' -> heap_ok live m';
  alloc_pre_frame live sz m m' :
    heap_ok live m -> unchanged_outside (in_live live) m m' -> alloc_pre sz m -> alloc_pre sz m';
  heap_ok_sub live live' m : heap_ok live m -> live' ⊆ live -> heap_ok live' m;
  alloc_law live sz m b :
    heap_ok live m -> 0 < sz < 2 ^ 32 - 8 -> sz mod 8 = 0 -> alloc_pre sz m ->
    wpr (bpf_arena_alloc sz) m b (fun p m' b' =>
      b' = b /\ (forall a, in_live live a -> m' !! a = m !! a) /\
      ((p = 0 /\ heap_ok live m') \/
       (0 < p /\ p mod 8 = 0 /\ in_arena p /\ disjoint_block p sz live /\
        mapped_words p sz m' /\ heap_ok ((p, sz) :: live) m')))
}.

Class FreeLaws `{Kernel} (Al : Allocator) :=
  free_law live p m b :
    heap_ok live m -> in_arena p -> free_pre p m ->
    wpr (bpf_arena_free p) m b (fun _ m' b' =>
      b' = b /\ (forall a, in_live live a -> m' !! a = m !! a) /\ heap_ok live m').

Lemma in_live_cons p n live a : in_live ((p, n) :: live) a <-> in_block p n a \/ in_live live a.
Proof.
  unfold in_live. split.
  - intros (p' & n' & Hin & Ha). apply elem_of_cons in Hin as [[= -> ->]|Hin]; eauto.
  - intros [Ha|(p' & n' & Hin & Ha)]; eexists _, _; (split; [|exact Ha]); set_solver.
Qed.

Lemma in_live_sub live live' a : live' ⊆ live -> in_live live' a -> in_live live a.
Proof. intros Hs (p & n & Hin & Ha). exists p, n. split; [by apply Hs|done]. Qed.

Lemma in_live_elem p n live a : (p, n) ∈ live -> in_block p n a -> in_live live a.
Proof. intros. by exists p, n. Qed.

(** A block apart from a live one lies entirely on one side of it. *)
Lemma disjoint_block_sep p n q r live :
  disjoint_block p n live -> (q, r) ∈ live -> 0 < n -> 0 < r -> q + r <= p \/ p + n <= q.
Proof.
  intros Hd Hin Hn Hr. assert (~ (p <= q < p + n) /\ ~ (q <= p < q + r)); [|lia]. split; intros H.
  - apply (Hd q); [done|]. eapply in_live_elem; [done|]. unfold in_block. lia.
  - apply (Hd p); [unfold in_block; lia|]. by eapply in_live_elem.
Qed.

(** Writes inside one live block leave the allocator's state alone. *)
Lemma unchanged_live p n live m m' :
  (p, n) ∈ live -> unchanged_outside (in_block p n) m m' -> unchanged_outside (in_live live) m m'.
Proof. intros Hin H. eapply unchanged_mono; [exact H|]. intros a. by apply in_live_elem. Qed.
