(* ===== verification/Arena.v ===== *)
(** * The arena allocators ([include/libarena_ds.h]).

    Two allocators share one page layout: a page is carved from its end towards its start, and
    its last word counts the objects carved out of it. The BPF build gets pages from the
    kernel and keeps a current page per CPU; the userspace build walks a fixed range under a
    spin lock. *)
From stdpp Require Import base numbers gmap list fin_maps option.
From S2P Require Import Prelude Machine Logic Api.

(** [round_up(x, y)] as the macro computes it, in a [w]-bit unsigned type. *)
Definition round_up (w x y : Z) : Z :=
  (Z.lor ((x - 1) mod 2 ^ w) (y - 1) + 1) mod 2 ^ w.

Definition PAGE_SIZE : Z := 4096.

(** [arena_validate_ptr] rejects [NULL] and the two list poison values. *)
Definition arena_validate_ptr (ptr : Z) : Z :=
  if ptr =? 0 then 0
  else if (ptr =? 0x100) || (ptr =? 0x122) then 0
  else 1.

(** [arena_container_of(ptr, type, member)] for a member at the given offset. *)
Definition arena_container_of (ptr member_offset : Z) : Z := ptr - member_offset.

(** ** BPF build *)
Module Kern.
Section kern.
(** Link-time addresses of the two per-CPU arrays. *)
Variables page_frag_cur_page_sym page_frag_cur_offset_sym : Z.

Definition page_frag_cur_page (cpu : Z) : Z := page_frag_cur_page_sym + 8 * cpu.
Definition page_frag_cur_offset (cpu : Z) : Z := page_frag_cur_offset_sym + 4 * cpu.

Definition bpf_arena_refill_page (cpu : Z) : prog Z :=
  page ← call (AllocPages 1);
  if page =? 0 then Ret 0
  else
    store Plain (page_frag_cur_page cpu) page;;
    store Plain (page_frag_cur_offset cpu) (PAGE_SIZE - 8);;
    store Plain (page + PAGE_SIZE - 8) 0;;
    Ret page.

(** [*cur_offset - size < 0] subtracts an [unsigned int] from an [int]: the difference is an
    [unsigned int]. *)
Definition needs_refill (cur_offset size : Z) : bool := u32 (cur_offset - size) <? 0.

Definition bpf_arena_alloc_bpf (size : Z) : prog Z :=
  cpu ← call CpuId;
  page ← load Plain (page_frag_cur_page cpu);
  let size := round_up 32 size 8 in
  if size >=? PAGE_SIZE - 8 then Ret 0
  else
    refill ← (if page =? 0 then Ret true
              else (off ← load Plain (page_frag_cur_offset cpu);
                    Ret (needs_refill off size)));
    page ← (if (refill : bool) then bpf_arena_refill_page cpu else Ret page);
    if page =? 0 then Ret 0
    else
      off ← load Plain (page_frag_cur_offset cpu);
      let offset := s32 (off - size) in
      let obj_cnt := page + PAGE_SIZE - 8 in
      n ← load Plain obj_cnt;
      store Plain obj_cnt (u64 (n + 1));;
      store Plain (page_frag_cur_offset cpu) offset;;
      Ret (page + offset).

Definition bpf_arena_free_bpf (addr : Z) : prog unit :=
  let addr := Z.land addr (Z.lnot (PAGE_SIZE - 1)) in
  let obj_cnt := addr + PAGE_SIZE - 8 in
  n ← load Plain obj_cnt;
  let n := u64 (n - 1) in
  store Plain obj_cnt n;;
  if n =? 0 then _ ← call (FreePages addr 1); Ret tt else Ret tt.
End kern.
End Kern.

(** ** Userspace build *)
Module User.
Section user.
(** The allocator's static variables, at consecutive addresses from [sym]. *)
Variable sym : Z.

Definition bpf_arena_userspace_base : Z := sym + 0.
Definition bpf_arena_userspace_size : Z := sym + 8.
Definition bpf_arena_userspace_page_size : Z := sym + 16.
Definition bpf_arena_userspace_next_page_off : Z := sym + 24.
Definition bpf_arena_userspace_cur_page : Z := sym + 32.
Definition bpf_arena_userspace_cur_offset : Z := sym + 40.
Definition bpf_arena_userspace_lock : Z := sym + 48.

Definition reset_cursor : prog unit :=
  store Plain bpf_arena_userspace_next_page_off 0;;
  store Plain bpf_arena_userspace_cur_page 0;;
  store Plain bpf_arena_userspace_cur_offset 0.

Definition bpf_arena_userspace_set_range (base size : Z) : prog unit :=
  page_sz ← call PageSize;
  let page_sz := if page_sz <=? 0 then 4096 else page_sz in
  store Plain bpf_arena_userspace_page_size page_sz;;
  let start := base in
  ps ← load Plain bpf_arena_userspace_page_size;
  let aligned_start := Z.land (u64 (start + ps - 1)) (u64 (Z.lnot (ps - 1))) in
  if (base =? 0) || (size =? 0) || (aligned_start >=? u64 (start + size)) then
    store Plain bpf_arena_userspace_base 0;;
    store Plain bpf_arena_userspace_size 0;;
    reset_cursor
  else
    let aligned_size := u64 (size - (aligned_start - start)) in
    let aligned_size := Z.land aligned_size (u64 (Z.lnot (ps - 1))) in
    store Plain bpf_arena_userspace_base aligned_start;;
    store Plain bpf_arena_userspace_size aligned_size;;
    reset_cursor.

(** The lock is taken by spinning; [spin] bounds the attempts the model makes. *)
Variable spin : nat.

Definition lock_acquire : prog unit :=
  loop spin (fun _ : unit =>
    held ← arena_atomic_exchange bpf_arena_userspace_lock 1 Acquire;
    if held =? 0 then break tt else continue tt) tt.

Definition lock_release : prog unit := arena_atomic_store bpf_arena_userspace_lock 0 Release.

(** The locked section: a new page when the current one is missing or too full ([None] when
    the range is used up), ... *)
Definition user_page_for (aligned ps : Z) : prog (option Z) :=
  page ← load Plain bpf_arena_userspace_cur_page;
  refill ← (if page =? 0 then Ret true
            else (off ← load Plain bpf_arena_userspace_cur_offset;
                  Ret (off <? aligned)));
  if (refill : bool) then
    next ← load Plain bpf_arena_userspace_next_page_off;
    total ← load Plain bpf_arena_userspace_size;
    if (next >? total) || (ps >? u64 (total - next)) then
      lock_release;; Ret None
    else
      base ← load Plain bpf_arena_userspace_base;
      let page := base + next in
      store Plain bpf_arena_userspace_next_page_off (u64 (next + ps));;
      store Plain bpf_arena_userspace_cur_page page;;
      store Plain bpf_arena_userspace_cur_offset (u64 (ps - 8));;
      store Plain (page + ps - 8) 0;;
      Ret (Some page)
  else Ret (Some page).

(** ... then the object, carved from the end of the page's free part. *)
Definition user_carve (page aligned ps : Z) : prog Z :=
  off ← load Plain bpf_arena_userspace_cur_offset;
  let offset := u64 (off - aligned) in
  let obj_cnt := page + ps - 8 in
  n ← load Plain obj_cnt;
  store Plain obj_cnt (u64 (n + 1));;
  store Plain bpf_arena_userspace_cur_offset offset;;
  lock_release;;
  Ret (page + offset).

Definition bpf_arena_alloc_user (size : Z) : prog Z :=
  base ← load Plain bpf_arena_userspace_base;
  if base =? 0 then Ret 0 else
  total ← load Plain bpf_arena_userspace_size;
  if total =? 0 then Ret 0 else
  ps ← load Plain bpf_arena_userspace_page_size;
  if ps =? 0 then Ret 0 else
  let aligned := round_up 64 size 8 in
  if (aligned =? 0) || (aligned >=? u64 (ps - 8)) then Ret 0 else
  lock_acquire;;
  r ← user_page_for aligned ps;
  match r with
  | None => Ret 0
  | Some page => user_carve page aligned ps
  end.

Definition bpf_arena_free_user (addr : Z) : prog unit :=
  if addr =? 0 then Ret tt else
  ps ← load Plain bpf_arena_userspace_page_size;
  if ps =? 0 then Ret tt else
  let page := Z.land addr (u64 (Z.lnot (ps - 1))) in
  let obj_cnt := page + ps - 8 in
  n ← load Plain obj_cnt;
  if n >? 0 then store Plain obj_cnt (u64 (n - 1)) else Ret tt.
End user.
End User.

Lemma round_up_8 w sz : 3 <= w -> 0 < sz < 2 ^ w -> sz mod 8 = 0 -> round_up w sz 8 = sz.
Proof.
  intros Hw Hsz Hal. unfold round_up. rewrite (Z.mod_small (sz - 1)) by lia.
  change (8 - 1) with (2 ^ 3 - 1). rewrite lor_low by lia. change (2 ^ 3) with 8.
  replace ((sz - 1) mod 8) with 7 by (Z.div_mod_to_equations; lia).
  replace (sz - 1 - 7 + (8 - 1) + 1) with sz by lia. apply Z.mod_small. lia.
Qed.

#[export] Hint Unfold User.bpf_arena_userspace_base User.bpf_arena_userspace_size
  User.bpf_arena_userspace_page_size User.bpf_arena_userspace_next_page_off
  User.bpf_arena_userspace_cur_page User.bpf_arena_userspace_cur_offset
  User.bpf_arena_userspace_lock Kern.page_frag_cur_page Kern.page_frag_cur_offset : layout.

(** ** The userspace allocator implements the allocator interface *)
Section user_laws.
Context `{K : Kernel}.
(** The range [set_range] configured: [npages] pages of [2 ^ k] bytes from [base]. *)
Variables (sym : Z) (spin : nat) (base npages k : Z).
Hypothesis spin_pos : (0 < spin)%nat.

Let ps := 2 ^ k.
Let total := npages * ps.

(** The cursor: [nx] bytes of the range are paged in; the current page has [co] free bytes. *)
Record user_state (m : mem) (nx cp co lk : Z) : Prop := {
  us_base : m !! User.bpf_arena_userspace_base sym = Some base;
  us_size : m !! User.bpf_arena_userspace_size sym = Some total;
  us_page_size : m !! User.bpf_arena_userspace_page_size sym = Some ps;
  us_next : m !! User.bpf_arena_userspace_next_page_off sym = Some nx;
  us_cur_page : m !! User.bpf_arena_userspace_cur_page sym = Some cp;
  us_cur_offset : m !! User.bpf_arena_userspace_cur_offset sym = Some co;
  us_lock : m !! User.bpf_arena_userspace_lock sym = Some lk;
  us_mapped : mapped_words base total m
}.

Definition user_cursor_ok (nx cp co : Z) : Prop :=
  (exists j, nx = j * ps /\ 0 <= j <= npages) /\
  ((cp = 0 /\ co = 0) \/ (cp = base + nx - ps /\ ps <= nx /\ 0 <= co <= ps - 8 /\ co mod 8 = 0)).

(** Bytes the allocator keeps for itself. *)
Definition user_private (nx cp co a : Z) : Prop :=
  in_block sym 56 a \/ in_block (base + nx) (total - nx) a \/ in_block cp co a \/
  (exists i, 0 <= i < npages /\ in_block (base + i * ps + ps - 8) 8 a).

Definition user_heap_ok (live : list block) (m : mem) : Prop :=
  exists nx cp co,
    user_state m nx cp co 0 /\ user_cursor_ok nx cp co /\
    forall a, user_private nx cp co a -> ~ in_live live a.

Definition user_range_ok : Prop :=
  4 <= k <= 30 /\ 0 < base /\ base mod ps = 0 /\ 0 < npages /\ base + total < 2 ^ 64 /\
  (sym + 56 <= base \/ base + total <= sym).

Hypothesis range_ok : user_range_ok.

Lemma user_ps_bounds : 16 <= ps <= 2 ^ 30 /\ ps mod 8 = 0.
Proof.
  destruct range_ok as (Hk & _). unfold ps. split.
  - split; [change 16 with (2 ^ 4)|]; apply Z.pow_le_mono_r; lia.
  - replace k with (k - 3 + 3) by lia. rewrite Z.pow_add_r by lia. apply Z_mod_mult.
Qed.

Lemma base_mod8 : base mod 8 = 0.
Proof.
  destruct range_ok as (_ & _ & Hbm & _). destruct user_ps_bounds as [Hps Hps8].
  rewrite (Z.div_mod base ps), Hbm, Z.add_0_r, Z.mul_mod, Hps8 by lia. done.
Qed.

Lemma mapped_ins p n m a v : mapped_words p n m -> mapped_words p n (<[a:=v]> m).
Proof. intros H i Hi Hn. apply lookup_ins_is_Some. by apply H. Qed.

Lemma mapped_word_at m a :
  mapped_words base total m -> in_block base total a -> (a - base) mod 8 = 0 -> is_Some (m !! a).
Proof.
  intros Hm Ha Hal. destruct range_ok as (? & ? & ? & ? & ? & ?).
  destruct user_ps_bounds as [? Hps].
  assert (total mod 8 = 0) by (unfold total; rewrite Z.mul_mod, Hps, Z.mul_0_r; done).
  replace a with (base + 8 * ((a - base) / 8)) by (Z.div_mod_to_equations; lia).
  apply Hm; unfold in_block in *; Z.div_mod_to_equations; lia.
Qed.

(** A whole page of the range: its count word is a word of the range, outside the statics. *)
Lemma count_word i :
  0 <= i < npages ->
  in_block base total (base + i * ps + ps - 8) /\ (base + i * ps + ps - 8 - base) mod 8 = 0.
Proof.
  intros Hi. destruct user_ps_bounds as [? Hps].
  pose proof (pages_le i npages ps ltac:(lia) ltac:(lia)) as H0.
  destruct (pages_lt i npages ps ltac:(lia) ltac:(apply Z.mul_lt_mono_pos_r; lia)) as [_ H1].
  fold total in H0, H1.
  split; [unfold in_block; lia|].
  replace (base + i * ps + ps - 8 - base) with ((i + 1) * ps - 8) by lia.
  rewrite Zminus_mod, Z.mul_mod, Hps, Z.mul_0_r by lia. done.
Qed.

Lemma lock_acquire_ok m b Q :
  m !! User.bpf_arena_userspace_lock sym = Some 0 ->
  Q tt (<[User.bpf_arena_userspace_lock sym:=1]> m) b ->
  wpr (User.lock_acquire sym spin) m b Q.
Proof.
  intros Hl HQ. unfold User.lock_acquire. destruct spin; [lia|].
  apply wpr_loop_unfold. prun. done.
Qed.

Lemma user_state_lock m nx cp co lk lk' :
  user_state m nx cp co lk ->
  user_state (<[User.bpf_arena_userspace_lock sym:=lk']> m) nx cp co lk'.
Proof. intros []. split; try mlook. by apply mapped_ins. Qed.

(** What [user_page_for] promises: a page with room, taken from the allocator's own bytes. *)
Definition page_for_post (aligned nx cp co : Z) (m : mem) (r : option Z) (m' : mem) : Prop :=
  unchanged_outside (user_private nx cp co) m m' /\
  match r with
  | None => user_state m' nx cp co 0
  | Some page =>
      exists nx' co',
        user_state m' nx' page co' 1 /\ user_cursor_ok nx' page co' /\ page <> 0 /\
        aligned <= co' /\ forall a, user_private nx' page co' a -> user_private nx cp co a
  end.

Lemma user_page_for_ok aligned nx cp co m b :
  user_state m nx cp co 1 -> user_cursor_ok nx cp co -> 0 < aligned < ps - 8 ->
  wpr (User.user_page_for sym aligned ps) m b
    (fun r m' b' => b' = b /\ page_for_post aligned nx cp co m r m').
Proof.
  intros Hst Hcur Hal. pose proof range_ok as (Hk & Hb & Hbm & Hn & Hlim & Hsym).
  destruct user_ps_bounds as [Hps Hps8].
  destruct Hst as [E1 E2 E3 E4 E5 E6 E7 Hmap].
  destruct Hcur as [(j & Hj & Hjn) Hcp].
  pose proof (pages_le j npages ps ltac:(lia) Hjn) as Hnx.
  pose proof (pages_lt j npages ps ltac:(lia)) as Hnext.
  fold total in Hnx, Hnext. rewrite <- Hj in Hnx, Hnext.
  unfold User.user_page_for. prun.
  apply (wpr_mono _ _ _ (fun r m' b' => m' = m /\ b' = b /\ r = (cp =? 0) || (co <? aligned))).
  { destruct (cp =? 0); prun; done. }
  intros r m' b' (-> & -> & ->). destruct ((cp =? 0) || (co <? aligned)) eqn:Hneed.
  - prun. rewrite (u64_id (total - nx)) by lia. pif.
    + unfold User.lock_release. prun. split; [done|split].
      * apply unchanged_insert. left. addr.
      * eapply user_state_lock. by split.
    + destruct (Hnext ltac:(lia)) as [Hj1 Hnx1].
      destruct (count_word j ltac:(lia)) as [Hcw Hcw8]. rewrite <- Hj in Hcw, Hcw8.
      prun. rewrite (u64_id (nx + ps)), (u64_id (ps - 8)) by lia.
      assert (is_Some (m !! (base + nx + ps - 8))) by (by apply mapped_word_at).
      prun. split; [done|split].
      * repeat (apply unchanged_insert_trans; [ |]); try apply unchanged_refl.
        all: try (left; addr). right; left. addr.
      * exists (nx + ps), (ps - 8). repeat split; try mlook; try lia.
        -- by repeat apply mapped_ins.
        -- exists (j + 1). lia.
        -- right. rewrite Zminus_mod, Hps8. split_and!; try lia. done.
        -- unfold user_private. intros a [Ha|[Ha|[Ha|Ha]]]; try tauto; right; left; addr.
  - prun. split; [done|]. split; [apply unchanged_refl|].
    exists nx, co. split_and!; try lia; try done. split; [by exists j|done].
Qed.

Lemma user_carve_ok aligned nx cp co m b :
  user_state m nx cp co 1 -> user_cursor_ok nx cp co -> cp <> 0 ->
  0 < aligned <= co -> aligned mod 8 = 0 ->
  wpr (User.user_carve sym cp aligned ps) m b (fun p m' b' =>
    b' = b /\ p = cp + (co - aligned) /\ user_state m' nx cp (co - aligned) 0 /\
    unchanged_outside (user_private nx cp co) m m' /\
    user_cursor_ok nx cp (co - aligned)).
Proof.
  intros Hst Hcur Hcp0 Hal Hal8. pose proof range_ok as (Hk & Hb & Hbm & Hn & Hlim & Hsym).
  destruct user_ps_bounds as [Hps Hps8].
  destruct Hst as [E1 E2 E3 E4 E5 E6 E7 Hmap].
  destruct Hcur as [(j & Hj & Hjn) [[? ?]|(Hcp & Hpn & Hco & Hco8)]]; [done|].
  pose proof (pages_le j npages ps ltac:(lia) Hjn) as Hnx. fold total in Hnx. rewrite <- Hj in Hnx.
  assert (Hj0 : 0 <= j - 1 < npages) by nia.
  destruct (count_word (j - 1) Hj0) as [Hcw Hcw8].
  replace (base + (j - 1) * ps + ps - 8) with (cp + ps - 8) in Hcw, Hcw8 by lia.
  destruct (mapped_word_at m (cp + ps - 8) Hmap Hcw Hcw8) as [n Hcnt].
  unfold User.user_carve, User.lock_release. prun. rewrite (u64_id (co - aligned)) by lia.
  split_and!; [done|lia|..].
  - split; try mlook. by repeat apply mapped_ins.
  - repeat (apply unchanged_insert_trans; [ |]); try apply unchanged_refl.
    all: try (left; addr). right; right; right. exists (j - 1). split; [done|].
    unfold in_block. lia.
  - split; [by exists j|]. right. rewrite Zminus_mod, Hco8, Hal8. split_and!; try lia. done.
Qed.

Lemma user_private_shrink nx cp co co' a :
  co' <= co -> user_private nx cp co' a -> user_private nx cp co a.
Proof. unfold user_private. intros H [Ha|[Ha|[Ha|Ha]]]; try tauto. right; right; left. addr. Qed.

(** Private bytes are never live: what a call changes there the owners cannot see. *)
Lemma private_frame live nx cp co m m' :
  (forall a, user_private nx cp co a -> ~ in_live live a) ->
  unchanged_outside (user_private nx cp co) m m' ->
  forall a, in_live live a -> m' !! a = m !! a.
Proof. intros Hp Hu a Ha. apply Hu. intros HF. by apply (Hp a). Qed.

(** The carved block: 8-aligned, inside the range, away from every byte kept private. *)
Lemma carved_block nx cp co aligned :
  user_cursor_ok nx cp co -> cp <> 0 -> 0 < aligned <= co -> aligned mod 8 = 0 ->
  let p := cp + (co - aligned) in
  0 < p /\ p mod 8 = 0 /\ in_block base total p /\ p + aligned <= base + total /\
  (forall a, in_block p aligned a ->
     user_private nx cp co a /\ ~ user_private nx cp (co - aligned) a).
Proof.
  intros [(j & Hj & Hjn) [[? ?]|(Hcp & Hpn & Hco & Hco8)]] Hcp0 Hal Hal8 p; [done|].
  pose proof range_ok as (Hk & Hb & Hbm & Hn & Hlim & Hsym).
  destruct user_ps_bounds as [Hps Hps8].
  pose proof (pages_le j npages ps ltac:(lia) Hjn) as Hnx. fold total in Hnx. rewrite <- Hj in Hnx.
  pose proof base_mod8 as Hb8.
  assert (Hnx8 : nx mod 8 = 0) by (rewrite Hj, Z.mul_mod, Hps8, Z.mul_0_r by lia; done).
  subst p. split_and!; [lia| |unfold in_block; lia|lia|].
  - Z.div_mod_to_equations. lia.
  - intros a Ha. split; [right; right; left; unfold in_block in *; lia|].
    unfold user_private. intros [Hx|[Hx|[Hx|(i & Hi & Hx)]]]; [addr|addr|addr|].
    assert (Hcase : i < j - 1 \/ i = j - 1 \/ j <= i) by lia. unfold in_block in *.
    destruct Hcase as [Hc|[->|Hc]].
    + destruct (pages_le (i + 1) (j - 1) ps) as [_ Hle]; lia.
    + lia.
    + destruct (pages_le j i ps) as [_ Hle]; lia.
Qed.

Lemma user_alloc_ok live sz m b :
  user_heap_ok live m -> 0 < sz < 2 ^ 32 - 8 -> sz mod 8 = 0 ->
  wpr (User.bpf_arena_alloc_user sym spin sz) m b (fun p m' b' =>
    b' = b /\ (forall a, in_live live a -> m' !! a = m !! a) /\
    ((p = 0 /\ user_heap_ok live m') \/
     (0 < p /\ p mod 8 = 0 /\ in_block base total p /\ disjoint_block p sz live /\
      mapped_words p sz m' /\ user_heap_ok ((p, sz) :: live) m'))).
Proof.
  intros (nx & cp & co & Hst & Hcur & Hpriv) Hsz Hsz8.
  pose proof range_ok as (Hk & Hb & Hbm & Hn & Hlim & Hsym).
  destruct user_ps_bounds as [Hps Hps8].
  assert (Hkeep : user_heap_ok live m) by (by exists nx, cp, co).
  pose proof Hst as [E1 E2 E3 E4 E5 E6 E7 Hmap].
  unfold User.bpf_arena_alloc_user. prun. pif; prun. pif; prun. pif; prun. rewrite round_up_8, (u64_id (ps - 8)) by lia. pif; [prun; tauto|].
  prun. apply lock_acquire_ok; [done|]. cbn beta. prun.
  assert (Hal : 0 < sz < ps - 8) by lia.
  eapply wpr_mono; [by apply (user_page_for_ok sz nx cp co); [eapply user_state_lock|..]|].
  intros r m1 b1 (-> & Hu & Hr).
  assert (Hu0 : unchanged_outside (user_private nx cp co) m m1).
  { eapply unchanged_trans; [apply unchanged_insert|exact Hu]. left. addr. }
  destruct r as [page|]; [|prun; split; [done|]; split; [by eapply private_frame|]; left;
    split; [done|]; by exists nx, cp, co].
  destruct Hr as (nx' & co' & Hst' & Hcur' & Hpg & Hroom & Hsub).
  eapply wpr_mono; [apply (user_carve_ok sz nx' page co'); (done || lia)|].
  intros p m2 b2 (-> & -> & Hst2 & Hu2 & Hcur2). split; [done|].
  assert (Hu' : unchanged_outside (user_private nx cp co) m m2).
  { eapply unchanged_trans; [exact Hu0|]. eapply unchanged_mono; [exact Hu2|done]. }
  split; [by eapply private_frame|]. right.
  destruct (carved_block nx' page co' sz) as (Hp0 & Hp8 & Hpin & Hplim & Hpblk); try done; [lia|].
  split_and!; try done.
  - intros a Ha. apply Hpriv, Hsub. by apply Hpblk.
  - intros i Hi Hin. destruct Hst2 as [_ _ _ _ _ _ _ Hmap2]. apply mapped_word_at; [done|..].
    + unfold in_block in *. lia.
    + pose proof base_mod8. clear - H Hp8. Z.div_mod_to_equations. lia.
  - exists nx', page, (co' - sz). split_and!; try done.
    intros a Ha Hl. apply in_live_cons in Hl as [Hl|Hl].
    + by apply (Hpblk a Hl).
    + eapply Hpriv; [|exact Hl]. apply Hsub. eapply user_private_shrink; [|done]. lia.
Qed.

Lemma user_free_ok live p m b :
  user_heap_ok live m -> in_block base total p ->
  wpr (User.bpf_arena_free_user sym p) m b (fun _ m' b' =>
    b' = b /\ (forall a, in_live live a -> m' !! a = m !! a) /\ user_heap_ok live m').
Proof.
  intros (nx & cp & co & Hst & Hcur & Hpriv) Hp.
  pose proof range_ok as (Hk & Hb & Hbm & Hn & Hlim & Hsym).
  destruct user_ps_bounds as [Hps Hps8].
  assert (Hkeep : user_heap_ok live m) by (by exists nx, cp, co).
  pose proof Hst as [E1 E2 E3 E4 E5 E6 E7 Hmap].
  unfold User.bpf_arena_free_user, in_block in *. pif. prun. pif. prun.
  unfold ps. rewrite land_page64 by lia. fold ps.
  pose proof (Z.mod_pos_bound p ps ltac:(lia)) as Hpm.
  assert (Hpage : exists i, 0 <= i < npages /\ p - p mod ps = base + i * ps).
  { exists (p / ps - base / ps).
    pose proof (Z.div_mod p ps ltac:(lia)). pose proof (Z.div_mod base ps ltac:(lia)).
    assert (Hi : p - p mod ps = base + (p / ps - base / ps) * ps) by lia.
    split; [|done]. split.
    - pose proof (Z.div_le_mono base p ps). lia.
    - apply (Z.mul_lt_mono_pos_r ps); [lia|]. fold total. lia. }
  destruct Hpage as (i & Hi & ->). destruct (count_word i Hi) as [Hcw Hcw8].
  destruct (mapped_word_at m _ Hmap Hcw Hcw8) as [n Hcnt].
  prun. pif; prun; [|tauto].
  assert (Hpc : user_private nx cp co (base + i * ps + ps - 8)).
  { right; right; right. exists i. split; [done|]. unfold in_block. lia. }
  split; [done|]. split; [eapply private_frame; [done|by apply unchanged_insert]|].
  unfold in_block in *. exists nx, cp, co. split_and!; try done.
  split; try mlook. by apply mapped_ins.
Qed.

Definition user_allocator : Allocator := {|
  bpf_arena_alloc := User.bpf_arena_alloc_user sym spin;
  bpf_arena_free := User.bpf_arena_free_user sym;
  heap_ok := user_heap_ok;
  in_arena p := in_block base total p;
  alloc_pre _ _ := True;
  free_pre _ _ := True
|}.

#[export] Instance user_alloc_laws : AllocLaws user_allocator.
Proof.
  split.
  - intros live m m' (nx & cp & co & [E1 E2 E3 E4 E5 E6 E7 Hmap] & Hcur & Hpriv) Hu Hm.
    assert (Hs : forall a, in_block sym 56 a -> m' !! a = m !! a).
    { intros a Ha. apply Hu, Hpriv. by left. }
    exists nx, cp, co. split_and!; try done.
    split; try (rewrite Hs; [done|addr]). intros i Hi Hin. by apply Hm, Hmap.
  - done.
  - intros live live' m (nx & cp & co & Hst & Hcur & Hpriv) Hsub.
    exists nx, cp, co. split_and!; try done.
    intros a Ha Hl. apply (Hpriv a Ha). by eapply in_live_sub.
  - intros live sz m b H Hsz Hal _. by apply user_alloc_ok.
Qed.

#[export] Instance user_free_laws : FreeLaws user_allocator.
Proof. intros live p m b H Hp _. by apply user_free_ok. Qed.
End user_laws.
