(* ===== verification/Owned.v ===== *)
(** * Owned blocks: what a structure may write, next to what the rest of the program owns.

    A structure owns a list of blocks of the heap; its operations leave every other live block
    alone. [heap_holds own rest m] is the state in which the owner of [own] runs. *)
From stdpp Require Import base numbers gmap list fin_maps option.
From S2P Require Import Prelude Machine Logic Api.

(** Pairwise disjoint blocks. *)
Fixpoint separated (bs : list block) : Prop :=
  match bs with
  | [] => True
  | (p, n) :: bs' => disjoint_block p n bs' /\ separated bs'
  end.

Lemma in_live_nil a : ~ in_live [] a.
Proof. intros (p & n & Hin & _). by apply elem_of_nil in Hin. Qed.

Lemma in_live_app xs ys a : in_live (xs ++ ys) a <-> in_live xs a \/ in_live ys a.
Proof.
  unfold in_live. setoid_rewrite elem_of_app. split.
  - intros (p & n & [H|H] & Ha); [left|right]; by exists p, n.
  - intros [(p & n & H & Ha)|(p & n & H & Ha)]; exists p, n; auto.
Qed.

Lemma in_live_perm xs ys a : xs ≡ₚ ys -> in_live xs a -> in_live ys a.
Proof. intros Hp (p & n & Hin & Ha). exists p, n. by rewrite <- Hp. Qed.

Lemma disjoint_block_app p n xs ys :
  disjoint_block p n (xs ++ ys) <-> disjoint_block p n xs /\ disjoint_block p n ys.
Proof.
  unfold disjoint_block. split.
  - intros H. split; intros a Ha Hl; apply (H a Ha), in_live_app; auto.
  - intros [H1 H2] a Ha [Hl|Hl]%in_live_app; [by apply (H1 a)|by apply (H2 a)].
Qed.

Lemma separated_app xs ys :
  separated (xs ++ ys) <->
  separated xs /\ separated ys /\ forall a, in_live xs a -> ~ in_live ys a.
Proof.
  induction xs as [|[p n] xs IH]; cbn [app separated].
  - split; [|tauto]. intros H. split_and!; [done..|]. intros a Ha. by apply in_live_nil in Ha.
  - rewrite IH, disjoint_block_app. split.
    + intros ((H1 & H2) & H3 & H4 & H5). split_and!; try done.
      intros a [Ha|Ha]%in_live_cons; [by apply H2|by apply H5].
    + intros ((H1 & H3) & H4 & H5). split_and!; try done.
      * intros a Ha. apply H5, in_live_cons. by left.
      * intros a Ha. apply H5, in_live_cons. by right.
Qed.

Lemma disjoint_block_cons p n q r bs :
  disjoint_block p n ((q, r) :: bs) <->
  (forall a, in_block p n a -> ~ in_block q r a) /\ disjoint_block p n bs.
Proof.
  unfold disjoint_block. split.
  - intros H. split; intros a Ha Hl; apply (H a Ha), in_live_cons; auto.
  - intros [H1 H2] a Ha [Hl|Hl]%in_live_cons; [by apply (H1 a)|by apply (H2 a)].
Qed.

Lemma separated_perm xs ys : xs ≡ₚ ys -> separated xs -> separated ys.
Proof.
  induction 1 as [|[p n] xs ys Hp IH|[p n] [q r] xs|xs ys zs _ IH1 _ IH2]; cbn [separated]; auto.
  - intros [Hd Hs]. split; [|auto]. intros a Ha Hl. apply (Hd a Ha).
    eapply in_live_perm; [|exact Hl]. by symmetry.
  - rewrite !disjoint_block_cons. intros ((H1 & H2) & H3 & H4). split_and!; try done.
    intros a Ha Ha'. by apply (H1 a).
Qed.

Section owned.
Context `{K : Kernel} `{Al : Allocator} `{!AllocLaws Al}.

(** The heap is sound for a structure owning [own] next to the blocks [rest]. *)
Definition heap_holds (own rest : list block) (m : mem) : Prop :=
  heap_ok (own ++ rest) m /\ separated (own ++ rest).

(** Writes to owned bytes keep the heap sound and are invisible to the owners of the rest. *)
Lemma heap_holds_update own rest m m' :
  heap_holds own rest m -> unchanged_outside (in_live own) m m' -> grows m m' ->
  heap_holds own rest m' /\ forall c, in_live rest c -> m' !! c = m !! c.
Proof.
  intros [Hh Hs] Hu Hg. split; [split; [|done]|].
  - eapply heap_ok_frame; [exact Hh| |done]. eapply unchanged_mono; [exact Hu|].
    intros a Ha. apply in_live_app. by left.
  - intros c Hc. apply Hu. intros Hc'. apply separated_app in Hs as (_ & _ & H). by apply (H c).
Qed.

Lemma heap_holds_updates own rest m m' (F : Z -> Prop) :
  heap_holds own rest m -> updates F m m' -> (forall a, F a -> in_live own a) ->
  heap_holds own rest m' /\ forall c, in_live rest c -> m' !! c = m !! c.
Proof.
  intros Hh [Hu Hg] HF. apply heap_holds_update; [done| |done]. by eapply unchanged_mono.
Qed.

Lemma heap_holds_perm own own' rest m :
  own ≡ₚ own' -> heap_holds own rest m -> heap_holds own' rest m.
Proof.
  intros Hp [Hh Hs]. split.
  - eapply heap_ok_sub; [exact Hh|]. intros x. by rewrite Hp.
  - eapply separated_perm; [|exact Hs]. by rewrite Hp.
Qed.

(** The same state, seen by the owner of other blocks of it. *)
Lemma heap_holds_view own own' rest rest' m :
  own ++ rest ≡ₚ own' ++ rest' -> heap_holds own rest m -> heap_holds own' rest' m.
Proof.
  intros Hp [Hh Hs]. split.
  - eapply heap_ok_sub; [exact Hh|]. intros x. by rewrite Hp.
  - by eapply separated_perm.
Qed.

(** Giving a block up: it stays allocated but nobody owns it. *)
Lemma heap_holds_drop x own rest m : heap_holds (x :: own) rest m -> heap_holds own rest m.
Proof.
  intros [Hh Hs]. split.
  - eapply heap_ok_sub; [exact Hh|]. intros y Hy. by right.
  - destruct x. by destruct Hs.
Qed.

(** Allocation, as the owner of [own] sees it. *)
Lemma alloc_owned own rest sz m b :
  heap_holds own rest m -> 0 < sz < 2 ^ 32 - 8 -> sz mod 8 = 0 -> alloc_pre sz m ->
  wpr (bpf_arena_alloc sz) m b (fun p m' b' =>
    b' = b /\ (forall a, in_live (own ++ rest) a -> m' !! a = m !! a) /\
    ((p = 0 /\ heap_holds own rest m') \/
     (0 < p /\ in_arena p /\ disjoint_block p sz (own ++ rest) /\ mapped_words p sz m' /\
      heap_holds ((p, sz) :: own) rest m'))).
Proof.
  intros [Hh Hs] Hsz H8 Hp.
  eapply wpr_mono; [by apply (alloc_law (own ++ rest))|].
  intros p m' b' (-> & Hsame & H). split; [done|]. split; [done|].
  destruct H as [[-> H]|(Hp0 & Hp8 & Ha & Hd & Hm & H)]; [left|right]; [done|].
  split_and!; try done.
Qed.
(** A block allocated next to an owned one. *)
Lemma owned_sep p n own rest m q r :
  heap_holds ((p, n) :: own) rest m -> (q, r) ∈ own -> 0 < n -> 0 < r -> q + r <= p \/ p + n <= q.
Proof.
  intros [_ [Hd _]] Hin Hn Hr. eapply disjoint_block_sep; [exact Hd| |done|done].
  apply elem_of_app. by left.
Qed.

(** The bytes of the owned blocks, as a client's frame sees them. *)
Lemma in_own_head h n own a : in_block h n a -> in_live ((h, n) :: own) a.
Proof. intros Ha. apply in_live_cons. by left. Qed.

Lemma in_own_array h n p r a : in_block p r a -> in_live [(h, n); (p, r)] a.
Proof. intros Ha. apply in_live_cons. right. apply in_live_cons. by left. Qed.

(** A structure made of a header and an array writes nowhere else. *)
Lemma array_updates h n p r rest m m' (F : Z -> Prop) :
  heap_holds [(h, n); (p, r)] rest m -> updates F m m' ->
  (forall a, F a -> in_block h n a \/ in_block p r a) ->
  (forall c, in_live rest c -> m' !! c = m !! c) /\ heap_holds [(h, n); (p, r)] rest m'.
Proof.
  intros Hh Hu HF. apply and_comm. eapply heap_holds_updates; [done|exact Hu|].
  intros a Ha. destruct (HF a Ha); [by apply in_own_head|by apply in_own_array].
Qed.

(** What the owner of one block finds after allocating another: either nothing changed, or a
    new block of mapped words on one side of the old one. *)
Lemma alloc_beside h n rest sz m b :
  heap_holds [(h, n)] rest m -> 0 < n -> 0 < sz < 2 ^ 32 - 8 -> sz mod 8 = 0 -> alloc_pre sz m ->
  wpr (bpf_arena_alloc sz) m b (fun p m' b' =>
    b' = b /\ (forall a, in_live rest a -> m' !! a = m !! a) /\
    (forall a, in_block h n a -> m' !! a = m !! a) /\
    ((p = 0 /\ heap_holds [(h, n)] rest m') \/
     (0 < p /\ (h + n <= p \/ p + sz <= h) /\ mapped_words p sz m' /\
      heap_holds [(h, n); (p, sz)] rest m'))).
Proof.
  intros Hh Hn Hsz H8 Hp. eapply wpr_mono; [by apply (alloc_owned [(h, n)] rest)|].
  intros p m' b' (-> & Hsame & H). split; [done|].
  split; [intros a Ha; apply Hsame, in_live_app; by right|].
  split; [intros a Ha; apply Hsame, in_live_app; left; apply in_live_cons; by left|].
  destruct H as [H|(Hp0 & _ & _ & Hm & H)]; [by left|right]. split; [done|]. split; [|split; [done|]].
  - eapply owned_sep; [exact H|left|lia|lia].
  - eapply heap_holds_perm; [apply perm_swap|done].
Qed.
End owned.

