(* ===== verification/Conc.v ===== *)
(** * Threads: interleavings of programs, and rely-guarantee reasoning about them.

    A pool of threads shares one memory; a step of the pool is one memory access of one thread.
    [rg] is a total-correctness logic for one thread among others: before each of its accesses
    the environment may change the state within the rely [R], and the access, together with an
    update of the ghost state, must be within the guarantee [Gu]. [pool_safe] composes threads
    whose guarantees imply each other's relies. Programs are finite trees, so every schedule
    ends ([pool_terminates]). *)
From stdpp Require Import base numbers gmap list fin_maps option relations.
From S2P Require Import Prelude Machine Logic.

(** ** Pools *)

(** A thread: what is left of its program, and its own loop budget. *)
Notation thread A := (prog A * nat)%type.

Inductive thread_step `{K : Kernel} {A} : thread A -> mem -> thread A -> mem -> Prop :=
  | thread_access e k m b v m' b' :
      exec e m b = Some (v, m', b') -> thread_step (Do e k, b) m (k v, b') m'.

(** A pool steps when one of its threads does. *)
Inductive pool_step `{K : Kernel} {A} : list (thread A) * mem -> list (thread A) * mem -> Prop :=
  | pool_access i ts t t' m m' :
      ts !! i = Some t -> thread_step t m t' m' -> pool_step (ts, m) (<[i:=t']> ts, m').

(** A thread that is about to access an address that holds no cell. *)
Definition thread_faults `{K : Kernel} {A} (t : thread A) (m : mem) : Prop :=
  match t with (Do e k, b) => exec e m b = None | _ => False end.

Definition thread_done {A} (t : thread A) : option A :=
  match t with (Ret a, _) => Some a | _ => None end.

(** Runs a given schedule: the thread numbers of the successive accesses. [None]: the chosen
    thread faults or has nothing left to do. *)
Fixpoint run_schedule `{K : Kernel} {A} (sched : list nat) (ts : list (thread A)) (m : mem) :
    option (list (thread A) * mem) :=
  match sched with
  | [] => Some (ts, m)
  | i :: sched' =>
      match ts !! i with
      | Some (Do e k, b) =>
          match exec e m b with
          | Some (v, m', b') => run_schedule sched' (<[i:=(k v, b')]> ts) m'
          | None => None
          end
      | _ => None
      end
  end.

Lemma run_schedule_steps `{K : Kernel} {A} sched (ts : list (thread A)) m c :
  run_schedule sched ts m = Some c -> rtc pool_step (ts, m) c.
Proof.
  revert ts m. induction sched as [|i sched IH]; intros ts m H; cbn in H.
  - injection H as <-. apply rtc_refl.
  - destruct (ts !! i) as [[[a|e k|] b]|] eqn:Ei; try done.
    destruct (exec e m b) as [[[v m'] b']|] eqn:Ee; [|done].
    eapply rtc_l; [|by apply IH]. eapply pool_access; [exact Ei|]. by constructor.
Qed.

Lemma run_schedule_outcome `{K : Kernel} {A B} sched (ts : list (thread A)) m (f : list (thread A) * mem -> B) v :
  option_map f (run_schedule sched ts m) = Some v ->
  exists ts' m', rtc pool_step (ts, m) (ts', m') /\ f (ts', m') = v.
Proof.
  destruct (run_schedule sched ts m) as [[ts' m']|] eqn:E; [|done].
  intros [= H]. exists ts', m'. split; [by eapply run_schedule_steps|done].
Qed.

Lemma pool_steps_length `{K : Kernel} {A} (c c' : list (thread A) * mem) :
  rtc pool_step c c' -> length c'.1 = length c.1.
Proof.
  induction 1 as [c|c c1 c' Hs _ IH]; [done|]. rewrite IH. destruct Hs. cbn. apply length_insert.
Qed.

(** ** Every schedule ends *)

(** One element of a list makes a step, the others stay. *)
Inductive at_one {T} (R : T -> T -> Prop) : list T -> list T -> Prop :=
  | at_here x y l : R x y -> at_one R (x :: l) (y :: l)
  | at_there x l l' : at_one R l l' -> at_one R (x :: l) (x :: l').

Lemma at_one_acc_cons {T} (R : T -> T -> Prop) x l :
  Acc (flip R) x -> Acc (flip (at_one R)) l -> Acc (flip (at_one R)) (x :: l).
Proof.
  intros Hx. revert l. induction Hx as [x _ IHx]. intros l Hl.
  induction Hl as [l Hl IHl]. constructor. intros l' Hstep.
  inversion Hstep; subst; [apply IHx; [done|by constructor]|by apply IHl].
Qed.

Lemma at_one_acc {T} (R : T -> T -> Prop) l :
  (forall x, Acc (flip R) x) -> Acc (flip (at_one R)) l.
Proof.
  intros HR. induction l as [|x l IH]; [|by apply at_one_acc_cons].
  constructor. intros l' H. by inversion H.
Qed.

Lemma at_one_insert {T} (R : T -> T -> Prop) l i x y :
  l !! i = Some x -> R x y -> at_one R l (<[i:=y]> l).
Proof.
  revert i. induction l as [|z l IH]; intros [|i] Hi HR; try done; cbn in *.
  - injection Hi as ->. by constructor.
  - constructor. by apply IH.
Qed.

(** A step down the tree of a thread, whatever the memory answers. *)
Inductive descends {A} : thread A -> thread A -> Prop :=
  | descend e k b v b' : descends (Do e k, b) (k v, b').

Lemma descends_acc {A} (t : thread A) : Acc (flip descends) t.
Proof.
  destruct t as [p b]. revert b.
  induction p as [a|e k IH|]; intros b; constructor; intros t' H; inversion H; subst; apply IH.
Qed.

(** No schedule of a pool is infinite. *)
Lemma pool_terminates `{K : Kernel} {A} (c : list (thread A) * mem) : Acc (flip pool_step) c.
Proof.
  destruct c as [ts m]. revert m.
  induction (at_one_acc descends ts descends_acc) as [ts _ IH]. intros m.
  constructor. intros [ts' m'] H. inversion H as [i ? t t' ? ? Hi Ht]; subst. apply IH.
  eapply at_one_insert; [exact Hi|]. inversion Ht; subst. constructor.
Qed.

(** ** Rely-guarantee triples

    The state of a proof is the memory and a ghost value of type [G]. *)
Section rely_guarantee.
Context `{K : Kernel} {G : Type}.
Implicit Types (s : mem * G).

(** [rg R Gu p b s Q]: thread [p], started in [s] with loop budget [b] while its environment
    makes moves of [R], faults nowhere, makes only moves of [Gu], and if it ends does so in [Q],
    which also sees the budget that is left. *)
Fixpoint rg {A} (R Gu : mem * G -> mem * G -> Prop) (p : prog A) (b : nat) s
    (Q : A -> nat -> mem * G -> Prop) : Prop :=
  match p with
  | Ret a => forall s', R s s' -> Q a b s'
  | Do e k =>
      forall s', R s s' ->
      match exec e s'.1 b with
      | Some (v, m', b') => exists g', Gu s' (m', g') /\ rg R Gu (k v) b' (m', g') Q
      | None => False
      end
  | NoFuel => False
  end.

(** A thread that has at least [n] turns of [can_loop] to spend and keeps at least [n']. *)
Definition btriple {A} (R Gu : mem * G -> mem * G -> Prop) (n : nat) (P : mem * G -> Prop) (p : prog A)
    (n' : nat) (Q : A -> mem * G -> Prop) : Prop :=
  forall b s, (n <= b)%nat -> P s -> rg R Gu p b s (fun a b' s' => (n' <= b')%nat /\ Q a s').

(** An assertion that the environment cannot falsify. *)
Class Stable (R : mem * G -> mem * G -> Prop) (P : mem * G -> Prop) : Prop :=
  stable : forall s s', P s -> R s s' -> P s'.

#[global] Instance stable_pure R (phi : Prop) P : Stable R P -> Stable R (fun s => phi /\ P s).
Proof. intros HP s s' [H1 H2] HR. split; [done|by eapply HP]. Qed.

#[global] Instance stable_and R P P' : Stable R P -> Stable R P' -> Stable R (fun s => P s /\ P' s).
Proof. intros HP HP' s s' [H1 H2] HR. split; [by eapply HP|by eapply HP']. Qed.

#[global] Instance stable_or R P P' : Stable R P -> Stable R P' -> Stable R (fun s => P s \/ P' s).
Proof. intros HP HP' s s' [H|H] HR; [left; by eapply HP|right; by eapply HP']. Qed.

#[global] Instance stable_exists {T} R (P : T -> mem * G -> Prop) :
  (forall x, Stable R (P x)) -> Stable R (fun s => exists x, P x s).
Proof. intros HP s s' [x Hx] HR. exists x. by eapply HP. Qed.

Section rules.
Variables R Gu : mem * G -> mem * G -> Prop.
Context `{!PreOrder R} `{!Reflexive Gu}.
Implicit Types n : nat.

Lemma rg_mono {A} (p : prog A) b s (Q Q' : A -> nat -> mem * G -> Prop) :
  rg R Gu p b s Q -> (forall a b' s', Q a b' s' -> Q' a b' s') -> rg R Gu p b s Q'.
Proof.
  revert b s. induction p as [a|e k IH|]; intros b s H HQ; cbn in *; [eauto| |done].
  intros s' HR. specialize (H s' HR). destruct (exec e s'.1 b) as [[[v m'] b']|]; [|done].
  destruct H as (g' & HG & H). eauto.
Qed.

Lemma rg_bind {A B} (p : prog B) (f : B -> prog A) b s Q :
  rg R Gu p b s (fun a b' s' => rg R Gu (f a) b' s' Q) -> rg R Gu (p ≫= f) b s Q.
Proof.
  unfold mbind, prog_mbind. revert b s. induction p as [a|e k IH|]; intros b s H; cbn in *.
  - by apply H.
  - intros s' HR. specialize (H s' HR). destruct (exec e s'.1 b) as [[[v m'] b']|]; [|done].
    destruct H as (g' & HG & H). exists g'. split; [done|by apply IH].
  - done.
Qed.

(** What a triple says of a thread of a pool. *)
Lemma triple_thread {A n n'} (p : prog A) b s P Q :
  btriple R Gu n P p n' Q -> (n <= b)%nat -> P s -> rg R Gu p b s (fun a _ => Q a).
Proof. intros H Hb Hs. eapply rg_mono; [by apply H|]. by intros a b' s' [_ Ha]. Qed.

Lemma triple_bind {A B n n' n''} (p : prog B) (f : B -> prog A) P Q (M : B -> mem * G -> Prop) :
  btriple R Gu n P p n' M -> (forall a, btriple R Gu n' (M a) (f a) n'' Q) ->
  btriple R Gu n P (p ≫= f) n'' Q.
Proof.
  intros Hp Hf b s Hb HP. apply rg_bind. eapply rg_mono; [by apply Hp|].
  intros a b' s' [Hb' HM]. by apply Hf.
Qed.

Lemma triple_ret {A n} (a : A) P Q :
  Stable R P -> (forall s, P s -> Q a s) -> btriple R Gu n P (Ret a) n Q.
Proof. intros HP HQ b s Hb Hs s' HR. split; [done|]. apply HQ. by eapply HP. Qed.

Lemma triple_weaken {A n n' n1 n1'} (p : prog A) P Q Q' :
  btriple R Gu n1 P p n1' Q -> (n1 <= n)%nat -> (n' <= n1')%nat -> (forall a s, Q a s -> Q' a s) ->
  btriple R Gu n P p n' Q'.
Proof.
  intros H Hn Hn' HQ b s Hb Hs. eapply rg_mono; [apply H; [lia|done]|].
  intros a b' s' [Hb' Ha]. split; [lia|by apply HQ].
Qed.

Lemma triple_pre {A n n'} (p : prog A) P P' Q :
  btriple R Gu n P' p n' Q -> (forall s, P s -> P' s) -> btriple R Gu n P p n' Q.
Proof. intros H HP b s Hb Hs. by apply H, HP. Qed.

Lemma triple_budget {A n n'} n1 n1' (p : prog A) P Q :
  btriple R Gu n1 P p n1' Q -> (n1 <= n)%nat -> (n' <= n1')%nat -> btriple R Gu n P p n' Q.
Proof. intros H Hn Hn'. by eapply triple_weaken. Qed.

Lemma triple_pure {A n n'} (p : prog A) (phi : Prop) P Q :
  (phi -> btriple R Gu n P p n' Q) -> btriple R Gu n (fun s => phi /\ P s) p n' Q.
Proof. intros H b s Hb [Hphi Hs]. by apply H. Qed.

(** What the assertion says whatever the state. *)
Lemma triple_known {A n n'} (p : prog A) (phi : Prop) P Q :
  (forall s, P s -> phi) -> (phi -> btriple R Gu n P p n' Q) -> btriple R Gu n P p n' Q.
Proof. intros HP H b s Hb Hs. apply H; [by eapply HP|done..]. Qed.

Lemma triple_exists {A T n n'} (p : prog A) (P : T -> mem * G -> Prop) Q :
  (forall x, btriple R Gu n (P x) p n' Q) -> btriple R Gu n (fun s => exists x, P x s) p n' Q.
Proof. intros H b s Hb [x Hx]. by eapply H. Qed.

Lemma triple_or {A n n'} (p : prog A) P1 P2 Q :
  btriple R Gu n P1 p n' Q -> btriple R Gu n P2 p n' Q -> btriple R Gu n (fun s => P1 s \/ P2 s) p n' Q.
Proof. intros H1 H2 b s Hb [Hs|Hs]; [by apply H1|by apply H2]. Qed.

(** An access after which the assertion is [P'], the ghost state having been moved. *)
Lemma triple_do {A n n'} e (k : Z -> prog A) P (P' : Z -> mem * G -> Prop) Q :
  Stable R P ->
  (forall s b, P s -> exists v m', exec e s.1 b = Some (v, m', b) /\
     exists g', Gu s (m', g') /\ P' v (m', g')) ->
  (forall v, btriple R Gu n (P' v) (k v) n' Q) -> btriple R Gu n P (Do e k) n' Q.
Proof.
  intros HP He Hk b s Hb Hs s' HR.
  destruct (He s' b ltac:(by eapply HP)) as (v & m' & E & g' & HG & HP'). rewrite E.
  exists g'. split; [done|by apply Hk].
Qed.

(** Reading a cell whose content the assertion fixes. *)
Lemma triple_load {A n n'} o a v (f : Z -> prog A) P Q :
  Stable R P -> (forall s, P s -> s.1 !! a = Some v) ->
  btriple R Gu n P (f v) n' Q -> btriple R Gu n P (load o a ≫= f) n' Q.
Proof.
  intros HP Ha Hf. apply (triple_do _ _ P (fun w s => w = v /\ P s)); [done| |].
  - intros [m g] b Hs. pose proof (Ha _ Hs) as E. cbn in *. rewrite E. exists v, m. split; [done|]. by exists g.
  - intros w. apply triple_pure. by intros ->.
Qed.

(** Reading a cell that the environment writes: the read may be a linearization point. *)
Lemma triple_load_lin {A n n'} o a (f : Z -> prog A) P (P' : Z -> mem * G -> Prop) Q :
  Stable R P ->
  (forall s, P s -> exists v, s.1 !! a = Some v /\ exists g', Gu s (s.1, g') /\ P' v (s.1, g')) ->
  (forall v, btriple R Gu n (P' v) (f v) n' Q) -> btriple R Gu n P (load o a ≫= f) n' Q.
Proof.
  intros HP Ha Hf. apply (triple_do _ _ P P'); [done| |done].
  intros [m g] b Hs. destruct (Ha _ Hs) as (v & E & Hg). cbn in *. rewrite E. by exists v, m.
Qed.

Lemma triple_store {A n n'} o a v (f : unit -> prog A) P P' Q :
  Stable R P ->
  (forall s, P s -> is_Some (s.1 !! a) /\
     exists g', Gu s (<[a:=v]> s.1, g') /\ P' (<[a:=v]> s.1, g')) ->
  btriple R Gu n P' (f tt) n' Q -> btriple R Gu n P (store o a v ≫= f) n' Q.
Proof.
  intros HP Ha Hf. apply (triple_do _ _ P (fun _ => P')); [done| |done].
  intros [m g] b Hs. destruct (Ha _ Hs) as ([w E] & Hg). cbn in *. rewrite E.
  by eexists _, _.
Qed.

Lemma triple_rmw {A n n'} o op a v (f : Z -> prog A) P (P' : Z -> mem * G -> Prop) Q :
  Stable R P ->
  (forall s, P s -> exists old, s.1 !! a = Some old /\
     exists g', Gu s (<[a:=rmw_eval op old v]> s.1, g') /\
       P' old (<[a:=rmw_eval op old v]> s.1, g')) ->
  (forall old, btriple R Gu n (P' old) (f old) n' Q) -> btriple R Gu n P (rmw o op a v ≫= f) n' Q.
Proof.
  intros HP Ha Hf. apply (triple_do _ _ P P'); [done| |done].
  intros [m g] b Hs. destruct (Ha _ Hs) as (old & E & Hg). cbn in *. rewrite E.
  by eexists _, _.
Qed.

(** A compare-and-swap finds what it expects and writes, or finds something else. *)
Lemma triple_cas {A n n'} so fo a x y (f : Z -> prog A) P P1 (P2 : Z -> mem * G -> Prop) Q :
  Stable R P ->
  (forall s, P s -> exists v, s.1 !! a = Some v /\
     (v = x -> exists g', Gu s (<[a:=y]> s.1, g') /\ P1 (<[a:=y]> s.1, g')) /\
     (v <> x -> exists g', Gu s (s.1, g') /\ P2 v (s.1, g'))) ->
  btriple R Gu n P1 (f x) n' Q ->
  (forall v, v <> x -> btriple R Gu n (P2 v) (f v) n' Q) ->
  btriple R Gu n P (cas so fo a x y ≫= f) n' Q.
Proof.
  intros HP Ha H1 H2.
  apply (triple_do _ _ P (fun v s => (v = x /\ P1 s) \/ (v <> x /\ P2 v s))); [done| |].
  - intros [m g] b Hs. destruct (Ha _ Hs) as (v & E & Hy & Hn). cbn in *. rewrite E.
    eexists _, _. split; [done|]. destruct (Z.eqb_spec v x) as [Ev|Ev].
    + destruct (Hy Ev) as (g' & HG & HP1). eauto.
    + destruct (Hn Ev) as (g' & HG & HP2). eauto.
  - intros v. apply triple_or; apply triple_pure; [by intros ->|by apply H2].
Qed.

Lemma triple_fence {A n n'} o (f : unit -> prog A) P Q :
  Stable R P -> btriple R Gu n P (f tt) n' Q -> btriple R Gu n P (fence o ≫= f) n' Q.
Proof.
  intros HP Hf. apply (triple_do _ _ P (fun _ => P)); [done| |done].
  intros [m g] b Hs. exists 0, m. split; [done|]. by exists g.
Qed.

(** A turn of the budget. *)
Lemma triple_can_loop {A n n'} (f : bool -> prog A) P Q :
  Stable R P -> btriple R Gu n P (f true) n' Q -> btriple R Gu (S n) P (can_loop ≫= f) n' Q.
Proof.
  intros HP Hf b s Hb Hs s' HR. cbn. destruct b as [|b]; [lia|]. exists s'.2. split; [by destruct s'|].
  destruct s' as [m g]. apply Hf; [lia|by eapply HP].
Qed.

(** A turn without counting: the thread may find its budget used up. *)
Lemma triple_can_loop_either {A n'} (f : bool -> prog A) P P' Q :
  Stable R P ->
  (forall m g, P (m, g) -> exists g', Gu (m, g) (m, g') /\ P' (m, g')) ->
  btriple R Gu 0 P (f true) n' Q -> btriple R Gu 0 P' (f false) n' Q ->
  btriple R Gu 0 P (can_loop ≫= f) n' Q.
Proof.
  intros HP Hg Ht Hf b s _ Hs s' HR. destruct s' as [m g]. assert (Hs' : P (m, g)) by by eapply HP.
  destruct b as [|b]; cbn; [|exists g; split; [done|apply Ht; [lia|done]]].
  destruct (Hg m g Hs') as (g' & HG & Hs''). exists g'. split; [done|]. by apply Hf.
Qed.

(** A loop each of whose turns either leaves it or gets closer to the end, [w k] being the turns
    of the budget that are enough when it is [k] away. *)
Lemma triple_loop {A T} w fuel (body : T -> prog (T + A)) (I : nat -> T -> mem * G -> Prop) Q k x :
  (forall k k', (k <= k')%nat -> (w k <= w k')%nat) ->
  (forall k x, btriple R Gu (w (S k)) (I k x) (body x) (w k) (fun r s =>
     match r with inl y => exists k', (k' < k)%nat /\ I k' y s | inr a => Q a s end)) ->
  (forall a, Stable R (Q a)) -> (k < fuel)%nat ->
  btriple R Gu (w (S k)) (I k x) (loop fuel body x) (w 0%nat) Q.
Proof.
  intros Hw Hbody HQ. revert k x. induction fuel as [|fuel IH]; intros k x Hk; [lia|]. cbn [loop].
  eapply triple_bind; [apply Hbody|]. intros [y|a]; cbn beta iota.
  - intros b s Hb (k' & Hk' & HI). apply (IH k' y ltac:(lia)); [|done].
    pose proof (Hw (S k') k ltac:(lia)). lia.
  - eapply triple_weaken; [by apply (triple_ret (n := w k) a (Q a) Q)|done| |done]. apply Hw. lia.
Qed.

(** The acquire and release accesses of the kernel build: a plain access and a fence. *)
Lemma triple_smp_store_release {A n n'} a v (f : unit -> prog A) P Q :
  Stable R P -> btriple R Gu n P (store Once a v ≫= f) n' Q ->
  btriple R Gu n P (smp_store_release a v ≫= f) n' Q.
Proof. intros HP. by apply (triple_fence Plain (fun _ => store Once a v ≫= f)). Qed.

Lemma triple_smp_load_acquire {A n n'} a (f : Z -> prog A) P Q :
  btriple R Gu n P (load Once a ≫= fun v => fence Plain ≫= fun _ => f v) n' Q ->
  btriple R Gu n P (smp_load_acquire a ≫= f) n' Q.
Proof. done. Qed.
End rules.

(** ** Composition *)

(** Every thread of the pool has a proof from the present state. *)
Definition pool_ok {A} (R Gu : nat -> mem * G -> mem * G -> Prop)
    (Q : nat -> A -> mem * G -> Prop) (ts : list (thread A)) s : Prop :=
  forall i p b, ts !! i = Some (p, b) -> rg (R i) (Gu i) p b s (fun a _ => Q i a).

Section pool.
Context {A : Type}.
Variables (R Gu : nat -> mem * G -> mem * G -> Prop) (Q : nat -> A -> mem * G -> Prop).
Hypothesis rely_preorder : forall i, PreOrder (R i).
Hypothesis compatible : forall i j s s', i <> j -> Gu i s s' -> R j s s'.

Lemma rg_rely (p : prog A) b s s' i (M : A -> nat -> mem * G -> Prop) :
  R i s s' -> rg (R i) (Gu i) p b s M -> rg (R i) (Gu i) p b s' M.
Proof.
  intros HR H. destruct p as [a|e k|]; cbn in *; [| |done];
    intros s'' HR'; apply H; by transitivity s'.
Qed.

Lemma pool_step_ok (ts ts' : list (thread A)) m m' g :
  pool_ok R Gu Q ts (m, g) -> pool_step (ts, m) (ts', m') ->
  exists i g', Gu i (m, g) (m', g') /\ pool_ok R Gu Q ts' (m', g').
Proof.
  intros Hok Hstep. inversion Hstep as [i ? t t' ? ? Hi Ht]; subst.
  inversion Ht as [e k ? b v ? b' E]; subst. pose proof (Hok i _ _ Hi (m, g)) as Hrg.
  cbn in Hrg. rewrite E in Hrg. destruct Hrg as (g' & HG & Hk); [by apply rely_preorder|].
  exists i, g'. split; [done|]. intros j p c Hj.
  destruct (decide (i = j)) as [<-|Hne].
  - rewrite list_lookup_insert_eq in Hj by (by eapply lookup_lt_Some). by injection Hj as <- <-.
  - rewrite list_lookup_insert_ne in Hj by done.
    apply (rg_rely p c (m, g)); [by eapply compatible|by apply Hok].
Qed.

(** The state is an invariant of every pool that the threads' guarantees preserve. *)
Variable J : mem * G -> Prop.
Hypothesis guaranteed : forall i s s', J s -> Gu i s s' -> J s'.

Lemma pool_safe (ts ts' : list (thread A)) m m' g :
  pool_ok R Gu Q ts (m, g) -> J (m, g) -> rtc pool_step (ts, m) (ts', m') ->
  exists g', pool_ok R Gu Q ts' (m', g') /\ J (m', g').
Proof.
  intros Hok HJ Hs. remember (ts, m) as c eqn:Hc. remember (ts', m') as c' eqn:Hc'.
  revert ts m g Hc Hok HJ. induction Hs as [|c [ts1 m1] c' Hstep _ IH]; intros; subst.
  - injection Hc as -> ->. eauto.
  - destruct (pool_step_ok _ _ _ _ _ Hok Hstep) as (i & g1 & HG & Hok1). eauto.
Qed.

(** No thread of such a pool is about to fault or out of fuel, and those that ended satisfy
    their postconditions. *)
Lemma pool_ok_thread (ts : list (thread A)) m g i p b :
  pool_ok R Gu Q ts (m, g) -> ts !! i = Some (p, b) ->
  ~ thread_faults (p, b) m /\ p <> NoFuel /\ (forall a, p = Ret a -> Q i a (m, g)).
Proof.
  intros Hok Hi. pose proof (Hok i p b Hi) as H.
  destruct p as [a|e k|]; cbn in H; [| |done].
  - split; [by intros Hf|]. split; [done|]. intros a' [= <-]. apply H. by apply rely_preorder.
  - split; [|done]. cbn. intros E. specialize (H (m, g)). cbn in H. rewrite E in H.
    apply H. by apply rely_preorder.
Qed.
End pool.
End rely_guarantee.

(** ** Calls that keep to memory of their own *)

(** [rgm R Gu p b m Q] is [rg] without a ghost state. *)
Definition rgm `{K : Kernel} {A} (R Gu : mem -> mem -> Prop) (p : prog A) (b : nat) (m : mem)
    (Q : A -> nat -> mem -> Prop) : Prop :=
  rg (G := unit) (fun s s' => R s.1 s'.1) (fun s s' => Gu s.1 s'.1) p b (m, tt) (fun a b' s => Q a b' s.1).

(** What neither the others nor the thread's own moves touch stays as it is, and the moves may be
    given a weaker guarantee. *)
Lemma rg_frame `{K : Kernel} {G A} (R Gu Gu' : mem * G -> mem * G -> Prop) (J X : mem * G -> Prop)
    (p : prog A) b s Q :
  (forall s s', J s -> R s s' -> J s' /\ (X s -> X s')) ->
  (forall s s', J s -> Gu s s' -> J s' /\ Gu' s s' /\ (X s -> X s')) ->
  J s -> X s -> rg R Gu p b s Q -> rg R Gu' p b s (fun a b' s' => Q a b' s' /\ X s').
Proof.
  intros HR HG. revert b s. induction p as [a|e k IH|]; intros b s HJ HX H; cbn in *; [| |done].
  - intros s' Hs. destruct (HR _ _ HJ Hs). auto.
  - intros s' Hs. destruct (HR _ _ HJ Hs) as [HJ' HX']. specialize (H s' Hs).
    destruct (exec e s'.1 b) as [[[v m'] b']|]; [|done]. destruct H as (g' & Hg & H).
    destruct (HG _ _ HJ' Hg) as (HJ2 & Hg' & HX2). exists g'. auto.
Qed.

(** A program that makes at least one access. *)
Definition is_call {A} (p : prog A) : Prop := match p with Do _ _ => True | _ => False end.

(** Such a program as part of a thread that knows [P] meanwhile: its last access may move the
    ghost state. *)
Lemma rg_lift `{K : Kernel} {G A} (R Gu : mem * G -> mem * G -> Prop) (R0 G0 : mem -> mem -> Prop)
    (P : mem * G -> Prop) (P' : A -> nat -> mem * G -> Prop) (Q0 : A -> nat -> mem -> Prop) (p : prog A) b m g :
  Stable R P -> (forall a b', Stable R (P' a b')) -> (forall m, R0 m m) ->
  (forall s s', P s -> R s s' -> R0 s.1 s'.1) ->
  (forall m g m', P (m, g) -> G0 m m' -> Gu (m, g) (m', g) /\ P (m', g)) ->
  (forall m g m' a b', P (m, g) -> G0 m m' -> Q0 a b' m' -> exists g', Gu (m, g) (m', g') /\ P' a b' (m', g')) ->
  is_call p -> P (m, g) -> rgm R0 G0 p b m Q0 -> rg R Gu p b (m, g) P'.
Proof.
  intros HP HP' HR0 HR Hmid Hend. revert b m g.
  induction p as [a|e k IH|]; intros b m g Hcall Hs Hrg; [done| |done].
  intros [m1 g1] Hs1. assert (HP1 : P (m1, g1)) by by eapply HP.
  specialize (Hrg (m1, tt) (HR (m, g) (m1, g1) Hs Hs1)). cbn in *.
  destruct (exec e m1 b) as [[[v m2] b2]|]; [|done]. destruct Hrg as ([] & HG & Hk).
  specialize (IH v b2 m2). revert IH Hk. destruct (k v) as [a|e' k'|]; intros IH Hk; [| |done].
  - destruct (Hend m1 g1 m2 a b2 HP1 HG) as (g2 & HG2 & Ha); [by apply (Hk (m2, tt))|].
    exists g2. split; [done|]. intros s3 Hs3. by eapply HP'.
  - destruct (Hmid m1 g1 m2 HP1 HG) as [HG2 HP2]. exists g1. split; [done|].
    by apply IH.
Qed.

(** A thread that spends no turn of [can_loop]. *)
Notation triple R Gu P p Q := (btriple R Gu 0 P p 0 Q).

(** ** Tactics *)

(** Names the C accesses by what the machine does, up to the next load or store. *)
Ltac taccess :=
  cbn beta iota; try progress unfold READ_ONCE, WRITE_ONCE, arena_atomic_load, arena_atomic_store,
    arena_atomic_cmpxchg, arena_atomic_add, arena_atomic_sub, arena_atomic_or, arena_atomic_and, arena_memory_barrier;
  repeat lazymatch goal with
  | |- btriple _ _ _ _ (smp_store_release _ _ ≫= _) _ _ => apply triple_smp_store_release; [apply _..|]
  | |- btriple _ _ _ _ (smp_load_acquire _ ≫= _) _ _ => apply triple_smp_load_acquire
  | |- btriple _ _ _ _ (fence _ ≫= _) _ _ => apply triple_fence; [apply _..|]
  end; cbn beta iota.

(** Reads a cell whose content the assertion fixes, by the lemma [fact]. *)
Ltac tread fact := taccess; eapply triple_load; [apply _..|intros ?; apply fact|]; cbn beta.
