(* ===== verification/Container.v ===== *)
(** * The contract the skeleton programs rely on: a container of key/value pairs.

    Every data structure offers the same four calls (init, insert, pop and the read-only ones).
    [discipline] says what a container promises about insert and pop as an abstract transition
    system over the list of its elements; [Container] is the concrete structure and
    [ContainerLaws] states that its operations, run on memory, are steps of the discipline that
    touch only what the structure owns. [lifetime] boots a container and serves a sequence of
    operations, each of them a separate run of the program with its own loop budget;
    [lifetime_refines] is the refinement theorem every structure inherits. *)
From stdpp Require Import base numbers gmap list fin_maps option.
From S2P Require Import Prelude Machine Logic Api Owned.

(** ** Abstract containers *)

(** What an operation asked for and what its caller saw. *)
Inductive op := OInsert (e : ds_kv) | OPop (d : ds_kv).

Inductive event :=
  | EInsert (e : ds_kv) (r : Z)
  | EPop (d : ds_kv) (r : Z) (out : option ds_kv).

Definition event_op (ev : event) : op :=
  match ev with EInsert e _ => OInsert e | EPop d _ _ => OPop d end.

Record discipline := {
  d_add : list ds_kv -> ds_kv -> list ds_kv;
  d_accepts : list ds_kv -> Prop;
  d_refuses : list ds_kv -> Z -> Prop
}.

Definition fifo_add (l : list ds_kv) (e : ds_kv) : list ds_kv := l ++ [e].
Definition lifo_add (l : list ds_kv) (e : ds_kv) : list ds_kv := e :: l.

(** A container with room for [cap] elements that answers [code] when it is full. *)
Definition bounded (add : list ds_kv -> ds_kv -> list ds_kv) (cap code : Z) : discipline := {|
  d_add := add;
  d_accepts l := Zlen l < cap;
  d_refuses l r := cap <= Zlen l /\ r = code
|}.

(** A container of allocated nodes: it refuses an element only for want of memory. *)
Definition unbounded (add : list ds_kv -> ds_kv -> list ds_kv) : discipline := {|
  d_add := add;
  d_accepts _ := True;
  d_refuses _ r := r = DS_ERROR_NOMEM
|}.

Inductive abs_step (d : discipline) : list ds_kv -> event -> list ds_kv -> Prop :=
  | abs_insert l e : d_accepts d l -> abs_step d l (EInsert e DS_SUCCESS) (d_add d l e)
  | abs_refuse l e r : d_refuses d l r -> r <> DS_SUCCESS -> abs_step d l (EInsert e r) l
  | abs_pop l e x : abs_step d (e :: l) (EPop x DS_SUCCESS (Some e)) l
  | abs_empty x : abs_step d [] (EPop x DS_ERROR_NOT_FOUND (Some x)) [].

Inductive abs_steps (d : discipline) : list ds_kv -> list event -> list ds_kv -> Prop :=
  | abs_done l : abs_steps d l [] l
  | abs_more l1 ev l2 evs l3 :
      abs_step d l1 ev l2 -> abs_steps d l2 evs l3 -> abs_steps d l1 (ev :: evs) l3.

#[export] Hint Constructors abs_step abs_steps : core.

Lemma abs_steps_snoc d l evs l1 ev l2 :
  abs_steps d l evs l1 -> abs_step d l1 ev l2 -> abs_steps d l (evs ++ [ev]) l2.
Proof. induction 1; intros Hs; cbn; eauto. Qed.

(** The elements a history put in and took out, in order. *)
Definition accepted (evs : list event) : list ds_kv :=
  omap (fun ev => match ev with
                  | EInsert e r => if r =? DS_SUCCESS then Some e else None
                  | EPop _ _ _ => None
                  end) evs.

Definition popped (evs : list event) : list ds_kv :=
  omap (fun ev => match ev with
                  | EPop _ r out => if r =? DS_SUCCESS then out else None
                  | EInsert _ _ => None
                  end) evs.

Lemma accepted_app H H' : accepted (H ++ H') = accepted H ++ accepted H'.
Proof. unfold accepted. apply omap_app. Qed.

Lemma popped_app H H' : popped (H ++ H') = popped H ++ popped H'.
Proof. unfold popped. apply omap_app. Qed.

Lemma accepted_cons ev evs : accepted (ev :: evs) = accepted [ev] ++ accepted evs.
Proof. unfold accepted. cbn. by case_match. Qed.

Lemma popped_cons ev evs : popped (ev :: evs) = popped [ev] ++ popped evs.
Proof. unfold popped. cbn. by case_match. Qed.

Lemma refused_not_popped d r o : r <> DS_SUCCESS -> popped [EPop d r o] = [].
Proof. intros H. unfold popped. cbn. by destruct (Z.eqb_spec r DS_SUCCESS). Qed.

Lemma refused_not_accepted e r : r <> DS_SUCCESS -> accepted [EInsert e r] = [].
Proof. intros Hr. unfold accepted. cbn. by destruct (Z.eqb_spec r DS_SUCCESS). Qed.

(** A legal pop takes an element, or finds none. *)
Lemma legal_pop d l H l' x r o :
  abs_steps d l H l' -> EPop x r o ∈ H ->
  (exists e, r = DS_SUCCESS /\ o = Some e) \/ (r = DS_ERROR_NOT_FOUND /\ o = Some x).
Proof.
  induction 1 as [l|l1 ev l2 evs l3 Hs _ IH]; [by intros ?%elem_of_nil|].
  intros [<-|Hin]%elem_of_cons; [|by apply IH]. inversion Hs; subst; eauto.
Qed.

(** Elements leave a first-in first-out container in the order in which they entered it, none
    is lost and none is duplicated. *)
Lemma fifo_history d l evs l' :
  d_add d = fifo_add -> abs_steps d l evs l' -> popped evs ++ l' = l ++ accepted evs.
Proof.
  intros Hadd. induction 1 as [l|l1 ev l2 evs l3 Hs _ IH]; [by rewrite app_nil_r|].
  rewrite accepted_cons, popped_cons, <- app_assoc, IH.
  destruct Hs as [l e _|l e r _ Hr|l e x|x]; cbn; try done.
  - rewrite Hadd. unfold fifo_add. by rewrite <- app_assoc.
  - by destruct (Z.eqb_spec r DS_SUCCESS).
Qed.

(** A last-in first-out container loses and duplicates nothing. *)
Lemma lifo_history d l evs l' :
  d_add d = lifo_add -> abs_steps d l evs l' -> popped evs ++ l' ≡ₚ l ++ accepted evs.
Proof.
  intros Hadd. induction 1 as [l|l1 ev l2 evs l3 Hs _ IH]; [by rewrite app_nil_r|].
  rewrite accepted_cons, popped_cons, <- app_assoc, IH.
  destruct Hs as [l e _|l e r _ Hr|l e x|x]; cbn; try done.
  - rewrite Hadd. unfold lifo_add. cbn. by rewrite Permutation_middle.
  - by destruct (Z.eqb_spec r DS_SUCCESS).
Qed.

(** A pop right after an accepted push returns the pushed element and restores the stack. *)
Lemma lifo_push_pop d l e x evs l' :
  d_add d = lifo_add ->
  abs_steps d l (EInsert e DS_SUCCESS :: evs) l' ->
  forall r out evs', evs = EPop x r out :: evs' ->
  r = DS_SUCCESS /\ out = Some e /\ abs_steps d l evs' l'.
Proof.
  intros Hadd Hs r out evs' ->. inversion Hs as [|? ? l2 ? ? H1 H2]; subst.
  inversion H1 as [? ? Ha|? ? ? _ Hr| |]; subst; [|done].
  inversion H2 as [|? ? l4 ? ? G1 G2]; subst. rewrite Hadd in G1. unfold lifo_add in G1.
  by inversion G1; subst.
Qed.

Lemma bounded_history add cap code l evs l' :
  (forall l e, Zlen (add l e) = Zlen l + 1) -> Zlen l <= cap ->
  abs_steps (bounded add cap code) l evs l' -> Zlen l' <= cap.
Proof.
  intros Hadd Hl Hs. induction Hs as [|l1 ev l2 evs l3 H1 _ IH]; [done|]. apply IH.
  destruct H1 as [l e Ha|l e r _ Hr|l e x|x]; cbn in *; try done.
  - rewrite Hadd. lia.
  - rewrite Zlen_cons in Hl. lia.
Qed.

(** ** The reference container: a bounded list, as a function *)

Definition ref_step (add : list ds_kv -> ds_kv -> list ds_kv) (cap code : Z) (l : list ds_kv)
    (o : op) : event * list ds_kv :=
  match o with
  | OInsert e =>
      if Zlen l <? cap then (EInsert e DS_SUCCESS, add l e) else (EInsert e code, l)
  | OPop d =>
      match l with
      | [] => (EPop d DS_ERROR_NOT_FOUND (Some d), [])
      | e :: l' => (EPop d DS_SUCCESS (Some e), l')
      end
  end.

Fixpoint ref_run (add : list ds_kv -> ds_kv -> list ds_kv) (cap code : Z) (l : list ds_kv)
    (ops : list op) : list event * list ds_kv :=
  match ops with
  | [] => ([], l)
  | o :: ops' =>
      let '(ev, l1) := ref_step add cap code l o in
      let '(evs, l2) := ref_run add cap code l1 ops' in (ev :: evs, l2)
  end.

(** A bounded container leaves nothing open: its histories are those of the reference. *)
Lemma bounded_step_ref add cap code l ev l' :
  abs_step (bounded add cap code) l ev l' -> ref_step add cap code l (event_op ev) = (ev, l').
Proof.
  intros [l1 e Ha|l1 e r [Hf ->] Hr|l1 e x|x]; cbn in *; try done.
  - by destruct (Z.ltb_spec (Zlen l1) cap); [|lia].
  - by destruct (Z.ltb_spec (Zlen l1) cap); [lia|].
Qed.

Lemma bounded_steps_ref add cap code l evs l' :
  abs_steps (bounded add cap code) l evs l' ->
  ref_run add cap code l (map event_op evs) = (evs, l').
Proof.
  induction 1 as [l|l1 ev l2 evs l3 Hs _ IH]; [done|]. cbn [map ref_run].
  by rewrite (bounded_step_ref _ _ _ _ _ _ Hs), IH.
Qed.

(** ** Concrete containers *)

Class Container := {
  c_init : prog Z;
  c_insert : Z -> Z -> prog Z;
  c_pop : option ds_kv -> prog (Z * option ds_kv);
  (** the header the program reserves for the structure, and what must be mapped there *)
  c_home : block;
  c_ready : mem -> Prop;
  (** what tells a client that the structure is not initialised yet *)
  c_blank : mem -> Prop;
  (** what the structure owns, and the elements it holds *)
  c_inv : list block -> list ds_kv -> mem -> Prop;
  c_spec : discipline;
  (** the loop budgets its operations need on the BPF side *)
  c_init_budget : nat;
  c_budget : nat
}.

Definition run_op `{Container} (o : op) : prog event :=
  match o with
  | OInsert e => r ← c_insert (kv_key e) (kv_value e); Ret (EInsert e r)
  | OPop d => '(r, out) ← c_pop (Some d); Ret (EPop d r out)
  end.

(** Serving operations one after the other, each with a fresh budget [b]. *)
Fixpoint serve `{K : Kernel} `{C : Container} (b : nat) (ops : list op) (m : mem) :
    option (list event * mem) :=
  match ops with
  | [] => Some ([], m)
  | o :: ops' =>
      match run (run_op o) m b with
      | Done ev m1 _ =>
          match serve b ops' m1 with
          | Some (evs, m2) => Some (ev :: evs, m2)
          | None => None
          end
      | _ => None
      end
  end.

(** From an uninitialised header: the code of the initialisation, the events, the memory. *)
Definition lifetime `{K : Kernel} `{C : Container} (b : nat) (ops : list op) (m : mem) :
    option (Z * list event * mem) :=
  match run c_init m b with
  | Done r m1 _ =>
      if r =? DS_SUCCESS then
        match serve b ops m1 with Some (evs, m2) => Some (r, evs, m2) | None => None end
      else Some (r, [], m1)
  | _ => None
  end.

Class ContainerLaws `{Kernel} `{Allocator} (s : side) (C : Container) := {
  c_frame own l m m' :
    (forall a, in_live own a -> m' !! a = m !! a) -> c_inv own l m -> c_inv own l m';
  c_home_frame m m' :
    (forall a, in_live [c_home] a -> m' !! a = m !! a) ->
    (c_ready m -> c_ready m') /\ (c_blank m -> c_blank m');
  (** [j] more turns of the loop budget are left for what the program does next; a failed
      initialisation can be tried again *)
  c_init_law rest m b j :
    heap_holds [c_home] rest m -> c_ready m -> budget s (c_init_budget + j) b ->
    wpr c_init m b (fun r m' b' => budget s j b' /\
      (forall a, in_live rest a -> m' !! a = m !! a) /\
      ((r = DS_ERROR_NOMEM /\ heap_holds [c_home] rest m' /\ c_ready m' /\
        (c_blank m -> c_blank m')) \/
       (r = DS_SUCCESS /\ exists own, heap_holds own rest m' /\ c_inv own [] m')));
  c_insert_law own rest l m b e :
    heap_holds own rest m -> c_inv own l m -> budget s c_budget b ->
    wpr (c_insert (kv_key e) (kv_value e)) m b (fun r m' _ =>
      (forall a, in_live rest a -> m' !! a = m !! a) /\
      exists own' l', heap_holds own' rest m' /\ c_inv own' l' m' /\
        ((r = DS_SUCCESS /\ d_accepts c_spec l /\ l' = d_add c_spec l e) \/
         (r <> DS_SUCCESS /\ d_refuses c_spec l r /\ l' = l)));
  c_pop_law own rest l m b d :
    heap_holds own rest m -> c_inv own l m -> budget s c_budget b ->
    wpr (c_pop (Some d)) m b (fun r m' _ =>
      (forall a, in_live rest a -> m' !! a = m !! a) /\
      exists own', heap_holds own' rest m' /\
        match l with
        | [] => r = (DS_ERROR_NOT_FOUND, Some d) /\ c_inv own' [] m'
        | e :: l' => r = (DS_SUCCESS, Some e) /\ c_inv own' l' m'
        end)
}.

Section refinement.
Context `{K : Kernel} `{Al : Allocator} (s : side) `{C : Container} `{!ContainerLaws s C}.

Lemma op_refines own rest l m b o :
  heap_holds own rest m -> c_inv own l m -> budget s c_budget b ->
  wpr (run_op o) m b (fun ev m' _ => event_op ev = o /\
    (forall a, in_live rest a -> m' !! a = m !! a) /\
    exists own' l', heap_holds own' rest m' /\ c_inv own' l' m' /\ abs_step c_spec l ev l').
Proof.
  intros Hh Hi Hb. destruct o as [e|d]; cbn [run_op].
  - eapply wpr_call; [by apply (c_insert_law own rest l)|].
    intros r m' b' (Hrest & own' & l' & Hh' & Hi' & Hr). apply wpr_ret. split; [done|].
    split; [done|]. exists own', l'.
    destruct Hr as [(-> & Ha & ->)|(Hr & Hf & ->)]; auto.
  - eapply wpr_call; [by apply (c_pop_law own rest l)|].
    intros r m' b' (Hrest & own' & Hh' & Hr).
    destruct l as [|e l']; destruct Hr as [-> Hi']; apply wpr_ret;
      (split; [done|split; [done|]]); eauto 6.
Qed.

Lemma serve_refines own rest l m b ops :
  heap_holds own rest m -> c_inv own l m -> budget s c_budget b ->
  exists evs m', serve b ops m = Some (evs, m') /\ map event_op evs = ops /\
    (forall a, in_live rest a -> m' !! a = m !! a) /\
    exists own' l', heap_holds own' rest m' /\ c_inv own' l' m' /\ abs_steps c_spec l evs l'.
Proof.
  intros Hh Hi Hb. revert own l m Hh Hi. induction ops as [|o ops IH]; intros own l m Hh Hi.
  { exists [], m. repeat split; eauto 6. }
  pose proof (op_refines own rest l m b o Hh Hi Hb) as Ho.
  apply wpr_done in Ho as (ev & m1 & b1 & E & <- & Hrest & own1 & l1 & Hh1 & Hi1 & Hs1).
  destruct (IH own1 l1 m1 Hh1 Hi1) as (evs & m2 & E2 & <- & Hrest2 & own2 & l2 & Hh2 & Hi2 & Hs2).
  exists (ev :: evs), m2. cbn [serve map]. rewrite E, E2. split; [done|]. split; [done|].
  split; [intros a Ha; by rewrite Hrest2, Hrest|]. eauto 8.
Qed.

(** What a caller can rely on from the first call on: the whole history is one of the
    abstract container that starts empty. *)
Definition lifetime_ok (rest : list block) (m : mem) (ops : list op)
    (out : option (Z * list event * mem)) : Prop :=
  exists r evs m', out = Some (r, evs, m') /\
    (forall a, in_live rest a -> m' !! a = m !! a) /\
    ((r = DS_ERROR_NOMEM /\ evs = []) \/
     (r = DS_SUCCESS /\ map event_op evs = ops /\
      exists own l, heap_holds own rest m' /\ c_inv own l m' /\ abs_steps c_spec [] evs l)).

Lemma lifetime_refines rest m b ops :
  heap_holds [c_home] rest m -> c_ready m ->
  budget s c_init_budget b -> budget s c_budget b ->
  lifetime_ok rest m ops (lifetime b ops m).
Proof.
  intros Hh Hrd Hb1 Hb2. pose proof (c_init_law rest m b 0 Hh Hrd ltac:(by rewrite Nat.add_0_r)) as Hi.
  apply wpr_done in Hi as (r & m1 & b1 & E & _ & Hrest & Hr). unfold lifetime_ok, lifetime.
  rewrite E. destruct Hr as [[-> _]|(-> & own & Hh1 & Hi)]; cbn.
  { exists DS_ERROR_NOMEM, [], m1. auto. }
  destruct (serve_refines own rest [] m1 b ops Hh1 Hi Hb2)
    as (evs & m2 & -> & Hops & Hrest2 & Hend).
  exists DS_SUCCESS, evs, m2. split; [done|].
  split; [intros a Ha; by rewrite Hrest2, Hrest|by right].
Qed.
End refinement.

(** What the histories of a structure with discipline [d] promise, over and above being steps of
    the discipline: [conserved], a relation between the events and the elements left inside. *)
Definition history_ok (d : discipline) (conserved : list event -> list ds_kv -> Prop)
    (rest : list block) (m : mem) (ops : list op) (out : option (Z * list event * mem)) : Prop :=
  exists r evs m', out = Some (r, evs, m') /\
    (forall a, in_live rest a -> m' !! a = m !! a) /\
    ((r = DS_ERROR_NOMEM /\ evs = []) \/
     (r = DS_SUCCESS /\ map event_op evs = ops /\
      exists l, abs_steps d [] evs l /\ conserved evs l)).

(** A bounded structure behaves like the reference container, answer by answer. *)
Definition behaves_like_ref (add : list ds_kv -> ds_kv -> list ds_kv) (cap code : Z)
    (rest : list block) (m : mem) (ops : list op) (out : option (Z * list event * mem)) : Prop :=
  exists r evs m', out = Some (r, evs, m') /\
    (forall a, in_live rest a -> m' !! a = m !! a) /\
    ((r = DS_ERROR_NOMEM /\ evs = []) \/
     (r = DS_SUCCESS /\ evs = fst (ref_run add cap code [] ops))).

Section histories.
Context `{K : Kernel} `{Al : Allocator} (s : side) `{C : Container} `{!ContainerLaws s C}.
Variables (rest : list block) (m : mem) (b : nat) (ops : list op).
Hypothesis fresh : heap_holds [c_home] rest m.
Hypothesis ready : c_ready m.
Hypothesis init_budget : budget s c_init_budget b.
Hypothesis op_budget : budget s c_budget b.

Lemma history_refines (conserved : list event -> list ds_kv -> Prop) :
  (forall evs l, abs_steps c_spec [] evs l -> conserved evs l) ->
  history_ok c_spec conserved rest m ops (lifetime b ops m).
Proof.
  intros Hc. destruct (lifetime_refines s rest m b ops fresh ready init_budget op_budget)
    as (r & evs & m' & -> & Hrest & [H|(-> & Hops & own & l & _ & _ & Hs)]);
    exists r, evs, m' || exists DS_SUCCESS, evs, m'; (split; [done|split; [done|]]); [by left|right].
  split; [done|]. split; [done|]. exists l. auto.
Qed.

Lemma bounded_behaves_like_ref add cap code :
  c_spec = bounded add cap code ->
  behaves_like_ref add cap code rest m ops (lifetime b ops m).
Proof.
  intros Hspec. destruct (lifetime_refines s rest m b ops fresh ready init_budget op_budget)
    as (r & evs & m' & -> & Hrest & [H|(-> & Hops & own & l & _ & _ & Hs)]);
    exists r, evs, m' || exists DS_SUCCESS, evs, m'; (split; [done|split; [done|]]); [by left|right].
  split; [done|]. rewrite Hspec in Hs. apply bounded_steps_ref in Hs. rewrite Hops in Hs.
  by rewrite Hs.
Qed.
End histories.

(** ** Structures made of a header and an array

    The array of a bounded structure never moves: its operations only update the header and the
    array, so their specifications give the container's laws. *)
Section array.
Context `{K : Kernel} `{Al : Allocator} `{!AllocLaws Al}.
Variables (h n p r : Z) (rest : list block) (F : Z -> Prop).
Variables (inv : list block -> list ds_kv -> mem -> Prop) (I : list ds_kv -> mem -> Prop).
Hypothesis foot_owned : forall a, F a -> in_block h n a \/ in_block p r a.
Hypothesis inv_intro : forall l m, I l m -> inv [(h, n); (p, r)] l m.

Lemma array_insert_law (add : list ds_kv -> ds_kv -> list ds_kv) cap code l e m rc m' :
  heap_holds [(h, n); (p, r)] rest m -> code <> DS_SUCCESS -> updates F m m' ->
  (if Zlen l <? cap then rc = DS_SUCCESS /\ I (add l e) m' else rc = code /\ I l m') ->
  (forall a, in_live rest a -> m' !! a = m !! a) /\
  exists own' l', heap_holds own' rest m' /\ inv own' l' m' /\
    ((rc = DS_SUCCESS /\ Zlen l < cap /\ l' = add l e) \/
     (rc <> DS_SUCCESS /\ (cap <= Zlen l /\ rc = code) /\ l' = l)).
Proof.
  intros Hh Hcode Hu Hpost.
  destruct (array_updates _ _ _ _ _ _ _ _ Hh Hu) as [Hrest Hh']; [done|]. split; [done|].
  exists [(h, n); (p, r)].
  destruct (Z.ltb_spec (Zlen l) cap); destruct Hpost as [-> HI];
    [exists (add l e)|exists l]; (split; [done|split; [by apply inv_intro|]]); [by left|by right].
Qed.

Lemma array_pop_law l d m (rc : Z * option ds_kv) m' :
  heap_holds [(h, n); (p, r)] rest m -> updates F m m' ->
  match l with
  | [] => rc = (DS_ERROR_NOT_FOUND, Some d) /\ I [] m'
  | e :: l' => rc = (DS_SUCCESS, Some e) /\ I l' m'
  end ->
  (forall a, in_live rest a -> m' !! a = m !! a) /\
  exists own', heap_holds own' rest m' /\
    match l with
    | [] => rc = (DS_ERROR_NOT_FOUND, Some d) /\ inv own' [] m'
    | e :: l' => rc = (DS_SUCCESS, Some e) /\ inv own' l' m'
    end.
Proof.
  intros Hh Hu Hpost.
  destruct (array_updates _ _ _ _ _ _ _ _ Hh Hu) as [Hrest Hh']; [done|]. split; [done|].
  exists [(h, n); (p, r)]. split; [done|].
  destruct l; destruct Hpost as [-> HI]; auto.
Qed.
End array.
