(* ===== verification/SoleAlloc.v ===== *)
(** * Allocation while another thread works.

    [SoleAllocLaws] is [alloc_law] for a thread that is the only one to allocate while the owners
    of the live blocks go on writing to them: what the linked structures need of an allocator
    when one side inserts and the other one pops. [room sz n] says that [n] more requests of [sz]
    bytes can be served or refused properly. *)
From stdpp Require Import base numbers gmap list fin_maps option relations.
From S2P Require Import Prelude Machine Logic Api Owned Conc.

(** The owners of [live] write to their blocks. *)
Definition owners_write (live : list block) (m m' : mem) : Prop :=
  unchanged_outside (in_live live) m m' /\ grows m m'.

(** The allocator leaves them alone. *)
Definition spares (live : list block) (m m' : mem) : Prop :=
  (forall a, in_live live a -> m' !! a = m !! a) /\ grows m m'.

Class SoleAllocLaws `{K : Kernel} (Al : Allocator) (room : Z -> nat -> mem -> Prop) := {
  sole_call sz : is_call (bpf_arena_alloc sz);
  sole_room live sz n m m' : heap_ok live m -> unchanged_outside (in_live live) m m' -> room sz n m -> room sz n m';
  sole_less sz n m : 0 <= sz -> room sz (S n) m -> room sz n m;
  sole_alloc live sz n m b :
    heap_ok live m -> 0 < sz < 2 ^ 32 - 8 -> sz mod 8 = 0 -> room sz (S n) m ->
    rgm (owners_write live) (spares live) (bpf_arena_alloc sz) b m (fun p b' m' =>
      b' = b /\ room sz n m' /\
      ((p = 0 /\ heap_ok live m') \/
       (0 < p /\ disjoint_block p sz live /\ mapped_words p sz m' /\ heap_ok ((p, sz) :: live) m')))
}.

(** ** Setting requests aside

    [reserving Al room sz k] is the allocator as a thread sees it that makes one request of [sz]
    bytes and leaves [k] more to others: the program is the same, and what is proved of it with
    this allocator says that the others' requests can still be served. *)
Definition reserving (Al : Allocator) (room : Z -> nat -> mem -> Prop) (sz : Z) (k : nat) : Allocator := {|
  bpf_arena_alloc := @bpf_arena_alloc Al;
  bpf_arena_free := @bpf_arena_free Al;
  heap_ok live m := @heap_ok Al live m /\ room sz k m;
  in_arena := @in_arena Al;
  alloc_pre sz' m := sz' = sz /\ @alloc_pre Al sz m /\ room sz (S k) m;
  free_pre := @free_pre Al
|}.

(** A thread on its own. *)
Lemma rg_alone `{K : Kernel} {G A} (R Gu : mem * G -> mem * G -> Prop) `{!Reflexive R} (p : prog A) b m g Q :
  rg R Gu p b (m, g) Q -> wpr p m b (fun a m' b' => exists g', Q a b' (m', g')).
Proof.
  unfold wpr. revert b m g. induction p as [a|e k IH|]; intros b m g H; cbn in *; [| |done].
  - exists g. by apply H.
  - specialize (H (m, g) (reflexivity _)). cbn in H. destruct (exec e m b) as [[[v m'] b']|]; [|done].
    destruct H as (g' & _ & H). by eapply IH.
Qed.

Lemma reserving_laws `{K : Kernel} `{Al : Allocator} `{!AllocLaws Al} room `{!SoleAllocLaws Al room} sz k :
  AllocLaws (reserving Al room sz k).
Proof.
  split; cbn [heap_ok alloc_pre bpf_arena_alloc in_arena reserving].
  - intros live m m' [Hh Hr] Hu Hg. split; [by eapply heap_ok_frame|by eapply sole_room].
  - intros live sz' m m' [Hh _] Hu (-> & Hp & Hr). split; [done|].
    split; [by eapply alloc_pre_frame|by eapply sole_room].
  - intros live live' m [Hh Hr] Hsub. split; [by eapply heap_ok_sub|done].
  - intros live sz' m b [Hh _] Hsz H8 (-> & Hp & Hr).
    pose proof (alloc_law live sz m b Hh Hsz H8 Hp) as H1.
    pose proof (sole_alloc live sz k m b Hh Hsz H8 Hr) as H2.
    unfold rgm in H2. eapply rg_alone in H2; [|intros s; split; [apply unchanged_refl|by intros a]].
    unfold wpr in *. destruct (run (bpf_arena_alloc sz) m b) as [p m' b'| |]; try done.
    destruct H1 as (-> & Hs & H1), H2 as ([] & _ & Hr' & _). split; [done|]. split; [done|].
    destruct H1 as [[-> H1]|(G1 & G2 & G3 & G4 & G5 & G6)]; [by left|right]. by split_and!.
Qed.

(** ** Many threads that allocate

    [FreshAllocLaws]: the allocator never takes anything back, and a request takes effect at one
    of its accesses, so that any number of threads can allocate at the same time. What is left of
    a request after that access reads memory of the allocator that no longer changes. *)
Class FreshAllocLaws `{K : Kernel} (Al : Allocator) (room : Z -> nat -> mem -> Prop) := {
  fresh_free p : bpf_arena_free p = Ret tt;
  fresh_room live sz n m m' : heap_ok live m -> unchanged_outside (in_live live) m m' -> room sz n m -> room sz n m';
  fresh_alloc {G A} (R Gu : mem * G -> mem * G -> Prop) `{!PreOrder R} `{!Reflexive Gu} sz (f : Z -> prog A)
      n n' P (P' : Z -> mem * G -> Prop) Q :
    0 < sz < 2 ^ 32 - 8 -> sz mod 8 = 0 -> Stable R P -> (forall p, Stable R (P' p)) ->
    (forall m g, P (m, g) -> exists live k, heap_ok live m /\ room sz (S k) m /\
       forall p m', spares live m m' -> room sz k m' ->
         ((p = 0 /\ heap_ok live m') \/
          (0 < p /\ in_arena p /\ disjoint_block p sz live /\ mapped_words p sz m' /\ heap_ok ((p, sz) :: live) m')) ->
         exists g', Gu (m, g) (m', g') /\ P' p (m', g')) ->
    (forall p s, P' p s -> exists live, heap_ok live s.1) ->
    (forall p, btriple R Gu n (P' p) (f p) n' Q) ->
    btriple R Gu n P (bpf_arena_alloc sz ≫= f) n' Q
}.
