(* ===== verification/UsertestArena.v ===== *)
(** * The arena of the userspace tests ([usertest/usertest_common.h]): a bump allocator that never
    reclaims, which the tests put in the place of [bpf_arena_alloc] and [bpf_arena_free].

    [usertest_arena_init_once] sets the arena up on a block that [posix_memalign], a parameter,
    returns ([arena_init_ok]). The allocations are modelled from then on, when [pthread_once] has
    no effect: the first one is that of [main], before there are other threads. An allocation is one atomic addition and two reads of cells that no longer change, so it may run
    next to any other thread ([SoleAllocLaws]); a request that does not fit still moves the
    offset, which therefore must not be asked for more than [2 ^ 64] bytes in all ([room]). *)
From stdpp Require Import base numbers gmap list fin_maps option relations.
From S2P Require Import Prelude Machine Logic Api Owned Conc SoleAlloc.

Definition USERTEST_ARENA_BYTES : Z := 64 * 1024 * 1024.

Section arena.
(** The statics, the memory [posix_memalign] returned and its length. *)
Variables sym base bytes : Z.

Definition usertest_arena_off : Z := sym + 0.
Definition usertest_arena_base : Z := sym + 8.
Definition usertest_arena_bytes : Z := sym + 16.

Definition usertest_arena_alloc (size : Z) : prog Z :=
  let align := 8 in
  let n := Z.land (u64 (size + align - 1)) (u64 (Z.lnot (align - 1))) in
  off ← rmw Relaxed (FetchAdd 64) usertest_arena_off n;
  limit ← load Plain usertest_arena_bytes;
  if u64 (off + n) >? limit then Ret 0 else
  start ← load Plain usertest_arena_base;
  Ret (start + off).

Definition usertest_arena_free (addr : Z) : prog unit := Ret tt.

(** The state of the arena: [off] bytes handed out or refused. *)
Record arena_state (off : Z) (m : mem) : Prop := {
  as_off : m !! usertest_arena_off = Some off;
  as_base : m !! usertest_arena_base = Some base;
  as_bytes : m !! usertest_arena_bytes = Some bytes;
  as_mapped : mapped_words base bytes m;
  as_range : 0 <= off < 2 ^ 64 /\ off mod 8 = 0
}.

(** Bytes the arena keeps for itself. *)
Definition arena_private (off a : Z) : Prop := in_block sym 24 a \/ in_block (base + off) (bytes - off) a.

Definition arena_heap_ok (live : list block) (m : mem) : Prop :=
  exists off, arena_state off m /\ forall a, arena_private off a -> ~ in_live live a.

(** [n] more requests of [sz] bytes keep the offset within 64 bits. *)
Definition arena_room (sz : Z) (n : nat) (m : mem) : Prop :=
  exists off, m !! usertest_arena_off = Some off /\ off + Z.of_nat n * sz < 2 ^ 64.

Definition usertest_allocator : Allocator := {|
  bpf_arena_alloc := usertest_arena_alloc;
  bpf_arena_free := usertest_arena_free;
  heap_ok := arena_heap_ok;
  in_arena := in_block base bytes;
  alloc_pre sz m := arena_room sz 1 m;
  free_pre _ _ := True
|}.

Hypothesis base_ok : 0 < base /\ base mod 8 = 0 /\ 0 <= bytes < 2 ^ 63.
Hypothesis sym_apart : sym + 24 <= base \/ base + bytes <= sym.

Lemma statics_private off a : in_block sym 24 a -> arena_private off a.
Proof. by left. Qed.

Lemma arena_frame live m m' :
  arena_heap_ok live m -> unchanged_outside (in_live live) m m' -> grows m m' -> arena_heap_ok live m'.
Proof.
  intros (off & [E1 E2 E3 Hm Ho] & Hp) Hu Hg. exists off. split; [|done].
  assert (Hs : forall a, in_block sym 24 a -> m' !! a = m !! a)
    by (intros a Ha; apply Hu, Hp; by left).
  split; try (rewrite Hs; [done|unfold usertest_arena_off, usertest_arena_base, usertest_arena_bytes; addr]); [|done].
  intros i Hi Hin. by apply Hg, Hm.
Qed.

Lemma room_frame live sz n m m' :
  arena_heap_ok live m -> unchanged_outside (in_live live) m m' -> arena_room sz n m -> arena_room sz n m'.
Proof.
  intros (off & _ & Hp) Hu (o & E & Hn). exists o. split; [|done]. rewrite Hu; [done|].
  apply Hp. left. unfold usertest_arena_off. addr.
Qed.

Lemma aligned_request sz : 0 < sz < 2 ^ 32 - 8 -> sz mod 8 = 0 ->
  Z.land (u64 (sz + 8 - 1)) (u64 (Z.lnot (8 - 1))) = sz.
Proof.
  intros Hsz H8. rewrite (u64_id (sz + 8 - 1)) by lia.
  change (Z.lnot (8 - 1)) with (Z.lnot (2 ^ 3 - 1)). rewrite land_page64 by lia.
  change (2 ^ 3) with 8. Z.div_mod_to_equations. lia.
Qed.

(** The addition, and what it leaves: a refusal, or a block nobody has. *)
Lemma arena_takes live sz n m off : 0 < sz < 2 ^ 32 - 8 -> sz mod 8 = 0 ->
  arena_state off m -> (forall a, arena_private off a -> ~ in_live live a) -> arena_room sz (S n) m ->
  let m' := <[usertest_arena_off:=u64 (off + sz)]> m in
  u64 (off + sz) = off + sz /\ arena_room sz n m' /\
  (forall a, in_live live a -> m' !! a = m !! a) /\ arena_heap_ok live m' /\
  (off + sz <= bytes -> 0 < base + off /\ (base + off) mod 8 = 0 /\ in_block base bytes (base + off) /\
     disjoint_block (base + off) sz live /\ mapped_words (base + off) sz m' /\
     arena_heap_ok ((base + off, sz) :: live) m').
Proof.
  intros Hsz H8 [E1 E2 E3 Hm [Ho Ho8]] Hp (o & E & Hn) m'. rewrite E1 in E. injection E as <-.
  assert (Hid : u64 (off + sz) = off + sz) by (apply u64_id; lia).
  assert (Hst : arena_state (off + sz) m').
  { unfold m'. rewrite Hid. unfold usertest_arena_off, usertest_arena_base, usertest_arena_bytes in *.
    split; unfold usertest_arena_off, usertest_arena_base, usertest_arena_bytes; try mlook.
    - intros i Hi Hin. by apply lookup_ins_is_Some, Hm.
    - split; [lia|]. rewrite Zplus_mod, Ho8, H8. done. }
  split; [done|]. split; [exists (off + sz); split; [unfold m'; rewrite Hid; apply lookup_insert_eq|lia]|].
  split; [intros a Ha; apply lookup_insert_ne; intros <-; apply (Hp usertest_arena_off); [left; unfold usertest_arena_off; addr|done]|].
  split.
  { exists (off + sz). split; [done|]. intros a [Ha|Ha]; apply Hp; [by left|right]. unfold in_block in *. lia. }
  intros Hfit. destruct base_ok as (Hb & Hb8 & Hby). split; [lia|]. split; [rewrite Zplus_mod, Hb8, Ho8; done|].
  split; [unfold in_block; lia|].
  split; [intros a Ha; apply Hp; right; unfold in_block in *; lia|]. split.
  - intros i Hi Hin. unfold m'. apply lookup_ins_is_Some.
    replace (base + off + 8 * i) with (base + 8 * (off / 8 + i)) by (Z.div_mod_to_equations; lia).
    apply Hm; Z.div_mod_to_equations; lia.
  - exists (off + sz). split; [done|]. intros a Ha [Hb'|Hl]%in_live_cons.
    + destruct Ha as [Ha|Ha]; unfold in_block in *; lia.
    + revert Hl. apply Hp. destruct Ha as [Ha|Ha]; [by left|right]. unfold in_block in *. lia.
Qed.

(** The cells a request reads. *)
Lemma arena_cells off m sz : arena_state off m ->
  m !! usertest_arena_off = Some off /\
  <[usertest_arena_off:=u64 (off + sz)]> m !! usertest_arena_base = Some base /\
  <[usertest_arena_off:=u64 (off + sz)]> m !! usertest_arena_bytes = Some bytes.
Proof.
  intros [E1 E2 E3 _ _]. unfold usertest_arena_off, usertest_arena_base, usertest_arena_bytes in *.
  split; [done|]. split; rewrite lookup_insert_ne by lia; done.
Qed.

Context `{K : Kernel}.

#[export] Instance usertest_alloc_laws : AllocLaws usertest_allocator.
Proof.
  split; cbn [heap_ok alloc_pre bpf_arena_alloc in_arena usertest_allocator].
  - apply arena_frame.
  - intros live sz m m'. apply room_frame.
  - intros live live' m (off & Hst & Hp) Hsub. exists off. split; [done|]. intros a Ha Hl.
    by apply (Hp a Ha), (in_live_sub live live').
  - intros live sz m b (off & Hst & Hp) Hsz H8 Hroom.
    destruct (arena_takes live sz 0 m off Hsz H8 Hst Hp Hroom) as (Hid & _ & Hsame & Hno & Hyes).
    destruct (arena_cells off m sz Hst) as (E1 & E2 & E3). set (m1 := <[usertest_arena_off:=u64 (off + sz)]> m) in *.
    unfold usertest_arena_alloc. rewrite aligned_request by done.
    eapply wpr_bind, wpr_rmw; [exact E1|]. change (rmw_eval (FetchAdd 64) off sz) with (u64 (off + sz)). fold m1.
    eapply wpr_bind, wpr_load; [exact E3|]. rewrite Hid in *.
    destruct (Z.gtb_spec (off + sz) bytes) as [Hx|Hx].
    + apply wpr_ret. split; [done|]. split; [done|]. by left.
    + eapply wpr_bind, wpr_load; [exact E2|]. apply wpr_ret. split; [done|]. split; [done|].
      right. apply Hyes. lia.
Qed.

#[export] Instance usertest_free_laws : FreeLaws usertest_allocator.
Proof. intros live p m b Hh _ _. by apply wpr_ret. Qed.

(** What others do to the live blocks between its accesses does not matter. *)
Lemma owners_frame live m m' : arena_heap_ok live m -> owners_write live m m' -> arena_heap_ok live m'.
Proof. intros Hh [Hu Hg]. by eapply arena_frame. Qed.

Lemma owners_more x live m m' : owners_write live m m' -> unchanged_outside (in_live (x :: live)) m m'.
Proof.
  intros [Hu _]. eapply unchanged_mono; [exact Hu|]. intros a Ha. destruct x. apply in_live_cons. by right.
Qed.

#[export] Instance usertest_sole_laws : SoleAllocLaws usertest_allocator arena_room.
Proof.
  split; cbn [heap_ok alloc_pre bpf_arena_alloc in_arena usertest_allocator].
  - done.
  - intros live sz n m m' Hh Hu. by eapply room_frame.
  - intros sz n m Hsz (off & E & Hn). exists off. split; [done|]. lia.
  - intros live sz n m b Hh Hsz H8 Hroom. unfold usertest_arena_alloc. rewrite aligned_request by done.
    intros [m1 []] Hw1. cbn in Hw1. pose proof (owners_frame _ _ _ Hh Hw1) as (off & Hst & Hp).
    assert (Hroom1 : arena_room sz (S n) m1) by (destruct Hw1 as [Hu _]; by eapply room_frame).
    destruct (arena_takes live sz n m1 off Hsz H8 Hst Hp Hroom1) as (Hid & Hr2 & Hsame & Hno & Hyes).
    destruct (arena_cells off m1 sz Hst) as (E1 & E2 & E3). set (m2 := <[usertest_arena_off:=u64 (off + sz)]> m1) in *.
    cbn [exec fst]. rewrite E1. cbn [mbind option_bind]. change (rmw_eval (FetchAdd 64) off sz) with (u64 (off + sz)).
    fold m2. exists tt. split; [split; [done|unfold m2; auto with arena]|].
    intros [m3 []] Hw3. cbn in Hw3. pose proof (owners_frame _ _ _ Hno Hw3) as Hno3.
    pose proof Hno3 as (off3 & [_ _ F3 _ _] & _). cbn [exec fst]. rewrite F3. cbn [mbind option_bind].
    exists tt. split; [split; [done|by intros a]|]. rewrite Hid.
    pose proof (proj1 Hw3) as Hu3. pose proof (room_frame _ _ _ _ _ Hno Hu3 Hr2) as Hr3.
    cbn [mbind prog_mbind pbind]. destruct (Z.gtb_spec (off + sz) bytes) as [Hx|Hx].
    + intros [m4 []] Hw4. cbn in *. split; [done|]. split; [destruct Hw4; by eapply room_frame|].
      left. split; [done|by eapply owners_frame].
    + destruct (Hyes Hx) as (Hp0 & Hp8 & Hin & Hd & Hmp & Hblk).
      intros [m4 []] Hw4. cbn in Hw4. pose proof (owners_frame _ _ _ Hno3 Hw4) as Hno4.
      pose proof Hno4 as (off4 & [_ F4 _ _ _] & _). cbn [exec fst]. rewrite F4. cbn [mbind option_bind].
      exists tt. split; [split; [done|by intros a]|]. intros [m5 []] Hw5. cbn in *.
      assert (Hw : owners_write ((base + off, sz) :: live) m2 m5).
      { split.
        - eapply unchanged_trans; [|eapply unchanged_trans]; [exact (owners_more _ _ _ _ Hw3)|
            exact (owners_more _ _ _ _ Hw4)|exact (owners_more _ _ _ _ Hw5)].
        - intros a Ha. apply Hw5, Hw4, Hw3, Ha. }
      split; [done|]. split; [destruct Hw4, Hw5; eapply room_frame; [exact Hno4|done|]; eapply room_frame; [exact Hno3|done|done]|].
      right. split; [done|]. split; [done|]. split; [|by eapply owners_frame].
      intros i Hi Hin'. by apply (proj2 Hw), Hmp.
Qed.
(** The addition decides: what follows only looks up what it decided. *)
Definition arena_answer (off sz : Z) : Z := if u64 (off + sz) >? bytes then 0 else base + off.

#[export] Instance usertest_fresh_laws : FreshAllocLaws usertest_allocator arena_room.
Proof.
  split; cbn [heap_ok alloc_pre bpf_arena_alloc bpf_arena_free in_arena usertest_allocator].
  - done.
  - intros live sz n m m'. apply room_frame.
  - intros G A R Gu HR HGu sz f n n' P P' Q Hsz H8 HP HP' Htake Hheap Hf.
    assert (Hstate : forall p s, P' p s -> s.1 !! usertest_arena_bytes = Some bytes /\ s.1 !! usertest_arena_base = Some base).
    { intros p s Hs. by destruct (Hheap p s Hs) as (live & off & [_ E2 E3 _ _] & _). }
    unfold usertest_arena_alloc. rewrite aligned_request by done.
    apply (triple_do _ _ _ _ P (fun off s => P' (arena_answer off sz) s)); [done| |].
    + intros [m g] b Hs. destruct (Htake m g Hs) as (live & k & (off & Hst & Hp) & Hroom & Hg).
      destruct (arena_takes live sz k m off Hsz H8 Hst Hp Hroom) as (Hid & Hr2 & Hsame & Hno & Hyes).
      destruct (arena_cells off m sz Hst) as (E1 & _). set (m2 := <[usertest_arena_off:=u64 (off + sz)]> m) in *.
      cbn [exec fst]. rewrite E1. cbn [mbind option_bind]. exists off, m2. split; [done|].
      apply Hg; [split; [done|unfold m2; auto with arena]|done|]. unfold arena_answer. rewrite Hid in *.
      destruct (Z.gtb_spec (off + sz) bytes) as [Hx|Hx]; [by left|right].
      destruct (Hyes ltac:(lia)) as (? & ? & ? & ? & ? & ?). done.
    + intros off. eapply (triple_load _ _ _ _ bytes); [apply HP'|intros s Hs; by apply (Hstate _ s Hs)|].
      unfold arena_answer in *. destruct (u64 (off + sz) >? bytes); [by apply Hf|].
      eapply (triple_load _ _ _ _ base); [apply HP'|intros s Hs; by apply (Hstate _ s Hs)|]. apply Hf.
Qed.
End arena.

(** ** [usertest_arena_init_once] *)

(** [memset(p, 0, 8 * words)] *)
Fixpoint zero_words (p : Z) (words : nat) : prog unit :=
  match words with
  | O => Ret tt
  | S words' => store Plain p 0;; zero_words (p + 8) words'
  end.

Section init.
Context `{K : Kernel}.
(** The statics, the configured length, and [posix_memalign(&mem, align, bytes)], which answers
    [mem], or 0 if it fails. *)
Variables (sym arena_bytes : Z) (posix_memalign : Z -> Z -> prog Z).

Definition rounded_bytes : Z :=
  let bytes := arena_bytes in
  let align := 64 in
  if negb (bytes mod align =? 0) then u64 (u64 (bytes + align - 1) / align * align) else bytes.

(** [false]: it called [abort()]. *)
Definition usertest_arena_init_once : prog bool :=
  let bytes := rounded_bytes in
  mem ← posix_memalign 64 bytes;
  if mem =? 0 then Ret false else
  zero_words mem (Z.to_nat (bytes / 8));;
  store Plain (usertest_arena_base sym) mem;;
  store Plain (usertest_arena_bytes sym) bytes;;
  store Relaxed (usertest_arena_off sym) 0;;
  Ret true.

Hypothesis bytes_fit : 0 < arena_bytes < 2 ^ 62.

(** What the program has in memory; a block that is returned is aligned, writable and apart from it. *)
Variable used : Z -> Prop.
Hypothesis posix_memalign_ok : forall align n m b, wpr (posix_memalign align n) m b (fun p m' b' => b' = b /\
  (forall a, used a -> m' !! a = m !! a) /\
  (p = 0 \/ (0 < p /\ p mod align = 0 /\ mapped_words p n m' /\ forall a, used a -> ~ in_block p n a))).

Lemma rounded_bytes_ok : arena_bytes <= rounded_bytes < arena_bytes + 64 /\ rounded_bytes mod 64 = 0.
Proof.
  unfold rounded_bytes. destruct (Z.eqb_spec (arena_bytes mod 64) 0) as [E|E]; cbn [negb]; [lia|].
  rewrite (u64_id (arena_bytes + 64 - 1)) by lia.
  pose proof (Z.mul_div_le (arena_bytes + 64 - 1) 64 ltac:(lia)).
  pose proof (Z.mul_succ_div_gt (arena_bytes + 64 - 1) 64 ltac:(lia)).
  rewrite u64_id by lia. split; [lia|by rewrite Z_mod_mult].
Qed.

Lemma zero_words_ok p n m b : (forall i, 0 <= i < Z.of_nat n -> is_Some (m !! (p + 8 * i))) ->
  wpr (zero_words p n) m b (fun _ m' b' => b' = b /\ updates (in_block p (8 * Z.of_nat n)) m m' /\
    forall i, 0 <= i < Z.of_nat n -> m' !! (p + 8 * i) = Some 0).
Proof.
  revert p m. induction n as [|n IH]; intros p m Hm; cbn [zero_words].
  { apply wpr_ret. split; [done|]. split; [apply updates_refl|]. lia. }
  eapply wpr_bind, wpr_store; [by specialize (Hm 0 ltac:(lia)); rewrite Z.add_0_r in Hm|].
  eapply wpr_mono; [apply IH|].
  - intros i Hi. apply lookup_ins_is_Some. replace (p + 8 + 8 * i) with (p + 8 * (i + 1)) by lia. apply Hm. lia.
  - intros _ m' b' (-> & Hu & Hz). split; [done|]. split.
    + eapply updates_trans; [apply (updates_insert _ m p 0); unfold in_block; lia|]. eapply updates_mono; [exact Hu|].
      unfold in_block. lia.
    + intros i Hi. destruct (decide (i = 0)) as [->|Hne].
      * destruct Hu as [Hu _]. rewrite Hu by (unfold in_block; lia). rewrite Z.add_0_r. apply lookup_insert_eq.
      * replace (p + 8 * i) with (p + 8 + 8 * (i - 1)) by lia. apply Hz. lia.
Qed.

(** It aborts, or the arena is empty, and sound beside whatever was there before; that is as it was. *)
Lemma arena_init_ok m b live :
  mapped_words sym 24 m -> (forall a, in_block sym 24 a -> used a) ->
  (forall a, in_live live a -> used a /\ ~ in_block sym 24 a) ->
  wpr usertest_arena_init_once m b (fun ok m' b' => b' = b /\ (ok = true ->
    (forall a, used a -> ~ in_block sym 24 a -> m' !! a = m !! a) /\
    exists base, (0 < base /\ base mod 8 = 0 /\ (sym + 24 <= base \/ base + rounded_bytes <= sym)) /\
      arena_state sym base rounded_bytes 0 m' /\ arena_heap_ok sym base rounded_bytes live m')).
Proof.
  intros Hsym Hused Hlive. destruct rounded_bytes_ok as [Hrb H64]. unfold usertest_arena_init_once.
  eapply wpr_call; [apply posix_memalign_ok|]. intros p m1 b1 (-> & Hsame & Hp). destruct (Z.eqb_spec p 0) as [_|Hne].
  { apply wpr_ret. by split. }
  destruct Hp as [?|(Hpos & Hal & Hmap & Hfree)]; [done|].
  assert (Hwords : 8 * Z.of_nat (Z.to_nat (rounded_bytes / 8)) = rounded_bytes) by (Z.div_mod_to_equations; lia).
  assert (Hapart : sym + 24 <= p \/ p + rounded_bytes <= sym).
  { destruct (Z.le_gt_cases (sym + 24) p) as [|H1]; [by left|]. destruct (Z.le_gt_cases (p + rounded_bytes) sym) as [|H2]; [by right|].
    exfalso. apply (Hfree (Z.max sym p)); [apply Hused|]; unfold in_block; lia. }
  eapply wpr_call; [apply (zero_words_ok p (Z.to_nat (rounded_bytes / 8)) m1 b)|].
  { intros i Hi. apply Hmap; lia. }
  rewrite Hwords. intros _ m2 b2 (-> & [Hu Hg] & Hz).
  assert (Hs2 : forall a, used a -> m2 !! a = m !! a) by (intros a Ha; rewrite Hu by (by apply Hfree); by apply Hsame).
  assert (Hcell : forall i, 0 <= i < 3 -> is_Some (m2 !! (sym + 8 * i)))
    by (intros i Hi; rewrite Hs2 by (apply Hused; unfold in_block; lia); apply Hsym; lia).
  pose proof (Hcell 0 ltac:(lia)) as C0. pose proof (Hcell 1 ltac:(lia)) as C1. pose proof (Hcell 2 ltac:(lia)) as C2.
  unfold usertest_arena_base, usertest_arena_bytes, usertest_arena_off. replace (sym + 8 * 0) with (sym + 0) in C0 by lia.
  eapply wpr_bind, wpr_store; [exact C1|]. eapply wpr_bind, wpr_store; [by apply lookup_ins_is_Some|].
  eapply wpr_bind, wpr_store; [by do 2 apply lookup_ins_is_Some|]. apply wpr_ret. split; [done|]. intros _.
  set (m3 := <[sym + 0:=0]> _).
  assert (Hout : forall a, ~ in_block sym 24 a -> m3 !! a = m2 !! a)
    by (intros a Ha; unfold m3; rewrite !lookup_insert_ne by (unfold in_block in Ha; lia); done).
  split; [intros a Ha Hns; by rewrite Hout, Hs2|]. exists p.
  assert (Hst : arena_state sym p rounded_bytes 0 m3).
  { split; unfold usertest_arena_base, usertest_arena_bytes, usertest_arena_off, m3; try mlook; [|done].
    intros i Hi Hin. do 3 apply lookup_ins_is_Some. rewrite Hz by lia. done. }
  split; [split; [done|split; [Z.div_mod_to_equations; lia|done]]|]. split; [done|]. exists 0. split; [done|].
  intros a [Ha|Ha] Hl; destruct (Hlive a Hl) as [H1 H2]; [done|]. apply (Hfree a H1). unfold in_block in *. lia.
Qed.
End init.
