(* ===== verification/Duet.v ===== *)
(** * One producer and one consumer on a shared structure.

    [Duet] is what a structure that is shared by one inserting and one popping thread promises
    to programs that use it that way: what each side relies on, what it knows between two
    operations, and the history of the operations that took effect. [DuetLaws] holds the proof
    obligations: the relies are compatible with each other's moves, the history is legal, and the
    two operations, run among the other side's moves, each add one event to it. The rings
    ([Spsc], [SpscRings]) and the linked FIFO ([FifoConc]) implement the interface;
    [duet_linearizable] and the drivers of [Usertest] are proved against it. *)
From stdpp Require Import base numbers gmap list fin_maps option relations.
From S2P Require Import Prelude Machine Logic Api Container Conc.

(** ** Histories seen by one side *)

Definition is_insert (ev : event) : bool :=
  match ev with EInsert _ _ => true | EPop _ _ _ => false end.

Definition inserts (H : list event) : list event := List.filter is_insert H.
Definition pops (H : list event) : list event := List.filter (fun ev => negb (is_insert ev)) H.

#[global] Arguments inserts : simpl never.
#[global] Arguments pops : simpl never.

Lemma inserts_snoc H e r : inserts (H ++ [EInsert e r]) = inserts H ++ [EInsert e r].
Proof. unfold inserts. by rewrite List.filter_app. Qed.

Lemma inserts_snoc_pop H d r o : inserts (H ++ [EPop d r o]) = inserts H.
Proof. unfold inserts. by rewrite List.filter_app, app_nil_r. Qed.

Lemma pops_snoc H d r o : pops (H ++ [EPop d r o]) = pops H ++ [EPop d r o].
Proof. unfold pops. by rewrite List.filter_app. Qed.

Lemma pops_snoc_insert H e r : pops (H ++ [EInsert e r]) = pops H.
Proof. unfold pops. by rewrite List.filter_app, app_nil_r. Qed.

(** What entered is in the producer's events, what left in the consumer's. *)
Lemma accepted_inserts H : accepted (inserts H) = accepted H.
Proof.
  induction H as [|[e r|d r o] H IH]; [done| |].
  - change (inserts (EInsert e r :: H)) with (EInsert e r :: inserts H).
    by rewrite accepted_cons, IH, <- accepted_cons.
  - change (inserts (EPop d r o :: H)) with (inserts H). by rewrite accepted_cons.
Qed.

Lemma popped_pops H : popped (pops H) = popped H.
Proof.
  induction H as [|[e r|d r o] H IH]; [done| |].
  - change (pops (EInsert e r :: H)) with (pops H). by rewrite popped_cons.
  - change (pops (EPop d r o :: H)) with (EPop d r o :: pops H).
    by rewrite popped_cons, IH, <- popped_cons.
Qed.

(** A thread that performs operations one after the other. *)
Fixpoint perform (C : Container) (ops : list op) : prog (list event) :=
  match ops with
  | [] => Ret []
  | o :: ops' =>
      ev ← run_op o;
      evs ← perform C ops';
      Ret (ev :: evs)
  end.

(** ** The interface *)

(** [du_pcells] and [du_ccells] are cells outside the structure in which the producer and the
    consumer keep data of their own. *)
Class Duet := {
  du_ghost : Type;
  du_inv : mem * du_ghost -> Prop;
  du_prely : mem * du_ghost -> mem * du_ghost -> Prop;
  du_crely : mem * du_ghost -> mem * du_ghost -> Prop;
  du_pguar : mem * du_ghost -> mem * du_ghost -> Prop;
  du_cguar : mem * du_ghost -> mem * du_ghost -> Prop;
  du_hist : du_ghost -> list event;
  du_items : du_ghost -> list ds_kv;
  du_producing : list event -> mem * du_ghost -> Prop;
  du_consuming : list event -> mem * du_ghost -> Prop;
  du_pcells : Z -> Prop;
  du_ccells : Z -> Prop
}.

(** [repr] describes memory at every moment, [quiet] while no insertion is in progress; up to
    [lim] insertions are served. The moves of an operation are within the other's rely and leave
    the cells of their own thread alone. *)
Class DuetLaws `{K : Kernel} (U : Duet) (repr quiet : list ds_kv -> mem -> Prop) (d : discipline)
    (l0 : list ds_kv) (lim : nat) (CP CC : Container) := {
  du_prely_preorder :: PreOrder du_prely;
  du_crely_preorder :: PreOrder du_crely;
  du_prely_inv s s' : du_inv s -> du_prely s s' -> du_inv s';
  du_crely_inv s s' : du_inv s -> du_crely s s' -> du_inv s';
  du_pguar_refl :: Reflexive du_pguar;
  du_cguar_refl :: Reflexive du_cguar;
  du_pguar_ok s s' : du_inv s -> du_pguar s s' ->
    du_crely s s' /\ forall a, du_pcells a -> s'.1 !! a = s.1 !! a;
  du_cguar_ok s s' : du_inv s -> du_cguar s s' ->
    du_prely s s' /\ forall a, du_ccells a -> s'.1 !! a = s.1 !! a;
  du_producing_stable I :: Stable du_prely (du_producing I);
  du_consuming_stable O :: Stable du_crely (du_consuming O);
  du_legal m g : du_inv (m, g) -> repr (du_items g) m /\ abs_steps d l0 (du_hist g) (du_items g);
  du_producing_ok I m g : du_producing I (m, g) ->
    du_inv (m, g) /\ inserts (du_hist g) = I /\ quiet (du_items g) m;
  du_consuming_ok O m g : du_consuming O (m, g) -> du_inv (m, g) /\ pops (du_hist g) = O;
  du_insert I e : (length I < lim)%nat ->
    triple du_prely du_pguar (du_producing I) (c_insert (Container := CP) (kv_key e) (kv_value e))
      (fun r => du_producing (I ++ [EInsert e r]));
  du_pop O x :
    triple du_crely du_cguar (du_consuming O) (c_pop (Container := CC) (Some x))
      (fun r => du_consuming (O ++ [EPop x r.1 r.2]));
  (** each side may write its own cells, and nobody else does *)
  du_pcells_kept s s' a : du_inv s -> du_prely s s' -> du_pcells a -> s'.1 !! a = s.1 !! a;
  du_ccells_kept s s' a : du_inv s -> du_crely s s' -> du_ccells a -> s'.1 !! a = s.1 !! a;
  du_pcells_write I m g a v : du_pcells a -> is_Some (m !! a) -> du_producing I (m, g) ->
    du_crely (m, g) (<[a:=v]> m, g) /\ du_producing I (<[a:=v]> m, g);
  du_ccells_write O m g a v : du_ccells a -> is_Some (m !! a) -> du_consuming O (m, g) ->
    du_prely (m, g) (<[a:=v]> m, g) /\ du_consuming O (<[a:=v]> m, g)
}.

(** ** Linearizability *)

(** What the two threads did together, from contents [l0] on: at every moment memory holds the
    contents reached by one legal sequential history, and a thread that has ended saw exactly its
    part of that history. *)
Definition spsc_outcome (repr quiet : list ds_kv -> mem -> Prop) (d : discipline) (l0 : list ds_kv)
    (es ds : list ds_kv) (ts : list (thread (list event))) (m : mem) : Prop :=
  exists l H, repr l m /\ abs_steps d l0 H l /\
    (forall evs b, ts !! 0%nat = Some (Ret evs, b) ->
       map event_op evs = map OInsert es /\ evs = inserts H /\ quiet l m) /\
    (forall evs b, ts !! 1%nat = Some (Ret evs, b) ->
       map event_op evs = map OPop ds /\ evs = pops H).

Definition spsc_linearizable `{K : Kernel} (repr quiet : list ds_kv -> mem -> Prop) (d : discipline)
    (l0 : list ds_kv) (es ds : list ds_kv) (producer consumer : prog (list event)) (m : mem) : Prop :=
  forall b0 b1, let pool := [(producer, b0); (consumer, b1)] in
  Acc (flip pool_step) (pool, m) /\
  forall ts m', rtc pool_step (pool, m) (ts, m') ->
    (forall i t, ts !! i = Some t -> ~ thread_faults t m' /\ t.1 <> NoFuel) /\
    spsc_outcome repr quiet d l0 es ds ts m'.

(** Once both threads are done, what the consumer took followed by what is left inside is what
    was there followed by what the producer put in, in order. *)
Lemma spsc_outcome_fifo repr quiet d l0 es ds ts m evs0 b0 evs1 b1 :
  d_add d = fifo_add -> spsc_outcome repr quiet d l0 es ds ts m ->
  ts !! 0%nat = Some (Ret evs0, b0) -> ts !! 1%nat = Some (Ret evs1, b1) ->
  exists l, quiet l m /\ popped evs1 ++ l = l0 ++ accepted evs0.
Proof.
  intros Hadd (l & H & Hr & Hs & H0 & H1) E0 E1.
  destruct (H0 _ _ E0) as (_ & -> & Hq). destruct (H1 _ _ E1) as [_ ->].
  exists l. split; [done|]. rewrite popped_pops, accepted_inserts. by eapply fifo_history.
Qed.

Section duet.
Context `{K : Kernel} {U : Duet} {repr quiet : list ds_kv -> mem -> Prop} {d : discipline}
  {l0 : list ds_kv} {lim : nat} {CP CC : Container}.
Context `{L : !DuetLaws U repr quiet d l0 lim CP CC}.
Implicit Types (s : mem * du_ghost) (I O : list event).

(** An operation, next to what the thread keeps in cells of its own. *)
Definition keeps (c : list (Z * Z)) s : Prop := Forall (fun av => s.1 !! av.1 = Some av.2) c.

Lemma producer_calls I e c : (length I < lim)%nat -> Forall (fun av => du_pcells av.1) c ->
  triple du_prely du_crely (fun s => du_producing I s /\ keeps c s)
    (c_insert (Container := CP) (kv_key e) (kv_value e))
    (fun r s => du_producing (I ++ [EInsert e r]) s /\ keeps c s).
Proof.
  intros HI Hc b [m g] Hb [Hp Hk]. pose proof (du_insert I e HI b (m, g) Hb Hp) as Ho.
  assert (Hi : du_inv (m, g)) by by eapply du_producing_ok.
  eapply rg_mono; [apply _..|eapply (rg_frame _ _ _ du_inv (keeps c)); [| |done..|exact Ho]|
    intros a b' s' [[H1 H2] H3]; exact (conj H1 (conj H2 H3))].
  - intros s s' Hs HR. split; [by eapply du_prely_inv|]. unfold keeps. rewrite !Forall_forall in *. intros Hx av Hav. rewrite <- (Hx _ Hav). by apply (du_pcells_kept s s'), Hc.
  - intros s s' Hs HG. destruct (du_pguar_ok s s' Hs HG) as [HR Hkeep].
    split; [by eapply du_crely_inv|]. split; [done|]. unfold keeps. rewrite !Forall_forall in *. intros Hx av Hav. rewrite <- (Hx _ Hav). by apply Hkeep, Hc.
Qed.

Lemma consumer_calls O x c : Forall (fun av => du_ccells av.1) c ->
  triple du_crely du_prely (fun s => du_consuming O s /\ keeps c s) (c_pop (Container := CC) (Some x))
    (fun r s => du_consuming (O ++ [EPop x r.1 r.2]) s /\ keeps c s).
Proof.
  intros Hc b [m g] Hb [Hp Hk]. pose proof (du_pop O x b (m, g) Hb Hp) as Ho.
  assert (Hi : du_inv (m, g)) by by eapply du_consuming_ok.
  eapply rg_mono; [apply _..|eapply (rg_frame _ _ _ du_inv (keeps c)); [| |done..|exact Ho]|
    intros a b' s' [[H1 H2] H3]; exact (conj H1 (conj H2 H3))].
  - intros s s' Hs HR. split; [by eapply du_crely_inv|]. unfold keeps. rewrite !Forall_forall in *. intros Hx av Hav. rewrite <- (Hx _ Hav). by apply (du_ccells_kept s s'), Hc.
  - intros s s' Hs HG. destruct (du_cguar_ok s s' Hs HG) as [HR Hkeep].
    split; [by eapply du_prely_inv|]. split; [done|]. unfold keeps. rewrite !Forall_forall in *. intros Hx av Hav. rewrite <- (Hx _ Hav). by apply Hkeep, Hc.
Qed.

(** One operation, as an event. *)
Lemma producer_op I e : (length I < lim)%nat ->
  triple du_prely du_crely (du_producing I) (@run_op CP (OInsert e))
    (fun ev s => event_op ev = OInsert e /\ du_producing (I ++ [ev]) s).
Proof.
  intros HI. cbn [run_op]. eapply triple_bind; [apply _..| |].
  - eapply triple_pre; [by apply (producer_calls I e [])|]. by split; [|constructor].
  - intros r. apply (triple_pre _ _ _ _ (du_producing (I ++ [EInsert e r]))); [|by intros s []].
    by apply triple_ret; [apply _|].
Qed.

Lemma consumer_op O x :
  triple du_crely du_prely (du_consuming O) (@run_op CC (OPop x))
    (fun ev s => event_op ev = OPop x /\ du_consuming (O ++ [ev]) s).
Proof.
  cbn [run_op]. eapply triple_bind; [apply _..| |].
  - eapply triple_pre; [by apply (consumer_calls O x [])|]. by split; [|constructor].
  - intros [r out]. apply (triple_pre _ _ _ _ (du_consuming (O ++ [EPop x r out]))); [|by intros s []].
    by apply triple_ret; [apply _|].
Qed.

Lemma producer_ok es I : (length I + length es <= lim)%nat ->
  triple du_prely du_crely (du_producing I) (perform CP (map OInsert es))
    (fun evs s => map event_op evs = map OInsert es /\ du_producing (I ++ evs) s).
Proof.
  revert I. induction es as [|e es IH]; intros I HI; cbn [perform map length] in *.
  - apply triple_ret; [apply _|]. intros s Hs. by rewrite app_nil_r.
  - eapply triple_bind; [apply _..|apply producer_op; lia|]. intros ev. apply triple_pure. intros Hev.
    eapply triple_bind; [apply _..|apply IH; rewrite length_app; cbn; lia|]. intros evs. apply triple_pure.
    intros Hevs. apply triple_ret; [apply _|]. intros s Hs. cbn. rewrite Hev, Hevs.
    by rewrite <- app_assoc in Hs.
Qed.

Lemma consumer_ok ds O :
  triple du_crely du_prely (du_consuming O) (perform CC (map OPop ds))
    (fun evs s => map event_op evs = map OPop ds /\ du_consuming (O ++ evs) s).
Proof.
  revert O. induction ds as [|x ds IH]; intros O; cbn [perform map].
  - apply triple_ret; [apply _|]. intros s Hs. by rewrite app_nil_r.
  - eapply triple_bind; [apply _..|apply consumer_op|]. intros ev. apply triple_pure. intros Hev.
    eapply triple_bind; [apply _..|apply IH|]. intros evs. apply triple_pure.
    intros Hevs. apply triple_ret; [apply _|]. intros s Hs. cbn. rewrite Hev, Hevs.
    by rewrite <- app_assoc in Hs.
Qed.

(** *** The pool of the two threads *)

Definition rely_of (i : nat) : mem * du_ghost -> mem * du_ghost -> Prop :=
  match i with O => du_prely | S O => du_crely | _ => fun _ _ => True end.

Definition guar_of (i : nat) : mem * du_ghost -> mem * du_ghost -> Prop :=
  match i with O => du_crely | S O => du_prely | _ => eq end.

Lemma rely_of_preorder i : PreOrder (rely_of i).
Proof. destruct i as [|[|i]]; cbn; [apply _..|]. by split. Qed.

Lemma guar_of_compatible i j s s' : i <> j -> guar_of i s s' -> rely_of j s s'.
Proof. destruct i as [|[|i]], j as [|[|j]]; cbn; done || (intros _ <-; reflexivity). Qed.

Lemma guar_of_inv i s s' : du_inv s -> guar_of i s s' -> du_inv s'.
Proof.
  destruct i as [|[|i]]; cbn; intros Hi; [by apply du_crely_inv|by apply du_prely_inv|by intros <-].
Qed.

(** Any two programs of a producer and a consumer: what holds of their pool. *)
Lemma duet_pool {A} (p0 p1 : prog A) P0 P1 (Q0 Q1 : A -> mem * du_ghost -> Prop) m g b0 b1 ts m' :
  triple du_prely du_crely P0 p0 Q0 -> triple du_crely du_prely P1 p1 Q1 ->
  du_inv (m, g) -> P0 (m, g) -> P1 (m, g) ->
  rtc pool_step ([(p0, b0); (p1, b1)], m) (ts, m') ->
  (forall i t, ts !! i = Some t -> ~ thread_faults t m' /\ t.1 <> NoFuel) /\
  exists g', du_inv (m', g') /\
    (forall a b, ts !! 0%nat = Some (Ret a, b) -> Q0 a (m', g')) /\
    (forall a b, ts !! 1%nat = Some (Ret a, b) -> Q1 a (m', g')).
Proof.
  intros H0 H1 Hi0 Hp Hc Hs.
  set (Q := fun i (a : A) s => match i with O => Q0 a s | _ => Q1 a s end).
  assert (Hpool : pool_ok rely_of guar_of Q [(p0, b0); (p1, b1)] (m, g)).
  { intros [|[|i]] p b [= <- <-].
    - eapply (triple_thread _ _ _ _ _ _ Q0); [exact H0|lia|done].
    - eapply (triple_thread _ _ _ _ _ _ Q1); [exact H1|lia|done]. }
  destruct (pool_safe rely_of guar_of Q rely_of_preorder guar_of_compatible du_inv guar_of_inv
    _ _ _ _ _ Hpool Hi0 Hs) as (g' & Hok & Hi).
  pose proof (pool_ok_thread rely_of guar_of Q rely_of_preorder ts m' g') as Ht. split.
  { intros i [p b] Hi'. destruct (Ht _ _ _ Hok Hi') as (? & ? & _). done. }
  exists g'. split; [done|]. split; intros a b E; destruct (Ht _ _ _ Hok E) as (_ & _ & Hq); by apply Hq.
Qed.

Lemma duet_linearizable es ds m g :
  (length es <= lim)%nat -> du_producing [] (m, g) -> du_consuming [] (m, g) ->
  spsc_linearizable repr quiet d l0 es ds (perform CP (map OInsert es)) (perform CC (map OPop ds)) m.
Proof.
  intros Hes Hp Hc b0 b1 pool. split; [apply pool_terminates|]. intros ts m' Hs.
  assert (Hi0 : du_inv (m, g)) by by eapply du_producing_ok.
  destruct (duet_pool _ _ _ _ _ _ _ _ _ _ _ _ (producer_ok es [] Hes) (consumer_ok ds []) Hi0 Hp Hc Hs)
    as (Hok & g' & Hi & H0 & H1).
  split; [done|]. destruct (du_legal _ _ Hi) as [Hr Ha]. exists (du_items g'), (du_hist g').
  split; [done|]. split; [done|]. split.
  - intros evs b E. destruct (H0 _ _ E) as [Hm Hq].
    by destruct (du_producing_ok _ _ _ Hq) as (_ & -> & ?).
  - intros evs b E. destruct (H1 _ _ E) as [Hm Hq]. by destruct (du_consuming_ok _ _ _ Hq) as (_ & ->).
Qed.
End duet.
