(* ===== verification/Spsc.v ===== *)
(** * Rings shared by one producer and one consumer, in every interleaving.

    The ghost state of a ring is its linearization: the elements retired so far, the contents,
    and the history of the operations that took effect, each at one of its memory accesses. A
    refused insertion takes effect when it reads the consumer's index, an accepted one when it
    publishes its own; an empty pop when it reads the producer's index, a successful one when it
    publishes its own. [SpscRing] states what a ring needs so that the accesses of a producer
    respect what the consumer relies on and vice versa; [ring_duet_laws] makes it a [Duet]. *)
From stdpp Require Import base numbers gmap list fin_maps option relations.
From S2P Require Import Prelude Machine Logic Api Container Conc Duet.

(** ** Rings *)

(** Positions are unbounded; [sp_enc] is the index the code keeps for one, [sp_key] and
    [sp_value] are the cells of the slot it falls into. [sp_pcells] and [sp_ccells] are cells
    outside the ring that belong to the producer and the consumer. *)
Class SpscRing := {
  sp_repr : Z -> list ds_kv -> mem -> Prop;
  sp_cap : Z;
  sp_enc : Z -> Z;
  sp_prod : Z;
  sp_cons : Z;
  sp_key : Z -> Z;
  sp_value : Z -> Z;
  sp_pcells : Z -> Prop;
  sp_ccells : Z -> Prop
}.

Class SpscRingLaws (R : SpscRing) := {
  sp_len D l m : sp_repr D l m -> Zlen l <= sp_cap;
  sp_read_prod D l m : sp_repr D l m -> m !! sp_prod = Some (sp_enc (D + Zlen l));
  sp_read_cons D l m : sp_repr D l m -> m !! sp_cons = Some (sp_enc D);
  sp_slot D l m p : sp_repr D l m -> is_Some (m !! sp_key p) /\ is_Some (m !! sp_value p);
  sp_head D e l m : sp_repr D (e :: l) m ->
    m !! sp_key D = Some (kv_key e) /\ m !! sp_value D = Some (kv_value e);
  sp_scribble D l m a v : sp_repr D l m -> Zlen l < sp_cap ->
    a = sp_key (D + Zlen l) \/ a = sp_value (D + Zlen l) -> sp_repr D l (<[a:=v]> m);
  sp_publish D l m e : sp_repr D l m -> Zlen l < sp_cap ->
    m !! sp_key (D + Zlen l) = Some (kv_key e) -> m !! sp_value (D + Zlen l) = Some (kv_value e) ->
    sp_repr D (l ++ [e]) (<[sp_prod:=sp_enc (D + Zlen l + 1)]> m);
  sp_retire D e l m : sp_repr D (e :: l) m -> sp_repr (D + 1) l (<[sp_cons:=sp_enc (D + 1)]> m);
  sp_apart p : sp_cons <> sp_key p /\ sp_cons <> sp_value p /\ sp_cons <> sp_prod /\
               sp_key p <> sp_value p;
  sp_extra a : sp_pcells a \/ sp_ccells a ->
    a <> sp_cons /\ a <> sp_prod /\ forall p, a <> sp_key p /\ a <> sp_value p;
  sp_extra_apart a : sp_pcells a -> ~ sp_ccells a;
  sp_extra_write D l m a v : sp_pcells a \/ sp_ccells a -> sp_repr D l m -> sp_repr D l (<[a:=v]> m)
}.

Record view := mk_view { v_done : Z; v_items : list ds_kv; v_hist : list event }.

(** Memory holds the elements [l] of a ring that has retired some. *)
Definition ring_holds (repr : Z -> list ds_kv -> mem -> Prop) (l : list ds_kv) (m : mem) : Prop :=
  exists D, repr D l m.

Section spsc.
Context `{K : Kernel} `{R : SpscRing} `{!SpscRingLaws R}.
Variable l0 : list ds_kv.
Implicit Types (s : mem * view) (e d : ds_kv) (P D : Z).

Notation disc := (bounded fifo_add sp_cap DS_ERROR_FULL).

Definition ring_inv s : Prop :=
  sp_repr s.2.(v_done) s.2.(v_items) s.1 /\ abs_steps disc l0 s.2.(v_hist) s.2.(v_items).

(** What the consumer may do while the producer is at work, and vice versa. *)
Definition prod_rely s s' : Prop :=
  ring_inv s -> ring_inv s' /\
    s'.2.(v_done) + Zlen s'.2.(v_items) = s.2.(v_done) + Zlen s.2.(v_items) /\
    Zlen s'.2.(v_items) <= Zlen s.2.(v_items) /\
    inserts s'.2.(v_hist) = inserts s.2.(v_hist) /\
    unchanged_outside (fun a => a = sp_cons \/ sp_ccells a) s.1 s'.1.

Definition cons_rely s s' : Prop :=
  ring_inv s -> ring_inv s' /\
    s'.2.(v_done) = s.2.(v_done) /\
    s.2.(v_items) `prefix_of` s'.2.(v_items) /\
    pops s'.2.(v_hist) = pops s.2.(v_hist) /\
    (forall a, sp_ccells a -> s'.1 !! a = s.1 !! a).

#[global] Instance prod_rely_preorder : PreOrder prod_rely.
Proof.
  split.
  - intros s Hi. split_and!; done || lia || apply unchanged_refl.
  - intros s1 s2 s3 H12 H23 Hi. destruct (H12 Hi) as (Hi2 & E1 & E2 & E3 & E4).
    destruct (H23 Hi2) as (Hi3 & F1 & F2 & F3 & F4).
    split_and!; [done|lia|lia|congruence|by eapply unchanged_trans].
Qed.

#[global] Instance cons_rely_preorder : PreOrder cons_rely.
Proof.
  split.
  - intros s Hi. by split_and!.
  - intros s1 s2 s3 H12 H23 Hi. destruct (H12 Hi) as (Hi2 & E1 & E2 & E3 & E4).
    destruct (H23 Hi2) as (Hi3 & F1 & F2 & F3 & F4).
    split_and!; [done|congruence|by etrans|congruence|]. intros a Ha. by rewrite F4, E4.
Qed.

(** What the accesses of an operation may do. *)
Definition prod_guar s s' : Prop :=
  ring_inv s -> cons_rely s s' /\ forall a, sp_pcells a -> s'.1 !! a = s.1 !! a.

Definition cons_guar s s' : Prop :=
  ring_inv s -> prod_rely s s' /\ forall a, sp_ccells a -> s'.1 !! a = s.1 !! a.

#[global] Instance prod_guar_refl : Reflexive prod_guar.
Proof. intros s _. by split. Qed.

#[global] Instance cons_guar_refl : Reflexive cons_guar.
Proof. intros s _. by split. Qed.

(** A ring cell, written. *)
Lemma sp_not_extra a c : sp_pcells c \/ sp_ccells c ->
  a = sp_cons \/ a = sp_prod \/ (exists p, a = sp_key p \/ a = sp_value p) -> a <> c.
Proof.
  intros Hc Ha ->. destruct (sp_extra c Hc) as (H1 & H2 & H3).
  destruct Ha as [?|[?|(p & ?)]]; [done..|]. by destruct (H3 p), H.
Qed.

(** ** The producer *)

(** The next free position is [P], the insertions so far are [I]. *)
Definition producing P (I : list event) s : Prop :=
  ring_inv s /\ s.2.(v_done) + Zlen s.2.(v_items) = P /\ inserts s.2.(v_hist) = I.

(** There is room, and the cells [c] of the free slot have been written. *)
Definition filling P I (c : list (Z * Z)) s : Prop :=
  producing P I s /\ Zlen s.2.(v_items) < sp_cap /\
  Forall (fun av => (av.1 = sp_key P \/ av.1 = sp_value P) /\ s.1 !! av.1 = Some av.2) c.

#[global] Instance producing_stable P I : Stable prod_rely (producing P I).
Proof.
  intros s s' (Hi & HP & HI) HR. destruct (HR Hi) as (Hi' & E1 & E2 & E3 & _).
  by split_and!; [|congruence|congruence].
Qed.

#[global] Instance filling_stable P I c : Stable prod_rely (filling P I c).
Proof.
  intros s s' (Hp & Hroom & Hc) HR. pose proof Hp as (Hi & _ & _).
  split; [by eapply producing_stable|]. destruct (HR Hi) as (_ & _ & E2 & _ & E4).
  split; [lia|]. eapply Forall_impl; [exact Hc|]. intros [a v] [Ha E]; cbn in *. split; [done|].
  rewrite E4; [done|]. destruct (sp_apart P) as (A1 & A2 & _). intros [E'|E']; [destruct Ha; congruence|].
  destruct (sp_extra a (or_intror E')) as (_ & _ & X). destruct (X P), Ha; congruence.
Qed.

Lemma producing_index P I s : producing P I s -> s.1 !! sp_prod = Some (sp_enc P).
Proof. intros ([Hr _] & <- & _). by eapply sp_read_prod. Qed.

(** The consumer's index, read: the insertion is refused here, or has room from here on. *)
Lemma producer_checks {A} o (f : Z -> prog A) P I e Q :
  triple prod_rely prod_guar (producing P (I ++ [EInsert e DS_ERROR_FULL]))
    (f (sp_enc (P - sp_cap))) Q ->
  (forall D, P - sp_cap < D <= P -> triple prod_rely prod_guar (filling P I []) (f (sp_enc D)) Q) ->
  triple prod_rely prod_guar (producing P I) (load o sp_cons ≫= f) Q.
Proof.
  intros Hfull Hroom.
  apply (triple_load_lin _ _ _ _ _ _ (fun v s =>
    (v = sp_enc (P - sp_cap) /\ producing P (I ++ [EInsert e DS_ERROR_FULL]) s) \/
    (exists D, (v = sp_enc D /\ P - sp_cap < D <= P) /\ filling P I [] s))); [apply _| |].
  - intros [m g] (Hi & HP & HI). pose proof Hi as [Hr Hs]. cbn in *. pose proof (sp_len _ _ _ Hr).
    pose proof (Zlen_nonneg g.(v_items)).
    exists (sp_enc g.(v_done)). split; [by eapply sp_read_cons|].
    destruct (decide (Zlen g.(v_items) = sp_cap)) as [Hf|Hf].
    + exists (mk_view g.(v_done) g.(v_items) (g.(v_hist) ++ [EInsert e DS_ERROR_FULL])).
      assert (Hi' : ring_inv (m, mk_view g.(v_done) g.(v_items)
                (g.(v_hist) ++ [EInsert e DS_ERROR_FULL]))).
      { split; [done|]. eapply abs_steps_snoc; [done|]. constructor; [|done]. cbn. split; [lia|done]. }
      split; [intros _; split; [|done]; intros _; split_and!; try done; cbn; apply pops_snoc_insert|].
      left. split; [f_equal; lia|]. split_and!; [done|done|]. cbn. by rewrite inserts_snoc, HI.
    + exists g. split; [reflexivity|]. right. exists g.(v_done).
      split; [split; [done|lia]|]. split; [by split_and!|]. split; [cbn; lia|constructor].
  - intros v. apply triple_or; [by apply triple_pure; intros ->|].
    apply triple_exists. intros D. apply triple_pure. intros [-> HD]. by apply Hroom.
Qed.

(** Writing a cell of the free slot. *)
Lemma producer_writes {A} o a v (f : unit -> prog A) P I c Q :
  (a = sp_key P \/ a = sp_value P) -> Forall (fun av => av.1 <> a) c ->
  triple prod_rely prod_guar (filling P I ((a, v) :: c)) (f tt) Q ->
  triple prod_rely prod_guar (filling P I c) (store o a v ≫= f) Q.
Proof.
  intros Ha Hnew Hf. eapply (triple_store _ _ _ _ _ _ _ (filling P I ((a, v) :: c)));
    [apply _| |done].
  intros [m g] ((Hi & HP & HI) & Hroom & Hc). pose proof Hi as [Hr Hs]. cbn in *.
  destruct (sp_slot _ _ _ P Hr). split; [by destruct Ha as [-> | ->]|].
  assert (Hi' : ring_inv (<[a:=v]> m, g)).
  { split; [|done]. cbn. apply sp_scribble; [done|done|by rewrite HP]. }
  exists g. split.
  { assert (Hkey : forall c', sp_pcells c' \/ sp_ccells c' -> <[a:=v]> m !! c' = m !! c').
    { intros c' Hc'. apply lookup_insert_ne, sp_not_extra; [done|]. right. right. by exists P. }
    intros _. split; [|auto]. intros _. split_and!; auto. }
  split; [by split_and!|]. split; [done|].
  constructor; [split; [done|apply lookup_insert_eq]|].
  clear -Hc Hnew. induction Hc as [|[b w] c [Hb E] Hc IH]; [done|].
  apply Forall_cons in Hnew as [Hne Hnew]. cbn in *. constructor; [|by apply IH]. cbn.
  split; [done|]. by rewrite lookup_insert_ne by done.
Qed.

(** Publishing the slot. *)
Lemma producer_publishes {A} o (f : unit -> prog A) P I e Q :
  triple prod_rely prod_guar (producing (P + 1) (I ++ [EInsert e DS_SUCCESS])) (f tt) Q ->
  triple prod_rely prod_guar
    (filling P I [(sp_value P, kv_value e); (sp_key P, kv_key e)])
    (store o sp_prod (sp_enc (P + 1)) ≫= f) Q.
Proof.
  intros Hf. eapply triple_store; [apply _| |exact Hf].
  intros [m g] ((Hi & HP & HI) & Hroom & Hc). pose proof Hi as [Hr Hs]. cbn in *.
  apply Forall_cons in Hc as [[_ Hv] Hc]. apply Forall_cons in Hc as [[_ Hk] _]. cbn in *.
  split; [eexists; by eapply sp_read_prod|].
  exists (mk_view g.(v_done) (g.(v_items) ++ [e]) (g.(v_hist) ++ [EInsert e DS_SUCCESS])).
  assert (Hi' : ring_inv (<[sp_prod:=sp_enc (P + 1)]> m,
      mk_view g.(v_done) (g.(v_items) ++ [e]) (g.(v_hist) ++ [EInsert e DS_SUCCESS]))).
  { split; cbn.
    - rewrite <- HP. apply sp_publish; try done; by rewrite HP.
    - eapply abs_steps_snoc; [done|]. by apply (abs_insert disc). }
  split.
  { assert (Hkey : forall c', sp_pcells c' \/ sp_ccells c' -> <[sp_prod:=sp_enc (P + 1)]> m !! c' = m !! c')
      by (intros c' Hc'; apply lookup_insert_ne, sp_not_extra; auto).
    intros _. split; [|cbn; auto]. intros _. split_and!; auto; cbn; [by apply prefix_app_r|apply pops_snoc_insert]. }
  split_and!; [done|cbn; rewrite Zlen_snoc; lia|]. cbn. by rewrite inserts_snoc, HI.
Qed.

(** ** The consumer *)

(** [D] elements retired, the pops so far are [O]. *)
Definition consuming D (O : list event) s : Prop :=
  ring_inv s /\ s.2.(v_done) = D /\ pops s.2.(v_hist) = O.

(** The oldest element is [e]. *)
Definition holding D O e s : Prop := consuming D O s /\ head s.2.(v_items) = Some e.

#[global] Instance consuming_stable D O : Stable cons_rely (consuming D O).
Proof.
  intros s s' (Hi & HD & HO) HR. destruct (HR Hi) as (Hi' & E1 & E2 & E3 & _).
  by split_and!; [|congruence|congruence].
Qed.

#[global] Instance holding_stable D O e : Stable cons_rely (holding D O e).
Proof.
  intros s s' (Hc & He) HR. pose proof Hc as (Hi & _). split; [by eapply consuming_stable|].
  destruct (HR Hi) as (_ & _ & [l ->] & _ & _). by destruct (v_items s.2).
Qed.

Lemma consuming_index D O s : consuming D O s -> s.1 !! sp_cons = Some (sp_enc D).
Proof. intros ([Hr _] & <- & _). by eapply sp_read_cons. Qed.

Lemma holding_slot D O e s :
  holding D O e s -> s.1 !! sp_key D = Some (kv_key e) /\ s.1 !! sp_value D = Some (kv_value e).
Proof.
  intros (([Hr _] & <- & _) & He). destruct (v_items s.2) as [|x l]; [done|].
  injection He as ->. by eapply sp_head.
Qed.

(** The producer's index, read: the pop finds the ring empty here, or has an element from here
    on. *)
Lemma consumer_checks {A} o (f : Z -> prog A) D O d Q :
  triple cons_rely cons_guar (consuming D (O ++ [EPop d DS_ERROR_NOT_FOUND (Some d)]))
    (f (sp_enc D)) Q ->
  (forall P e, D < P <= D + sp_cap ->
     triple cons_rely cons_guar (holding D O e) (f (sp_enc P)) Q) ->
  triple cons_rely cons_guar (consuming D O) (load o sp_prod ≫= f) Q.
Proof.
  intros Hempty Hsome.
  apply (triple_load_lin _ _ _ _ _ _ (fun v s =>
    (v = sp_enc D /\ consuming D (O ++ [EPop d DS_ERROR_NOT_FOUND (Some d)]) s) \/
    (exists P, (v = sp_enc P /\ D < P <= D + sp_cap) /\ exists e, holding D O e s))); [apply _| |].
  - intros [m [D' l H]] (Hi & HD & HO). pose proof Hi as [Hr Hs]. cbn in *. subst D'.
    pose proof (sp_len _ _ _ Hr). exists (sp_enc (D + Zlen l)).
    split; [by eapply sp_read_prod|]. destruct l as [|e l].
    + exists (mk_view D [] (H ++ [EPop d DS_ERROR_NOT_FOUND (Some d)])).
      assert (Hi' : ring_inv (m, mk_view D [] (H ++ [EPop d DS_ERROR_NOT_FOUND (Some d)]))).
      { split; [done|]. eapply abs_steps_snoc; [done|]. constructor. }
      split; [intros _; split; [|done]; intros _; split_and!; try done; cbn; apply inserts_snoc_pop|].
      left. split; [by rewrite Zlen_nil, Z.add_0_r|]. split_and!; [done|done|]. cbn.
      by rewrite pops_snoc, HO.
    + exists (mk_view D (e :: l) H).
      split; [reflexivity|]. right.
      pose proof (Zlen_nonneg l). rewrite Zlen_cons in *.
      exists (D + (1 + Zlen l)). split; [split; [f_equal; lia|lia]|]. exists e.
      by split; [split_and!|].
  - intros v. apply triple_or; [by apply triple_pure; intros ->|].
    apply triple_exists. intros P. apply triple_pure. intros [-> HP].
    apply triple_exists. intros e. by apply Hsome.
Qed.

(** Retiring the oldest element. *)
Lemma consumer_retires {A} o (f : unit -> prog A) D O d e Q :
  triple cons_rely cons_guar (consuming (D + 1) (O ++ [EPop d DS_SUCCESS (Some e)])) (f tt) Q ->
  triple cons_rely cons_guar (holding D O e) (store o sp_cons (sp_enc (D + 1)) ≫= f) Q.
Proof.
  intros Hf. eapply triple_store; [apply _| |exact Hf].
  intros [m [D' l H]] ((Hi & HD & HO) & He). pose proof Hi as [Hr Hs]. cbn in *. subst D'.
  destruct l as [|x l]; [done|]. injection He as ->.
  split; [eexists; by eapply sp_read_cons|].
  exists (mk_view (D + 1) l (H ++ [EPop d DS_SUCCESS (Some e)])).
  assert (Hi' : ring_inv (<[sp_cons:=sp_enc (D + 1)]> m,
      mk_view (D + 1) l (H ++ [EPop d DS_SUCCESS (Some e)]))).
  { split; cbn; [by apply (sp_retire _ e)|]. eapply abs_steps_snoc; [done|]. constructor. }
  split.
  - intros _. split.
    + intros _. split_and!; cbn; rewrite ?Zlen_cons, ?inserts_snoc_pop; try done; try lia.
      apply unchanged_insert. by left.
    + intros c Hc. cbn. apply lookup_insert_ne, sp_not_extra; auto.
  - split_and!; [done|done|]. cbn. by rewrite pops_snoc, HO.
Qed.

(** Copying the oldest element out. *)
Lemma consumer_copies {A} ok ov D O e (f : option ds_kv -> prog A) Q :
  triple cons_rely cons_guar (holding D O e) (f (Some e)) Q ->
  triple cons_rely cons_guar (holding D O e)
    ((k ← load ok (sp_key D); v ← load ov (sp_value D); Ret (Some (mk_kv k v))) ≫= f) Q.
Proof.
  intros Hf. eapply (triple_bind _ _ _ _ _ _ (fun x s => x = Some e /\ holding D O e s)).
  - eapply triple_load; [apply _..|intros s Hs; by apply (holding_slot _ _ _ _ Hs)|].
    eapply triple_load; [apply _..|intros s Hs; by apply (holding_slot _ _ _ _ Hs)|].
    apply triple_ret; [apply _|]. intros s Hs. by destruct e.
  - intros x. apply triple_pure. by intros ->.
Qed.

(** ** The pool *)

Definition insert_spec (C : Container) : Prop := forall P I e,
  triple prod_rely prod_guar (producing P I) (c_insert (kv_key e) (kv_value e))
    (fun r s => exists P', producing P' (I ++ [EInsert e r]) s).

Definition pop_spec (C : Container) : Prop := forall D O d,
  triple cons_rely cons_guar (consuming D O) (c_pop (Some d))
    (fun r s => exists D', consuming D' (O ++ [EPop d r.1 r.2]) s).

(** ** A ring is a duet *)

#[local] Instance ring_duet : Duet := {|
  du_ghost := view;
  du_inv := ring_inv;
  du_prely := prod_rely;
  du_crely := cons_rely;
  du_pguar := prod_guar;
  du_cguar := cons_guar;
  du_hist := v_hist;
  du_items := v_items;
  du_producing I s := exists P, producing P I s;
  du_consuming O s := exists D, consuming D O s;
  du_pcells := sp_pcells;
  du_ccells := sp_ccells
|}.

Lemma ring_duet_laws lim CP CC :
  insert_spec CP -> pop_spec CC -> DuetLaws ring_duet (ring_holds sp_repr) (ring_holds sp_repr) disc l0 lim CP CC.
Proof.
  intros HP HC. split; cbn.
  - apply _.
  - apply _.
  - intros s s' Hi HR. by apply HR.
  - intros s s' Hi HR. by apply HR.
  - apply _.
  - apply _.
  - intros s s' Hi HG. by apply HG.
  - intros s s' Hi HG. by apply HG.
  - apply _.
  - apply _.
  - intros m g [Hr Hs]. split; [by exists g.(v_done)|done].
  - intros I m g (P & [Hr Hs] & _ & HI). split; [done|]. split; [done|by exists g.(v_done)].
  - intros O m g (D & Hi & _ & HO). done.
  - intros I e _. apply triple_exists. intros P. apply HP.
  - intros O x. apply triple_exists. intros D. apply HC.
  - intros s s' a Hi HR Ha. destruct (HR Hi) as (_ & _ & _ & _ & Hu). apply Hu.
    intros [->|Hc]; [|by eapply sp_extra_apart]. by destruct (sp_extra _ (or_introl Ha)).
  - intros s s' a Hi HR Ha. destruct (HR Hi) as (_ & _ & _ & _ & Hu). by apply Hu.
  - intros I m g a v Ha _ (P & [Hr Hs] & HP' & HI).
    assert (Hi' : ring_inv (<[a:=v]> m, g)) by (split; [cbn; apply sp_extra_write; auto|done]).
    split; [|by exists P]. intros _. split_and!; try done.
    intros c Hc. apply lookup_insert_ne. intros <-. by eapply sp_extra_apart.
  - intros O m g a v Ha _ (D & [Hr Hs] & HD & HO).
    assert (Hi' : ring_inv (<[a:=v]> m, g)) by (split; [cbn; apply sp_extra_write; auto|done]).
    split; [|by exists D]. intros _. split_and!; try done. apply unchanged_insert. by right.
Qed.

(** The state in which both sides start. *)
Lemma ring_start D m : sp_repr D l0 m ->
  let g := mk_view D l0 [] in
  du_producing [] (m, g) /\ du_consuming [] (m, g).
Proof.
  intros Hr g. assert (Hi : ring_inv (m, g)) by (split; [done|constructor]).
  split; [by eexists|by exists D].
Qed.

Lemma ring_linearizable CP CC es ds m D :
  insert_spec CP -> pop_spec CC -> sp_repr D l0 m ->
  spsc_linearizable (ring_holds sp_repr) (ring_holds sp_repr) disc l0 es ds (perform CP (map OInsert es))
    (perform CC (map OPop ds)) m.
Proof.
  intros HP HC Hr. pose proof (ring_duet_laws (length es) CP CC HP HC) as HL.
  destruct (ring_start D m Hr) as [H1 H2]. by apply (duet_linearizable (L := HL) es ds m (mk_view D l0 [])).
Qed.
End spsc.
