(* ===== verification/Threads.v ===== *)
(** * Any number of threads on one structure: histories, remaining operations, clients.

    Shared by the structures that several threads work on at once. The ghost state of such a
    structure holds a history whose entries carry the number of the thread that made them, and
    for each thread the number of operations that have not taken effect yet. Retry loops end
    because an attempt fails only if another operation took effect. *)
From stdpp Require Import base numbers gmap list fin_maps option relations.
From S2P Require Import Prelude Machine Logic Api Container Conc.

(** ** Histories with thread numbers *)

Notation history := (list (nat * event)).

(** The events of thread [i]. *)
Definition mine (i : nat) (H : history) : list event :=
  omap (fun p => if decide (p.1 = i) then Some p.2 else None) H.

Lemma mine_snoc i H ev : mine i (H ++ [(i, ev)]) = mine i H ++ [ev].
Proof. unfold mine. rewrite omap_app. cbn. by rewrite decide_True. Qed.

Lemma mine_snoc_ne i j H ev : i <> j -> mine j (H ++ [(i, ev)]) = mine j H.
Proof. intros Hne. unfold mine. rewrite omap_app. cbn. by rewrite decide_False, app_nil_r. Qed.

Lemma abs_steps_log d l (H : history) l1 i ev l2 :
  abs_steps d l (H.*2) l1 -> abs_step d l1 ev l2 -> abs_steps d l ((H ++ [(i, ev)]).*2) l2.
Proof. intros Hs Hev. rewrite fmap_app. by eapply abs_steps_snoc. Qed.

#[global] Arguments mine : simpl never.

(** ** Ledgers: a number per thread *)

Lemma sum_list_insert (l : list nat) i x y :
  l !! i = Some x -> (sum_list (<[i:=y]> l) + x = sum_list l + y)%nat.
Proof.
  revert i. induction l as [|z l IH]; intros [|i] Hi; try done; simpl in *; [injection Hi as ->; lia|].
  specialize (IH i Hi). lia.
Qed.

Definition zsum (l : list Z) : Z := foldr Z.add 0 l.

Lemma zsum_insert (l : list Z) i x y : l !! i = Some x -> zsum (<[i:=y]> l) = zsum l - x + y.
Proof.
  revert i. induction l as [|z l IH]; intros [|i] Hi; try done; simpl in *; [injection Hi as ->; lia|].
  specialize (IH i Hi). lia.
Qed.

Lemma zsum_zero (l : list Z) : (forall i x, l !! i = Some x -> x = 0) -> zsum l = 0.
Proof.
  induction l as [|z l IH]; intros H; [done|]. simpl. rewrite (H 0%nat z) by done.
  apply IH. intros i x Hi. by apply (H (S i)).
Qed.

#[global] Arguments zsum : simpl never.

(** Whoever has a ledger has a number below [N]. *)
Lemma who_snoc {X} N (ledger : list Z) (H : list (nat * X)) i o x :
  length ledger = N -> ledger !! i = Some o -> Forall (fun p => (p.1 < N)%nat) H ->
  Forall (fun p => (p.1 < N)%nat) (H ++ [(i, x)]).
Proof.
  intros <- Hi HH. apply Forall_app. split; [done|]. apply Forall_singleton. by apply lookup_lt_Some in Hi.
Qed.

(** ** Turns of the budget *)

(** What a retry loop [k] steps from its end needs when [n] turns are to be left over. *)
Definition cost (s : side) (n k : nat) : nat := match s with BPF => (k + n)%nat | USER => n end.

Lemma cost_mono s n k k' : (k <= k')%nat -> (cost s n k <= cost s n k')%nat.
Proof. destruct s; cbn; lia. Qed.

Lemma cost_end s n k : (n <= cost s n k)%nat.
Proof. destruct s; cbn; lia. Qed.

(** [n] operations of at most [t] turns each. *)
Definition spend (s : side) (t n : nat) : nat := match s with BPF => (n * t)%nat | USER => 0%nat end.

Lemma spend_succ s t n : cost s (spend s t n) t = spend s t (S n).
Proof. by destruct s. Qed.
