(* ===== verification/Crowd.v ===== *)
(** * Any number of threads on a shared structure.

    [Crowd] is what a structure that any number of threads share promises to the programs of those
    threads: what each relies on and guarantees, what it knows between two operations, and the
    events it has seen. [CrowdLaws] holds the proof obligations. The structure leaves the cells of
    its clients alone and they leave it alone; what they keep there is theirs to agree on
    ([rg_extend] adds it to the ghost state). *)
From stdpp Require Import base numbers gmap list fin_maps option relations.
From S2P Require Import Prelude Machine Logic Api Container Conc Threads.

Class Crowd := {
  cr_ghost : Type;
  cr_inv : mem * cr_ghost -> Prop;
  cr_rely : nat -> mem * cr_ghost -> mem * cr_ghost -> Prop;
  cr_guar : nat -> mem * cr_ghost -> mem * cr_ghost -> Prop;
  (** thread, insertions and pops it may still begin, its events *)
  cr_at : nat -> nat -> nat -> list event -> mem * cr_ghost -> Prop;
  cr_seen : cr_ghost -> nat -> list event;
  cr_items : cr_ghost -> list ds_kv;
  cr_cells : Z -> Prop
}.

#[export] Instance popped_perm : Proper ((≡ₚ) ==> (≡ₚ)) popped.
Proof. intros x y H. unfold popped. by rewrite H. Qed.

#[export] Instance accepted_perm : Proper ((≡ₚ) ==> (≡ₚ)) accepted.
Proof. intros x y H. unfold accepted. by rewrite H. Qed.

(** The events of [N] threads, one thread after the other. *)
Definition all_seen `{Crowd} (g : cr_ghost) (N : nat) : list event := concat (map (cr_seen g) (seq 0 N)).

(** [answers]: the events an operation can end with; [quiet]: memory when all threads are between
    two operations. *)
Class CrowdLaws `{K : Kernel} (W : Crowd) (N : nat) (l0 : list ds_kv) (answers : event -> Prop)
    (quiet : list ds_kv -> mem -> Prop) := {
  cr_rely_preorder i :: PreOrder (cr_rely i);
  cr_guar_refl i :: Reflexive (cr_guar i);
  cr_rely_inv i s s' : cr_inv s -> cr_rely i s s' -> cr_inv s';
  cr_guar_ok i j s s' : cr_inv s -> cr_guar i s s' -> i <> j -> cr_rely j s s';
  cr_guar_cells i s s' a : cr_inv s -> cr_guar i s s' -> cr_cells a -> s'.1 !! a = s.1 !! a;
  cr_at_stable i n k evs :: Stable (cr_rely i) (cr_at i n k evs);
  cr_at_ok i n k evs m g : cr_at i n k evs (m, g) ->
    cr_inv (m, g) /\ (i < N)%nat /\ cr_seen g i = evs /\ Forall answers evs;
  cr_write i m g a v : cr_inv (m, g) -> cr_cells a -> is_Some (m !! a) -> cr_rely i (m, g) (<[a:=v]> m, g);
  cr_conserves m g : cr_inv (m, g) ->
    popped (all_seen g N) ++ cr_items g ≡ₚ l0 ++ accepted (all_seen g N);
  cr_settled m g : cr_inv (m, g) -> (forall i, (i < N)%nat -> exists n k evs, cr_at i n k evs (m, g)) ->
    quiet (cr_items g) m
}.

(** The operations of a container. *)
Class CrowdOps `{K : Kernel} (W : Crowd) (C : Container) := {
  cr_insert i n k evs e :
    triple (cr_rely i) (cr_guar i) (cr_at i (S n) k evs) (c_insert (kv_key e) (kv_value e))
      (fun r => cr_at i n k (evs ++ [EInsert e r]));
  cr_pop i n k evs x :
    triple (cr_rely i) (cr_guar i) (cr_at i n (S k) evs) (c_pop (Some x))
      (fun r => cr_at i n k (evs ++ [EPop x r.1 r.2]))
}.

(** ** Histories by thread

    [of_thread i] and [of_all] of a history, whose entries [(j, x)] are of thread [j] and amount to
    the events [evs x]. *)
Section by_thread.
Context {X : Type} (evs : X -> list event) (of_thread : nat -> list (nat * X) -> list event)
  (of_all : list (nat * X) -> list event).
Hypothesis thread_nil : forall i, of_thread i [] = [].
Hypothesis thread_cons : forall i j x H, of_thread i ((j, x) :: H) = (if decide (j = i) then evs x else []) ++ of_thread i H.
Hypothesis all_nil : of_all [] = [].
Hypothesis all_cons : forall j x H, of_all ((j, x) :: H) = evs x ++ of_all H.

Lemma concat_added (f : nat -> list event) (l : list event) i ns : i ∈ ns -> NoDup ns ->
  concat (map (fun j => (if decide (i = j) then l else []) ++ f j) ns) ≡ₚ l ++ concat (map f ns).
Proof.
  induction ns as [|j ns IH]; [by intros ?%elem_of_nil|].
  intros Hin [Hj Hnd]%NoDup_cons. cbn. destruct (decide (i = j)) as [->|Hne].
  - rewrite <- app_assoc. f_equiv. f_equiv. erewrite map_ext_in; [done|]. intros i Hi.
    rewrite decide_False; [done|]. intros ->. by apply Hj, list_elem_of_In.
  - apply elem_of_cons in Hin as [?|Hin]; [done|]. rewrite (IH Hin Hnd). cbn. rewrite !app_assoc.
    f_equiv. apply Permutation_app_comm.
Qed.

(** Together the threads made the events of the history. *)
Lemma threads_all N (H : list (nat * X)) : Forall (fun p => (p.1 < N)%nat) H ->
  concat (map (fun i => of_thread i H) (seq 0 N)) ≡ₚ of_all H.
Proof.
  induction H as [|[j x] H IH]; intros HN.
  - rewrite all_nil. induction (seq 0 N) as [|i ns IHn]; [done|]. cbn. by rewrite thread_nil, IHn.
  - apply Forall_cons in HN as [Hj HN]. cbn [fst] in Hj.
    erewrite (map_ext (fun i => of_thread i _)); [|intros i; apply thread_cons].
    rewrite concat_added; [|apply elem_of_seq; lia|apply NoDup_seq]. by rewrite (IH HN), all_cons.
Qed.

Lemma thread_sub i (H : list (nat * X)) ev : ev ∈ of_thread i H -> ev ∈ of_all H.
Proof.
  induction H as [|[j x] H IH]; [by rewrite thread_nil, all_nil|]. rewrite thread_cons, all_cons, !elem_of_app.
  intros [Hev|Hev]; [left|right; auto]. by destruct (decide (j = i)); [|apply elem_of_nil in Hev].
Qed.
End by_thread.

Lemma mine_cons i j ev (H : history) : mine i ((j, ev) :: H) = (if decide (j = i) then [ev] else []) ++ mine i H.
Proof. unfold mine. cbn. by destruct (decide (j = i)). Qed.

Lemma mine_all N (H : history) : Forall (fun p => (p.1 < N)%nat) H ->
  concat (map (fun i => mine i H) (seq 0 N)) ≡ₚ H.*2.
Proof. apply (threads_all (fun ev => [ev]) mine (fun H => H.*2)); auto using mine_cons. Qed.

Lemma mine_sub i (H : history) ev : ev ∈ mine i H -> ev ∈ H.*2.
Proof. apply (thread_sub (fun ev => [ev]) mine (fun H => H.*2)); auto using mine_cons. Qed.

(** ** More ghost state

    A program verified with ghost state [G], run where others also move ghost state [X], which the
    program does not. *)
Lemma rg_extend `{K : Kernel} {G X A} (R Gu : mem * G -> mem * G -> Prop)
    (R' Gu' : mem * (G * X) -> mem * (G * X) -> Prop) (J : mem * (G * X) -> Prop) (p : prog A) b m g x Q :
  (forall m g x m' g' x', J (m, (g, x)) -> R' (m, (g, x)) (m', (g', x')) -> J (m', (g', x')) /\ R (m, g) (m', g')) ->
  (forall m g x m' g', J (m, (g, x)) -> Gu (m, g) (m', g') -> J (m', (g', x)) /\ Gu' (m, (g, x)) (m', (g', x))) ->
  J (m, (g, x)) -> rg R Gu p b (m, g) Q ->
  rg R' Gu' p b (m, (g, x)) (fun a b' s => Q a b' (s.1, s.2.1) /\ J s).
Proof.
  intros HR HG. revert b m g x. induction p as [a|e k IH|]; intros b m g x HJ H; cbn in *; [| |done].
  - intros [m' [g' x']] Hs. destruct (HR _ _ _ _ _ _ HJ Hs) as [HJ' Hs']. split; [by apply H|done].
  - intros [m' [g' x']] Hs. destruct (HR _ _ _ _ _ _ HJ Hs) as [HJ' Hs']. specialize (H (m', g') Hs'). cbn in *.
    destruct (exec e m' b) as [[[v m1] b1]|]; [|done]. destruct H as (g1 & Hg & H).
    destruct (HG _ _ x' _ _ HJ' Hg) as [HJ1 HG1]. exists (g1, x'). split; [done|]. by apply IH.
Qed.

(** ** Ledgers

    What the threads keep in cells of their own: each has its part of the books, and what the
    books say lasts while they grow. *)
Record ledger := mk_ledger {
  le_state : Type;
  le_view : Type;
  le_of : nat -> le_state -> le_view;
  le_inv : mem -> le_state -> Prop;
  le_cells : Z -> Prop;
  le_grows : le_state -> le_state -> Prop
}.

Class LedgerLaws (cells : Z -> Prop) (E : ledger) := {
  le_grows_preorder :: PreOrder (le_grows E);
  le_free a : le_cells E a -> cells a;
  le_frame m m' x : (forall a, le_cells E a -> m' !! a = m !! a) -> le_inv E m x -> le_inv E m' x
}.

Class Lasting (E : ledger) (R : le_state E -> Prop) := lasting x x' : le_grows E x x' -> R x -> R x'.

#[export] Instance lasting_true E : Lasting E (fun _ => True).
Proof. done. Qed.

Section ledger.
Context `{K : Kernel} {W : Crowd} {N : nat} {l0 : list ds_kv} {answers : event -> Prop}
  {quiet : list ds_kv -> mem -> Prop}.
Context `{L : !CrowdLaws W N l0 answers quiet}.
Context (E : ledger) `{LE : !LedgerLaws cr_cells E}.
Notation state := (mem * (cr_ghost * le_state E))%type.
Implicit Types (s : state) (P : mem * cr_ghost -> Prop) (v : le_view E) (R : le_state E -> Prop).

Definition l_inv s : Prop := cr_inv (s.1, s.2.1) /\ le_inv E s.1 s.2.2.

Definition l_rely (i : nat) s s' : Prop :=
  l_inv s -> l_inv s' /\ cr_rely i (s.1, s.2.1) (s'.1, s'.2.1) /\
    le_of E i s'.2.2 = le_of E i s.2.2 /\ le_grows E s.2.2 s'.2.2.

Definition l_guar (i : nat) s s' : Prop :=
  (forall j, i <> j -> l_rely j s s') /\
  (l_inv s -> forall a, cr_cells a -> ~ le_cells E a -> s'.1 !! a = s.1 !! a).

#[export] Instance l_rely_preorder i : PreOrder (l_rely i).
Proof.
  split.
  - intros s Hi. by split_and!.
  - intros s1 s2 s3 H12 H23 Hi. destruct (H12 Hi) as (Hi2 & A1 & A2 & A3).
    destruct (H23 Hi2) as (Hi3 & B1 & B2 & B3). split; [done|]. split; [by etrans|]. split; [congruence|by etrans].
Qed.

#[export] Instance l_guar_refl i : Reflexive (l_guar i).
Proof. intros s. split; [intros j _; reflexivity|done]. Qed.

Lemma l_guar_inv i s s' : l_inv s -> l_guar i s s' -> l_inv s'.
Proof. intros Hi [HG _]. by apply (HG (S i)); [lia|]. Qed.

(** Thread [i] knows [P] of the structure and [R] of the books; its own part is [v]. *)
Definition l_at i P v R s : Prop := l_inv s /\ P (s.1, s.2.1) /\ le_of E i s.2.2 = v /\ R s.2.2.

#[export] Instance l_at_stable i P v R : Stable (cr_rely i) P -> Lasting E R -> Stable (l_rely i) (l_at i P v R).
Proof.
  intros HP HR s s' (Hi & A1 & A2 & A3) Hs. destruct (Hs Hi) as (Hi' & B1 & B2 & B3).
  split; [done|]. split; [by eapply HP|]. split; [congruence|by eapply HR].
Qed.

(** What does not touch the books. *)
Lemma l_op {A} i P v R (p : prog A) (P' : A -> mem * cr_ghost -> Prop) : Lasting E R ->
  triple (cr_rely i) (cr_guar i) P p P' ->
  triple (l_rely i) (l_guar i) (l_at i P v R) p (fun a => l_at i (P' a) v R).
Proof.
  intros HR Hop b [m [g x]] Hb (Hi & HP & Hv & Hx).
  set (J := fun s => l_inv s /\ le_of E i s.2.2 = v /\ R s.2.2).
  eapply rg_mono; [apply (rg_extend (cr_rely i) (cr_guar i) _ _ J); [| |by split_and!|by apply Hop]|].
  - intros m1 g1 x1 m2 g2 x2 (Hi1 & Hv1 & Hx1) Hs. destruct (Hs Hi1) as (Hi2 & Hs2 & Hv2 & Hg2).
    split; [|done]. split; [done|]. split; [congruence|by eapply HR].
  - intros m1 g1 x1 m2 g2 (Hi1 & Hv1 & Hx1) HG. pose proof Hi1 as [I1 I2]. cbn in *.
    pose proof (fun a Ha => cr_guar_cells (CrowdLaws := L) i _ _ a I1 HG Ha) as Hsame. cbn in Hsame.
    assert (Hi2 : l_inv (m2, (g2, x1))).
    { split; cbn.
      - eapply cr_rely_inv; [exact I1|]. apply (cr_guar_ok (CrowdLaws := L) i (S i)); [done|done|lia].
      - eapply le_frame; [|exact I2]. intros a Ha. by apply Hsame, le_free. }
    split; [by split_and!|]. split; [|intros _ a Ha _; by apply Hsame].
    intros j Hne _. split; [done|]. split; [by eapply cr_guar_ok|done].
  - intros a b' s [[Hb' HP'] (Hi' & Hv' & Hx')]. split; [done|]. by split_and!.
Qed.

(** The books are read. *)
Lemma l_load {A} o i cell P v R (R' : Z -> le_state E -> Prop) (f : Z -> prog A) Q :
  Stable (cr_rely i) P -> Lasting E R -> (forall n, Lasting E (R' n)) ->
  (forall m x, le_inv E m x -> le_of E i x = v -> R x -> exists n, m !! cell = Some n /\ R' n x) ->
  (forall n, triple (l_rely i) (l_guar i) (l_at i P v (R' n)) (f n) Q) ->
  triple (l_rely i) (l_guar i) (l_at i P v R) (load o cell ≫= f) Q.
Proof.
  intros HP HR HR' Hread Hf. apply (triple_load_lin _ _ _ _ _ _ (fun n => l_at i P v (R' n))); [apply _| |done].
  intros [m [g x]] ([I1 I2] & H1 & H2 & H3). destruct (Hread m x I2 H2 H3) as (n & En & Hn). exists n. split; [done|].
  exists (g, x). split; [reflexivity|]. by split_and!.
Qed.

(** The books are written. *)
Lemma l_rmw {A} o op i cell w P v v' R (R' : Z -> le_state E -> Prop) (f : Z -> prog A) Q :
  Stable (cr_rely i) P -> Lasting E R -> (forall old, Lasting E (R' old)) -> le_cells E cell ->
  (forall m g x, P (m, g) -> le_inv E m x -> le_of E i x = v -> R x -> exists old x', m !! cell = Some old /\
     le_inv E (<[cell:=rmw_eval op old w]> m) x' /\ le_of E i x' = v' /\
     (forall j, i <> j -> le_of E j x' = le_of E j x) /\ le_grows E x x' /\ R' old x') ->
  (forall old, triple (l_rely i) (l_guar i) (l_at i P v' (R' old)) (f old) Q) ->
  triple (l_rely i) (l_guar i) (l_at i P v R) (rmw o op cell w ≫= f) Q.
Proof.
  intros HP HR HR' Hcell Hstep Hf. eapply triple_rmw; [apply _..| |exact Hf].
  intros [m [g x]] ([I1 I2] & H1 & H2 & H3). cbn [fst snd] in *.
  destruct (Hstep m g x H1 I2 H2 H3) as (old & x' & E1 & I2' & Hv' & Hj & Hg & Hx'). exists old. split; [done|].
  set (m' := <[cell:=_]> m) in *.
  pose proof (fun j => cr_write (CrowdLaws := L) j m g cell (rmw_eval op old w) I1 (le_free (LedgerLaws := LE) _ Hcell) ltac:(by eexists)) as Hw.
  assert (Hi' : l_inv (m', (g, x'))) by (split; [by eapply cr_rely_inv, (Hw i)|done]).
  exists (g, x'). split.
  - split; [|intros _ a _ Hna; apply lookup_insert_ne; by intros <-].
    intros j Hne _. split; [done|]. split; [apply Hw|]. split; [by apply Hj|done].
  - split; [done|]. split; [by eapply HP; [|apply Hw]|]. by split.
Qed.

(** ** A structure together with its books

    [view]: what the books of a thread say between two operations. *)
Variable view : nat -> list event -> le_view E.

#[local] Instance ledger_crowd : Crowd := {|
  cr_ghost := cr_ghost * le_state E;
  cr_inv := l_inv;
  cr_rely := l_rely;
  cr_guar := l_guar;
  cr_at i n k evs := l_at i (cr_at i n k evs) (view i evs) (fun _ => True);
  cr_seen g i := cr_seen g.1 i;
  cr_items g := cr_items g.1;
  cr_cells a := cr_cells a /\ ~ le_cells E a
|}.

#[local] Instance ledger_crowd_laws : CrowdLaws ledger_crowd N l0 answers quiet.
Proof.
  split; cbn [cr_rely cr_guar cr_inv cr_at cr_cells cr_items cr_ghost ledger_crowd]; try apply _.
  - intros i s s' Hi HR. by apply HR.
  - intros i j s s' _ [HG _] Hne. by apply HG.
  - intros i s s' a Hi [_ HG] [Ha Hna]. by apply HG.
  - intros i n k evs m [g x] (Hi & Hat & _). cbn in Hat. destruct (cr_at_ok _ _ _ _ _ _ Hat) as (_ & H). by split.
  - intros i m [g x] a w [I1 I2] [Ha Hna] Hsome _. pose proof (cr_write i m g a w I1 Ha Hsome) as Hw.
    split; [|split; [exact Hw|done]]. split; [by eapply cr_rely_inv, Hw|]. eapply le_frame; [|exact I2].
    intros c Hc. apply lookup_insert_ne. by intros ->.
  - intros m [g x] [I1 _]. exact (cr_conserves m g I1).
  - intros m [g x] [I1 _] Hat. apply (cr_settled m g I1). intros i Hi.
    destruct (Hat i Hi) as (n & k & evs & _ & H & _). by exists n, k, evs.
Qed.
End ledger.
