(* ===== verification/Allocators.v ===== *)
(** * What clients see of the two allocators of [include/libarena_ds.h], beyond the laws of the
    interface: whole sessions of allocations and frees, the configuration of the userspace
    range, and the page arithmetic of the kernel allocator. *)
From stdpp Require Import base numbers gmap list fin_maps option.
From S2P Require Import Prelude Machine Logic Api Arena Owned.

(** ** Sessions *)

Inductive request := RAlloc (size : Z) | RFree (p : Z).

(** The answers to a sequence of requests: the addresses handed out ([0] for a refusal). *)
Fixpoint session `{Al : Allocator} (rs : list request) : prog (list block) :=
  match rs with
  | [] => Ret []
  | RAlloc sz :: rs' =>
      p ← bpf_arena_alloc sz;
      bs ← session rs';
      Ret (if p =? 0 then bs else (p, sz) :: bs)
  | RFree p :: rs' => bpf_arena_free p;; session rs'
  end.

Section sessions.
Context `{K : Kernel} `{Al : Allocator} `{!AllocLaws Al} `{!FreeLaws Al}.
Hypothesis alloc_ready : forall live sz m, heap_ok live m -> alloc_pre sz m.
Hypothesis free_ready : forall p m, in_arena p -> free_pre p m.

Definition request_ok (r : request) : Prop :=
  match r with
  | RAlloc sz => 0 < sz < 2 ^ 32 - 8 /\ sz mod 8 = 0
  | RFree p => in_arena p
  end.

(** The blocks of a session are disjoint from one another and from everything already live,
    whatever was freed in between, and no request touches a live byte. *)
Lemma session_ok rs live m b :
  Forall request_ok rs -> heap_ok live m -> separated live ->
  wpr (session rs) m b (fun bs m' b' => b' = b /\
    (forall a, in_live live a -> m' !! a = m !! a) /\
    Forall (fun '(p, _) => 0 < p /\ p mod 8 = 0 /\ in_arena p) bs /\
    heap_ok (bs ++ live) m' /\ separated (bs ++ live)).
Proof.
  revert live m. induction rs as [|[sz|p] rs IH]; intros live m Hrs Hh Hs; cbn [session].
  - by apply wpr_ret.
  - apply Forall_cons_1 in Hrs as [[Hsz H8] Hrs].
    eapply wpr_call; [apply (alloc_law live sz m b Hh Hsz H8); by eapply alloc_ready|].
    intros p m1 b1 (-> & Hsame & [[-> Hh1]|(Hp & Hp8 & Ha & Hd & _ & Hh1)]).
    + eapply wpr_call; [by apply (IH live m1)|].
      intros bs m2 b2 (-> & Hsame2 & Hbs & Hh2 & Hs2). apply wpr_ret.
      split; [done|]. split; [intros a Hin; by rewrite Hsame2, Hsame|done].
    + eapply wpr_call; [apply (IH ((p, sz) :: live) m1); [done..|by split]|].
      intros bs m2 b2 (-> & Hsame2 & Hbs & Hh2 & Hs2). apply wpr_ret.
      replace (p =? 0) with false by lia. split; [done|].
      split; [intros a Hin; rewrite Hsame2, Hsame; [done..|apply in_live_cons; by right]|].
      split; [by apply Forall_cons_2|].
      assert (Hperm : bs ++ (p, sz) :: live ≡ₚ ((p, sz) :: bs) ++ live)
        by (symmetry; apply Permutation_middle).
      split; [eapply heap_ok_sub; [exact Hh2|]; intros x; by rewrite Hperm|].
      by eapply separated_perm.
  - apply Forall_cons_1 in Hrs as [Hp Hrs].
    eapply wpr_call; [apply (free_law live p m b Hh Hp); by apply free_ready|].
    intros _ m1 b1 (-> & Hsame & Hh1).
    eapply wpr_mono; [by apply (IH live m1)|].
    intros bs m2 b2 (-> & Hsame2 & Hbs & Hh2). split; [done|].
    split; [intros a Hin; by rewrite Hsame2, Hsame|done].
Qed.
End sessions.

(** ** The userspace allocator *)

(** C31. A session with the userspace allocator: all blocks it hands out are 8-aligned, lie in the
    configured range, are disjoint from one another and from what was live before, and no
    allocation or free changes a live byte; a freed block is never handed out again. *)
Theorem user_session `{K : Kernel} sym spin base npages k rs live m b :
  (0 < spin)%nat -> user_range_ok sym base npages k ->
  Forall (fun r => match r with
                   | RAlloc sz => 0 < sz < 2 ^ 32 - 8 /\ sz mod 8 = 0
                   | RFree p => in_block base (npages * 2 ^ k) p
                   end) rs ->
  user_heap_ok sym base npages k live m -> separated live ->
  wpr (session (Al := user_allocator sym spin base npages k) rs) m b (fun bs m' b' => b' = b /\
    (forall a, in_live live a -> m' !! a = m !! a) /\
    Forall (fun '(p, _) => 0 < p /\ p mod 8 = 0 /\ in_block base (npages * 2 ^ k) p) bs /\
    separated (bs ++ live) /\ user_heap_ok sym base npages k (bs ++ live) m').
Proof.
  intros Hspin Hrange Hrs Hh Hs.
  pose proof (user_alloc_laws sym spin base npages k Hspin Hrange).
  pose proof (user_free_laws sym spin base npages k Hspin Hrange).
  eapply wpr_mono; [eapply (session_ok (Al := user_allocator sym spin base npages k)); try done|].
  by intros bs m' b' (-> & Hsame & Hbs & Hh' & Hs').
Qed.

(** The page arithmetic of [set_range]: the first page boundary from [start] on, and the whole
    pages that fit behind it. *)
Lemma range_pages base size k :
  4 <= k <= 30 -> 0 < base -> 2 * 2 ^ k <= size ->
  let x := base + 2 ^ k - 1 in
  let start := x - x mod 2 ^ k in
  let y := size - (start - base) in
  base <= start < base + 2 ^ k /\ start mod 2 ^ k = 0 /\ 0 < y / 2 ^ k /\
  y - y mod 2 ^ k = y / 2 ^ k * 2 ^ k /\
  base + size - 2 ^ k < start + y / 2 ^ k * 2 ^ k <= base + size.
Proof.
  intros Hk Hb Hs x start y. pose proof (Z.pow_pos_nonneg 2 k ltac:(lia) ltac:(lia)) as Hp.
  pose proof (Z.mod_pos_bound x (2 ^ k) Hp). pose proof (Z.mod_pos_bound y (2 ^ k) Hp).
  pose proof (Z.div_mod x (2 ^ k) ltac:(lia)). pose proof (Z.div_mod y (2 ^ k) ltac:(lia)).
  assert (Hst : start = x / 2 ^ k * 2 ^ k) by lia.
  assert (base <= start < base + 2 ^ k) by lia. split; [done|].
  split; [rewrite Hst; apply Z_mod_mult|]. split; [apply Z.div_str_pos; lia|]. lia.
Qed.

(** What [bpf_arena_userspace_set_range] leaves in the allocator's statics. *)
Lemma set_range_state `{K : Kernel} sym base size k m b :
  4 <= k <= 30 -> 0 < base -> 2 * 2 ^ k <= size -> base + size + 2 ^ k < 2 ^ 64 ->
  sym + 56 <= base \/ base + size <= sym ->
  kcall PageSize m = (2 ^ k, m) ->
  mapped_words sym 56 m -> m !! User.bpf_arena_userspace_lock sym = Some 0 ->
  (forall a, base <= a -> a + 8 <= base + size -> a mod 8 = 0 -> is_Some (m !! a)) ->
  let start := base + 2 ^ k - 1 - (base + 2 ^ k - 1) mod 2 ^ k in
  wpr (User.bpf_arena_userspace_set_range sym base size) m b (fun _ m' b' => b' = b /\
    unchanged_outside (in_block sym 56) m m' /\
    user_range_ok sym start ((size - (start - base)) / 2 ^ k) k /\
    user_state sym start ((size - (start - base)) / 2 ^ k) k m' 0 0 0 0).
Proof.
  intros Hk Hb Hs Hlim Hsym Hps Hms Hlock Hrange.
  destruct (range_pages base size k Hk Hb Hs) as (Hst & Hst0 & Hn & Hy & Hend).
  assert (Hp : 2 ^ 4 <= 2 ^ k) by (apply Z.pow_le_mono_r; lia). change (2 ^ 4) with 16 in Hp.
  set (x := base + 2 ^ k - 1) in *. set (start := x - x mod 2 ^ k) in *.
  set (y := size - (start - base)) in *. cbn zeta.
  assert (Hm : forall i, 0 <= i < 7 -> is_Some (m !! (sym + 8 * i))) by (intros i Hi; apply Hms; lia).
  pose proof (Hm 0 ltac:(lia)) as M0. pose proof (Hm 1 ltac:(lia)) as M1.
  pose proof (Hm 2 ltac:(lia)) as M2. pose proof (Hm 3 ltac:(lia)) as M3.
  pose proof (Hm 4 ltac:(lia)) as M4. pose proof (Hm 5 ltac:(lia)) as M5. cbn in M0, M1, M2, M3, M4, M5.
  unfold User.bpf_arena_userspace_set_range. apply wpr_bind, wpr_call_ext. rewrite Hps.
  replace (2 ^ k <=? 0) with false by lia. prun.
  rewrite (u64_id (base + 2 ^ k - 1)), (u64_id (base + size)) by lia. fold x.
  rewrite land_page64 by lia. fold start. pif. unfold User.reset_cursor. prun.
  fold y. rewrite (u64_id y) by lia. rewrite land_page64 by lia. split; [done|].
  assert (H8 : 2 ^ k mod 8 = 0)
    by (replace k with (k - 3 + 3) by lia; rewrite Z.pow_add_r by lia; apply Z_mod_mult).
  split; [repeat (apply unchanged_insert_trans; [addr|]); apply unchanged_refl|].
  split; [unfold user_range_ok; split_and!; try done; lia|].
  split; try mlookv.
  intros i Hi Hin. do 6 apply lookup_ins_is_Some. apply Hrange; [lia|lia|].
  rewrite Z.add_mod, (Z.mul_comm 8), Z_mod_mult, Z.add_0_r, Z.mod_mod by lia.
  rewrite (Z.div_mod start (2 ^ k)), Hst0, Z.add_0_r, Z.mul_mod, H8 by lia. done.
Qed.

(** A range nothing has been carved from yet is sound for whatever lives outside it. *)
Lemma fresh_range_ok sym base npages k live m :
  user_range_ok sym base npages k -> user_state sym base npages k m 0 0 0 0 ->
  (forall a, in_live live a -> ~ in_block sym 56 a /\ ~ in_block base (npages * 2 ^ k) a) ->
  user_heap_ok sym base npages k live m.
Proof.
  intros (Hk & Hb & _ & Hn & _) Hst Hlive.
  assert (Hp : 2 ^ 4 <= 2 ^ k) by (apply Z.pow_le_mono_r; lia). change (2 ^ 4) with 16 in Hp.
  exists 0, 0, 0. split; [done|]. split; [split; [by exists 0; lia|by left]|].
  unfold user_private. intros a Ha Hla. destruct (Hlive a Hla) as [H1 H2].
  destruct Ha as [Ha|[Ha|[Ha|(i & Hi & Ha)]]]; [done| |addr|].
  - apply H2. addr.
  - apply H2. destruct (pages_le (i + 1) npages (2 ^ k)) as [_ Hle]; try lia.
    pose proof (Z.mul_nonneg_nonneg i (2 ^ k) ltac:(lia) ltac:(lia)). addr.
Qed.

(** Configuring the userspace range: from any range of two pages or more,
    [bpf_arena_userspace_set_range] sets the allocator up on the whole pages inside the range,
    losing less than a page at either end, and makes it sound for whatever lives outside it. *)
Lemma user_set_range `{K : Kernel} sym base size k live m b :
  4 <= k <= 30 -> 0 < base -> 2 * 2 ^ k <= size -> base + size + 2 ^ k < 2 ^ 64 ->
  sym + 56 <= base \/ base + size <= sym ->
  kcall PageSize m = (2 ^ k, m) ->
  mapped_words sym 56 m -> m !! User.bpf_arena_userspace_lock sym = Some 0 ->
  (forall a, base <= a -> a + 8 <= base + size -> a mod 8 = 0 -> is_Some (m !! a)) ->
  (forall a, in_live live a -> ~ in_block sym 56 a /\ ~ in_block base size a) ->
  wpr (User.bpf_arena_userspace_set_range sym base size) m b (fun _ m' b' => b' = b /\
    (forall a, in_live live a -> m' !! a = m !! a) /\
    exists base' npages,
      base <= base' < base + 2 ^ k /\
      base + size - 2 ^ k < base' + npages * 2 ^ k <= base + size /\
      user_range_ok sym base' npages k /\ user_heap_ok sym base' npages k live m').
Proof.
  intros Hk Hb Hs Hlim Hsym Hps Hms Hlock Hrange Hlive.
  destruct (range_pages base size k Hk Hb Hs) as (Hst & _ & _ & _ & Hend).
  eapply wpr_mono; [by apply (set_range_state sym base size k m b)|].
  intros _ m' b' (-> & Hu & Hok & Hstate). split; [done|].
  split; [intros a Ha; apply Hu; by destruct (Hlive a Ha)|].
  eexists _, _. split; [exact Hst|]. split; [exact Hend|]. split; [done|].
  apply fresh_range_ok; [done|done|]. intros a Ha. destruct (Hlive a Ha) as [H1 H2].
  split; [done|]. intros Hb'. apply H2. unfold in_block in *. lia.
Qed.

(** ** The kernel allocator *)

Section kernel_allocator.
Context `{K : Kernel}.
Variables page_sym offset_sym : Z.

Notation alloc := (Kern.bpf_arena_alloc_bpf page_sym offset_sym).
Notation free := Kern.bpf_arena_free_bpf.
Notation cur_page cpu := (Kern.page_frag_cur_page page_sym cpu).
Notation cur_offset cpu := (Kern.page_frag_cur_offset offset_sym cpu).

(** [cpu]'s fragment: its page, the free bytes below the carved ones, the object count. *)
Definition fragment (cpu page off n : Z) (m : mem) : Prop :=
  m !! cur_page cpu = Some page /\ m !! cur_offset cpu = Some off /\
  m !! (page + PAGE_SIZE - 8) = Some n.

Definition fragment_apart (cpu page : Z) : Prop :=
  0 < page /\ (cur_page cpu + 8 <= cur_offset cpu \/ cur_offset cpu + 4 <= cur_page cpu) /\
  (cur_page cpu + 8 <= page \/ page + PAGE_SIZE <= cur_page cpu) /\
  (cur_offset cpu + 4 <= page \/ page + PAGE_SIZE <= cur_offset cpu).

(** The comparison that should trigger the slow path is between unsigned integers. *)
Lemma needs_refill_never off size : Kern.needs_refill off size = false.
Proof. unfold Kern.needs_refill. pose proof (u32_range (off - size)). lia. Qed.

Lemma s32_sub off sz : 0 <= off <= PAGE_SIZE -> 0 < sz < PAGE_SIZE -> s32 (off - sz) = off - sz.
Proof. unfold PAGE_SIZE. intros. apply s32_id. lia. Qed.

(** What an allocation does on a [cpu] that has a page, however full it is. *)
Lemma kernel_alloc cpu page off n size m b :
  kcall CpuId m = (cpu, m) -> fragment cpu page off n m -> fragment_apart cpu page ->
  0 <= off <= PAGE_SIZE - 8 -> 0 < size < PAGE_SIZE - 8 -> size mod 8 = 0 ->
  wpr (alloc size) m b (fun p m' b' => b' = b /\ p = page + (off - size) /\
    fragment cpu page (off - size) (u64 (n + 1)) m' /\
    updates (fun a => a = cur_offset cpu \/ a = page + PAGE_SIZE - 8) m m').
Proof.
  intros Hcpu (E1 & E2 & E3) (Hp & Hd1 & Hd2 & Hd3) Hoff Hsz H8. unfold PAGE_SIZE in *.
  unfold Kern.bpf_arena_alloc_bpf. apply wpr_bind, wpr_call_ext. rewrite Hcpu. prun.
  rewrite round_up_8 by (done || lia). unfold PAGE_SIZE. pif_false.
  apply wpr_bind. pif_false. prun. rewrite needs_refill_never. prun. pif_false. prun.
  rewrite s32_sub by (unfold PAGE_SIZE; lia). split; [done|]. split; [done|].
  split; [unfold fragment, PAGE_SIZE; split_and!; mlook|].
  repeat (apply updates_insert_trans; [unfold PAGE_SIZE; auto|]). apply updates_refl.
Qed.

(** A run of allocations, and the addresses that carving a page downwards from [top] gives. *)
Fixpoint alloc_all (sizes : list Z) : prog (list Z) :=
  match sizes with
  | [] => Ret []
  | sz :: sizes' => p ← alloc sz; ps ← alloc_all sizes'; Ret (p :: ps)
  end.

Fixpoint carve (top : Z) (sizes : list Z) : list Z :=
  match sizes with [] => [] | sz :: sizes' => (top - sz) :: carve (top - sz) sizes' end.

Lemma sizes_nonneg sizes :
  Forall (fun sz => 0 < sz < PAGE_SIZE - 8 /\ sz mod 8 = 0) sizes -> 0 <= foldr Z.add 0 sizes.
Proof. induction 1; cbn; lia. Qed.

(** C32. While a page has room the kernel allocator carves it downwards: consecutive blocks that
    touch but do not overlap, all inside the page and below its object counter, which counts
    them. *)
Theorem kernel_alloc_carves cpu page off n sizes m b :
  (forall m, kcall CpuId m = (cpu, m)) -> fragment cpu page off n m -> fragment_apart cpu page ->
  off <= PAGE_SIZE - 8 -> Forall (fun sz => 0 < sz < PAGE_SIZE - 8 /\ sz mod 8 = 0) sizes ->
  foldr Z.add 0 sizes <= off -> 0 <= n -> n + Zlen sizes < 2 ^ 64 ->
  wpr (alloc_all sizes) m b (fun ps m' b' => b' = b /\ ps = carve (page + off) sizes /\
    Forall (fun p => page <= p < page + PAGE_SIZE - 8) ps /\
    fragment cpu page (off - foldr Z.add 0 sizes) (n + Zlen sizes) m').
Proof.
  intros Hcpu Hf Hap Hoff Hsz Hsum Hn Hcnt.
  revert off n m Hf Hoff Hsum Hn Hcnt. induction sizes as [|sz sizes IH]; cbn [alloc_all carve foldr];
    intros off n m Hf Hoff Hsum Hn Hcnt.
  { change (Zlen []) with 0. rewrite Z.sub_0_r, Z.add_0_r. by apply wpr_ret. }
  rewrite Zlen_cons in *. apply Forall_cons_1 in Hsz as [[Hsz H8] Hszs].
  pose proof (sizes_nonneg _ Hszs) as Hpos. pose proof (Zlen_nonneg sizes).
  eapply wpr_call; [apply (kernel_alloc cpu page off n); try done; lia|].
  intros p m1 b1 (-> & -> & Hf1 & _). rewrite u64_id in Hf1 by lia.
  eapply wpr_call; [apply (IH ltac:(done) (off - sz) (n + 1)); (done || lia)|].
  intros ps m2 b2 (-> & -> & Hin & Hf2). apply wpr_ret. split; [done|].
  replace (page + (off - sz)) with (page + off - sz) in * by lia. split; [done|].
  split; [apply Forall_cons_2; [lia|done]|].
  replace (off - (sz + foldr Z.add 0 sizes)) with (off - sz - foldr Z.add 0 sizes) by lia.
  by replace (n + (1 + Zlen sizes)) with (n + 1 + Zlen sizes) by lia.
Qed.

(** C33. When the page has too little room the kernel allocator does not ask for another one: the
    test for the slow path compares an unsigned difference with zero. It hands out a block that
    starts below the page, and leaves a negative offset behind. *)
Theorem kernel_alloc_underflows cpu page off n size m b :
  kcall CpuId m = (cpu, m) -> fragment cpu page off n m -> fragment_apart cpu page ->
  0 <= off < size -> size < PAGE_SIZE - 8 -> size mod 8 = 0 ->
  wpr (alloc size) m b (fun p m' b' => b' = b /\ p < page /\ p + size = page + off /\
    fragment cpu page (off - size) (u64 (n + 1)) m').
Proof.
  intros Hcpu Hf Hap Hoff Hsz H8.
  eapply wpr_mono; [apply (kernel_alloc cpu page off n); try done; lia|].
  intros p m' b' (-> & -> & Hf' & _). split_and!; try done; lia.
Qed.

(** C34. Freeing the last object of the page that is still a cpu's current one gives the page back
    without forgetting it: if the kernel unmaps freed pages, the next allocation on that cpu
    accesses an unmapped page. *)
Theorem kernel_free_then_alloc_faults cpu page off size addr m m2 r b :
  (forall m, kcall CpuId m = (cpu, m)) -> fragment cpu page off 1 m -> fragment_apart cpu page ->
  page mod PAGE_SIZE = 0 -> page <= addr < page + PAGE_SIZE ->
  0 <= off -> 0 < size < PAGE_SIZE - 8 -> size mod 8 = 0 ->
  kcall (FreePages page 1) (<[page + PAGE_SIZE - 8:=0]> m) = (r, m2) ->
  (forall a, ~ in_block page PAGE_SIZE a -> m2 !! a = m !! a) ->
  m2 !! (page + PAGE_SIZE - 8) = None ->
  run (free addr;; alloc size) m b = Fault.
Proof.
  intros Hcpu (E1 & E2 & E3) (Hp & Hd1 & Hd2 & Hd3) Hpg Haddr Hoff Hsz H8 Hfree Hsame Hgone.
  unfold PAGE_SIZE in *. rewrite run_bind.
  assert (Hpage : Z.land addr (Z.lnot (4096 - 1)) = page).
  { change (4096 - 1) with (2 ^ 12 - 1). rewrite land_page by lia. change (2 ^ 12) with 4096.
    Z.div_mod_to_equations. lia. }
  assert (Hrun : run (free addr) m b = Done tt m2 b).
  { unfold Kern.bpf_arena_free_bpf, PAGE_SIZE. rewrite Hpage. cbn. rewrite E3. cbn. rewrite E3.
    change (u64 (1 - 1)) with 0. cbn. by rewrite Hfree. }
  rewrite Hrun. unfold Kern.bpf_arena_alloc_bpf, PAGE_SIZE. rewrite round_up_8 by (done || lia).
  replace (size >=? 4096 - 8) with false by lia.
  assert (E1' : m2 !! cur_page cpu = Some page) by (rewrite Hsame by addr; done).
  assert (E2' : m2 !! cur_offset cpu = Some off) by (rewrite Hsame by addr; done).
  assert (Hz : (page =? 0) = false) by lia.
  cbn. rewrite Hcpu, E1'. cbn. rewrite Hz. cbn. rewrite E2'. cbn.
  rewrite needs_refill_never. cbn. rewrite Hz. cbn. rewrite E2'. cbn. by rewrite Hgone.
Qed.
End kernel_allocator.
