(* ===== verification/Ring.v ===== *)
(** * Ring buffers: the slots of a circular array and the list of pairs they hold.

    Shared by every array-based structure. Positions are unbounded integers that only grow;
    position [p] lives in slot [p mod s]. The code keeps wrapped or reduced positions; each
    structure's file relates its own indices to these. *)
From stdpp Require Import base numbers gmap list fin_maps option.
From S2P Require Import Prelude Machine Logic Api Owned.

Section slots.
(** [s] slots of [stride] bytes from [base]; the pair of a slot starts [off] bytes into it. *)
Variables base stride off s : Z.

Definition slot (p : Z) : Z := base + stride * (p mod s).

Definition slot_holds (m : mem) (p : Z) (e : ds_kv) : Prop :=
  m !! (slot p + off) = Some (kv_key e) /\ m !! (slot p + (off + 8)) = Some (kv_value e).

(** The pairs [l] occupy the slots of positions [d], [d + 1], ... *)
Definition slots_hold (m : mem) (d : Z) (l : list ds_kv) : Prop :=
  forall i e, l !! i = Some e -> slot_holds m (d + Z.of_nat i) e.

(** Every slot's pair can be read and written. *)
Definition slots_mapped (m : mem) : Prop :=
  forall p, is_Some (m !! (slot p + off)) /\ is_Some (m !! (slot p + (off + 8))).

Hypothesis s_pos : 0 < s.
Hypothesis off_in : 0 <= off /\ off + 16 <= stride.

Lemma slot_range p x n :
  0 <= x -> x + n <= stride -> base <= slot p + x /\ slot p + x + n <= base + stride * s.
Proof.
  intros Hx Hn. unfold slot. pose proof (Z.mod_pos_bound p s s_pos) as Hp.
  assert (0 <= stride * (p mod s)) by (apply Z.mul_nonneg_nonneg; lia).
  assert (stride * (p mod s) + stride <= stride * s).
  { replace (stride * (p mod s) + stride) with (stride * (p mod s + 1)) by ring.
    apply Z.mul_le_mono_nonneg_l; lia. }
  lia.
Qed.

(** The slots of two positions of one window do not overlap. *)
Lemma slot_apart p q :
  p <> q -> Z.abs (p - q) < s -> slot p + stride <= slot q \/ slot q + stride <= slot p.
Proof.
  intros Hne Hw. pose proof (mod_window_ne p q s s_pos Hne Hw) as Hm. unfold slot.
  generalize dependent (p mod s). generalize (q mod s). intros b a Hab.
  assert (a + 1 <= b \/ b + 1 <= a) as [Hlt|Hlt] by lia; [left|right].
  - assert (stride * (a + 1) <= stride * b) by (apply Z.mul_le_mono_nonneg_l; lia). lia.
  - assert (stride * (b + 1) <= stride * a) by (apply Z.mul_le_mono_nonneg_l; lia). lia.
Qed.

Lemma slot_bounds p : base <= slot p /\ slot p + stride <= base + stride * s.
Proof. destruct (slot_range p 0 stride); lia. Qed.

Lemma slot_mod p q : p mod s = q mod s -> slot p = slot q.
Proof. unfold slot. by intros ->. Qed.

Lemma slot_wrap p : slot (p + s) = slot p.
Proof. apply slot_mod. replace (p + s) with (p + 1 * s) by lia. by rewrite Z_mod_plus_full. Qed.

Lemma slots_nil m d : slots_hold m d [].
Proof. by intros i e [=]. Qed.

Lemma slots_head m d x l : slots_hold m d (x :: l) -> slot_holds m d x.
Proof. intros H. specialize (H 0%nat x eq_refl). by rewrite Z.add_0_r in H. Qed.

Lemma slots_tail m d x l : slots_hold m d (x :: l) -> slots_hold m (d + 1) l.
Proof.
  intros H i e Hi. specialize (H (S i) e Hi).
  by replace (d + 1 + Z.of_nat i) with (d + Z.of_nat (S i)) by lia.
Qed.

Lemma slots_snoc m d l e :
  slots_hold m d l -> slot_holds m (d + Zlen l) e -> slots_hold m d (l ++ [e]).
Proof.
  intros H He i e' Hi. apply lookup_app_Some in Hi as [Hi|[Hlen Hi]]; [by apply H|].
  apply list_lookup_singleton_Some in Hi as [Hi <-].
  by replace i with (length l) by lia.
Qed.

Lemma slots_unsnoc m d l e :
  slots_hold m d (l ++ [e]) -> slots_hold m d l /\ slot_holds m (d + Zlen l) e.
Proof.
  intros H. split.
  - intros i e' Hi. apply H. by apply lookup_app_l_Some.
  - apply H. unfold Zlen. rewrite lookup_app_r by lia. by rewrite Nat.sub_diag.
Qed.

(** A change that spares the bytes of the occupied slots preserves the contents. *)
Lemma slots_frame m m' d l :
  (forall p x, d <= p < d + Zlen l -> off <= x < off + 16 -> m' !! (slot p + x) = m !! (slot p + x)) ->
  slots_hold m d l -> slots_hold m' d l.
Proof.
  intros Hf H i e Hi. pose proof (lookup_lt_Some _ _ _ Hi) as Hlt.
  destruct (H i e Hi) as [Hk Hv]. unfold Zlen in Hf.
  split; (rewrite Hf; [done|lia|lia]).
Qed.

Lemma slots_mapped_ins m a v : slots_mapped m -> slots_mapped (<[a:=v]> m).
Proof. intros H p. destruct (H p). split; by apply lookup_ins_is_Some. Qed.

Lemma slots_frame_ins m d l a v :
  ~ in_block base (stride * s) a -> slots_hold m d l -> slots_hold (<[a:=v]> m) d l.
Proof.
  intros Ha. apply slots_frame. intros p x _ Hx. apply lookup_insert_ne.
  intros ->. apply Ha. destruct (slot_range p x 1); unfold in_block; lia.
Qed.

(** Another writer that spares the whole array preserves its contents. *)
Lemma slots_hold_frame m m' d l :
  (forall a, in_block base (stride * s) a -> m' !! a = m !! a) ->
  slots_hold m d l -> slots_hold m' d l.
Proof.
  intros Hf. apply slots_frame. intros p x _ Hx. apply Hf.
  destruct (slot_range p x 1); unfold in_block; lia.
Qed.

Lemma slots_mapped_frame m m' :
  (forall a, in_block base (stride * s) a -> m' !! a = m !! a) ->
  slots_mapped m -> slots_mapped m'.
Proof.
  intros Hf H p. destruct (H p). destruct (slot_range p off 16); try lia.
  split; (rewrite Hf by (unfold in_block; lia)); done.
Qed.

(** Writing into the first free slot does not disturb the occupied ones. *)
Lemma slots_scribble m d l a v :
  Zlen l < s -> in_block (slot (d + Zlen l)) stride a ->
  slots_hold m d l -> slots_hold (<[a:=v]> m) d l.
Proof.
  unfold in_block. intros Hlen Ha. apply slots_frame. intros p x Hp Hx. apply lookup_insert_ne.
  destruct (slot_apart p (d + Zlen l)); lia.
Qed.

(** Writing the pair [e] into the first free slot appends it to the contents. *)
Lemma slots_push m d l e :
  Zlen l < s -> slots_hold m d l ->
  slots_hold (<[slot (d + Zlen l) + (off + 8):=kv_value e]>
             (<[slot (d + Zlen l) + off:=kv_key e]> m)) d (l ++ [e]).
Proof.
  intros Hlen H. apply slots_snoc.
  - eapply slots_frame; [|done]. intros p x Hp Hx.
    rewrite !lookup_insert_ne; [done|..]; destruct (slot_apart p (d + Zlen l)); lia.
  - split; [rewrite lookup_insert_ne by lia; apply lookup_insert_eq|apply lookup_insert_eq].
Qed.

(** Whatever the slots hold, a mapped slot holds some pair. *)
Lemma slot_some m p : slots_mapped m -> exists e, slot_holds m p e.
Proof. intros H. destruct (H p) as [[k Hk] [v Hv]]. by exists (mk_kv k v). Qed.
End slots.

(** A freshly allocated array of pairs. *)
Lemma slots_mapped_words base s m :
  0 < s -> mapped_words base (16 * s) m -> slots_mapped base 16 0 s m.
Proof.
  intros Hs Hm p. unfold slot. pose proof (Z.mod_pos_bound p s Hs).
  replace (base + 16 * (p mod s) + 0) with (base + 8 * (2 * (p mod s))) by lia.
  replace (base + 16 * (p mod s) + (0 + 8)) with (base + 8 * (2 * (p mod s) + 1)) by lia.
  split; apply Hm; lia.
Qed.

(** ** Scans of the contents *)

Definition has_key (key : Z) (l : list ds_kv) : bool := existsb (fun e => kv_key e =? key) l.

Definition search_result (key : Z) (l : list ds_kv) : Z :=
  if has_key key l then DS_SUCCESS else DS_ERROR_NOT_FOUND.

(** What an iteration over [l] does: the callback sees the pairs in order until it answers a
    nonzero value; [n] counts the pairs it accepted, so not the one it stopped at. *)
Fixpoint visit {Ctx} (fn : Z -> Z -> Ctx -> Z * Ctx) (l : list ds_kv) (n : Z) (ctx : Ctx) : Z * Ctx :=
  match l with
  | [] => (n, ctx)
  | e :: l' =>
      let '(ret, ctx') := fn (kv_key e) (kv_value e) ctx in
      if negb (ret =? 0) then (n, ctx') else visit fn l' (n + 1) ctx'
  end.

Lemma has_key_spec key l : has_key key l = true <-> key ∈ map kv_key l.
Proof.
  unfold has_key. rewrite existsb_exists, list_elem_of_In, in_map_iff. setoid_rewrite Z.eqb_eq.
  split; intros (e & H & H'); by exists e.
Qed.

(** A callback that always answers zero sees every pair. *)
Lemma visit_all {Ctx} (f : Z -> Z -> Ctx -> Ctx) l n ctx :
  visit (fun k v c => (0, f k v c)) l n ctx =
  (n + Zlen l, fold_left (fun c e => f (kv_key e) (kv_value e) c) l ctx).
Proof.
  revert n ctx. induction l as [|e l IH]; intros n ctx; cbn [visit fold_left].
  - by rewrite Zlen_nil, Z.add_0_r.
  - cbn. rewrite IH, Zlen_cons. f_equal. lia.
Qed.

(** What the callback answered, one answer for each call. *)
Fixpoint answers {Ctx} (fn : Z -> Z -> Ctx -> Z * Ctx) (l : list ds_kv) (ctx : Ctx) : list Z :=
  match l with
  | [] => []
  | e :: l' =>
      let '(ret, ctx') := fn (kv_key e) (kv_value e) ctx in
      if negb (ret =? 0) then [ret] else ret :: answers fn l' ctx'
  end.

Definition stopped (rets : list Z) : bool := existsb (fun ret => negb (ret =? 0)) rets.

(** The number returned is that of the calls, less the one that stopped the iteration. *)
Lemma visit_counts {Ctx} (fn : Z -> Z -> Ctx -> Z * Ctx) l n ctx :
  (visit fn l n ctx).1 = n + Zlen (answers fn l ctx) - (if stopped (answers fn l ctx) then 1 else 0).
Proof.
  revert n ctx. induction l as [|e l IH]; intros n ctx; cbn; [rewrite Zlen_nil; lia|].
  destruct (fn (kv_key e) (kv_value e) ctx) as [ret ctx']. destruct (ret =? 0) eqn:E; cbn; rewrite E; cbn.
  - rewrite IH, Zlen_cons. unfold stopped. lia.
  - rewrite Zlen_cons, Zlen_nil. lia.
Qed.

(** Drops the updates that do not touch the cell being read. *)
Ltac skip_ins := repeat rewrite lookup_insert_ne by addr.

(** Solves [~ in_block base n a] and similar side conditions. *)
Ltac off_block := let H := fresh in unfold not; intros H; revert H; addr.
