(* ===== verification/Vyukhov.v ===== *)
(** * Vyukhov's bounded MPMC queue ([include/ds_vyukhov.h]). *)
From stdpp Require Import base numbers gmap list fin_maps option strings.
From S2P Require Import Prelude Machine Logic Api Owned Container Ring.

(** ** Layout of [struct ds_vyukhov_head] and [struct ds_vyukhov_node] *)

Module VyukhovHead.
Definition enqueue_pos (head : Z) : Z := head + 0.
Definition dequeue_pos (head : Z) : Z := head + 64.
Definition buffer_mask (head : Z) : Z := head + 128.
Definition buffer (head : Z) : Z := head + 136.
Definition count (head : Z) : Z := head + 144.
Definition size : Z := 152.
End VyukhovHead.

Module VyukhovNode.
Definition sequence (cell : Z) : Z := cell + 0.
Definition data_key (cell : Z) : Z := cell + 8.
Definition data_value (cell : Z) : Z := cell + 16.
Definition size : Z := 24.
End VyukhovNode.

#[export] Hint Unfold VyukhovHead.enqueue_pos VyukhovHead.dequeue_pos VyukhovHead.buffer_mask
  VyukhovHead.buffer VyukhovHead.count VyukhovHead.size VyukhovNode.sequence VyukhovNode.data_key
  VyukhovNode.data_value VyukhovNode.size : layout.

Definition DS_VYUKHOV_MAX_RETRIES : nat := 100.
Definition DS_VYUKHOV_DEFAULT_CAPACITY : Z := 256.

Import VyukhovHead VyukhovNode.

(** [&head->buffer[i]] *)
Definition vyukhov_cell (buffer i : Z) : Z := buffer + VyukhovNode.size * i.

Section operations.
Context `{Al : Allocator}.

Definition ds_vyukhov_init_lkmm (head capacity : Z) : prog Z :=
  if head =? 0 then Ret DS_ERROR_INVALID else
  if (capacity <? 2) || negb (Z.land capacity (u32 (capacity - 1)) =? 0) then Ret DS_ERROR_INVALID else
  store Plain (buffer_mask head) (u32 (capacity - 1));;
  WRITE_ONCE (enqueue_pos head) 0;;
  WRITE_ONCE (dequeue_pos head) 0;;
  WRITE_ONCE (count head) 0;;
  p ← bpf_arena_alloc (u32 (capacity * VyukhovNode.size));
  store Plain (buffer head) p;;
  b ← load Plain (buffer head);
  if b =? 0 then Ret DS_ERROR_NOMEM else
  loop (S (Z.to_nat capacity)) (fun i =>
    if i <? capacity then
      c ← can_loop;
      if (c : bool) then
        b ← load Plain (buffer head);
        WRITE_ONCE (sequence (vyukhov_cell b i)) i;;
        continue (u32 (i + 1))
      else break DS_SUCCESS
    else break DS_SUCCESS) 0.

Definition ds_vyukhov_init_c (head capacity : Z) : prog Z :=
  if head =? 0 then Ret DS_ERROR_INVALID else
  if (capacity <? 2) || negb (Z.land capacity (u32 (capacity - 1)) =? 0) then Ret DS_ERROR_INVALID else
  arena_atomic_store (buffer_mask head) (u32 (capacity - 1)) Relaxed;;
  arena_atomic_store (enqueue_pos head) 0 Relaxed;;
  arena_atomic_store (dequeue_pos head) 0 Relaxed;;
  arena_atomic_store (count head) 0 Relaxed;;
  p ← bpf_arena_alloc (u32 (capacity * VyukhovNode.size));
  store Plain (buffer head) p;;
  b ← load Plain (buffer head);
  if b =? 0 then Ret DS_ERROR_NOMEM else
  loop (S (Z.to_nat capacity)) (fun i =>
    if i <? capacity then
      b ← load Plain (buffer head);
      arena_atomic_store (sequence (vyukhov_cell b i)) i Relaxed;;
      continue (u32 (i + 1))
    else break DS_SUCCESS) 0.

Definition ds_vyukhov_init (s : side) (head capacity : Z) : prog Z :=
  match s with
  | BPF => ds_vyukhov_init_lkmm head capacity
  | USER => ds_vyukhov_init_c head capacity
  end.
End operations.

Definition ds_vyukhov_insert_lkmm (head key value : Z) : prog Z :=
  if head =? 0 then Ret DS_ERROR_INVALID else
  b ← load Plain (buffer head);
  if b =? 0 then Ret DS_ERROR_INVALID else
  pos ← READ_ONCE (enqueue_pos head);
  mask ← load Plain (buffer_mask head);
  loop (S DS_VYUKHOV_MAX_RETRIES) (fun '(retries, pos) =>
    if (retries <? DS_VYUKHOV_MAX_RETRIES)%nat then
      c ← can_loop;
      if (c : bool) then
        b ← load Plain (buffer head);
        let cell := vyukhov_cell b (Z.land pos mask) in
        seq ← smp_load_acquire (sequence cell);
        let dif := s64 (s64 seq - s64 pos) in
        if dif =? 0 then
          old_pos ← arena_atomic_cmpxchg (enqueue_pos head) pos (u64 (pos + 1)) Relaxed Relaxed;
          if old_pos =? pos then
            store Plain (data_key cell) key;;
            store Plain (data_value cell) value;;
            smp_store_release (sequence cell) (u64 (pos + 1));;
            arena_atomic_inc (count head);;
            break DS_SUCCESS
          else
            pos ← READ_ONCE (enqueue_pos head);
            continue (S retries, pos)
        else if dif <? 0 then break DS_ERROR_NOMEM
        else
          pos ← READ_ONCE (enqueue_pos head);
          continue (S retries, pos)
      else break DS_ERROR_BUSY
    else break DS_ERROR_BUSY) (0%nat, pos).

Definition ds_vyukhov_insert_c (head key value : Z) : prog Z :=
  if head =? 0 then Ret DS_ERROR_INVALID else
  b ← load Plain (buffer head);
  if b =? 0 then Ret DS_ERROR_INVALID else
  pos ← arena_atomic_load (enqueue_pos head) Relaxed;
  mask ← load Plain (buffer_mask head);
  loop (S DS_VYUKHOV_MAX_RETRIES) (fun '(retries, pos) =>
    if (retries <? DS_VYUKHOV_MAX_RETRIES)%nat then
      b ← load Plain (buffer head);
      let cell := vyukhov_cell b (Z.land pos mask) in
      seq ← arena_atomic_load (sequence cell) Acquire;
      let dif := s64 (s64 seq - s64 pos) in
      if dif =? 0 then
        old_pos ← arena_atomic_cmpxchg (enqueue_pos head) pos (u64 (pos + 1)) Relaxed Relaxed;
        if old_pos =? pos then
          store Plain (data_key cell) key;;
          store Plain (data_value cell) value;;
          arena_atomic_store (sequence cell) (u64 (pos + 1)) Release;;
          arena_atomic_inc (count head);;
          break DS_SUCCESS
        else
          pos ← arena_atomic_load (enqueue_pos head) Relaxed;
          continue (S retries, pos)
      else if dif <? 0 then break DS_ERROR_NOMEM
      else
        pos ← arena_atomic_load (enqueue_pos head) Relaxed;
        continue (S retries, pos)
    else break DS_ERROR_BUSY) (0%nat, pos).

Definition ds_vyukhov_insert (s : side) (head key value : Z) : prog Z :=
  match s with
  | BPF => ds_vyukhov_insert_lkmm head key value
  | USER => ds_vyukhov_insert_c head key value
  end.

(** [data] is the caller's output pair: [None] is the null pointer; the second component of the
    result is what the caller's pair holds afterwards. *)
Definition ds_vyukhov_pop_lkmm (head : Z) (data : option ds_kv) : prog (Z * option ds_kv) :=
  if head =? 0 then Ret (DS_ERROR_INVALID, data) else
  b ← load Plain (buffer head);
  if b =? 0 then Ret (DS_ERROR_INVALID, data) else
  match data with
  | None => Ret (DS_ERROR_INVALID, data)
  | Some _ =>
      pos ← READ_ONCE (dequeue_pos head);
      mask ← load Plain (buffer_mask head);
      loop (S DS_VYUKHOV_MAX_RETRIES) (fun '(retries, pos) =>
        if (retries <? DS_VYUKHOV_MAX_RETRIES)%nat then
          c ← can_loop;
          if (c : bool) then
            b ← load Plain (buffer head);
            let cell := vyukhov_cell b (Z.land pos mask) in
            seq ← smp_load_acquire (sequence cell);
            let dif := s64 (s64 seq - s64 (u64 (pos + 1))) in
            if dif =? 0 then
              old_pos ← arena_atomic_cmpxchg (dequeue_pos head) pos (u64 (pos + 1)) Relaxed Relaxed;
              if old_pos =? pos then
                k ← load Plain (data_key cell);
                v ← load Plain (data_value cell);
                smp_store_release (sequence cell) (u64 (u64 (pos + mask) + 1));;
                arena_atomic_dec (count head);;
                break (DS_SUCCESS, Some (mk_kv k v))
              else
                pos ← READ_ONCE (dequeue_pos head);
                continue (S retries, pos)
            else if dif <? 0 then break (DS_ERROR_NOT_FOUND, data)
            else
              pos ← READ_ONCE (dequeue_pos head);
              continue (S retries, pos)
          else break (DS_ERROR_BUSY, data)
        else break (DS_ERROR_BUSY, data)) (0%nat, pos)
  end.

Definition ds_vyukhov_pop_c (head : Z) (data : option ds_kv) : prog (Z * option ds_kv) :=
  if head =? 0 then Ret (DS_ERROR_INVALID, data) else
  b ← load Plain (buffer head);
  if b =? 0 then Ret (DS_ERROR_INVALID, data) else
  match data with
  | None => Ret (DS_ERROR_INVALID, data)
  | Some _ =>
      pos ← arena_atomic_load (dequeue_pos head) Relaxed;
      mask ← load Plain (buffer_mask head);
      loop (S DS_VYUKHOV_MAX_RETRIES) (fun '(retries, pos) =>
        if (retries <? DS_VYUKHOV_MAX_RETRIES)%nat then
          b ← load Plain (buffer head);
          let cell := vyukhov_cell b (Z.land pos mask) in
          seq ← arena_atomic_load (sequence cell) Acquire;
          let dif := s64 (s64 seq - s64 (u64 (pos + 1))) in
          if dif =? 0 then
            old_pos ← arena_atomic_cmpxchg (dequeue_pos head) pos (u64 (pos + 1)) Relaxed Relaxed;
            if old_pos =? pos then
              k ← load Plain (data_key cell);
              v ← load Plain (data_value cell);
              arena_atomic_store (sequence cell) (u64 (u64 (pos + mask) + 1)) Release;;
              arena_atomic_dec (count head);;
              break (DS_SUCCESS, Some (mk_kv k v))
            else
              pos ← arena_atomic_load (dequeue_pos head) Relaxed;
              continue (S retries, pos)
          else if dif <? 0 then break (DS_ERROR_NOT_FOUND, data)
          else
            pos ← arena_atomic_load (dequeue_pos head) Relaxed;
            continue (S retries, pos)
        else break (DS_ERROR_BUSY, data)) (0%nat, pos)
  end.

Definition ds_vyukhov_pop (s : side) (head : Z) (data : option ds_kv) : prog (Z * option ds_kv) :=
  match s with
  | BPF => ds_vyukhov_pop_lkmm head data
  | USER => ds_vyukhov_pop_c head data
  end.

(** The scans walk [start .. end - 1]; [Z.to_nat (end - start)] turns are enough. *)
Definition ds_vyukhov_search_lkmm (head key : Z) : prog Z :=
  if head =? 0 then Ret DS_ERROR_INVALID else
  b ← load Plain (buffer head);
  if b =? 0 then Ret DS_ERROR_INVALID else
  start ← READ_ONCE (dequeue_pos head);
  end_ ← READ_ONCE (enqueue_pos head);
  mask ← load Plain (buffer_mask head);
  loop (S (Z.to_nat (end_ - start))) (fun i =>
    if i <? end_ then
      c ← can_loop;
      if (c : bool) then
        b ← load Plain (buffer head);
        k ← load Plain (data_key (vyukhov_cell b (Z.land i mask)));
        if k =? key then break DS_SUCCESS else continue (u64 (i + 1))
      else break DS_ERROR_NOT_FOUND
    else break DS_ERROR_NOT_FOUND) start.

Definition ds_vyukhov_search_c (head key : Z) : prog Z :=
  if head =? 0 then Ret DS_ERROR_INVALID else
  b ← load Plain (buffer head);
  if b =? 0 then Ret DS_ERROR_INVALID else
  start ← arena_atomic_load (dequeue_pos head) Relaxed;
  end_ ← arena_atomic_load (enqueue_pos head) Relaxed;
  mask ← load Plain (buffer_mask head);
  loop (S (Z.to_nat (end_ - start))) (fun i =>
    if i <? end_ then
      b ← load Plain (buffer head);
      k ← load Plain (data_key (vyukhov_cell b (Z.land i mask)));
      if k =? key then break DS_SUCCESS else continue (u64 (i + 1))
    else break DS_ERROR_NOT_FOUND) start.

Definition ds_vyukhov_search (s : side) (head key : Z) : prog Z :=
  match s with
  | BPF => ds_vyukhov_search_lkmm head key
  | USER => ds_vyukhov_search_c head key
  end.

Definition ds_vyukhov_verify_lkmm (head : Z) : prog Z :=
  if head =? 0 then Ret DS_ERROR_INVALID else
  b ← load Plain (buffer head);
  if b =? 0 then Ret DS_ERROR_CORRUPT else
  enq ← READ_ONCE (enqueue_pos head);
  deq ← READ_ONCE (dequeue_pos head);
  if deq >? enq then Ret DS_ERROR_CORRUPT else
  mask ← load Plain (buffer_mask head);
  let size := u64 (enq - deq) in
  let capacity := u64 (mask + 1) in
  if size >? capacity then Ret DS_ERROR_CORRUPT else
  n ← load Plain (count head);
  if n >? capacity then Ret DS_ERROR_CORRUPT else Ret DS_SUCCESS.

Definition ds_vyukhov_verify_c (head : Z) : prog Z :=
  if head =? 0 then Ret DS_ERROR_INVALID else
  b ← load Plain (buffer head);
  if b =? 0 then Ret DS_ERROR_CORRUPT else
  enq ← arena_atomic_load (enqueue_pos head) Relaxed;
  deq ← arena_atomic_load (dequeue_pos head) Relaxed;
  if deq >? enq then Ret DS_ERROR_CORRUPT else
  mask ← load Plain (buffer_mask head);
  let size := u64 (enq - deq) in
  let capacity := u64 (mask + 1) in
  if size >? capacity then Ret DS_ERROR_CORRUPT else
  n ← arena_atomic_load (count head) Relaxed;
  if n >? capacity then Ret DS_ERROR_CORRUPT else Ret DS_SUCCESS.

Definition ds_vyukhov_verify (s : side) (head : Z) : prog Z :=
  match s with
  | BPF => ds_vyukhov_verify_lkmm head
  | USER => ds_vyukhov_verify_c head
  end.

Definition ds_vyukhov_get_metadata : ds_metadata := {|
  md_name := "vyukhov";
  md_description := "Bounded MPMC Queue (Vyukhov 1024cores)";
  md_node_size := VyukhovNode.size;
  md_requires_locking := 0
|}.

(** The callback and its context: [fn key value ctx] answers its result and the new context.
    [None] is the null function pointer. *)
Section iterate.
Context {Ctx : Type}.

Definition ds_vyukhov_iter_fn : Type := Z -> Z -> Ctx -> Z * Ctx.

Definition ds_vyukhov_iterate_lkmm (head : Z) (fn : option ds_vyukhov_iter_fn) (ctx : Ctx)
  : prog (Z * Ctx) :=
  match fn with
  | None => Ret (0, ctx)
  | Some fn =>
      if head =? 0 then Ret (0, ctx) else
      b ← load Plain (buffer head);
      if b =? 0 then Ret (0, ctx) else
      start ← READ_ONCE (dequeue_pos head);
      end_ ← READ_ONCE (enqueue_pos head);
      mask ← load Plain (buffer_mask head);
      loop (S (Z.to_nat (end_ - start))) (fun '(i, n, ctx) =>
        if i <? end_ then
          c ← can_loop;
          if (c : bool) then
            b ← load Plain (buffer head);
            let cell := vyukhov_cell b (Z.land i mask) in
            k ← load Plain (data_key cell);
            v ← load Plain (data_value cell);
            let '(ret, ctx) := fn k v ctx in
            if negb (ret =? 0) then break (n, ctx)
            else continue (u64 (i + 1), u64 (n + 1), ctx)
          else break (n, ctx)
        else break (n, ctx)) (start, 0, ctx)
  end.

Definition ds_vyukhov_iterate_c (head : Z) (fn : option ds_vyukhov_iter_fn) (ctx : Ctx)
  : prog (Z * Ctx) :=
  match fn with
  | None => Ret (0, ctx)
  | Some fn =>
      if head =? 0 then Ret (0, ctx) else
      b ← load Plain (buffer head);
      if b =? 0 then Ret (0, ctx) else
      start ← arena_atomic_load (dequeue_pos head) Relaxed;
      end_ ← arena_atomic_load (enqueue_pos head) Relaxed;
      mask ← load Plain (buffer_mask head);
      loop (S (Z.to_nat (end_ - start))) (fun '(i, n, ctx) =>
        if i <? end_ then
          b ← load Plain (buffer head);
          let cell := vyukhov_cell b (Z.land i mask) in
          k ← load Plain (data_key cell);
          v ← load Plain (data_value cell);
          let '(ret, ctx) := fn k v ctx in
          if negb (ret =? 0) then break (n, ctx)
          else continue (u64 (i + 1), u64 (n + 1), ctx)
        else break (n, ctx)) (start, 0, ctx)
  end.

Definition ds_vyukhov_iterate (s : side) (head : Z) (fn : option ds_vyukhov_iter_fn) (ctx : Ctx)
  : prog (Z * Ctx) :=
  match s with
  | BPF => ds_vyukhov_iterate_lkmm head fn ctx
  | USER => ds_vyukhov_iterate_c head fn ctx
  end.
End iterate.

(** ** Representation

    [D] is the number of pops so far: the queue holds positions [D .. D + length l - 1]. The
    stored counters are these positions reduced to 64 bits, so nothing below bounds how many
    operations the queue has seen. *)

Section spec.
Context `{K : Kernel}.
Variables h buf k : Z.

Let cap := 2 ^ k.

Notation cell_of := (slot buf 24 (2 ^ k)) (only parsing).

(** Where the queue lives: the head and its buffer do not overlap. *)
Definition vyukhov_placed : Prop :=
  0 < h /\ 0 < buf /\ 1 <= k <= 62 /\ (h + 152 <= buf \/ buf + 24 * 2 ^ k <= h).

Definition vyukhov_foot (a : Z) : Prop := in_block h 152 a \/ in_block buf (24 * 2 ^ k) a.

Record vyukhov_repr (D : Z) (l : list ds_kv) (m : mem) : Prop := {
  vr_enq : m !! enqueue_pos h = Some (u64 (D + Zlen l));
  vr_deq : m !! dequeue_pos h = Some (u64 D);
  vr_mask : m !! buffer_mask h = Some (2 ^ k - 1);
  vr_buf : m !! buffer h = Some buf;
  vr_count : m !! count h = Some (Zlen l);
  vr_len : Zlen l <= 2 ^ k;
  vr_slots : slots_hold buf 24 8 (2 ^ k) m D l;
  vr_mapped : slots_mapped buf 24 8 (2 ^ k) m;
  vr_full : forall p, D <= p < D + Zlen l -> m !! (cell_of p + 0) = Some (u64 (p + 1));
  vr_free : forall p, D + Zlen l <= p < D + 2 ^ k -> m !! (cell_of p + 0) = Some (u64 p)
}.

Hypothesis placed : vyukhov_placed.

Lemma cap_bounds : 2 <= 2 ^ k <= 2 ^ 62.
Proof. destruct placed as (_ & _ & Hk & _). split; [change 2 with (2 ^ 1) at 1|]; apply Z.pow_le_mono_r; lia. Qed.

Lemma cell_slot p : vyukhov_cell buf (Z.land (u64 p) (2 ^ k - 1)) = cell_of p.
Proof.
  destruct placed as (_ & _ & Hk & _). unfold vyukhov_cell, VyukhovNode.size, slot, u64.
  rewrite land_mask by lia. by rewrite mod_pow2_wrap by lia.
Qed.

Lemma cell_bounds p : buf <= cell_of p /\ cell_of p + 24 <= buf + 24 * 2 ^ k.
Proof. pose proof cap_bounds. by apply (slot_bounds buf 24 8); lia. Qed.

Lemma cell_apart p q :
  p <> q -> Z.abs (p - q) < 2 ^ k -> cell_of p + 24 <= cell_of q \/ cell_of q + 24 <= cell_of p.
Proof. pose proof cap_bounds. apply (slot_apart buf 24 8); lia. Qed.

(** The memory after a completed insert (pop), in terms of the memory before it. *)
Definition vyukhov_after_insert (P n : Z) (e : ds_kv) (m : mem) : mem :=
  <[count h:=u64 (n + 1)]>
    (<[sequence (cell_of P):=u64 (P + 1)]>
      (<[data_value (cell_of P):=kv_value e]>
        (<[data_key (cell_of P):=kv_key e]>
          (<[enqueue_pos h:=u64 (P + 1)]> m)))).

Definition vyukhov_after_pop (D n : Z) (m : mem) : mem :=
  <[count h:=u64 (n - 1)]>
    (<[sequence (cell_of D):=u64 (D + 2 ^ k)]> (<[dequeue_pos h:=u64 (D + 1)]> m)).

Lemma vyukhov_repr_insert D l e m :
  vyukhov_repr D l m -> Zlen l < 2 ^ k ->
  vyukhov_repr D (l ++ [e]) (vyukhov_after_insert (D + Zlen l) (Zlen l) e m).
Proof.
  intros [E1 E2 E3 E4 E5 Hlen Hs Hm Hf He] Hroom. pose proof cap_bounds.
  pose proof placed as (_ & _ & _ & Hd).
  pose proof (Zlen_nonneg l). pose proof (cell_bounds (D + Zlen l)). unfold vyukhov_after_insert.
  split; rewrite ?Zlen_snoc; try mlookv; [lia|..].
  - apply slots_snoc; [|split; mlook].
    eapply slots_frame; [|done]. intros p x Hp Hx.
    pose proof (cell_apart p (D + Zlen l)). pose proof (cell_bounds p). skip_ins. done.
  - repeat apply slots_mapped_ins. done.
  - intros p Hp. pose proof (cell_bounds p).
    destruct (decide (p = D + Zlen l)) as [->|Hne]; [mlook|].
    pose proof (cell_apart p (D + Zlen l)). skip_ins. apply Hf. lia.
  - intros p Hp. pose proof (cell_bounds p). pose proof (cell_apart p (D + Zlen l)). skip_ins.
    apply He. lia.
Qed.

Lemma vyukhov_repr_pop D e l m :
  vyukhov_repr D (e :: l) m -> vyukhov_repr (D + 1) l (vyukhov_after_pop D (Zlen (e :: l)) m).
Proof.
  intros [E1 E2 E3 E4 E5 Hlen Hs Hm Hf He]. pose proof cap_bounds.
  pose proof placed as (_ & _ & _ & Hd).
  pose proof (Zlen_nonneg l). pose proof (cell_bounds D). unfold vyukhov_after_pop.
  rewrite Zlen_cons in *.
  split; try mlookv; [lia|..].
  - eapply slots_frame; [|by eapply slots_tail]. intros p x Hp Hx.
    pose proof (cell_apart p D). pose proof (cell_bounds p). skip_ins. done.
  - repeat apply slots_mapped_ins. done.
  - intros p Hp. pose proof (cell_bounds p). pose proof (cell_apart p D). skip_ins. apply Hf. lia.
  - intros p Hp. destruct (decide (p = D + 2 ^ k)) as [->|Hne].
    + rewrite slot_wrap by lia. mlook.
    + pose proof (cell_bounds p). pose proof (cell_apart p D). skip_ins. apply He. lia.
Qed.

Lemma foot_head x : 0 <= x < 152 -> vyukhov_foot (h + x).
Proof. left. unfold in_block. lia. Qed.

Lemma foot_cell p x : 0 <= x < 24 -> vyukhov_foot (cell_of p + x).
Proof. right. pose proof (cell_bounds p). unfold in_block. lia. Qed.

Ltac vframe :=
  repeat (apply updates_insert_trans; [first [apply foot_head; lia | apply foot_cell; lia]|]);
  apply updates_refl.

Lemma insert_ok s D l m b e :
  vyukhov_repr D l m -> budget s 1 b ->
  wpr (ds_vyukhov_insert s h (kv_key e) (kv_value e)) m b (fun r m' _ =>
    if Zlen l <? 2 ^ k then
      r = DS_SUCCESS /\ vyukhov_repr D (l ++ [e]) m' /\ updates vyukhov_foot m m'
    else r = DS_ERROR_NOMEM /\ m' = m).
Proof.
  intros Hr Hb. pose proof Hr as [E1 E2 E3 E4 E5 Hlen Hs Hm Hf He].
  pose proof cap_bounds. pose proof placed as (Hh & Hbuf & _ & Hd).
  pose proof (Zlen_nonneg l) as Hl. pose proof (cell_bounds (D + Zlen l)) as Hcb.
  destruct s; unfold ds_vyukhov_insert, ds_vyukhov_insert_lkmm, ds_vyukhov_insert_c;
    try specialize (Hb eq_refl); pif; prun; pif; prun; ploop; pif_true; prun; rewrite cell_slot.
  all: destruct (Z.ltb_spec (Zlen l) (2 ^ k)) as [Hroom|Hroom].
  all: assert (Hseq : m !! (cell_of (D + Zlen l) + 0) =
         Some (u64 (if Zlen l <? 2 ^ k then D + Zlen l else D + 1)))
      by (destruct (Z.ltb_spec (Zlen l) (2 ^ k)); [apply He; lia|];
          replace (D + Zlen l) with (D + 2 ^ k) by lia; rewrite slot_wrap by lia; apply Hf; lia);
    destruct (Z.ltb_spec (Zlen l) (2 ^ k)); try lia.
  all: destruct (slot_some buf 24 8 (2 ^ k) m (D + Zlen l) Hm) as [e0 [Hk0 Hv0]].
  all: prun; rewrite s64_distance, ?u64_add_l by lia; first [pif_true | pif_false].
  1,3: prun; pif_true; prun; split; [done|]; split; [by apply vyukhov_repr_insert|vframe].
  all: pif_true; prun; done.
Qed.

Lemma pop_ok s D l m b (d : ds_kv) :
  vyukhov_repr D l m -> budget s 1 b ->
  wpr (ds_vyukhov_pop s h (Some d)) m b (fun r m' _ =>
    match l with
    | [] => r = (DS_ERROR_NOT_FOUND, Some d) /\ m' = m
    | e :: l' =>
        r = (DS_SUCCESS, Some e) /\ vyukhov_repr (D + 1) l' m' /\
        updates vyukhov_foot m m'
    end).
Proof.
  intros Hr Hb. pose proof Hr as [E1 E2 E3 E4 E5 Hlen Hs Hm Hf He].
  pose proof cap_bounds. pose proof placed as (Hh & Hbuf & _ & Hd).
  pose proof (Zlen_nonneg l) as Hl. pose proof (cell_bounds D) as Hcb.
  destruct s; unfold ds_vyukhov_pop, ds_vyukhov_pop_lkmm, ds_vyukhov_pop_c;
    try specialize (Hb eq_refl); pif; prun; pif; prun; ploop; pif_true; prun; rewrite cell_slot.
  all: destruct l as [|e l'];
    [assert (Hseq : m !! (cell_of D + 0) = Some (u64 D)) by (apply He; rewrite Zlen_nil; lia)
    |assert (Hseq : m !! (cell_of D + 0) = Some (u64 (D + 1))) by (pose proof (Zlen_nonneg l'); apply Hf; rewrite Zlen_cons in *; lia)].
  all: prun; rewrite ?u64_add_l, s64_distance by lia.
  1,3: pif_false; pif_true; prun; done.
  all: pif_true; prun; pif_true.
  all: destruct (slots_head buf 24 8 (2 ^ k) m D e l' Hs) as [Hk0 Hv0].
  all: prun; split; [by destruct e|].
  all: replace (u64 (u64 D + (2 ^ k - 1) + 1)) with (u64 (D + 2 ^ k))
         by (rewrite <- Z.add_assoc, u64_add_l; f_equal; lia).
  all: split; [by apply vyukhov_repr_pop|vframe].
Qed.
(** *** The read-only operations. The scans and the verifier compare raw counters: they are
    exact until the counters wrap. *)

(** Searching finds a key exactly when some queued pair carries it, and changes nothing, as
    long as the position counters have not wrapped. *)
Lemma search_ok s D l m b key :
  vyukhov_repr D l m -> 0 <= D -> D + Zlen l < 2 ^ 64 -> budget s (length l) b ->
  wpr (ds_vyukhov_search s h key) m b (fun r m' _ => r = search_result key l /\ m' = m).
Proof.
  intros [E1 E2 E3 E4 E5 Hlen Hs Hm Hf He] HD Hw Hb.
  pose proof cap_bounds. pose proof placed as (Hh & Hbuf & _ & _).
  destruct s; unfold ds_vyukhov_search, ds_vyukhov_search_lkmm, ds_vyukhov_search_c;
    pif; prun; pif; prun; rewrite !u64_id by (pose proof (Zlen_nonneg l); lia).
  1: pose (sd := BPF). 2: pose (sd := USER).
  all: apply (wpr_loop _ (fun n i m' b' => m' = m /\ exists rest, n = length rest /\
         0 <= i /\ i + Zlen rest = D + Zlen l /\ slots_hold buf 24 8 (2 ^ k) m i rest /\
         search_result key rest = search_result key l /\ budget sd n b') _ (length l));
    [|by split; [done|exists l; auto]|unfold Zlen; lia].
  all: intros n i m' b' (-> & rest & -> & Hi & Hpos & Hsl & Hres & Hbn).
  all: destruct rest as [|e rest]; [rewrite <- Hres; rewrite Zlen_nil in Hpos; pif; prun; done|].
  all: rewrite Zlen_cons in Hpos; pose proof (Zlen_nonneg rest); pif_true;
    try specialize (Hbn eq_refl); cbn [length] in *.
  all: destruct (slots_head _ _ _ _ _ _ _ _ Hsl) as [Hk _];
    apply slots_tail in Hsl; rewrite <- cell_slot, u64_id in Hk by lia; prun.
  all: unfold search_result, has_key in *; cbn [existsb] in Hres; destruct (kv_key e =? key) eqn:Hek;
    prun; [done|]; rewrite u64_id by lia; exists (length rest); split; [lia|].
  all: split; [done|]; exists rest; split_and!; try done; try lia; intros ?; (done || lia).
Qed.

(** Iterating calls the callback on the queued pairs from the oldest on, until it answers
    non-zero, and returns the number of pairs it accepted; the queue is unchanged. *)
Lemma iterate_ok {Ctx} s D l m b (fn : ds_vyukhov_iter_fn) (ctx : Ctx) :
  vyukhov_repr D l m -> 0 <= D -> D + Zlen l < 2 ^ 64 -> budget s (length l) b ->
  wpr (ds_vyukhov_iterate s h (Some fn) ctx) m b (fun r m' _ => r = visit fn l 0 ctx /\ m' = m).
Proof.
  intros [E1 E2 E3 E4 E5 Hlen Hs Hm Hf He] HD Hw Hb.
  pose proof cap_bounds. pose proof placed as (Hh & Hbuf & _ & _).
  destruct s; unfold ds_vyukhov_iterate, ds_vyukhov_iterate_lkmm, ds_vyukhov_iterate_c;
    pif; prun; pif; prun; rewrite !u64_id by (pose proof (Zlen_nonneg l); lia).
  1: pose (sd := BPF). 2: pose (sd := USER).
  all: apply (wpr_loop _ (fun n '(i, c, x) m' b' => m' = m /\ exists rest, n = length rest /\
         0 <= i /\ 0 <= c /\ i + Zlen rest = D + Zlen l /\ c + Zlen rest = Zlen l /\
         slots_hold buf 24 8 (2 ^ k) m i rest /\
         visit fn rest c x = visit fn l 0 ctx /\ budget sd n b') _ (length l));
    [|by split; [done|exists l; auto]|unfold Zlen; lia].
  all: intros n [[i c] x] m' b' (-> & rest & -> & Hi & Hn0 & Hpos & Hcnt & Hsl & Hres & Hbn).
  all: destruct rest as [|e rest]; [rewrite <- Hres; rewrite Zlen_nil in Hpos; pif; prun; done|].
  all: rewrite Zlen_cons in *; pose proof (Zlen_nonneg rest); pif_true;
    try specialize (Hbn eq_refl); cbn [length visit] in *.
  all: destruct (slots_head _ _ _ _ _ _ _ _ Hsl) as [Hk Hv];
    apply slots_tail in Hsl; rewrite <- cell_slot, u64_id in Hk, Hv by lia; prun.
  all: destruct (fn (kv_key e) (kv_value e) x) as [ret x'];
    destruct (negb (ret =? 0)); prun; [done|]; rewrite !u64_id by lia; exists (length rest); split; [lia|].
  all: split; [done|]; exists rest; split_and!; try done; try lia; intros ?; (done || lia).
Qed.

(** The verifier accepts every well-formed queue, except for a false alarm while the
    enqueue counter has wrapped and the dequeue counter has not. *)
Lemma verify_ok s D l m b :
  vyukhov_repr D l m ->
  wpr (ds_vyukhov_verify s h) m b (fun r m' _ =>
    r = (if u64 D >? u64 (D + Zlen l) then DS_ERROR_CORRUPT else DS_SUCCESS) /\ m' = m).
Proof.
  intros [E1 E2 E3 E4 E5 Hlen Hs Hm Hf He].
  pose proof cap_bounds. pose proof placed as (Hh & Hbuf & _ & _). pose proof (Zlen_nonneg l).
  assert (Hsz : u64 (u64 (D + Zlen l) - u64 D) = Zlen l).
  { rewrite u64_sub_l. unfold u64. rewrite Zminus_mod_idemp_r.
    replace (D + Zlen l - D) with (Zlen l) by lia. apply Z.mod_small. lia. }
  destruct s; unfold ds_vyukhov_verify, ds_vyukhov_verify_lkmm, ds_vyukhov_verify_c;
    pif; prun; pif; prun; destruct (u64 D >? u64 (D + Zlen l)); prun; try done;
    rewrite ?Hsz, ?(u64_id (2 ^ k - 1 + 1)) by lia; pif_false; prun; pif_false; prun; done.
Qed.
End spec.

(** Initialisation rejects a null header and every capacity that is not a power of two of at
    least two, without an access to memory. *)
Lemma vyukhov_init_rejects `{K : Kernel} `{Al : Allocator} s h capacity m b :
  0 <= capacity < 2 ^ 32 -> h = 0 \/ (~ exists k, 1 <= k /\ capacity = 2 ^ k) ->
  run (ds_vyukhov_init s h capacity) m b = Done DS_ERROR_INVALID m b.
Proof.
  intros Hc Hbad.
  assert (Hguard : (h =? 0) = true \/
    (capacity <? 2) || negb (Z.land capacity (u32 (capacity - 1)) =? 0) = true).
  { destruct Hbad as [->|Hbad]; [by left|right]. destruct (Z.ltb_spec capacity 2) as [|Hge]; [done|].
    cbn [orb]. rewrite u32_id by lia. apply negb_true_iff, Z.eqb_neq. intros Hl.
    apply pow2_test in Hl as (k & Hk & ->); [|lia]. apply Hbad. exists k. split; [|done].
    destruct (Z.eq_dec k 0) as [->|]; [cbn in Hge|]; lia. }
  destruct s; unfold ds_vyukhov_init, ds_vyukhov_init_lkmm, ds_vyukhov_init_c;
    destruct (h =? 0); try done; destruct Hguard as [|Hg]; try done; by rewrite Hg.
Qed.

(** ** Initialisation *)

Section init_spec.
Context `{K : Kernel} `{Al : Allocator} `{!AllocLaws Al}.
Variables (h k : Z) (live : list block).

Definition head_mapped (m : mem) : Prop :=
  is_Some (m !! enqueue_pos h) /\ is_Some (m !! dequeue_pos h) /\ is_Some (m !! buffer_mask h) /\
  is_Some (m !! buffer h) /\ is_Some (m !! count h).

(** Cells [0 .. i - 1] carry their index. *)
Definition sequences_upto (buf i : Z) (m : mem) : Prop :=
  forall j, 0 <= j < i -> m !! sequence (vyukhov_cell buf j) = Some j.

Lemma mapped_slots buf m :
  0 <= k -> mapped_words buf (24 * 2 ^ k) m ->
  slots_mapped buf 24 8 (2 ^ k) m /\ forall j, 0 <= j < 2 ^ k -> is_Some (m !! (buf + 24 * j + 0)).
Proof.
  intros Hk Hm. pose proof (Z.pow_pos_nonneg 2 k). split.
  - intros p. unfold slot. pose proof (Z.mod_pos_bound p (2 ^ k) ltac:(lia)).
    replace (buf + 24 * (p mod 2 ^ k) + 8) with (buf + 8 * (3 * (p mod 2 ^ k) + 1)) by lia.
    replace (buf + 24 * (p mod 2 ^ k) + (8 + 8)) with (buf + 8 * (3 * (p mod 2 ^ k) + 2)) by lia.
    split; apply Hm; lia.
  - intros j Hj. replace (buf + 24 * j + 0) with (buf + 8 * (3 * j)) by lia. apply Hm; lia.
Qed.

(** The initialisation loop, from any turn. *)
Definition fill_inv (s : side) (j : nat) (buf : Z) (m0 : mem) (n : nat) (i : Z) (m : mem) (b : nat) : Prop :=
  0 <= i <= 2 ^ k /\ Z.of_nat n = 2 ^ k - i /\ budget s (n + j) b /\ sequences_upto buf i m /\
  unchanged_outside (in_block buf (24 * 2 ^ k)) m0 m /\ grows m0 m.

Definition init_post (m : mem) (r : Z) (m' : mem) : Prop :=
  (forall a, in_live live a -> ~ in_block h 152 a -> m' !! a = m !! a) /\
  ((r = DS_ERROR_NOMEM /\ m' !! buffer h = Some 0 /\ head_mapped m' /\ heap_ok live m') \/
   (r = DS_SUCCESS /\ exists buf,
      vyukhov_placed h buf k /\ vyukhov_repr h buf k 0 [] m' /\
      disjoint_block buf (24 * 2 ^ k) live /\ heap_ok ((buf, 24 * 2 ^ k) :: live) m')).

Lemma sequences_step buf i m :
  0 <= i -> sequences_upto buf i m ->
  sequences_upto buf (i + 1) (<[sequence (vyukhov_cell buf i):=i]> m).
Proof.
  intros Hi H j Hj. destruct (decide (j = i)) as [->|Hne]; [mlook|].
  rewrite lookup_insert_ne; [apply H; lia|]. unfold vyukhov_cell. addr.
Qed.

(** The freshly filled queue is the empty one. *)
Lemma filled_repr buf m m' :
  vyukhov_placed h buf k ->
  m !! enqueue_pos h = Some 0 -> m !! dequeue_pos h = Some 0 ->
  m !! buffer_mask h = Some (2 ^ k - 1) -> m !! buffer h = Some buf -> m !! count h = Some 0 ->
  slots_mapped buf 24 8 (2 ^ k) m ->
  unchanged_outside (in_block buf (24 * 2 ^ k)) m m' -> grows m m' ->
  sequences_upto buf (2 ^ k) m' -> vyukhov_repr h buf k 0 [] m'.
Proof.
  intros Hpl E1 E2 E3 E4 E5 Hm Hu Hg Hs. pose proof (cap_bounds h buf k Hpl).
  destruct Hpl as (? & ? & ? & Hd).
  assert (Hh : forall a, in_block h 152 a -> m' !! a = m !! a) by (intros a Ha; apply Hu; addr).
  assert (Hz : forall n, 0 <= n < 2 ^ k -> m' !! (slot buf 24 (2 ^ k) n + 0) = Some n).
  { intros n Hn. unfold slot. rewrite Z.mod_small by lia. by apply Hs. }
  assert (Hnil : Zlen (@nil ds_kv) = 0) by done.
  split; rewrite ?Zlen_nil; try (rewrite Hh by addr; done); try lia.
  - by apply slots_nil.
  - intros p. destruct (Hm p). split; by apply Hg.
  - intros p Hp. rewrite Hz by lia. by rewrite u64_id by lia.
Qed.

(** A buffer that is disjoint from the live blocks, filled in, is a queue. *)
Lemma init_filled buf m m1 m2 m' :
  (h, 152) ∈ live -> 0 < h -> 1 <= k <= 27 ->
  m1 = <[count h:=0]> (<[dequeue_pos h:=0]> (<[enqueue_pos h:=0]>
         (<[buffer_mask h:=2 ^ k - 1]> m))) ->
  (forall a, in_live live a -> m2 !! a = m1 !! a) ->
  0 < buf -> disjoint_block buf (24 * 2 ^ k) live -> mapped_words buf (24 * 2 ^ k) m2 ->
  heap_ok ((buf, 24 * 2 ^ k) :: live) m2 ->
  unchanged_outside (in_block buf (24 * 2 ^ k)) (<[buffer h:=buf]> m2) m' ->
  grows (<[buffer h:=buf]> m2) m' -> sequences_upto buf (2 ^ k) m' ->
  init_post m DS_SUCCESS m'.
Proof.
  intros Hin Hh Hk -> Hsame Hb Hdisj Hmap Hheap Hu Hg Hs.
  pose proof (Z.pow_pos_nonneg 2 k ltac:(lia) ltac:(lia)).
  destruct (disjoint_block_sep buf (24 * 2 ^ k) h 152 live) as [Hsep|Hsep]; try (done || lia).
  all: destruct (mapped_slots buf m2 ltac:(lia) Hmap) as [Hsl _].
  all: assert (Hl : forall x, 0 <= x < 152 -> in_live live (h + x))
    by (intros x Hx; eapply in_live_elem; [done|]; unfold in_block; lia).
  all: split; [intros a Ha Hna; rewrite Hu by (intros Hab; by apply (Hdisj a Hab));
    rewrite lookup_insert_ne by addr; rewrite Hsame by done; skip_ins; done|].
  all: right; split; [done|]; exists buf.
  all: assert (Hpl : vyukhov_placed h buf k) by (repeat split; try lia).
  all: split; [done|]; split; [|split; [done|]].
  1,3: apply (filled_repr buf (<[buffer h:=buf]> m2)); try done; try mlook;
    try (rewrite lookup_insert_ne by addr; rewrite Hsame by (apply Hl; lia); mlook);
    try (by apply slots_mapped_ins).
  all: eapply heap_ok_frame; [exact Hheap| |by intros a Ha; apply Hg, lookup_ins_is_Some].
  all: eapply unchanged_trans; [apply unchanged_insert|eapply unchanged_mono; [exact Hu|]].
  all: intros; try (apply in_live_cons; auto; right); by apply Hl.
Qed.

Lemma init_ok s m b j :
  heap_ok live m -> (h, 152) ∈ live -> head_mapped m -> 0 < h -> 1 <= k <= 27 ->
  alloc_pre (24 * 2 ^ k) m -> budget s (Z.to_nat (2 ^ k) + j) b ->
  wpr (ds_vyukhov_init s h (2 ^ k)) m b (fun r m' b' => budget s j b' /\ init_post m r m').
Proof.
  intros Hheap Hin (M1 & M2 & M3 & M4 & M5) Hh Hk Hpre Hb.
  assert (Hcap : 2 <= 2 ^ k <= 2 ^ 27)
    by (split; [change 2 with (2 ^ 1) at 1|]; apply Z.pow_le_mono_r; lia).
  assert (Hp2 : Z.land (2 ^ k) (2 ^ k - 1) = 0) by (apply pow2_test; [lia|exists k; lia]).
  set (m1 := <[count h:=0]> (<[dequeue_pos h:=0]> (<[enqueue_pos h:=0]>
               (<[buffer_mask h:=2 ^ k - 1]> m)))).
  assert (Hu1 : unchanged_outside (in_block h 152) m m1) by frame.
  assert (Hg1 : grows m m1) by eauto 6 with arena.
  assert (Hpre1 : alloc_pre (24 * 2 ^ k) m1).
  { eapply alloc_pre_frame; [exact Hheap| |done]. by eapply unchanged_live. }
  assert (Hheap1 : heap_ok live m1).
  { eapply heap_ok_frame; [done| |done]. by eapply unchanged_live. }
  assert (Hsz : (24 * 2 ^ k) mod 8 = 0).
  { replace (24 * 2 ^ k) with ((3 * 2 ^ k) * 8) by lia. apply Z_mod_mult. }
  assert (Hl : forall x, 0 <= x < 152 -> in_live live (h + x))
    by (intros x Hx; eapply in_live_elem; [done|]; unfold in_block; lia).
  destruct s; unfold ds_vyukhov_init, ds_vyukhov_init_lkmm, ds_vyukhov_init_c;
    rewrite (u32_id (2 ^ k - 1)), (u32_id (2 ^ k * VyukhovNode.size)), Hp2
      by (unfold VyukhovNode.size; lia);
    pif; pif; prun; fold m1;
    replace (2 ^ k * VyukhovNode.size) with (24 * 2 ^ k) by (unfold VyukhovNode.size; lia);
    (eapply wpr_mono; [apply (alloc_law live); (done || lia)|]);
    intros p m2 b2 (-> & Hsame & Hp).
  all: assert (Hb2 : is_Some (m2 !! buffer h)) by (rewrite Hsame by (apply Hl; lia); subst m1; msome).
  all: assert (Hhm : head_mapped (<[buffer h:=p]> m2)) by
    (unfold head_mapped; split_and!; apply lookup_ins_is_Some; rewrite Hsame by (apply Hl; lia);
     subst m1; msome).
  all: prun; destruct Hp as [[-> Hh2]|(Hp0 & Hp8 & Hpa & Hdisj & Hmap & Hh2)];
    [pif_true; prun; split; [intros Hs; specialize (Hb Hs); lia|];
     split; [|left; split; [done|split; [mlook|split; [done|]]]]|].
  1,4: intros a Ha Hna; rewrite lookup_insert_ne by addr; rewrite Hsame by done;
    subst m1; skip_ins; done.
  1,3: eapply heap_ok_frame; [done|apply unchanged_insert, Hl; lia|auto with arena].
  all: pif_false.
  1: apply (wpr_loop _ (fill_inv BPF j p (<[buffer h:=p]> m2)) _ (Z.to_nat (2 ^ k))).
  4: apply (wpr_loop _ (fill_inv USER j p (<[buffer h:=p]> m2)) _ (Z.to_nat (2 ^ k))).
  3,6: lia.
  2,4: repeat split; try done; try lia; auto with arena; intros j' Hj; lia.
  all: intros n i m3 b3 (Hi & Hn & Hbn & Hsq & Hu & Hg); pif;
    [try specialize (Hbn eq_refl)|prun; split; [intros Hs; specialize (Hbn Hs); lia|];
     eapply init_filled; try done; by replace (2 ^ k) with i by lia].
  all: assert (Hbuf3 : m3 !! buffer h = Some p)
    by (rewrite Hu by (intros Hx; apply (Hdisj _ Hx), Hl; lia); mlook).
  all: assert (Hcell : is_Some (m3 !! sequence (vyukhov_cell p i)))
    by (destruct (mapped_slots p m2 ltac:(lia) Hmap) as [_ Hc']; apply Hg, lookup_ins_is_Some, Hc'; lia).
  all: prun; rewrite u32_id by lia; exists (n - 1)%nat.
  all: split; [lia|]; split; [lia|split; [lia|split; [intros ?; (done || lia)|split; [apply sequences_step; (done || lia)|]]]].
  all: split; [|by apply grows_insert]; apply unchanged_insert_trans; [|done];
    unfold vyukhov_cell; addr.
Qed.
End init_spec.

(** ** The queue as a container *)

Section container.
Context `{K : Kernel} `{Al : Allocator} `{!AllocLaws Al}.
Variables (s : side) (h k : Z).
Hypothesis h_pos : 0 < h.
Hypothesis k_range : 1 <= k <= 27.
Hypothesis alloc_ready : forall live sz m, heap_ok live m -> alloc_pre sz m.

Definition vyukhov_own (buf : Z) : list block := [(h, 152); (buf, 24 * 2 ^ k)].

Lemma vyukhov_repr_frame buf D l m m' :
  (forall a, in_live (vyukhov_own buf) a -> m' !! a = m !! a) ->
  vyukhov_repr h buf k D l m -> vyukhov_repr h buf k D l m'.
Proof.
  intros Hf [E1 E2 E3 E4 E5 Hlen Hs Hm Hfl Hfr]. pose proof (Z.pow_pos_nonneg 2 k).
  assert (Hh : forall a, in_block h 152 a -> m' !! a = m !! a)
    by (intros a Ha; by apply Hf, in_own_head).
  assert (Ha : forall a, in_block buf (24 * 2 ^ k) a -> m' !! a = m !! a)
    by (intros a Ha; by apply Hf, in_own_array).
  assert (Hq : forall p, m' !! (slot buf 24 (2 ^ k) p + 0) = m !! (slot buf 24 (2 ^ k) p + 0)).
  { intros p. apply Ha. destruct (slot_range buf 24 8 (2 ^ k) ltac:(lia) ltac:(lia) p 0 8); try lia.
    unfold in_block. lia. }
  split; try (rewrite Hh by addr; done); try done.
  - by eapply slots_hold_frame; [lia..|exact Ha|].
  - by eapply slots_mapped_frame; [lia..|exact Ha|].
  - intros p Hp. rewrite Hq. by apply Hfl.
  - intros p Hp. rewrite Hq. by apply Hfr.
Qed.

Lemma vyukhov_home_frame m m' :
  (forall a, in_block h 152 a -> m' !! a = m !! a) ->
  (head_mapped h m -> head_mapped h m') /\ (m !! buffer h = Some 0 -> m' !! buffer h = Some 0).
Proof. intros Hf. unfold head_mapped. split; rewrite ?Hf by addr; done. Qed.

Definition vyukhov_container : Container := {|
  c_init := ds_vyukhov_init s h (2 ^ k);
  c_insert := ds_vyukhov_insert s h;
  c_pop := ds_vyukhov_pop s h;
  c_home := (h, 152);
  c_ready := head_mapped h;
  c_blank m := m !! buffer h = Some 0;
  c_inv own l m := exists buf, vyukhov_placed h buf k /\ own = vyukhov_own buf /\
                     exists D, vyukhov_repr h buf k D l m;
  c_spec := bounded fifo_add (2 ^ k) DS_ERROR_NOMEM;
  c_init_budget := Z.to_nat (2 ^ k);
  c_budget := 1
|}.

#[export] Instance vyukhov_container_laws : ContainerLaws s vyukhov_container.
Proof.
  split.
  - intros own l m m' Hf (buf & Hp & -> & D & Hr). exists buf. split; [done|]. split; [done|].
    exists D. by eapply vyukhov_repr_frame.
  - intros m m' Hf. apply vyukhov_home_frame. intros a Ha. by apply Hf, in_own_head.
  - intros rest m b j [Hh Hsep] Hrd Hb. cbn [app] in *.
    eapply wpr_mono; [apply (init_ok h k ((h, 152) :: rest) s m b j); try done; [left|by eapply alloc_ready]|].
    assert (Hap : forall a, in_live rest a -> ~ in_block h 152 a)
      by (intros a Ha Hb'; destruct Hsep as [Hd _]; by apply (Hd a)).
    intros r m' b' (Hb' & Hsame & [(-> & Hbl & Hmp & Hh')|(-> & buf & Hp & Hr & Hd & Hh')]);
      (split; [done|]); (split; [intros a Ha; apply Hsame; [apply in_live_cons; by right|by apply Hap]|]);
      [by left|right]. split; [done|]. exists (vyukhov_own buf). split.
    + apply (heap_holds_perm [(buf, 24 * 2 ^ k); (h, 152)]); [apply perm_swap|]. by split.
    + exists buf. split; [done|]. split; [done|]. by exists 0.
  - intros own rest l m b e Hh (buf & Hp & -> & D & Hr) Hb.
    eapply wpr_mono; [by apply (insert_ok h buf k Hp s D l)|].
    intros r m' b' Hpost.
    eapply (array_insert_law _ _ _ _ _ (vyukhov_foot h buf k) _ (vyukhov_repr h buf k D));
      [done|intros; exists buf; eauto|done|done|..]; destruct (Zlen l <? 2 ^ k);
      first [by destruct Hpost as (-> & Hr' & Hu)
            |destruct Hpost as [-> ->]; (done || apply updates_refl)].
  - intros own rest l m b d Hh (buf & Hp & -> & D & Hr) Hb.
    eapply wpr_mono; [by apply (pop_ok h buf k Hp s D l)|].
    intros r m' b' Hpost.
    eapply (array_pop_law _ _ _ _ _ (vyukhov_foot h buf k) _
      (fun l m => exists D, vyukhov_repr h buf k D l m)); [done|intros; exists buf; eauto|done|..];
      destruct l;
      first [destruct Hpost as (-> & Hr' & Hu); by eauto
            |destruct Hpost as [-> ->]; first [apply updates_refl|by eauto]].
Qed.
End container.
