(* ===== verification/VyukhovConc.v ===== *)
(** * Vyukhov's queue, shared by any number of producers and consumers.

    An insertion takes effect when its compare-and-swap takes a ticket, and is in flight until it
    has written and published its cell; a pop likewise until it has released its cell. While an
    operation is in flight the others may be refused: an insertion as if the queue were full, if
    a pop is in flight, a pop as if it were empty, if an insertion is. [vsteps] is the queue with
    exactly these liberties. *)
From stdpp Require Import base numbers gmap list fin_maps option relations.
From S2P Require Import Prelude Machine Logic Api Owned Container Conc Duet Threads Ring Vyukhov.
Import VyukhovHead VyukhovNode.

(** ** The specification *)

(** What happens to the queue: an operation takes effect, an insertion publishes its cell, a pop
    releases its. *)
Inductive vlabel := VTook (ev : event) | VPublished | VReleased.

(** The elements, and how many insertions and pops are in flight. *)
Notation vstate := (list ds_kv * nat * nat)%type.

Inductive vstep (cap : Z) : vstate -> vlabel -> vstate -> Prop :=
  | v_insert l w r e : Zlen l < cap ->
      vstep cap (l, w, r) (VTook (EInsert e DS_SUCCESS)) (l ++ [e], S w, r)
  | v_publish l w r : vstep cap (l, S w, r) VPublished (l, w, r)
  | v_pop l w r e d : vstep cap (e :: l, w, r) (VTook (EPop d DS_SUCCESS (Some e))) (l, w, S r)
  | v_release l w r : vstep cap (l, w, S r) VReleased (l, w, r)
  | v_full l w r e : Zlen l = cap \/ (0 < r)%nat ->
      vstep cap (l, w, r) (VTook (EInsert e DS_ERROR_NOMEM)) (l, w, r)
  | v_empty l w r d : l = [] \/ (0 < w)%nat ->
      vstep cap (l, w, r) (VTook (EPop d DS_ERROR_NOT_FOUND (Some d))) (l, w, r)
  | v_busy_insert l w r e : vstep cap (l, w, r) (VTook (EInsert e DS_ERROR_BUSY)) (l, w, r)
  | v_busy_pop l w r d : vstep cap (l, w, r) (VTook (EPop d DS_ERROR_BUSY (Some d))) (l, w, r).

Inductive vsteps (cap : Z) : vstate -> list vlabel -> vstate -> Prop :=
  | v_done c : vsteps cap c [] c
  | v_more c1 lb c2 lbs c3 : vstep cap c1 lb c2 -> vsteps cap c2 lbs c3 -> vsteps cap c1 (lb :: lbs) c3.

#[export] Hint Constructors vstep vsteps : core.

Lemma vsteps_snoc cap c1 lbs c2 lb c3 :
  vsteps cap c1 lbs c2 -> vstep cap c2 lb c3 -> vsteps cap c1 (lbs ++ [lb]) c3.
Proof. induction 1; intros Hs; cbn; eauto. Qed.

(** The operations of a history, without what happened to their cells. *)
Definition took (lbs : list vlabel) : list event :=
  omap (fun lb => match lb with VTook ev => Some ev | _ => None end) lbs.

#[global] Arguments took : simpl never.

Lemma took_app xs ys : took (xs ++ ys) = took xs ++ took ys.
Proof. apply omap_app. Qed.

(** The liberties concern refusals only: elements leave in the order in which they entered. *)
Lemma vsteps_fifo cap c lbs c' :
  vsteps cap c lbs c' -> popped (took lbs) ++ c'.1.1 = c.1.1 ++ accepted (took lbs).
Proof.
  induction 1 as [c|c1 lb c2 lbs c3 Hs _ IH]; [cbn; by rewrite app_nil_r|].
  assert (H1 : popped (took [lb]) ++ c2.1.1 = c1.1.1 ++ accepted (took [lb]))
    by (destruct Hs; cbn; by rewrite ?app_nil_r).
  change (lb :: lbs) with ([lb] ++ lbs). unfold popped, accepted in *.
  by rewrite took_app, !omap_app, <- app_assoc, IH, app_assoc, H1, <- app_assoc.
Qed.

(** With nothing in flight the liberties are gone: the next operation is one of the bounded
    queue, or gives up. *)
Lemma vstep_quiet cap l ev c :
  vstep cap (l, 0%nat, 0%nat) (VTook ev) c ->
  abs_step (bounded fifo_add cap DS_ERROR_NOMEM) l ev c.1.1 \/
  (c.1.1 = l /\ (exists e, ev = EInsert e DS_ERROR_BUSY) \/ (exists d, ev = EPop d DS_ERROR_BUSY (Some d))).
Proof.
  intros Hs. inversion Hs as [? ? ? e Hl| |? ? ? e d| |? ? ? e Hr|? ? ? d Hr| |]; subst; cbn.
  - left. by apply (abs_insert (bounded fifo_add cap DS_ERROR_NOMEM)).
  - left. constructor.
  - left. destruct Hr as [Hr|Hr]; [|lia]. constructor; [|done]. cbn. split; [lia|done].
  - left. destruct Hr as [->|Hr]; [|lia]. constructor.
  - right. left. eauto.
  - right. right. eauto.
Qed.

(** The events of thread [i]. *)
Definition vmine (i : nat) (H : list (nat * vlabel)) : list event :=
  took (omap (fun p => if decide (p.1 = i) then Some p.2 else None) H).

#[global] Arguments vmine : simpl never.

Lemma vmine_snoc i H lb : vmine i (H ++ [(i, lb)]) = vmine i H ++ took [lb].
Proof. unfold vmine. rewrite omap_app, took_app. cbn. by rewrite decide_True. Qed.

Lemma vmine_snoc_ne i j H lb : i <> j -> vmine j (H ++ [(i, lb)]) = vmine j H.
Proof.
  intros Hne. unfold vmine. rewrite omap_app, took_app. cbn. by rewrite decide_False, app_nil_r.
Qed.

(** ** The ghost state *)

(** The pops so far, the contents, the positions taken by insertions (pops) in flight, each with
    its thread and pair, the history, the operations each thread has left, and what each owes to
    the counter. *)
Record vview := mk_vview {
  vv_deq : Z;
  vv_items : list ds_kv;
  vv_wr : gmap Z (nat * ds_kv);
  vv_rd : gmap Z (nat * ds_kv);
  vv_hist : list (nat * vlabel);
  vv_todo : list nat;
  vv_owed : list Z
}.

Definition vv_enq (g : vview) : Z := vv_deq g + Zlen (vv_items g).
Definition vv_left (g : vview) : Z := Z.of_nat (sum_list (vv_todo g)).

Section queue.
Context `{K : Kernel}.
Variables (h buf k : Z) (D0 : Z) (l0 : list ds_kv) (N T : nat).
Hypothesis placed : vyukhov_placed h buf k.
Hypothesis few : Z.of_nat T < 2 ^ 62.
Implicit Types (s : mem * vview) (g : vview) (evs : list event) (e d : ds_kv).

Notation cap := (2 ^ k).
Notation cell := (slot buf 24 (2 ^ k)).
Notation seq_at m p := (m !! (cell p + 0)).
Notation holds := (slot_holds buf 24 8 (2 ^ k)).
Notation P0 := (D0 + Zlen l0).

Record v_inv s : Prop := {
  vi_enq : s.1 !! enqueue_pos h = Some (u64 (vv_enq s.2));
  vi_deq : s.1 !! dequeue_pos h = Some (u64 (vv_deq s.2));
  vi_mask : s.1 !! buffer_mask h = Some (2 ^ k - 1);
  vi_buf : s.1 !! buffer h = Some buf;
  vi_count : s.1 !! count h = Some (u64 (Zlen (vv_items s.2) - zsum (vv_owed s.2)));
  vi_len : Zlen (vv_items s.2) <= cap;
  vi_wr q i e : vv_wr s.2 !! q = Some (i, e) ->
    (i < N)%nat /\ vv_deq s.2 <= q < vv_enq s.2 /\ vv_items s.2 !! Z.to_nat (q - vv_deq s.2) = Some e /\
    seq_at s.1 q = Some (u64 q);
  vi_rd q i e : vv_rd s.2 !! q = Some (i, e) ->
    (i < N)%nat /\ vv_enq s.2 - cap <= q < vv_deq s.2 /\ holds s.1 q e /\ seq_at s.1 q = Some (u64 (q + 1));
  vi_full q e : vv_deq s.2 <= q -> vv_items s.2 !! Z.to_nat (q - vv_deq s.2) = Some e ->
    vv_wr s.2 !! q = None -> holds s.1 q e /\ seq_at s.1 q = Some (u64 (q + 1));
  vi_free q : vv_enq s.2 <= q < vv_deq s.2 + cap -> vv_rd s.2 !! (q - cap) = None ->
    seq_at s.1 q = Some (u64 q);
  vi_mapped : slots_mapped buf 24 8 (2 ^ k) s.1;
  vi_hist : vsteps cap (l0, 0%nat, 0%nat) ((vv_hist s.2).*2)
    (vv_items s.2, base.size (vv_wr s.2), base.size (vv_rd s.2));
  vi_bound : D0 <= vv_deq s.2 /\ P0 <= vv_enq s.2 /\ vv_deq s.2 + vv_left s.2 <= D0 + Z.of_nat T /\
    vv_enq s.2 + vv_left s.2 <= P0 + Z.of_nat T;
  vi_owed : length (vv_owed s.2) = N;
  vi_who : Forall (fun p => (p.1 < N)%nat) (vv_hist s.2)
}.

(** Thread [i] has an operation in flight at position [q]. *)
Definition owns i g q : Prop := exists e, vv_wr g !! q = Some (i, e) \/ vv_rd g !! q = Some (i, e).

(** Only new positions are taken, and the counters only grow. *)
Definition tickets g g' : Prop :=
  vv_deq g <= vv_deq g' /\ vv_enq g <= vv_enq g' /\
  (forall q, q < vv_enq g -> vv_wr g !! q = None -> vv_wr g' !! q = None) /\
  (forall q, q < vv_deq g -> vv_rd g !! q = None -> vv_rd g' !! q = None).

(** What thread [i] has in the books. *)
Definition same_books i g g' : Prop :=
  vmine i (vv_hist g') = vmine i (vv_hist g) /\ vv_todo g' !! i = vv_todo g !! i /\
  vv_owed g' !! i = vv_owed g !! i /\
  (forall q e, vv_wr g' !! q = Some (i, e) <-> vv_wr g !! q = Some (i, e)) /\
  (forall q e, vv_rd g' !! q = Some (i, e) <-> vv_rd g !! q = Some (i, e)).

Definition v_rely i s s' : Prop :=
  v_inv s -> v_inv s' /\ same_books i s.2 s'.2 /\ tickets s.2 s'.2 /\
    (forall q c, owns i s.2 q -> in_block (cell q) 24 c -> s'.1 !! c = s.1 !! c).

(** The cells that thread [i] may change. *)
Definition v_writable i g (c : Z) : Prop :=
  c = enqueue_pos h \/ c = dequeue_pos h \/ c = count h \/
  exists q, owns i g q /\ in_block (cell q) 24 c.

Definition v_guar i s s' : Prop :=
  v_inv s -> v_inv s' /\ (forall j, i <> j -> same_books j s.2 s'.2) /\ tickets s.2 s'.2 /\
    unchanged_outside (v_writable i s.2) s.1 s'.1.

Lemma same_books_refl i g : same_books i g g.
Proof. by split_and!. Qed.

Lemma same_books_trans i g1 g2 g3 : same_books i g1 g2 -> same_books i g2 g3 -> same_books i g1 g3.
Proof.
  intros (A1 & A2 & A3 & A4 & A5) (B1 & B2 & B3 & B4 & B5). split; [congruence|].
  split; [congruence|]. split; [congruence|]. split; intros q e; [by rewrite B4|by rewrite B5].
Qed.

Lemma tickets_refl g : tickets g g.
Proof. by split_and!. Qed.

Lemma tickets_trans g1 g2 g3 : tickets g1 g2 -> tickets g2 g3 -> tickets g1 g3.
Proof.
  intros (A1 & A2 & A3 & A4) (B1 & B2 & B3 & B4). split; [lia|]. split; [lia|].
  split; intros q Hq Hn; [apply B3|apply B4]; auto; lia.
Qed.

Lemma owns_same i g g' q : same_books i g g' -> owns i g q -> owns i g' q.
Proof. intros (_ & _ & _ & Hw & Hr) (e & [H|H]); exists e; [left; by apply Hw|right; by apply Hr]. Qed.

#[local] Instance v_rely_preorder i : PreOrder (v_rely i).
Proof.
  split.
  - intros s Hi. split; [done|]. split; [apply same_books_refl|]. split; [apply tickets_refl|done].
  - intros s1 s2 s3 H12 H23 Hi. destruct (H12 Hi) as (Hi2 & A1 & A2 & A3).
    destruct (H23 Hi2) as (Hi3 & B1 & B2 & B3).
    split; [done|]. split; [by eapply same_books_trans|]. split; [by eapply tickets_trans|].
    intros q c Hq Hc. rewrite (B3 q), (A3 q); [done|done|done|by eapply owns_same|done].
Qed.

#[local] Instance v_guar_refl i : Reflexive (v_guar i).
Proof.
  intros s Hi. split; [done|]. split; [intros j _; apply same_books_refl|].
  split; [apply tickets_refl|apply unchanged_refl].
Qed.

(** Positions in flight are in a window of the size of the buffer. *)
Lemma owns_window i s q : v_inv s -> owns i s.2 q -> vv_enq s.2 - cap <= q < vv_enq s.2.
Proof.
  intros Hi (e & [H|H]).
  - destruct (vi_wr _ Hi _ _ _ H) as (_ & Hq & _). pose proof (vi_len _ Hi). unfold vv_enq in *. lia.
  - destruct (vi_rd _ Hi _ _ _ H) as (_ & Hq & _). unfold vv_enq in *.
    pose proof (Zlen_nonneg (vv_items s.2)). lia.
Qed.

Lemma owns_fun i j s q : v_inv s -> owns i s.2 q -> owns j s.2 q -> i = j.
Proof.
  intros Hi (e & [H|H]) (e' & [H'|H']); try congruence.
  - destruct (vi_wr _ Hi _ _ _ H) as (_ & Hq & _). destruct (vi_rd _ Hi _ _ _ H') as (_ & Hq' & _). lia.
  - destruct (vi_rd _ Hi _ _ _ H) as (_ & Hq & _). destruct (vi_wr _ Hi _ _ _ H') as (_ & Hq' & _). lia.
Qed.

(** Cells of different positions of a window, and cells of the header. *)
Lemma cell_other p q c : p <> q -> Z.abs (p - q) < cap -> in_block (cell p) 24 c -> ~ in_block (cell q) 24 c.
Proof. intros Hne Hw Hc Hc'. destruct (cell_apart h buf k placed p q Hne Hw); unfold in_block in *; lia. Qed.

Lemma cell_header p c x : in_block (cell p) 24 c -> 0 <= x < 152 -> c <> h + x.
Proof.
  intros Hc Hx. pose proof (cell_bounds h buf k placed p). pose proof placed as (_ & _ & _ & Hd).
  unfold in_block in *. lia.
Qed.

Lemma v_guar_compatible i j s s' : i <> j -> v_guar i s s' -> v_rely j s s'.
Proof.
  intros Hne HG Hi. destruct (HG Hi) as (Hi' & Hb & Ht & Hu). split; [done|].
  split; [by apply Hb|]. split; [done|]. intros q c Hq Hc. apply Hu.
  intros [Hw|[Hw|[Hw|(p & Hp & Hpc)]]].
  1-3: revert Hw; apply (cell_header q); (done || lia).
  revert Hpc. apply (cell_other q); [|pose proof (owns_window _ _ _ Hi Hq); pose proof (owns_window _ _ _ Hi Hp); lia|done].
  intros ->. by pose proof (owns_fun _ _ _ _ Hi Hp Hq).
Qed.

(** ** The sequence numbers *)

(** The position that a cell stands for at present. *)
Lemma window_position p b : exists q, b <= q < b + cap /\ cell p = cell q /\
  (q = p \/ q <= p - cap \/ p + cap <= q).
Proof.
  pose proof (cap_bounds h buf k placed) as Hcap. exists (b + (p - b) mod cap).
  pose proof (Z.mod_pos_bound (p - b) cap ltac:(lia)). pose proof (Z.div_mod (p - b) cap ltac:(lia)) as E.
  split; [lia|]. split.
  - apply slot_mod. rewrite Zplus_mod_idemp_r. f_equal. lia.
  - destruct (Z.lt_trichotomy ((p - b) / cap) 0) as [Hj|[Hj|Hj]]; [right; right; nia|left; lia|right; left; nia].
Qed.

Lemma seq_state s p : v_inv s -> exists q S,
  vv_deq s.2 <= q < vv_deq s.2 + cap /\ (q = p \/ q <= p - cap \/ p + cap <= q) /\
  seq_at s.1 p = Some (u64 S) /\
  ((S = q /\ q < vv_enq s.2 /\ is_Some (vv_wr s.2 !! q)) \/
   (S = q + 1 /\ q < vv_enq s.2 /\ vv_wr s.2 !! q = None) \/
   (S = q - cap + 1 /\ vv_enq s.2 <= q /\ is_Some (vv_rd s.2 !! (q - cap))) \/
   (S = q /\ vv_enq s.2 <= q /\ vv_rd s.2 !! (q - cap) = None)).
Proof.
  intros Hi. pose proof (cap_bounds h buf k placed) as Hcap.
  destruct (window_position p (vv_deq s.2)) as (q & Hq & Ec & Hp). rewrite Ec.
  destruct (Z.lt_ge_cases q (vv_enq s.2)) as [Hlt|Hge].
  - destruct (vv_wr s.2 !! q) as [[i e]|] eqn:Ew.
    + destruct (vi_wr _ Hi _ _ _ Ew) as (_ & _ & _ & Hs). exists q, q. eauto 8.
    + destruct (lookup_lt_is_Some_2 (vv_items s.2) (Z.to_nat (q - vv_deq s.2))) as [e He].
      { unfold vv_enq, Zlen in Hlt. lia. }
      destruct (vi_full _ Hi q e ltac:(lia) He Ew) as [_ Hs]. exists q, (q + 1). eauto 8.
  - destruct (vv_rd s.2 !! (q - cap)) as [[i e]|] eqn:Er.
    + destruct (vi_rd _ Hi _ _ _ Er) as (_ & _ & _ & Hs). exists q, (q - cap + 1).
      rewrite <- (slot_wrap buf 24 cap), Z.sub_add in Hs by lia. eauto 10.
    + exists q, q. pose proof (vi_free _ Hi q ltac:(lia) Er). eauto 10.
Qed.

Lemma size_pos (m : gmap Z (nat * ds_kv)) q : is_Some (m !! q) -> (0 < base.size m)%nat.
Proof.
  intros [x Hx]. destruct (base.size m) eqn:E; [|lia]. apply map_size_empty_inv in E as ->.
  by rewrite lookup_empty in Hx.
Qed.

(** What an insertion at the ticket [P] reads: the cell is free for it, or the queue is full or a
    pop is in flight, or the ticket is gone. *)
Lemma seq_enq s P : v_inv s -> P0 <= P <= vv_enq s.2 -> exists S,
  seq_at s.1 P = Some (u64 S) /\ - 2 ^ 63 <= S - P < 2 ^ 63 /\
  (S = P -> P - cap < vv_deq s.2 /\ vv_rd s.2 !! (P - cap) = None) /\
  (S < P -> Zlen (vv_items s.2) = cap \/ (0 < base.size (vv_rd s.2))%nat).
Proof.
  intros Hi HP. destruct (seq_state s P Hi) as (q & S & Hq & Hw & Hs & HS). exists S. split; [done|].
  pose proof (cap_bounds h buf k placed) as Hcap. pose proof (vi_len _ Hi) as Hlen.
  destruct (vi_bound _ Hi) as (B1 & B2 & B3 & B4). pose proof (Zlen_nonneg (vv_items s.2)).
  assert (Hbusy : forall x, is_Some (vv_rd s.2 !! x) -> (0 < base.size (vv_rd s.2))%nat) by (intros; by eapply size_pos).
  assert (Hrd : forall x, is_Some (vv_rd s.2 !! x) -> vv_enq s.2 - cap <= x < vv_deq s.2).
  { intros x [[i e] Hx]. by destruct (vi_rd _ Hi _ _ _ Hx) as (_ & ? & _). }
  unfold vv_left, vv_enq in *.
  destruct HS as [(-> & Hlt & Hwr)|[(-> & Hlt & Hwr)|[(-> & Hge & Hr)|(-> & Hge & Hr)]]].
  - split; [lia|]. split; [|intros; left; lia]. intros <-. split; [lia|].
    destruct (vv_rd s.2 !! (q - cap)) eqn:Er; [|done].
    specialize (Hrd (q - cap)). rewrite Er in Hrd. specialize (Hrd ltac:(by eexists)). lia.
  - split; [lia|]. split; [lia|]. intros. left. lia.
  - split; [lia|]. specialize (Hrd _ Hr). split; [lia|]. intros _. right. by eapply Hbusy.
  - split; [lia|]. split; [|lia]. intros <-. split; [lia|done].
Qed.

(** What a pop at the ticket [D] reads. *)
Lemma seq_deq s D : v_inv s -> D0 <= D <= vv_deq s.2 -> exists S,
  seq_at s.1 D = Some (u64 S) /\ - 2 ^ 63 <= S - (D + 1) < 2 ^ 63 /\
  (S = D + 1 -> D < vv_enq s.2 /\ vv_wr s.2 !! D = None) /\
  (S < D + 1 -> vv_items s.2 = [] \/ (0 < base.size (vv_wr s.2))%nat).
Proof.
  intros Hi HD. destruct (seq_state s D Hi) as (q & S & Hq & Hw & Hs & HS). exists S. split; [done|].
  pose proof (cap_bounds h buf k placed) as Hcap. pose proof (vi_len _ Hi) as Hlen.
  destruct (vi_bound _ Hi) as (B1 & B2 & B3 & B4). pose proof (Zlen_nonneg (vv_items s.2)).
  assert (Hold : D < vv_deq s.2 -> D < vv_enq s.2 /\ vv_wr s.2 !! D = None).
  { intros Hlt. unfold vv_enq. split; [lia|]. destruct (vv_wr s.2 !! D) as [[i e]|] eqn:Ew; [|done].
    destruct (vi_wr _ Hi _ _ _ Ew) as (_ & ? & _). lia. }
  assert (Hnil : vv_enq s.2 <= q -> q = D -> vv_items s.2 = []).
  { intros Hge ->. unfold vv_enq, Zlen in Hge. destruct (vv_items s.2); [done|cbn in Hge; lia]. }
  unfold vv_left, vv_enq in *.
  destruct HS as [(-> & Hlt & Hwr)|[(-> & Hlt & Hwr)|[(-> & Hge & Hr)|(-> & Hge & Hr)]]].
  - split; [lia|]. split; [intros; apply Hold; lia|]. intros. right. by eapply size_pos.
  - split; [lia|]. split; [|lia]. intros. destruct (Z.eq_dec q D) as [->|]; [done|apply Hold; lia].
  - split; [lia|]. split; [intros; apply Hold; lia|]. intros. left. apply Hnil; lia.
  - split; [lia|]. split; [intros; apply Hold; lia|]. intros. left. apply Hnil; lia.
Qed.

(** ** Moves of the ghost state *)

(** Thread [i] adds [lb] to the history: [n] operations are left to it, and it owes [o]. *)
Definition vlog i n o lb D items wr rd g : vview :=
  mk_vview D items wr rd (vv_hist g ++ [(i, lb)]) (<[i:=n]> (vv_todo g)) (<[i:=o]> (vv_owed g)).

Lemma vlog_left i n n' o lb D items wr rd g :
  vv_todo g !! i = Some n -> vv_left (vlog i n' o lb D items wr rd g) = vv_left g - Z.of_nat n + Z.of_nat n'.
Proof.
  intros Hi. pose proof (sum_list_insert _ i n n' Hi) as E. unfold vv_left, vlog. cbn [vv_todo]. lia.
Qed.

(** A refusal, or giving up. *)
Lemma inv_refuse m g i n lb :
  v_inv (m, g) -> vv_todo g !! i = Some (S n) -> vv_owed g !! i = Some 0 ->
  vstep cap (vv_items g, base.size (vv_wr g), base.size (vv_rd g)) lb
    (vv_items g, base.size (vv_wr g), base.size (vv_rd g)) ->
  v_inv (m, vlog i n 0 lb (vv_deq g) (vv_items g) (vv_wr g) (vv_rd g) g).
Proof.
  intros [E1 E2 E3 E4 E5 Hlen Hw Hr Hf He Hm Hh Hb Ho Hwho] Ht Hoi Hs. cbn in *. split; cbn; try done.
  - rewrite (zsum_insert _ _ _ _ Hoi), E5. do 2 f_equal. lia.
  - rewrite fmap_app. by eapply vsteps_snoc.
  - rewrite (vlog_left _ (S n)) by done. unfold vv_enq in *. cbn. lia.
  - by rewrite length_insert.
  - eapply who_snoc; [exact Ho|exact Hoi|done].
Qed.

(** Taking a ticket for an insertion. *)
Lemma inv_take_enq m g i n e :
  v_inv (m, g) -> (i < N)%nat -> vv_todo g !! i = Some (S n) -> vv_owed g !! i = Some 0 ->
  vv_enq g - cap < vv_deq g -> vv_rd g !! (vv_enq g - cap) = None ->
  v_inv (<[enqueue_pos h:=u64 (vv_enq g + 1)]> m,
    vlog i n 1 (VTook (EInsert e DS_SUCCESS)) (vv_deq g) (vv_items g ++ [e])
      (<[vv_enq g:=(i, e)]> (vv_wr g)) (vv_rd g) g).
Proof.
  intros [E1 E2 E3 E4 E5 Hlen Hw Hr Hf He Hm Hh Hb Ho Hwho] HiN Ht Hoi Hroom Hrd. cbn in *.
  pose proof placed as (_ & _ & _ & Hd). pose proof (Zlen_nonneg (vv_items g)) as Hl0.
  assert (Hnew : vv_wr g !! vv_enq g = None).
  { destruct (vv_wr g !! vv_enq g) as [[j x]|] eqn:Ew; [|done]. destruct (Hw _ _ _ Ew) as (_ & ? & _). lia. }
  assert (Hcell : forall q x, 0 <= x < 24 -> <[enqueue_pos h:=u64 (vv_enq g + 1)]> m !! (cell q + x) = m !! (cell q + x)).
  { intros q x Hx. pose proof (cell_bounds h buf k placed q). skip_ins. done. }
  split; unfold vv_enq in *; cbn -[slot]; rewrite ?Zlen_snoc; try (skip_ins; done).
  - rewrite lookup_insert_eq. do 2 f_equal. lia.
  - skip_ins. rewrite E5, (zsum_insert _ _ _ _ Hoi). do 2 f_equal. lia.
  - lia.
  - intros q j x Hq. rewrite Hcell by lia. apply lookup_insert_Some in Hq as [[<- [= <- <-]]|[Hne Hq]].
    + split; [done|]. split; [lia|]. split; [|apply He; [lia|done]].
      apply lookup_app_Some. right. unfold Zlen in *. split; [lia|].
      apply list_lookup_singleton_Some. split; [lia|done].
    + destruct (Hw _ _ _ Hq) as (H1 & H2 & H3 & H4). split; [done|]. split; [lia|]. split; [|done].
      by apply lookup_app_l_Some.
  - intros q j x Hq. destruct (Hr _ _ _ Hq) as (H1 & H2 & [H3 H4] & H5). split; [done|].
    assert (q <> vv_deq g + Zlen (vv_items g) - cap) by congruence. split; [lia|].
    unfold slot_holds. by rewrite !Hcell by lia.
  - intros q x Hq Hx Hn. apply lookup_insert_None in Hn as [Hn Hne]. unfold slot_holds. rewrite !Hcell by lia.
    apply lookup_app_Some in Hx as [Hx|[Hx1 Hx2]]; [by apply Hf|].
    apply list_lookup_singleton_Some in Hx2 as [Hx2 _]. unfold Zlen in *. lia.
  - intros q Hq Hn. rewrite Hcell by lia. apply He; [lia|done].
  - by apply slots_mapped_ins.
  - rewrite fmap_app, map_size_insert_None by done. eapply vsteps_snoc; [done|]. cbn. constructor. lia.
  - rewrite (vlog_left _ (S n)) by done. lia.
  - by rewrite length_insert.
  - eapply who_snoc; [exact Ho|exact Hoi|done].
Qed.

(** Taking a ticket for a pop. *)
Lemma inv_take_deq m g i n d :
  v_inv (m, g) -> (i < N)%nat -> vv_todo g !! i = Some (S n) -> vv_owed g !! i = Some 0 ->
  vv_deq g < vv_enq g -> vv_wr g !! vv_deq g = None ->
  exists e items, vv_items g = e :: items /\ holds m (vv_deq g) e /\
  v_inv (<[dequeue_pos h:=u64 (vv_deq g + 1)]> m,
    vlog i n (-1) (VTook (EPop d DS_SUCCESS (Some e))) (vv_deq g + 1) items
      (vv_wr g) (<[vv_deq g:=(i, e)]> (vv_rd g)) g).
Proof.
  intros [E1 E2 E3 E4 E5 Hlen Hw Hr Hf He Hm Hh Hb Ho Hwho] HiN Ht Hoi Hsome Hwr. cbn in *.
  pose proof placed as (_ & _ & _ & Hd). unfold vv_enq in *.
  destruct (vv_items g) as [|e items] eqn:Eit; [rewrite Zlen_nil in Hsome; lia|].
  exists e, items. split; [done|]. rewrite Zlen_cons in *. pose proof (Zlen_nonneg items) as Hl0.
  destruct (Hf (vv_deq g) e ltac:(lia)) as [Hhold Hseq]; [by rewrite Z.sub_diag|done|]. split; [done|].
  assert (Hnew : vv_rd g !! vv_deq g = None).
  { destruct (vv_rd g !! vv_deq g) as [[j x]|] eqn:Er; [|done]. destruct (Hr _ _ _ Er) as (_ & ? & _). lia. }
  assert (Hcell : forall q x, 0 <= x < 24 -> <[dequeue_pos h:=u64 (vv_deq g + 1)]> m !! (cell q + x) = m !! (cell q + x)).
  { intros q x Hx. pose proof (cell_bounds h buf k placed q). skip_ins. done. }
  assert (Hix : forall q, vv_deq g + 1 <= q -> Z.to_nat (q - vv_deq g) = S (Z.to_nat (q - (vv_deq g + 1)))) by lia.
  split; unfold vv_enq; cbn -[slot]; try (skip_ins; done).
  - skip_ins. rewrite E1. do 2 f_equal. lia.
  - by rewrite lookup_insert_eq.
  - skip_ins. rewrite E5, (zsum_insert _ _ _ _ Hoi). do 2 f_equal. lia.
  - lia.
  - intros q j x Hq. rewrite Hcell by lia. destruct (Hw _ _ _ Hq) as (H1 & H2 & H3 & H4).
    assert (q <> vv_deq g) by congruence. split; [done|]. split; [lia|]. split; [|done].
    by rewrite Hix in H3 by lia.
  - intros q j x Hq. unfold slot_holds. rewrite !Hcell by lia.
    apply lookup_insert_Some in Hq as [[<- [= <- <-]]|[Hne Hq]].
    + split; [done|]. split; [lia|]. by split.
    + destruct (Hr _ _ _ Hq) as (H1 & H2 & H3 & H4). split; [done|]. split; [lia|]. by split.
  - intros q x Hq Hx Hn. unfold slot_holds. rewrite !Hcell by lia. apply Hf; [lia| |done].
    by rewrite Hix by lia.
  - intros q Hq Hn. apply lookup_insert_None in Hn as [Hn Hne]. rewrite Hcell by lia. apply He; [lia|done].
  - by apply slots_mapped_ins.
  - rewrite fmap_app, map_size_insert_None by done. eapply vsteps_snoc; [done|]. cbn. constructor.
  - rewrite (vlog_left _ (S n)) by done. lia.
  - by rewrite length_insert.
  - eapply who_snoc; [exact Ho|exact Hoi|done].
Qed.

(** A write into the cell of [p] spares the header and the cells of the window around [p]. *)
Lemma cell_write_header (m : mem) p c v x :
  in_block (cell p) 24 c -> 0 <= x < 152 -> <[c:=v]> m !! (h + x) = m !! (h + x).
Proof. intros Hc Hx. apply lookup_insert_ne. by apply (cell_header p c x). Qed.

Lemma cell_write_other (m : mem) p q c v x :
  p <> q -> Z.abs (p - q) < cap -> in_block (cell p) 24 c -> 0 <= x < 24 ->
  <[c:=v]> m !! (cell q + x) = m !! (cell q + x).
Proof.
  intros Hne Hw Hc Hx. apply lookup_insert_ne. intros ->. apply (cell_other p q (cell q + x)); try done.
  unfold in_block. lia.
Qed.

Ltac header P :=
  unfold enqueue_pos, dequeue_pos, buffer_mask, buffer, count in *;
  rewrite (cell_write_header _ P) by (done || lia).

(** Writing the pair of an insertion in flight. *)
Lemma inv_write m g P i e c v :
  v_inv (m, g) -> vv_wr g !! P = Some (i, e) -> in_block (cell P + 8) 16 c -> v_inv (<[c:=v]> m, g).
Proof.
  intros [E1 E2 E3 E4 E5 Hlen Hw Hr Hf He Hm Hh Hb Ho Hwho] HP Hc. cbn in *.
  destruct (Hw _ _ _ HP) as (_ & HPw & _ & HPs).
  assert (Hcb : in_block (cell P) 24 c) by (unfold in_block in *; lia).
  assert (Hne : forall q, <[c:=v]> m !! (cell q + 0) = m !! (cell q + 0) \/ cap <= Z.abs (P - q)).
  { intros q. destruct (Z.eq_dec P q) as [<-|Hne]; [left; apply lookup_insert_ne; unfold in_block in *; lia|].
    destruct (Z.lt_ge_cases (Z.abs (P - q)) cap); [left; by apply (cell_write_other _ P)|by right]. }
  unfold vv_enq in *. split; unfold vv_enq; cbn -[slot]; try done.
  1-5: by header P.
  - intros q j x Hq. destruct (Hw _ _ _ Hq) as (H1 & H2 & H3 & H4). split_and!; try done; try lia.
    destruct (Hne q) as [->|]; [done|lia].
  - intros q j x Hq. destruct (Hr _ _ _ Hq) as (H1 & H2 & [H3 H4] & H5). split; [done|]. split; [done|].
    unfold slot_holds. by rewrite !(cell_write_other _ P) by (done || lia).
  - intros q x Hq Hx Hn. destruct (Hf q x Hq Hx Hn) as [[H3 H4] H5]. apply lookup_lt_Some in Hx.
    assert (P <> q) by congruence. unfold slot_holds, Zlen in *.
    by rewrite !(cell_write_other _ P) by (done || lia).
  - intros q Hq Hn. destruct (Hne q) as [->|]; [by apply He|lia].
  - by apply slots_mapped_ins.
Qed.

(** Publishing the cell. *)
Lemma inv_publish m g P i e n :
  v_inv (m, g) -> vv_wr g !! P = Some (i, e) -> holds m P e -> vv_todo g !! i = Some n -> vv_owed g !! i = Some 1 ->
  v_inv (<[cell P + 0:=u64 (P + 1)]> m,
    vlog i n 1 VPublished (vv_deq g) (vv_items g) (delete P (vv_wr g)) (vv_rd g) g).
Proof.
  intros [E1 E2 E3 E4 E5 Hlen Hw Hr Hf He Hm Hh Hb Ho Hwho] HP Hhold Ht Hoi. cbn in *.
  destruct (Hw _ _ _ HP) as (_ & HPw & HPe & HPs). pose proof (cap_bounds h buf k placed) as Hcap.
  assert (Hcb : in_block (cell P) 24 (cell P + 0)) by (unfold in_block; lia).
  unfold vv_enq in *. split; unfold vv_enq; cbn -[slot]; try done.
  1-4: by header P.
  - header P. rewrite E5, (zsum_insert _ _ _ _ Hoi). do 2 f_equal. lia.
  - intros q j x Hq. apply lookup_delete_Some in Hq as [Hne Hq].
    destruct (Hw _ _ _ Hq) as (H1 & H2 & H3 & H4). split_and!; try done; try lia.
    by rewrite (cell_write_other _ P) by (done || lia).
  - intros q j x Hq. destruct (Hr _ _ _ Hq) as (H1 & H2 & [H3 H4] & H5). split; [done|]. split; [done|].
    unfold slot_holds. by rewrite !(cell_write_other _ P) by (done || lia).
  - intros q x Hq Hx Hn. destruct (Z.eq_dec P q) as [<-|Hne].
    + rewrite HPe in Hx. injection Hx as <-. destruct Hhold as [H3 H4]. unfold slot_holds.
      rewrite !lookup_insert_ne by lia. split; [done|]. by rewrite lookup_insert_eq.
    + rewrite lookup_delete_ne in Hn by done. destruct (Hf q x Hq Hx Hn) as [[H3 H4] H5].
      apply lookup_lt_Some in Hx. unfold slot_holds, Zlen in *. by rewrite !(cell_write_other _ P) by (done || lia).
  - intros q Hq Hn. rewrite (cell_write_other _ P) by (done || lia). by apply He.
  - by apply slots_mapped_ins.
  - rewrite fmap_app. eapply vsteps_snoc; [done|]. cbn. rewrite map_size_delete_Some by (by eexists).
    destruct (base.size (vv_wr g)) eqn:Es; [|cbn; constructor].
    exfalso. pose proof (size_pos (vv_wr g) P ltac:(by eexists)). lia.
  - rewrite (vlog_left _ n) by done. lia.
  - by rewrite length_insert.
  - eapply who_snoc; [exact Ho|exact Hoi|done].
Qed.

(** Releasing the cell of a pop. *)
Lemma inv_release m g D i e n :
  v_inv (m, g) -> vv_rd g !! D = Some (i, e) -> vv_todo g !! i = Some n -> vv_owed g !! i = Some (-1) ->
  v_inv (<[cell D + 0:=u64 (D + cap)]> m,
    vlog i n (-1) VReleased (vv_deq g) (vv_items g) (vv_wr g) (delete D (vv_rd g)) g).
Proof.
  intros [E1 E2 E3 E4 E5 Hlen Hw Hr Hf He Hm Hh Hb Ho Hwho] HD Ht Hoi. cbn in *.
  pose proof (Zlen_nonneg (vv_items g)).
  destruct (Hr _ _ _ HD) as (_ & HDw & HDe & HDs). pose proof (cap_bounds h buf k placed) as Hcap.
  assert (Hcb : in_block (cell D) 24 (cell D + 0)) by (unfold in_block; lia).
  assert (Hcb' : in_block (cell (D + cap)) 24 (cell D + 0)) by (by rewrite slot_wrap by lia).
  unfold vv_enq in *. split; unfold vv_enq; cbn -[slot]; try done.
  1-4: by header D.
  - header D. rewrite E5, (zsum_insert _ _ _ _ Hoi). do 2 f_equal. lia.
  - intros q j x Hq. destruct (Hw _ _ _ Hq) as (H1 & H2 & H3 & H4). split_and!; try done; try lia.
    by rewrite (cell_write_other _ (D + cap)) by (done || lia).
  - intros q j x Hq. apply lookup_delete_Some in Hq as [Hne Hq].
    destruct (Hr _ _ _ Hq) as (H1 & H2 & [H3 H4] & H5). split; [done|]. split; [done|].
    unfold slot_holds. by rewrite !(cell_write_other _ D) by (done || lia).
  - intros q x Hq Hx Hn. destruct (Hf q x Hq Hx Hn) as [[H3 H4] H5].
    apply lookup_lt_Some in Hx. unfold slot_holds, Zlen in *.
    by rewrite !(cell_write_other _ (D + cap)) by (done || lia).
  - intros q Hq Hn. destruct (Z.eq_dec q (D + cap)) as [->|Hne].
    + rewrite slot_wrap by lia. by rewrite lookup_insert_eq.
    + rewrite (cell_write_other _ (D + cap)) by (done || lia). apply He; [done|].
      rewrite lookup_delete_ne in Hn by lia. done.
  - by apply slots_mapped_ins.
  - rewrite fmap_app. eapply vsteps_snoc; [done|]. cbn. rewrite map_size_delete_Some by (by eexists).
    destruct (base.size (vv_rd g)) eqn:Es; [|cbn; constructor].
    exfalso. pose proof (size_pos (vv_rd g) D ltac:(by eexists)). lia.
  - rewrite (vlog_left _ n) by done. lia.
  - by rewrite length_insert.
  - eapply who_snoc; [exact Ho|exact Hoi|done].
Qed.

(** Bringing the counter up to date. *)
Lemma inv_settle m g i o :
  v_inv (m, g) -> vv_owed g !! i = Some o ->
  v_inv (<[count h:=u64 (Zlen (vv_items g) - zsum (vv_owed g) + o)]> m,
    mk_vview (vv_deq g) (vv_items g) (vv_wr g) (vv_rd g) (vv_hist g) (vv_todo g) (<[i:=0]> (vv_owed g))).
Proof.
  intros [E1 E2 E3 E4 E5 Hlen Hw Hr Hf He Hm Hh Hb Ho Hwho] Hoi. cbn in *.
  pose proof placed as (_ & _ & _ & Hd). set (v := u64 _).
  assert (Hcell : forall q x, 0 <= x < 24 -> <[count h:=v]> m !! (cell q + x) = m !! (cell q + x)).
  { intros q x Hx. pose proof (cell_bounds h buf k placed q). skip_ins. done. }
  split; unfold vv_enq; cbn -[slot]; try (skip_ins; done); try done.
  - rewrite lookup_insert_eq. unfold v. rewrite (zsum_insert _ _ _ _ Hoi). do 2 f_equal. lia.
  - intros q j x Hq. rewrite Hcell by lia. by apply (Hw q j x).
  - intros q j x Hq. unfold slot_holds. rewrite !Hcell by lia. by apply (Hr q j x).
  - intros q x Hq Hx Hn. unfold slot_holds. rewrite !Hcell by lia. by apply Hf.
  - intros q Hq Hn. rewrite Hcell by lia. by apply He.
  - by apply slots_mapped_ins.
  - by rewrite length_insert.
Qed.

(** ** What a thread knows *)

(** Of the positions in flight [w], thread [i] has just [W]. *)
Definition own i (w : gmap Z (nat * ds_kv)) (W : option (Z * ds_kv)) : Prop :=
  forall q e, w !! q = Some (i, e) <-> W = Some (q, e).

Lemma own_insert i w q e : own i w None -> own i (<[q:=(i, e)]> w) (Some (q, e)).
Proof.
  intros Hw p x. split.
  - intros [[<- [= <-]]|[_ Hp]]%lookup_insert_Some; [done|]. by apply Hw in Hp.
  - intros [= <- <-]. apply lookup_insert_eq.
Qed.

Lemma own_delete i w q e : own i w (Some (q, e)) -> own i (delete q w) None.
Proof.
  intros Hw p x. split; [|done]. intros [Hne Hp]%lookup_delete_Some. apply Hw in Hp. congruence.
Qed.

Lemma insert_others i j (w : gmap Z (nat * ds_kv)) q e : i <> j -> w !! q = None -> forall p x,
  <[q:=(i, e)]> w !! p = Some (j, x) <-> w !! p = Some (j, x).
Proof.
  intros Hne Hq p x. destruct (decide (q = p)) as [<-|Hp]; [|by rewrite lookup_insert_ne].
  rewrite lookup_insert_eq, Hq. split; [|done]. intros [= ? ?]. done.
Qed.

Lemma delete_others i j (w : gmap Z (nat * ds_kv)) q e : i <> j -> w !! q = Some (i, e) -> forall p x,
  delete q w !! p = Some (j, x) <-> w !! p = Some (j, x).
Proof.
  intros Hne Hq p x. destruct (decide (q = p)) as [<-|Hp]; [|by rewrite lookup_delete_ne].
  rewrite lookup_delete_eq, Hq. split; [done|]. intros [= ? ?]. done.
Qed.

(** Thread [i] has [n] operations left, owes [o], has made the events [evs], and its insertion
    (pop) in flight is [W] ([V]). *)
Definition v_at i n o evs W V s : Prop :=
  v_inv s /\ (i < N)%nat /\ vv_todo s.2 !! i = Some n /\ vv_owed s.2 !! i = Some o /\
  vmine i (vv_hist s.2) = evs /\ own i (vv_wr s.2) W /\ own i (vv_rd s.2) V.

Definition saw_enq P s : Prop := v_inv s /\ P0 <= P <= vv_enq s.2.
Definition saw_deq D s : Prop := v_inv s /\ D0 <= D <= vv_deq s.2.
Definition free_for P s : Prop := v_inv s /\ P - cap < vv_deq s.2 /\ vv_rd s.2 !! (P - cap) = None.
Definition ready_for D s : Prop := v_inv s /\ D < vv_enq s.2 /\ vv_wr s.2 !! D = None.

Definition v_knows i q (c : list (Z * Z)) s : Prop :=
  v_inv s /\ owns i s.2 q /\ Forall (fun av => in_block (cell q) 24 av.1 /\ s.1 !! av.1 = Some av.2) c.

#[local] Instance v_at_stable i n o evs W V : Stable (v_rely i) (v_at i n o evs W V).
Proof.
  intros s s' (Hi & A1 & A2 & A3 & A4 & A5 & A6) HR.
  destruct (HR Hi) as (Hi' & (B1 & B2 & B3 & B4 & B5) & _).
  split; [done|]. split; [done|]. split; [congruence|]. split; [congruence|]. split; [congruence|].
  split; intros q e; [by rewrite B4|by rewrite B5].
Qed.

#[local] Instance saw_enq_stable i P : Stable (v_rely i) (saw_enq P).
Proof. intros s s' (Hi & HP) HR. destruct (HR Hi) as (Hi' & _ & (T1 & T2 & _) & _). split; [done|lia]. Qed.

#[local] Instance saw_deq_stable i D : Stable (v_rely i) (saw_deq D).
Proof. intros s s' (Hi & HD) HR. destruct (HR Hi) as (Hi' & _ & (T1 & T2 & _) & _). split; [done|lia]. Qed.

#[local] Instance free_for_stable i P : Stable (v_rely i) (free_for P).
Proof.
  intros s s' (Hi & HP & Hr) HR. destruct (HR Hi) as (Hi' & _ & (T1 & T2 & T3 & T4) & _).
  split; [done|]. split; [lia|by apply T4].
Qed.

#[local] Instance ready_for_stable i D : Stable (v_rely i) (ready_for D).
Proof.
  intros s s' (Hi & HD & Hw) HR. destruct (HR Hi) as (Hi' & _ & (T1 & T2 & T3 & T4) & _).
  split; [done|]. split; [lia|by apply T3].
Qed.

#[local] Instance v_knows_stable i q c : Stable (v_rely i) (v_knows i q c).
Proof.
  intros s s' (Hi & Ho & Hc) HR. destruct (HR Hi) as (Hi' & Hb & _ & Hk).
  split; [done|]. split; [by eapply owns_same|]. eapply Forall_impl; [exact Hc|].
  intros av [Hin Ev]. split; [done|]. by rewrite (Hk q).
Qed.

Lemma vlog_at m m' g i n n' o o' lb D items wr rd evs W W' V V' :
  v_at i n o evs W V (m, g) -> v_inv (m', vlog i n' o' lb D items wr rd g) ->
  own i wr W' -> own i rd V' ->
  v_at i n' o' (evs ++ took [lb]) W' V' (m', vlog i n' o' lb D items wr rd g).
Proof.
  intros (_ & A1 & A2 & A3 & A4 & _ & _) Hi' HW HV. cbn in *. split; [done|]. cbn.
  rewrite !list_lookup_insert_eq by (by eapply lookup_lt_Some). by rewrite vmine_snoc, A4.
Qed.

Lemma vlog_others g i j n o lb D items wr rd : i <> j ->
  (forall q e, wr !! q = Some (j, e) <-> vv_wr g !! q = Some (j, e)) ->
  (forall q e, rd !! q = Some (j, e) <-> vv_rd g !! q = Some (j, e)) ->
  same_books j g (vlog i n o lb D items wr rd g).
Proof.
  intros Hne Hw Hr. unfold same_books. cbn. rewrite vmine_snoc_ne by done.
  by rewrite !list_lookup_insert_ne.
Qed.

(** Refusing and giving up are moves that change nothing but the history. *)
Lemma refuses m g i n evs ev :
  v_at i (S n) 0 evs None None (m, g) ->
  vstep cap (vv_items g, base.size (vv_wr g), base.size (vv_rd g)) (VTook ev)
    (vv_items g, base.size (vv_wr g), base.size (vv_rd g)) ->
  exists g', v_guar i (m, g) (m, g') /\ v_at i n 0 (evs ++ [ev]) None None (m, g') /\ tickets g g'.
Proof.
  intros Hat Hs. pose proof Hat as (Hi & A1 & A2 & A3 & A4 & A5 & A6). cbn in *.
  pose proof (inv_refuse m g i n _ Hi A2 A3 Hs) as Hi'. eexists.
  assert (Ht : tickets g (vlog i n 0 (VTook ev) (vv_deq g) (vv_items g) (vv_wr g) (vv_rd g) g)) by by split_and!.
  split; [|split; [by apply (vlog_at _ _ _ _ _ _ _ _ _ _ _ _ _ _ _ _ _ _ Hat Hi')|exact Ht]].
  intros _. split; [done|]. split; [intros j Hne; by apply vlog_others|].
  split; [done|apply unchanged_refl].
Qed.

(** ** The accesses *)

Section accesses.
Context {A : Type}.
Variables (i n : nat) (evs : list event) (Q : A -> mem * vview -> Prop).
Notation vt P p := (triple (v_rely i) (v_guar i) P p Q).

(** The cells no operation changes. *)
Lemma v_fixed o x W V s : v_at i x o evs W V s ->
  s.1 !! buffer h = Some buf /\ s.1 !! buffer_mask h = Some (2 ^ k - 1).
Proof. intros ([] & _). done. Qed.

(** A counter, read. *)
Lemma reads_enq or (f : Z -> prog A) o x W V :
  (forall P, vt (fun s => v_at i x o evs W V s /\ saw_enq P s) (f (u64 P))) ->
  vt (v_at i x o evs W V) (load or (enqueue_pos h) ≫= f).
Proof.
  intros Hf. apply (triple_load_lin _ _ _ _ _ _ (fun v s => exists P, v = u64 P /\
    v_at i x o evs W V s /\ saw_enq P s)); [apply _| |].
  - intros [m g] Hat. pose proof Hat as (Hi & _). eexists. split; [apply (vi_enq _ Hi)|]. exists g.
    split; [apply v_guar_refl|]. eexists. split; [done|]. split; [done|]. split; [done|].
    destruct (vi_bound _ Hi) as (_ & ? & _). cbn in *. lia.
  - intros v. apply triple_exists. intros P. apply triple_pure. by intros ->.
Qed.

Lemma reads_deq or (f : Z -> prog A) o x W V :
  (forall D, vt (fun s => v_at i x o evs W V s /\ saw_deq D s) (f (u64 D))) ->
  vt (v_at i x o evs W V) (load or (dequeue_pos h) ≫= f).
Proof.
  intros Hf. apply (triple_load_lin _ _ _ _ _ _ (fun v s => exists D, v = u64 D /\
    v_at i x o evs W V s /\ saw_deq D s)); [apply _| |].
  - intros [m g] Hat. pose proof Hat as (Hi & _). eexists. split; [apply (vi_deq _ Hi)|]. exists g.
    split; [apply v_guar_refl|]. eexists. split; [done|]. split; [done|]. split; [done|].
    destruct (vi_bound _ Hi) as (? & _). cbn in *. lia.
  - intros v. apply triple_exists. intros D. apply triple_pure. by intros ->.
Qed.

(** A counter read before giving up. *)
Lemma gives_up or a (f : Z -> prog A) ev :
  (a = enqueue_pos h \/ a = dequeue_pos h) ->
  (forall c, vstep cap c (VTook ev) c) ->
  (forall v, vt (v_at i n 0 (evs ++ [ev]) None None) (f v)) ->
  vt (v_at i (S n) 0 evs None None) (load or a ≫= f).
Proof.
  intros Ha Hev Hf. apply (triple_load_lin _ _ _ _ _ _ (fun _ => v_at i n 0 (evs ++ [ev]) None None));
    [apply _| |done].
  intros [m g] Hat. pose proof Hat as (Hi & _). destruct (refuses m g i n evs ev Hat (Hev _)) as (g' & HG & Hat' & _).
  destruct Ha as [->| ->]; eexists; (split; [first [apply (vi_enq _ Hi)|apply (vi_deq _ Hi)]|]); by exists g'.
Qed.

(** The sequence number of the cell of an insertion's ticket. *)
Lemma reads_seq_enq or (f : Z -> prog A) P e :
  (forall S, - 2 ^ 63 <= S - P < 0 ->
     vt (v_at i n 0 (evs ++ [EInsert e DS_ERROR_NOMEM]) None None) (f (u64 S))) ->
  vt (fun s => v_at i (S n) 0 evs None None s /\ saw_enq P s /\ free_for P s) (f (u64 P)) ->
  (forall S, 0 < S - P < 2 ^ 63 -> vt (v_at i (Datatypes.S n) 0 evs None None) (f (u64 S))) ->
  vt (fun s => v_at i (S n) 0 evs None None s /\ saw_enq P s) (load or (cell P + 0) ≫= f).
Proof.
  intros Hfull Hfree Hgone. apply (triple_load_lin _ _ _ _ _ _ (fun v s => exists S, v = u64 S /\
    (((- 2 ^ 63 <= S - P < 0) /\ v_at i n 0 (evs ++ [EInsert e DS_ERROR_NOMEM]) None None s) \/
     (S = P /\ v_at i (Datatypes.S n) 0 evs None None s /\ saw_enq P s /\ free_for P s) \/
     ((0 < S - P < 2 ^ 63) /\ v_at i (Datatypes.S n) 0 evs None None s)))); [apply _| |].
  - intros [m g] (Hat & Hi & HP). destruct (seq_enq _ P Hi HP) as (S & ES & Hb & Hf & Hr).
    exists (u64 S). split; [done|]. destruct (Z.lt_trichotomy S P) as [Hlt|[->|Hgt]].
    + destruct (refuses m g i n evs (EInsert e DS_ERROR_NOMEM) Hat) as (g' & HG & Hat' & _).
      { apply v_full. by apply Hr. }
      exists g'. split; [done|]. exists S. split; [done|]. left. split; [lia|done].
    + exists g. split; [apply v_guar_refl|]. exists P. split; [done|]. right. left.
      split; [done|]. split; [done|]. split; [done|]. split; [done|by apply Hf].
    + exists g. split; [apply v_guar_refl|]. exists S. split; [done|]. right. right. split; [lia|done].
  - intros v. apply triple_exists. intros S. apply triple_pure. intros ->.
    repeat apply triple_or; apply triple_pure; [by apply Hfull|by intros ->|by apply Hgone].
Qed.

(** The sequence number of the cell of a pop's ticket. *)
Lemma reads_seq_deq or (f : Z -> prog A) D d :
  (forall S, - 2 ^ 63 <= S - (D + 1) < 0 ->
     vt (v_at i n 0 (evs ++ [EPop d DS_ERROR_NOT_FOUND (Some d)]) None None) (f (u64 S))) ->
  vt (fun s => v_at i (S n) 0 evs None None s /\ saw_deq D s /\ ready_for D s) (f (u64 (D + 1))) ->
  (forall S, 0 < S - (D + 1) < 2 ^ 63 -> vt (v_at i (Datatypes.S n) 0 evs None None) (f (u64 S))) ->
  vt (fun s => v_at i (S n) 0 evs None None s /\ saw_deq D s) (load or (cell D + 0) ≫= f).
Proof.
  intros Hfull Hfree Hgone. apply (triple_load_lin _ _ _ _ _ _ (fun v s => exists S, v = u64 S /\
    (((- 2 ^ 63 <= S - (D + 1) < 0) /\ v_at i n 0 (evs ++ [EPop d DS_ERROR_NOT_FOUND (Some d)]) None None s) \/
     (S = D + 1 /\ v_at i (Datatypes.S n) 0 evs None None s /\ saw_deq D s /\ ready_for D s) \/
     ((0 < S - (D + 1) < 2 ^ 63) /\ v_at i (Datatypes.S n) 0 evs None None s)))); [apply _| |].
  - intros [m g] (Hat & Hi & HP). destruct (seq_deq _ D Hi HP) as (S & ES & Hb & Hf & Hr).
    exists (u64 S). split; [done|]. destruct (Z.lt_trichotomy S (D + 1)) as [Hlt|[->|Hgt]].
    + destruct (refuses m g i n evs (EPop d DS_ERROR_NOT_FOUND (Some d)) Hat) as (g' & HG & Hat' & _).
      { apply v_empty. by apply Hr. }
      exists g'. split; [done|]. exists S. split; [done|]. left. split; [lia|done].
    + exists g. split; [apply v_guar_refl|]. exists (D + 1). split; [done|]. right. left.
      split; [done|]. split; [done|]. split; [done|]. split; [done|by apply Hf].
    + exists g. split; [apply v_guar_refl|]. exists S. split; [done|]. right. right. split; [lia|done].
  - intros v. apply triple_exists. intros S. apply triple_pure. intros ->.
    repeat apply triple_or; apply triple_pure; [by apply Hfull|by intros ->|by apply Hgone].
Qed.

(** The ticket of an insertion. *)
Lemma takes_enq so fo (f : Z -> prog A) P e :
  vt (v_at i n 1 (evs ++ [EInsert e DS_SUCCESS]) (Some (P, e)) None) (f (u64 P)) ->
  (forall v, v <> u64 P -> vt (v_at i (S n) 0 evs None None) (f v)) ->
  vt (fun s => v_at i (S n) 0 evs None None s /\ saw_enq P s /\ free_for P s)
    (cas so fo (enqueue_pos h) (u64 P) (u64 (P + 1)) ≫= f).
Proof.
  intros Hdone Hretry. eapply triple_cas; [apply _| |exact Hdone|exact Hretry].
  intros [m g] (Hat & [_ HP] & (_ & Hroom & Hrd)). pose proof Hat as (Hi & A1 & A2 & A3 & A4 & A5 & A6).
  cbn in *. exists (u64 (vv_enq g)). split; [apply (vi_enq _ Hi)|].
  split; [|intros _; exists g; split; [apply v_guar_refl|done]]. intros Ev.
  assert (P = vv_enq g) as ->.
  { destruct (Z.eq_dec P (vv_enq g)) as [|Hne]; [done|]. exfalso.
    destruct (vi_bound _ Hi) as (_ & ? & _ & ?). unfold vv_left in *. cbn in *.
    apply (mod_window_ne P (vv_enq g) (2 ^ 64)); [lia|done|lia|by symmetry]. }
  pose proof (inv_take_enq m g i n e Hi A1 A2 A3 Hroom Hrd) as Hi'. cbn in Hi'.
  assert (Hnew : vv_wr g !! vv_enq g = None).
  { destruct (vv_wr g !! vv_enq g) as [[j x]|] eqn:Ew; [|done].
    destruct (vi_wr _ Hi _ _ _ Ew) as (_ & ? & _). cbn in *. lia. }
  eexists. split; [|apply (vlog_at _ _ _ _ _ _ _ _ _ _ _ _ _ _ _ _ _ _ Hat Hi'); [by apply own_insert|done]].
  intros _. split; [done|]. split; [intros j Hne; apply vlog_others; [done|by apply insert_others|done]|].
  split; [|apply unchanged_insert; by left].
  split; [done|]. split; [unfold vv_enq; cbn; rewrite Zlen_snoc; lia|]. split; [|done].
  intros q Hq Hn. cbn in *. rewrite lookup_insert_ne; [done|lia].
Qed.

(** Writing the pair. *)
Lemma v_writes o (f : unit -> prog A) P e a v c :
  (a = cell P + 8 \/ a = cell P + (8 + 8)) -> Forall (fun av => av.1 <> a) c ->
  vt (fun s => v_at i n 1 evs (Some (P, e)) None s /\ v_knows i P ((a, v) :: c) s) (f tt) ->
  vt (fun s => v_at i n 1 evs (Some (P, e)) None s /\ v_knows i P c s) (store o a v ≫= f).
Proof.
  intros Ha Hc Hf. eapply triple_store; [apply _| |exact Hf].
  intros [m g] (Hat & (_ & Ho & Hk)). pose proof Hat as (Hi & A1 & A2 & A3 & A4 & A5 & A6). cbn in *.
  assert (HP : vv_wr g !! P = Some (i, e)) by by apply A5.
  assert (Hin : in_block (cell P + 8) 16 a) by (unfold in_block; lia).
  assert (Hin' : in_block (cell P) 24 a) by (unfold in_block in *; lia).
  pose proof (inv_write m g P i e a v Hi HP Hin) as Hi'. destruct (vi_mapped _ Hi P) as [M1 M2].
  split; [destruct Ha as [-> | ->]; done|]. exists g. split.
  { intros _. split; [done|]. split; [intros j _; apply same_books_refl|]. split; [apply tickets_refl|].
    apply unchanged_insert. right. right. right. by exists P. }
  split; [done|]. split; [done|]. split; [done|].
  constructor; [split; [done|apply lookup_insert_eq]|].
  clear -Hc Hk. induction Hk as [|[b w] c [Hb Ew] Hk IH]; [done|].
  apply Forall_cons in Hc as [Hne Hc]. cbn in *. constructor; [|by apply IH].
  split; [done|]. cbn. by rewrite lookup_insert_ne.
Qed.

(** Publishing the cell. *)
Lemma v_publishes o (f : unit -> prog A) P e :
  vt (v_at i n 1 evs None None) (f tt) ->
  vt (fun s => v_at i n 1 evs (Some (P, e)) None s /\
      v_knows i P [(cell P + (8 + 8), kv_value e); (cell P + 8, kv_key e)] s)
    (store o (cell P + 0) (u64 (P + 1)) ≫= f).
Proof.
  intros Hf. eapply triple_store; [apply _| |exact Hf].
  intros [m g] (Hat & (_ & Ho & Hk)). pose proof Hat as (Hi & A1 & A2 & A3 & A4 & A5 & A6). cbn in *.
  apply Forall_cons in Hk as [[_ Ev] Hk]. apply Forall_cons in Hk as [[_ Ek] _]. cbn in *.
  assert (HP : vv_wr g !! P = Some (i, e)) by by apply A5.
  pose proof (inv_publish m g P i e n Hi HP (conj Ek Ev) A2 A3) as Hi'.
  destruct (vi_wr _ Hi _ _ _ HP) as (_ & HPw & _ & HPs). split; [by eexists|]. eexists.
  split; [|rewrite <- (app_nil_r evs); apply (vlog_at _ _ _ _ _ _ _ _ _ _ _ _ _ _ _ _ _ _ Hat Hi');
    [by eapply own_delete|done]].
  intros _. split; [done|]. split; [intros j Hne; apply vlog_others; [done|by eapply delete_others|done]|].
  split; [|apply unchanged_insert; right; right; right; exists P; split; [done|unfold in_block; lia]].
  split_and!; try done. cbn. intros q _ Hn. by apply lookup_delete_None; right.
Qed.

(** The counter follows. *)
Lemma v_settles or op w (f : Z -> prog A) o :
  (forall old, rmw_eval op old w = u64 (old + o)) ->
  (forall old, vt (v_at i n 0 evs None None) (f old)) ->
  vt (v_at i n o evs None None) (rmw or op (count h) w ≫= f).
Proof.
  intros Hop. apply (triple_rmw _ _ _ _ _ _ _ _ (fun _ => v_at i n 0 evs None None)); [apply _|].
  intros [m g] Hat. pose proof Hat as (Hi & A1 & A2 & A3 & A4 & A5 & A6). cbn in *.
  eexists. split; [apply (vi_count _ Hi)|]. rewrite Hop. cbn. rewrite u64_add_l.
  pose proof (inv_settle m g i o Hi A3) as Hi'. eexists. split.
  - intros _. split; [exact Hi'|]. split; [intros j Hne; unfold same_books; cbn; by rewrite list_lookup_insert_ne|].
    split; [done|]. apply unchanged_insert. by right; right; left.
  - split; [done|]. cbn. by rewrite list_lookup_insert_eq by (by eapply lookup_lt_Some).
Qed.

(** The ticket of a pop. *)
Lemma takes_deq so fo (f : Z -> prog A) D d :
  (forall e, vt (fun s => v_at i n (-1) (evs ++ [EPop d DS_SUCCESS (Some e)]) None (Some (D, e)) s /\
     v_knows i D [(cell D + 8, kv_key e); (cell D + (8 + 8), kv_value e)] s) (f (u64 D))) ->
  (forall v, v <> u64 D -> vt (v_at i (S n) 0 evs None None) (f v)) ->
  vt (fun s => v_at i (S n) 0 evs None None s /\ saw_deq D s /\ ready_for D s)
    (cas so fo (dequeue_pos h) (u64 D) (u64 (D + 1)) ≫= f).
Proof.
  intros Hdone Hretry. eapply (triple_cas _ _ _ _ _ _ _ _ _ (fun s => exists e,
     v_at i n (-1) (evs ++ [EPop d DS_SUCCESS (Some e)]) None (Some (D, e)) s /\
     v_knows i D [(cell D + 8, kv_key e); (cell D + (8 + 8), kv_value e)] s));
    [apply _| |by apply triple_exists|exact Hretry].
  intros [m g] (Hat & [_ HD] & (_ & Hsome & Hwr)). pose proof Hat as (Hi & A1 & A2 & A3 & A4 & A5 & A6).
  cbn in *. exists (u64 (vv_deq g)). split; [apply (vi_deq _ Hi)|].
  split; [|intros _; exists g; split; [apply v_guar_refl|done]]. intros Ev.
  assert (D = vv_deq g) as ->.
  { destruct (Z.eq_dec D (vv_deq g)) as [|Hne]; [done|]. exfalso.
    destruct (vi_bound _ Hi) as (? & _ & ? & _). unfold vv_left in *. cbn in *.
    apply (mod_window_ne D (vv_deq g) (2 ^ 64)); [lia|done|lia|by symmetry]. }
  destruct (inv_take_deq m g i n d Hi A1 A2 A3 Hsome Hwr) as (e & items & Eit & [Hk Hv] & Hi').
  assert (Hnew : vv_rd g !! vv_deq g = None).
  { destruct (vv_rd g !! vv_deq g) as [[j x]|] eqn:Ew; [|done].
    destruct (vi_rd _ Hi _ _ _ Ew) as (_ & ? & _). cbn in *. lia. }
  eexists. split; [|exists e; split; [apply (vlog_at _ _ _ _ _ _ _ _ _ _ _ _ _ _ _ _ _ _ Hat Hi');
    [done|by apply own_insert]|]].
  - intros _. split; [done|]. split; [intros j Hne; apply vlog_others; [done|done|by apply insert_others]|].
    split; [|apply unchanged_insert; by right; left].
    split; [cbn; lia|]. split; [unfold vv_enq; cbn; rewrite Eit, Zlen_cons; lia|]. split; [done|].
    intros q Hq Hn. cbn in *. rewrite lookup_insert_ne; [done|lia].
  - split; [done|]. split; [exists e; right; cbn; apply lookup_insert_eq|].
    pose proof (cell_bounds h buf k placed (vv_deq g)). pose proof placed as (_ & _ & _ & Hd).
    repeat constructor; cbn -[slot]; try (skip_ins; done); unfold in_block; lia.
Qed.

(** Releasing the cell. *)
Lemma v_releases o (f : unit -> prog A) D e :
  vt (v_at i n (-1) evs None None) (f tt) ->
  vt (v_at i n (-1) evs None (Some (D, e))) (store o (cell D + 0) (u64 (D + cap)) ≫= f).
Proof.
  intros Hf. eapply triple_store; [apply _| |exact Hf].
  intros [m g] Hat. pose proof Hat as (Hi & A1 & A2 & A3 & A4 & A5 & A6). cbn in *.
  assert (HD : vv_rd g !! D = Some (i, e)) by by apply A6.
  pose proof (inv_release m g D i e n Hi HD A2 A3) as Hi'.
  destruct (vi_rd _ Hi _ _ _ HD) as (_ & HDw & _ & HDs). split; [by eexists|]. eexists.
  split; [|rewrite <- (app_nil_r evs); apply (vlog_at _ _ _ _ _ _ _ _ _ _ _ _ _ _ _ _ _ _ Hat Hi');
    [done|by eapply own_delete]].
  intros _. split; [done|]. split; [intros j Hne; apply vlog_others; [done|done|by eapply delete_others]|].
  split; [|apply unchanged_insert; right; right; right; exists D; split; [exists e; by right|unfold in_block; lia]].
  split_and!; try done. cbn. intros q _ Hn. by apply lookup_delete_None; right.
Qed.
End accesses.

(** ** The operations *)

(** The head of the retry loop, [t] attempts from its end. *)
Definition trying i n evs (ev : event) (saw : Z -> mem * vview -> Prop) (t : nat) (x : nat * Z) s : Prop :=
  (x.1 + t = DS_VYUKHOV_MAX_RETRIES)%nat /\
  ((t = 0%nat /\ v_at i n 0 (evs ++ [ev]) None None s) \/
   (t <> 0%nat /\ exists P, x.2 = u64 P /\ v_at i (S n) 0 evs None None s /\ saw P s)).

(** The counter is read again: a thread out of attempts gives up. *)
Lemma retries_enq {A} or i n evs e t r (Q : nat * Z + A -> mem * vview -> Prop) :
  (r + S t = DS_VYUKHOV_MAX_RETRIES)%nat ->
  (forall x s, trying i n evs (EInsert e DS_ERROR_BUSY) saw_enq t x s -> Q (inl x) s) ->
  triple (v_rely i) (v_guar i) (v_at i (S n) 0 evs None None)
    (load or (enqueue_pos h) ≫= fun pos => Ret (inl (S r, pos))) Q.
Proof.
  intros Hr HQ. destruct (decide (t = 0%nat)) as [->|Ht].
  - apply (gives_up i n evs _ _ _ _ (EInsert e DS_ERROR_BUSY)); [by left|by intros [[? ?] ?]|].
    intros v. apply triple_ret; [apply _|]. intros s Hs. apply HQ. split; [cbn; lia|]. by left.
  - apply reads_enq. intros P. apply triple_ret; [apply _|]. intros s Hs. apply HQ.
    split; [cbn; lia|]. right. split; [done|by exists P].
Qed.

Lemma retries_deq {A} or i n evs d t r (Q : nat * Z + A -> mem * vview -> Prop) :
  (r + S t = DS_VYUKHOV_MAX_RETRIES)%nat ->
  (forall x s, trying i n evs (EPop d DS_ERROR_BUSY (Some d)) saw_deq t x s -> Q (inl x) s) ->
  triple (v_rely i) (v_guar i) (v_at i (S n) 0 evs None None)
    (load or (dequeue_pos h) ≫= fun pos => Ret (inl (S r, pos))) Q.
Proof.
  intros Hr HQ. destruct (decide (t = 0%nat)) as [->|Ht].
  - apply (gives_up i n evs _ _ _ _ (EPop d DS_ERROR_BUSY (Some d))); [by right|by intros [[? ?] ?]|].
    intros v. apply triple_ret; [apply _|]. intros s Hs. apply HQ. split; [cbn; lia|]. by left.
  - apply reads_deq. intros P. apply triple_ret; [apply _|]. intros s Hs. apply HQ.
    split; [cbn; lia|]. right. split; [done|by exists P].
Qed.

Lemma v_insert_ok sd i n evs e :
  triple (v_rely i) (v_guar i) (v_at i (S n) 0 evs None None)
    (ds_vyukhov_insert sd h (kv_key e) (kv_value e))
    (fun r => v_at i n 0 (evs ++ [EInsert e r]) None None).
Proof.
  pose proof placed as (Hh & Hbuf & _ & _).
  destruct sd; unfold ds_vyukhov_insert, ds_vyukhov_insert_lkmm, ds_vyukhov_insert_c;
    replace (h =? 0) with false by lia.
  all: tread v_fixed; replace (buf =? 0) with false by lia; taccess; apply reads_enq; intros P.
  all: apply (triple_pre _ _ _ _ (fun s => v_at i (S n) 0 evs None None s /\ saw_enq P s)); [|done].
  all: eapply triple_load; [apply _..|intros s [Hs _]; apply (v_fixed _ _ _ _ _ _ _ Hs)|].
  all: apply (triple_pre _ _ _ _
    (trying i n evs (EInsert e DS_ERROR_BUSY) saw_enq DS_VYUKHOV_MAX_RETRIES (0%nat, u64 P)));
    [|intros s Hs; split; [done|]; right; split; [done|by exists P]].
  all: apply (triple_loop _ _ (fun _ => 0%nat) _ _ (trying i n evs (EInsert e DS_ERROR_BUSY) saw_enq));
    [done| |apply _|lia].
  all: intros t [r pos]; apply triple_pure; cbn [fst snd]; intros Hr; apply triple_or; apply triple_pure.
  1,3: intros ->; replace (r <? DS_VYUKHOV_MAX_RETRIES)%nat with false by (symmetry; apply Nat.ltb_ge; lia);
    apply triple_ret; [apply _|done].
  all: intros Ht; destruct t as [|t]; [done|];
    replace (r <? DS_VYUKHOV_MAX_RETRIES)%nat with true by (symmetry; apply Nat.ltb_lt; lia).
  all: apply triple_exists; intros P'; apply triple_pure; intros ->.
  1: apply (triple_can_loop_either _ _ _ _ (v_at i n 0 (evs ++ [EInsert e DS_ERROR_BUSY]) None None));
    [apply _| | |apply triple_ret; [apply _|done]].
  1: { intros m g [Hat _]. destruct (refuses m g i n evs (EInsert e DS_ERROR_BUSY) Hat) as (g' & HG & Hat' & _);
       [done|by exists g']. }
  all: eapply triple_load; [apply _..|intros s [Hs _]; apply (v_fixed _ _ _ _ _ _ _ Hs)|];
    rewrite (cell_slot h buf k placed); taccess; apply (reads_seq_enq i n evs _ _ _ _ e); taccess.
  (* full; free; gone *)
  1,4: intros S' HS; taccess; rewrite s64_distance by lia; replace (S' - P' =? 0) with false by lia;
    replace (S' - P' <? 0) with true by lia; apply triple_ret; [apply _|done].
  2,4: intros S' HS; taccess; rewrite s64_distance by lia; replace (S' - P' =? 0) with false by lia;
    replace (S' - P' <? 0) with false by lia; taccess; apply (retries_enq _ i n evs e t r); [lia|eauto].
  all: rewrite s64_distance, Z.sub_diag, u64_add_l by lia; taccess; apply (takes_enq i n evs _ _ _ _ _ e).
  2,4: intros v Hv; replace (v =? u64 P') with false by lia; taccess;
    apply (retries_enq _ i n evs e t r); [lia|eauto].
  all: rewrite Z.eqb_refl; taccess.
  all: apply (triple_pre _ _ _ _ (fun s =>
    v_at i n 1 (evs ++ [EInsert e DS_SUCCESS]) (Some (P', e)) None s /\ v_knows i P' [] s));
    [|intros s Hs; split; [done|]; destruct Hs as (Hi & _ & _ & _ & _ & Hw & _);
      split; [done|]; split; [exists e; left; by apply Hw|constructor]].
  all: apply (v_writes i n); [by left|constructor|]; taccess.
  all: apply (v_writes i n); [by right|repeat constructor; cbn -[slot]; addr|]; taccess.
  all: apply (v_publishes i n); unfold arena_atomic_inc; taccess.
  all: apply (v_settles i n); [done|]; intros old; apply triple_ret; [apply _|done].
Qed.

Lemma v_pop_ok sd i n evs d :
  triple (v_rely i) (v_guar i) (v_at i (S n) 0 evs None None)
    (ds_vyukhov_pop sd h (Some d))
    (fun r => v_at i n 0 (evs ++ [EPop d r.1 r.2]) None None).
Proof.
  pose proof placed as (Hh & Hbuf & _ & _).
  destruct sd; unfold ds_vyukhov_pop, ds_vyukhov_pop_lkmm, ds_vyukhov_pop_c;
    replace (h =? 0) with false by lia.
  all: tread v_fixed; replace (buf =? 0) with false by lia; taccess; apply reads_deq; intros P.
  all: eapply triple_load; [apply _..|intros s [Hs _]; apply (v_fixed _ _ _ _ _ _ _ Hs)|].
  all: apply (triple_pre _ _ _ _
    (trying i n evs (EPop d DS_ERROR_BUSY (Some d)) saw_deq DS_VYUKHOV_MAX_RETRIES (0%nat, u64 P)));
    [|intros s Hs; split; [done|]; right; split; [done|by exists P]].
  all: apply (triple_loop _ _ (fun _ => 0%nat) _ _ (trying i n evs (EPop d DS_ERROR_BUSY (Some d)) saw_deq));
    [done| |apply _|lia].
  all: intros t [r pos]; apply triple_pure; cbn [fst snd]; intros Hr; apply triple_or; apply triple_pure.
  1,3: intros ->; replace (r <? DS_VYUKHOV_MAX_RETRIES)%nat with false by (symmetry; apply Nat.ltb_ge; lia);
    apply triple_ret; [apply _|done].
  all: intros Ht; destruct t as [|t]; [done|];
    replace (r <? DS_VYUKHOV_MAX_RETRIES)%nat with true by (symmetry; apply Nat.ltb_lt; lia).
  all: apply triple_exists; intros P'; apply triple_pure; intros ->.
  1: apply (triple_can_loop_either _ _ _ _ (v_at i n 0 (evs ++ [EPop d DS_ERROR_BUSY (Some d)]) None None));
    [apply _| | |apply triple_ret; [apply _|done]].
  1: { intros m g [Hat _]. destruct (refuses m g i n evs (EPop d DS_ERROR_BUSY (Some d)) Hat) as (g' & HG & Hat' & _);
       [done|by exists g']. }
  all: eapply triple_load; [apply _..|intros s [Hs _]; apply (v_fixed _ _ _ _ _ _ _ Hs)|];
    rewrite (cell_slot h buf k placed); taccess; apply (reads_seq_deq i n evs _ _ _ _ d); taccess.
  1,4: intros S' HS; taccess; rewrite u64_add_l, s64_distance by lia; replace (S' - (P' + 1) =? 0) with false by lia;
    replace (S' - (P' + 1) <? 0) with true by lia; apply triple_ret; [apply _|done].
  2,4: intros S' HS; taccess; rewrite u64_add_l, s64_distance by lia; replace (S' - (P' + 1) =? 0) with false by lia;
    replace (S' - (P' + 1) <? 0) with false by lia; taccess; apply (retries_deq _ i n evs d t r); [lia|eauto].
  all: rewrite u64_add_l, s64_distance, Z.sub_diag by lia; taccess; apply (takes_deq i n evs _ _ _ _ _ d).
  2,4: intros v Hv; replace (v =? u64 P') with false by lia; taccess;
    apply (retries_deq _ i n evs d t r); [lia|eauto].
  all: intros e; rewrite Z.eqb_refl; taccess.
  all: assert (Hck : forall s, v_knows i P' [(cell P' + 8, kv_key e); (cell P' + (8 + 8), kv_value e)] s ->
    s.1 !! data_key (cell P') = Some (kv_key e) /\ s.1 !! data_value (cell P') = Some (kv_value e))
    by (intros s (_ & _ & Hk); apply Forall_cons in Hk as [[_ E1] Hk]; by apply Forall_cons in Hk as [[_ E2] _]).
  all: eapply triple_load; [apply _..|intros s [_ Hs]; apply (Hck s Hs)|].
  all: eapply triple_load; [apply _..|intros s [_ Hs]; apply (Hck s Hs)|]; taccess.
  all: replace (u64 (u64 (u64 P' + (cap - 1)) + 1)) with (u64 (P' + cap))
    by (rewrite u64_add_l, <- Z.add_assoc, u64_add_l; f_equal; lia).
  all: apply (triple_pre _ _ _ _ (v_at i n (-1) (evs ++ [EPop d DS_SUCCESS (Some e)]) None (Some (P', e))));
    [|by intros s []].
  all: apply (v_releases i n); unfold arena_atomic_dec; taccess.
  all: apply (v_settles i n); [done|]; intros old; apply triple_ret; [apply _|]; by destruct e.
Qed.

(** A thread that performs operations one after the other. *)
Lemma v_perform_ok `{Al : Allocator} sd i ops evs :
  triple (v_rely i) (v_guar i) (v_at i (length ops) 0 evs None None)
    (perform (vyukhov_container sd h k) ops)
    (fun evs' s => map event_op evs' = ops /\ v_at i 0 0 (evs ++ evs') None None s).
Proof.
  revert evs. induction ops as [|o ops IH]; intros evs; cbn [perform length].
  - apply triple_ret; [apply _|]. intros s Hs. by rewrite app_nil_r.
  - eapply (triple_bind _ _ _ _ _ _ (fun ev s => event_op ev = o /\
      v_at i (length ops) 0 (evs ++ [ev]) None None s)).
    + destruct o as [e|d]; cbn [run_op].
      * eapply triple_bind; [apply _..|by apply v_insert_ok|]. intros r.
        apply triple_ret; [apply _|done].
      * eapply triple_bind; [apply _..|by apply v_pop_ok|]. intros [r out].
        apply triple_ret; [apply _|done].
    + intros ev. apply triple_pure. intros Hev. eapply triple_bind; [apply _..|apply IH|].
      intros evs'. apply triple_pure. intros Hevs. apply triple_ret; [apply _|].
      intros s Hs. cbn [map]. rewrite Hev, Hevs. by rewrite <- app_assoc in Hs.
Qed.
(** ** From the queue to its threads and back *)

(** Before anything happened, with these operations to go. *)
Definition start_vview (todo : list nat) : vview := mk_vview D0 l0 ∅ ∅ [] todo (replicate N 0).

Lemma start_v_inv m todo :
  vyukhov_repr h buf k D0 l0 m -> (sum_list todo <= T)%nat -> v_inv (m, start_vview todo).
Proof.
  intros [E1 E2 E3 E4 E5 Hlen Hs Hm Hf He] Htodo. pose proof (cap_bounds h buf k placed) as Hcap.
  pose proof (Zlen_nonneg l0). split; cbn -[slot]; try done.
  - rewrite zsum_zero by (intros i x Hx; by apply lookup_replicate in Hx as []).
    rewrite Z.sub_0_r, u64_id by lia. done.
  - intros q e Hq Hx _. pose proof (lookup_lt_Some _ _ _ Hx). specialize (Hs _ _ Hx).
    rewrite Z2Nat.id, Zplus_minus in Hs by lia. split; [done|]. apply Hf. unfold Zlen. lia.
  - intros q Hq _. apply He. unfold vv_enq in Hq. cbn in Hq. lia.
  - unfold vv_left, vv_enq. cbn. lia.
  - by rewrite length_replicate.
Qed.

Lemma start_v_at m todo i n :
  v_inv (m, start_vview todo) -> (i < N)%nat -> todo !! i = Some n ->
  v_at i n 0 [] None None (m, start_vview todo).
Proof.
  intros Hi HiN Hn. split; [done|]. split; [done|]. cbn. split; [done|].
  split; [by apply lookup_replicate|]. split; [done|]. by split.
Qed.

(** Once every thread is between two operations, nothing is in flight and memory holds the queue. *)
Lemma settled m' g :
  v_inv (m', g) -> (forall j, (j < N)%nat -> exists n evs, v_at j n 0 evs None None (m', g)) ->
  base.size (vv_wr g) = 0%nat /\ base.size (vv_rd g) = 0%nat /\
  vyukhov_repr h buf k (vv_deq g) (vv_items g) m'.
Proof.
  intros Hi Hrest. pose proof Hi as [E1 E2 E3 E4 E5 Hlen Hw Hr Hf He Hm _ _ Ho _]. cbn in *.
  assert (Ew : vv_wr g = ∅).
  { apply map_empty. intros q. destruct (vv_wr g !! q) as [[j e]|] eqn:Eq; [|done].
    destruct (Hw _ _ _ Eq) as (Hj & _). destruct (Hrest j Hj) as (n & evs & _ & _ & _ & _ & _ & Hown & _).
    cbn in Hown. by apply Hown in Eq. }
  assert (Er : vv_rd g = ∅).
  { apply map_empty. intros q. destruct (vv_rd g !! q) as [[j e]|] eqn:Eq; [|done].
    destruct (Hr _ _ _ Eq) as (Hj & _). destruct (Hrest j Hj) as (n & evs & _ & _ & _ & _ & _ & _ & Hown).
    cbn in Hown. by apply Hown in Eq. }
  rewrite Ew, Er in *. split; [apply map_size_empty|]. split; [apply map_size_empty|].
  pose proof (cap_bounds h buf k placed) as Hcap. pose proof (Zlen_nonneg (vv_items g)).
  split; try done.
  - rewrite E5, zsum_zero; [rewrite Z.sub_0_r, u64_id by lia; done|]. intros i x Hx.
    pose proof (lookup_lt_Some _ _ _ Hx) as Hj. rewrite Ho in Hj.
    destruct (Hrest i Hj) as (n & evs & _ & _ & _ & Hx' & _). cbn in Hx'. congruence.
  - intros i e Hx. apply Hf; [lia| |done]. replace (Z.to_nat _) with i by lia. done.
  - intros p Hp. destruct (lookup_lt_is_Some_2 (vv_items g) (Z.to_nat (p - vv_deq g))) as [e Hx].
    { unfold Zlen in Hp. lia. }
    apply (Hf p e); [lia|done|done].
  - intros p Hp. apply He; [unfold vv_enq; lia|done].
Qed.

End queue.

(** ** Pools of clients *)

Record vyukhov_client := mk_vclient {
  vc_side : side;
  vc_ops : list op;
  vc_budget : nat
}.

Definition vyukhov_workload (cls : list vyukhov_client) : nat :=
  sum_list (map (fun c => length (vc_ops c)) cls).

Definition vyukhov_pool `{K : Kernel} `{Al : Allocator} (h k : Z) (cls : list vyukhov_client) :
    list (thread (list event)) :=
  map (fun c => (perform (vyukhov_container (vc_side c) h k) (vc_ops c), vc_budget c)) cls.

(** What the threads did together: at every moment the counters are those of the contents reached
    by one history of the queue with its liberties, in which elements leave in the order in which
    they entered; a thread that has ended saw exactly its events of that history; once all have
    ended nothing is in flight and memory holds the queue. *)
Definition vyukhov_outcome (h buf k : Z) (l0 : list ds_kv) (cls : list vyukhov_client)
    (ts : list (thread (list event))) (m : mem) : Prop :=
  exists D l w r H,
    m !! dequeue_pos h = Some (u64 D) /\ m !! enqueue_pos h = Some (u64 (D + Zlen l)) /\
    vsteps (2 ^ k) (l0, 0%nat, 0%nat) (H.*2) (l, w, r) /\
    popped (took (H.*2)) ++ l = l0 ++ accepted (took (H.*2)) /\
    (forall i evs b, ts !! i = Some (Ret evs, b) -> evs = vmine i H /\
       exists c, cls !! i = Some c /\ map event_op evs = vc_ops c) /\
    ((forall t, t ∈ ts -> is_Some (thread_done t)) ->
       w = 0%nat /\ r = 0%nat /\ vyukhov_repr h buf k D l m).

Section pool.
Context `{K : Kernel} `{Al : Allocator}.
Variables (h buf k : Z) (D : Z) (l0 : list ds_kv) (cls : list vyukhov_client) (m : mem).
Hypothesis placed : vyukhov_placed h buf k.
Hypothesis few : Z.of_nat (vyukhov_workload cls) < 2 ^ 62.
Hypothesis start : vyukhov_repr h buf k D l0 m.

Notation N := (length cls).
Notation T := (vyukhov_workload cls).
Notation inv := (v_inv h buf k D l0 N T).
Notation at_rest i n evs := (v_at h buf k D l0 N T i n 0 evs None None).

Notation first_vview := (start_vview D l0 N (map (fun c => length (vc_ops c)) cls)).

Lemma first_v_inv : inv (m, first_vview).
Proof. by apply start_v_inv. Qed.

Lemma first_v_at i c : cls !! i = Some c -> at_rest i (length (vc_ops c)) [] (m, first_vview).
Proof.
  intros Hi. apply start_v_at; [apply first_v_inv|by eapply lookup_lt_Some|].
  change (map ?f cls) with (f <$> cls). by rewrite list_lookup_fmap, Hi.
Qed.

Definition v_post (i : nat) (evs : list event) (s : mem * vview) : Prop :=
  exists c, cls !! i = Some c /\ map event_op evs = vc_ops c /\ at_rest i 0%nat evs s.

Lemma first_v_pool_ok :
  pool_ok (v_rely h buf k D l0 N T) (v_guar h buf k D l0 N T) v_post (vyukhov_pool h k cls) (m, first_vview).
Proof.
  intros i p b Hi. unfold vyukhov_pool in Hi. apply list_lookup_fmap_Some in Hi as (c & [= -> ->] & Hc).
  eapply (triple_thread _ _ _ _ _ _ (v_post i)); [|apply Nat.le_0_l|by apply first_v_at].
  eapply triple_weaken; [by apply v_perform_ok|done|done|].
  intros evs s [Hm Hs]. exists c. by split.
Qed.

(** C9. Any number of threads that insert into and pop from Vyukhov's queue, each in either build,
    in every interleaving of their accesses: every schedule ends, no access faults, and at every
    moment the queue is in a state of one history of the bounded queue in which only refusals are
    looser (an insertion may be refused while a pop is in flight, a pop while an insertion is, and
    an operation may give up). Elements leave in the order in which they entered, each thread saw
    its part of the history, and once all are done memory holds the queue again. *)
Theorem vyukhov_mpmc :
  Acc (flip pool_step) (vyukhov_pool h k cls, m) /\
  forall ts m', rtc pool_step (vyukhov_pool h k cls, m) (ts, m') ->
    (forall i t, ts !! i = Some t -> ~ thread_faults t m' /\ t.1 <> NoFuel) /\
    vyukhov_outcome h buf k l0 cls ts m'.
Proof.
  split; [apply pool_terminates|]. intros ts m' Hs.
  destruct (pool_safe (v_rely h buf k D l0 N T) (v_guar h buf k D l0 N T) v_post
    (v_rely_preorder h buf k D l0 N T) (v_guar_compatible h buf k D l0 N T placed) inv
    (fun i s s' Hi HG => proj1 (HG Hi)) _ _ _ _ _ first_v_pool_ok first_v_inv Hs) as (g & Hok & Hi).
  pose proof (pool_ok_thread _ (v_guar h buf k D l0 N T) v_post (v_rely_preorder h buf k D l0 N T) ts m' g) as Ht.
  split.
  { intros i [p b] Hi'. by destruct (Ht _ _ _ Hok Hi') as (H1 & H2 & _). }
  assert (Hret : forall i evs b, ts !! i = Some (Ret evs, b) -> v_post i evs (m', g)).
  { intros i evs b E. destruct (Ht _ _ _ Hok E) as (_ & _ & Hq). by apply Hq. }
  pose proof Hi as [E1 E2 E3 E4 E5 Hlen Hw Hr Hf He Hm Hh Hb Ho Hwho]. cbn in *.
  exists (vv_deq g), (vv_items g), (base.size (vv_wr g)), (base.size (vv_rd g)), (vv_hist g).
  split; [done|]. split; [done|]. split; [done|]. split; [by apply (vsteps_fifo _ _ _ _ Hh)|]. split.
  - intros i evs b E. destruct (Hret i evs b E) as (c & Hc & Hev & _ & _ & _ & _ & <- & _).
    split; [done|by exists c].
  - intros Hdone.
    assert (Hrest : forall j, (j < N)%nat -> exists evs, at_rest j 0%nat evs (m', g)).
    { intros j Hj. pose proof (pool_steps_length _ _ Hs) as Hl. cbn in Hl. unfold vyukhov_pool in Hl.
      rewrite length_map in Hl. rewrite <- Hl in Hj. apply lookup_lt_is_Some in Hj as [[[evs|e kk|] b] E];
        try (by destruct (Hdone _ (list_elem_of_lookup_2 _ _ _ E))).
      destruct (Hret j evs b E) as (c & _ & _ & Hat). by exists evs. }
    apply (settled h buf k D l0 N T); [done|done|]. intros j Hj. destruct (Hrest j Hj) as [evs Hat]. by exists 0%nat, evs.
Qed.
End pool.
