(* ===== verification/VyukhovCrowd.v ===== *)
(** * Vyukhov's queue as a structure that any number of threads share.

    The triples of [VyukhovConc] as an instance of the interface [Crowd]: what the threads did adds
    up, and whoever is outside the header and the cells may keep what he likes there. *)
From stdpp Require Import base numbers gmap list fin_maps option relations.
From S2P Require Import Prelude Machine Logic Api Owned Container Conc Threads Crowd Ring Vyukhov VyukhovConc.
Import VyukhovHead VyukhovNode.

(** ** The histories of the threads *)

Lemma vmine_cons i j lb (H : list (nat * vlabel)) :
  vmine i ((j, lb) :: H) = (if decide (j = i) then took [lb] else []) ++ vmine i H.
Proof.
  unfold vmine. cbn. destruct (decide (j = i)); [|done].
  change (lb :: ?l) with ([lb] ++ l). by rewrite took_app.
Qed.

Lemma took_cons j lb (H : list (nat * vlabel)) : took (((j, lb) :: H).*2) = took [lb] ++ took (H.*2).
Proof. apply (took_app [lb]). Qed.

(** The events of the threads are those of the history. *)
Lemma vmine_all N (H : list (nat * vlabel)) : Forall (fun p => (p.1 < N)%nat) H ->
  concat (map (fun i => vmine i H) (seq 0 N)) ≡ₚ took (H.*2).
Proof. apply (threads_all (fun lb => took [lb]) vmine (fun H => took (H.*2))); auto using vmine_cons, took_cons. Qed.

Lemma vmine_sub i (H : list (nat * vlabel)) ev : ev ∈ vmine i H -> ev ∈ took (H.*2).
Proof. apply (thread_sub (fun lb => took [lb]) vmine (fun H => took (H.*2))); auto using vmine_cons, took_cons. Qed.

(** What an operation can answer. *)
Definition vyukhov_answers (cap : Z) (ev : event) : Prop := exists c c', vstep cap c (VTook ev) c'.

Lemma vsteps_answers cap c lbs c' : vsteps cap c lbs c' -> Forall (vyukhov_answers cap) (took lbs).
Proof.
  induction 1 as [|c1 lb c2 lbs c3 Hs _ IH]; [constructor|].
  change (lb :: lbs) with ([lb] ++ lbs). rewrite took_app. apply Forall_app. split; [|done].
  destruct lb as [ev| |]; [|constructor..]. apply Forall_singleton. by exists c1, c2.
Qed.

Section crowd.
Context `{K : Kernel} `{Al : Allocator}.
Variables (h buf k : Z) (D0 : Z) (l0 : list ds_kv) (N T : nat).
Hypothesis placed : vyukhov_placed h buf k.
Hypothesis few : Z.of_nat T < 2 ^ 62.

Notation inv := (v_inv h buf k D0 l0 N T).
Notation rely := (v_rely h buf k D0 l0 N T).
Notation guar := (v_guar h buf k D0 l0 N T).
Notation cell := (slot buf 24 (2 ^ k)).

(** ** Memory that is not the queue's *)

Definition v_foreign (a : Z) : Prop := ~ in_block h 152 a /\ ~ in_block buf (24 * 2 ^ k) a.

Lemma v_foreign_cell a q : v_foreign a -> ~ in_block (cell q) 24 a.
Proof. intros [_ Ha] Hq. apply Ha. pose proof (cell_bounds h buf k placed q). unfold in_block in *. lia. Qed.

Lemma v_inv_write m g a v : inv (m, g) -> v_foreign a -> is_Some (m !! a) -> inv (<[a:=v]> m, g).
Proof.
  intros [E1 E2 E3 E4 E5 Hlen Hw Hr Hf He Hm Hh Hb Ho Hwho] Ha Hsome. cbn in *.
  pose proof (cell_bounds h buf k placed) as Hcb.
  assert (Hcell : forall q x, 0 <= x < 24 -> <[a:=v]> m !! (cell q + x) = m !! (cell q + x)).
  { intros q x Hx. apply lookup_insert_ne. intros ->. destruct Ha as [_ Ha]. apply Ha.
    specialize (Hcb q). unfold in_block. lia. }
  assert (Hhead : forall x, 0 <= x < 152 -> <[a:=v]> m !! (h + x) = m !! (h + x)).
  { intros x Hx. apply lookup_insert_ne. intros ->. destruct Ha as [Ha _]. apply Ha. unfold in_block. lia. }
  unfold enqueue_pos, dequeue_pos, buffer_mask, buffer, count in *.
  split; cbn -[slot]; unfold enqueue_pos, dequeue_pos, buffer_mask, buffer, count; rewrite ?Hhead by lia; try done.
  - intros q i e Hq. rewrite Hcell by lia. by apply (Hw q i e).
  - intros q i e Hq. unfold slot_holds. rewrite !Hcell by lia. by apply (Hr q i e).
  - intros q e Hq Hx Hn. unfold slot_holds. rewrite !Hcell by lia. by apply Hf.
  - intros q Hq Hn. rewrite Hcell by lia. by apply He.
  - by apply slots_mapped_ins.
Qed.

Lemma v_foreign_write i m g a v :
  inv (m, g) -> v_foreign a -> is_Some (m !! a) -> rely i (m, g) (<[a:=v]> m, g).
Proof.
  intros Hi Ha Hsome _. split; [by apply v_inv_write|]. split; [apply same_books_refl|].
  split; [apply tickets_refl|]. intros q c _ Hc. apply lookup_insert_ne. intros <-.
  by apply (v_foreign_cell a q Ha).
Qed.

(** ** The interface *)

#[local] Instance vyukhov_crowd : Crowd := {|
  cr_ghost := vview;
  cr_inv := inv;
  cr_rely := rely;
  cr_guar := guar;
  cr_at i n k' evs := v_at h buf k D0 l0 N T i (n + k') 0 evs None None;
  cr_seen g i := vmine i (vv_hist g);
  cr_items := vv_items;
  cr_cells := v_foreign
|}.

Definition vyukhov_quiet (l : list ds_kv) (m : mem) : Prop := exists D, vyukhov_repr h buf k D l m.

#[local] Instance vyukhov_crowd_ops sd : CrowdOps vyukhov_crowd (vyukhov_container sd h k).
Proof.
  split; cbn [cr_rely cr_guar cr_at vyukhov_crowd c_insert c_pop vyukhov_container].
  - intros i n k' evs [key value]. apply (v_insert_ok h buf k D0 l0 N T placed few sd i (n + k') evs (mk_kv key value)).
  - intros i n k' evs d. rewrite <- plus_n_Sm. by apply v_pop_ok.
Qed.

#[local] Instance vyukhov_crowd_laws : CrowdLaws vyukhov_crowd N l0 (vyukhov_answers (2 ^ k)) vyukhov_quiet.
Proof.
  split; cbn [cr_rely cr_guar cr_inv cr_at cr_cells cr_items cr_ghost vyukhov_crowd].
  - intros i. apply v_rely_preorder.
  - intros i. apply v_guar_refl.
  - intros i s s' Hi HR. by apply HR.
  - intros i j s s' _ HG Hne. by apply (v_guar_compatible _ _ _ _ _ _ _ placed i j).
  - intros i s s' a Hi HG Ha. destruct (HG Hi) as (_ & _ & _ & Hu). apply Hu.
    intros [->|[->|[->|(q & _ & Hq)]]]; [..|by apply (v_foreign_cell a q Ha)];
      destruct Ha as [Ha _]; apply Ha; addr.
  - intros i n k' evs. apply v_at_stable.
  - intros i n k' evs m g (Hi & HiN & _ & _ & Hm & _). cbn in *. split; [done|]. split; [done|]. split; [done|].
    rewrite <- Hm. pose proof (vsteps_answers _ _ _ _ (vi_hist _ _ _ _ _ _ _ _ Hi)) as Hans.
    rewrite Forall_forall in *. intros ev Hev. apply Hans. by eapply vmine_sub.
  - apply v_foreign_write.
  - intros m g Hi. pose proof (vmine_all N _ (vi_who _ _ _ _ _ _ _ _ Hi)) as Hall. cbn in *.
    unfold all_seen. cbn. rewrite Hall.
    pose proof (vsteps_fifo _ _ _ _ (vi_hist _ _ _ _ _ _ _ _ Hi)) as Hf. cbn in Hf. by rewrite Hf.
  - intros m g Hi Hat. exists (vv_deq g). apply (settled h buf k D0 l0 N T placed m g Hi).
    intros j Hj. destruct (Hat j Hj) as (n & k' & evs & H). by eexists _, _.
Qed.
End crowd.
