(* ===== verification/FollySpsc.v ===== *)
(** * Folly's bounded SPSC ring ([include/ds_folly_spsc.h]). *)
From stdpp Require Import base numbers gmap list fin_maps option strings.
From S2P Require Import Prelude Machine Logic Api Owned Container Ring.

(** ** Layout of [struct ds_spsc_queue_head]: the two indices sit in cache lines of their own. *)

Module SpscHead.
Definition write_idx (head : Z) : Z := head + 0.
Definition read_idx (head : Z) : Z := head + 64.
Definition size (head : Z) : Z := head + 68.
Definition records (head : Z) : Z := head + 72.
Definition sizeof : Z := 128.
End SpscHead.

#[export] Hint Unfold SpscHead.write_idx SpscHead.read_idx SpscHead.size SpscHead.records
  SpscHead.sizeof : layout.

Import SpscHead.

(** [&head->records[i]]: an array of [struct ds_kv]. *)
Definition spsc_record (records i : Z) : Z := records + 16 * i.
Definition record_key (node : Z) : Z := node + 0.
Definition record_value (node : Z) : Z := node + 8.

#[export] Hint Unfold record_key record_value : layout.

Section operations.
Context `{Al : Allocator}.

Definition ds_spsc_init_lkmm (head size_ : Z) : prog Z :=
  if size_ <? 2 then Ret DS_ERROR_INVALID else
  recs ← bpf_arena_alloc (u32 (size_ * 16));
  if recs =? 0 then Ret DS_ERROR_NOMEM else
  store Plain (size head) size_;;
  WRITE_ONCE (read_idx head) 0;;
  WRITE_ONCE (write_idx head) 0;;
  store Plain (records head) recs;;
  Ret DS_SUCCESS.

Definition ds_spsc_init_c (head size_ : Z) : prog Z :=
  if size_ <? 2 then Ret DS_ERROR_INVALID else
  recs ← bpf_arena_alloc (u32 (size_ * 16));
  if recs =? 0 then Ret DS_ERROR_NOMEM else
  arena_atomic_store (size head) size_ Relaxed;;
  arena_atomic_store (read_idx head) 0 Relaxed;;
  arena_atomic_store (write_idx head) 0 Relaxed;;
  arena_atomic_store (records head) recs Relaxed;;
  Ret DS_SUCCESS.

Definition ds_spsc_init (s : side) (head size_ : Z) : prog Z :=
  match s with
  | BPF => ds_spsc_init_lkmm head size_
  | USER => ds_spsc_init_c head size_
  end.
End operations.

Definition ds_spsc_insert_lkmm (head key value : Z) : prog Z :=
  current_write ← READ_ONCE (write_idx head);
  let next_record := u32 (current_write + 1) in
  sz ← load Plain (size head);
  let next_record := if next_record >=? sz then 0 else next_record in
  current_read ← READ_ONCE (read_idx head);
  if negb (next_record =? current_read) then
    recs ← load Plain (records head);
    let node := spsc_record recs current_write in
    store Plain (record_key node) key;;
    store Plain (record_value node) value;;
    smp_store_release (write_idx head) next_record;;
    Ret DS_SUCCESS
  else Ret DS_ERROR_FULL.

Definition ds_spsc_insert_c (head key value : Z) : prog Z :=
  current_write ← arena_atomic_load (write_idx head) Relaxed;
  let next_record := u32 (current_write + 1) in
  sz ← load Plain (size head);
  let next_record := if next_record >=? sz then 0 else next_record in
  current_read ← arena_atomic_load (read_idx head) Acquire;
  if negb (next_record =? current_read) then
    recs ← load Plain (records head);
    let node := spsc_record recs current_write in
    arena_atomic_store (record_key node) key Relaxed;;
    arena_atomic_store (record_value node) value Relaxed;;
    arena_atomic_store (write_idx head) next_record Release;;
    Ret DS_SUCCESS
  else Ret DS_ERROR_FULL.

Definition ds_spsc_insert (s : side) (head key value : Z) : prog Z :=
  match s with
  | BPF => ds_spsc_insert_lkmm head key value
  | USER => ds_spsc_insert_c head key value
  end.

(** [data] is the caller's output pair, [None] for the null pointer: the element is then
    discarded. *)
Definition ds_spsc_delete_lkmm (head : Z) (data : option ds_kv) : prog (Z * option ds_kv) :=
  current_read ← READ_ONCE (read_idx head);
  current_write ← smp_load_acquire (write_idx head);
  if current_read =? current_write then Ret (DS_ERROR_NOT_FOUND, data) else
  recs ← load Plain (records head);
  let node := spsc_record recs current_read in
  data ← match data with
         | None => Ret None
         | Some _ =>
             k ← load Plain (record_key node);
             v ← load Plain (record_value node);
             Ret (Some (mk_kv k v))
         end;
  let next_record := u32 (current_read + 1) in
  sz ← load Plain (size head);
  let next_record := if next_record >=? sz then 0 else next_record in
  smp_store_release (read_idx head) next_record;;
  Ret (DS_SUCCESS, data).

Definition ds_spsc_delete_c (head : Z) (data : option ds_kv) : prog (Z * option ds_kv) :=
  current_read ← arena_atomic_load (read_idx head) Relaxed;
  current_write ← arena_atomic_load (write_idx head) Acquire;
  if current_read =? current_write then Ret (DS_ERROR_NOT_FOUND, data) else
  recs ← load Plain (records head);
  let node := spsc_record recs current_read in
  data ← match data with
         | None => Ret None
         | Some _ =>
             k ← arena_atomic_load (record_key node) Relaxed;
             v ← arena_atomic_load (record_value node) Relaxed;
             Ret (Some (mk_kv k v))
         end;
  let next_record := u32 (current_read + 1) in
  sz ← load Plain (size head);
  let next_record := if next_record >=? sz then 0 else next_record in
  arena_atomic_store (read_idx head) next_record Release;;
  Ret (DS_SUCCESS, data).

Definition ds_spsc_delete (s : side) (head : Z) (data : option ds_kv) : prog (Z * option ds_kv) :=
  match s with
  | BPF => ds_spsc_delete_lkmm head data
  | USER => ds_spsc_delete_c head data
  end.

Definition ds_spsc_pop_lkmm (head : Z) (data : option ds_kv) : prog (Z * option ds_kv) :=
  ds_spsc_delete_lkmm head data.

Definition ds_spsc_pop_c (head : Z) (data : option ds_kv) : prog (Z * option ds_kv) :=
  ds_spsc_delete_c head data.

Definition ds_spsc_pop (s : side) (head : Z) (data : option ds_kv) : prog (Z * option ds_kv) :=
  match s with
  | BPF => ds_spsc_pop_lkmm head data
  | USER => ds_spsc_pop_c head data
  end.

Definition ds_spsc_search_lkmm (head key : Z) : prog Z := Ret DS_ERROR_INVALID.

Definition ds_spsc_search_c (head key : Z) : prog Z := Ret DS_ERROR_INVALID.

Definition ds_spsc_search (s : side) (head key : Z) : prog Z :=
  match s with
  | BPF => ds_spsc_search_lkmm head key
  | USER => ds_spsc_search_c head key
  end.

(** [int size = (int)w - (int)r; if (size < 0) size += s]: the addition converts to unsigned
    and back. *)
Definition spsc_distance (w r s : Z) : Z :=
  let d := s32 (s32 w - s32 r) in if d <? 0 then s32 (u32 (d + s)) else d.

Definition spsc_check (r w s : Z) : Z :=
  if (r >=? s) || (w >=? s) then DS_ERROR_CORRUPT else
  if spsc_distance w r s >? s32 (u32 (s - 1)) then DS_ERROR_CORRUPT else DS_SUCCESS.

Definition ds_spsc_verify_lkmm (head : Z) : prog Z :=
  r ← READ_ONCE (read_idx head);
  w ← READ_ONCE (write_idx head);
  s ← load Plain (size head);
  Ret (spsc_check r w s).

Definition ds_spsc_verify_c (head : Z) : prog Z :=
  r ← arena_atomic_load (read_idx head) Relaxed;
  w ← arena_atomic_load (write_idx head) Relaxed;
  s ← arena_atomic_load (size head) Relaxed;
  Ret (spsc_check r w s).

Definition ds_spsc_verify (s : side) (head : Z) : prog Z :=
  match s with
  | BPF => ds_spsc_verify_lkmm head
  | USER => ds_spsc_verify_c head
  end.

Definition ds_spsc_size_lkmm (head : Z) : prog Z :=
  r ← READ_ONCE (read_idx head);
  w ← READ_ONCE (write_idx head);
  s ← load Plain (size head);
  Ret (u32 (spsc_distance w r s)).

Definition ds_spsc_size_c (head : Z) : prog Z :=
  r ← arena_atomic_load (read_idx head) Relaxed;
  w ← arena_atomic_load (write_idx head) Relaxed;
  s ← arena_atomic_load (size head) Relaxed;
  Ret (u32 (spsc_distance w r s)).

Definition ds_spsc_size (s : side) (head : Z) : prog Z :=
  match s with
  | BPF => ds_spsc_size_lkmm head
  | USER => ds_spsc_size_c head
  end.

Definition ds_spsc_is_empty_lkmm (head : Z) : prog bool :=
  r ← READ_ONCE (read_idx head);
  w ← READ_ONCE (write_idx head);
  Ret (r =? w).

Definition ds_spsc_is_empty_c (head : Z) : prog bool :=
  r ← arena_atomic_load (read_idx head) Relaxed;
  w ← arena_atomic_load (write_idx head) Relaxed;
  Ret (r =? w).

Definition ds_spsc_is_empty (s : side) (head : Z) : prog bool :=
  match s with
  | BPF => ds_spsc_is_empty_lkmm head
  | USER => ds_spsc_is_empty_c head
  end.

Definition ds_spsc_is_full_lkmm (head : Z) : prog bool :=
  r ← READ_ONCE (read_idx head);
  w ← READ_ONCE (write_idx head);
  s ← load Plain (size head);
  let next_write := u32 (w + 1) in
  let next_write := if next_write >=? s then 0 else next_write in
  Ret (next_write =? r).

Definition ds_spsc_is_full_c (head : Z) : prog bool :=
  r ← arena_atomic_load (read_idx head) Acquire;
  w ← arena_atomic_load (write_idx head) Relaxed;
  s ← arena_atomic_load (size head) Relaxed;
  let next_write := u32 (w + 1) in
  let next_write := if next_write >=? s then 0 else next_write in
  Ret (next_write =? r).

Definition ds_spsc_is_full (s : side) (head : Z) : prog bool :=
  match s with
  | BPF => ds_spsc_is_full_lkmm head
  | USER => ds_spsc_is_full_c head
  end.

(** ** Representation: [D] pops so far; indices are positions modulo the size. One slot stays
    empty. *)
Section spec.
Context `{K : Kernel}.
Variables h recs n : Z.

Definition spsc_placed : Prop :=
  0 < recs /\ 2 <= n < 2 ^ 31 /\ (h + 128 <= recs \/ recs + 16 * n <= h).

Definition spsc_foot (a : Z) : Prop := in_block h 128 a \/ in_block recs (16 * n) a.

Record spsc_repr (D : Z) (l : list ds_kv) (m : mem) : Prop := {
  sr_write : m !! write_idx h = Some ((D + Zlen l) mod n);
  sr_read : m !! read_idx h = Some (D mod n);
  sr_size : m !! size h = Some n;
  sr_records : m !! records h = Some recs;
  sr_len : Zlen l <= n - 1;
  sr_slots : slots_hold recs 16 0 n m D l;
  sr_mapped : slots_mapped recs 16 0 n m
}.

Hypothesis placed : spsc_placed.

Notation rec_of := (slot recs 16 n) (only parsing).

Lemma record_slot p : spsc_record recs (p mod n) = rec_of p.
Proof. done. Qed.

Lemma record_bounds p : recs <= rec_of p /\ rec_of p + 16 <= recs + 16 * n.
Proof. destruct placed as (_ & Hn & _). apply (slot_bounds recs 16 0); lia. Qed.

Lemma next_index p :
  (if u32 (p mod n + 1) >=? n then 0 else u32 (p mod n + 1)) = (p + 1) mod n.
Proof.
  destruct placed as (_ & Hn & _). pose proof (Z.mod_pos_bound p n ltac:(lia)).
  rewrite u32_id by lia. apply mod_succ_reset. lia.
Qed.

(** The queue is full exactly when the slot after the last one is the first one. *)
Lemma full_index D len :
  0 <= len <= n - 1 -> ((D + len + 1) mod n =? D mod n) = (len =? n - 1).
Proof.
  intros Hl. destruct placed as (_ & Hn & _). destruct (Z.eqb_spec len (n - 1)) as [->|Hne].
  - apply Z.eqb_eq. replace (D + (n - 1) + 1) with (D + 1 * n) by lia. apply Z_mod_plus_full.
  - apply Z.eqb_neq. apply mod_window_ne; lia.
Qed.

Lemma empty_index D len :
  0 <= len <= n - 1 -> (D mod n =? (D + len) mod n) = (len =? 0).
Proof.
  intros Hl. destruct placed as (_ & Hn & _). destruct (Z.eqb_spec len 0) as [->|Hne].
  - rewrite Z.add_0_r. apply Z.eqb_refl.
  - apply Z.eqb_neq. apply mod_window_ne; lia.
Qed.

(** The signed index difference, corrected by the size, is the number of elements. *)
Lemma distance_ok D len :
  0 <= len <= n - 1 -> spsc_distance ((D + len) mod n) (D mod n) n = len.
Proof.
  intros Hl. destruct placed as (_ & Hn & _). unfold spsc_distance.
  pose proof (Z.mod_pos_bound D n ltac:(lia)).
  pose proof (Z.mod_pos_bound (D + len) n ltac:(lia)).
  rewrite !s32_id by (rewrite ?s32_id by lia; lia).
  assert (E : exists q, (D + len) mod n - D mod n = len + q * n).
  { exists (D / n - (D + len) / n).
    pose proof (Z.div_mod D n ltac:(lia)). pose proof (Z.div_mod (D + len) n ltac:(lia)). nia. }
  destruct E as [q Hq]. rewrite Hq in *. assert (q = 0 \/ q = -1) as [-> | ->] by nia.
  - destruct (Z.ltb_spec (len + 0 * n) 0); lia.
  - destruct (Z.ltb_spec (len + -1 * n) 0); [|lia]. rewrite u32_id, s32_id by lia. lia.
Qed.

Definition spsc_after_insert (P : Z) (e : ds_kv) (m : mem) : mem :=
  <[write_idx h:=(P + 1) mod n]>
    (<[record_value (rec_of P):=kv_value e]> (<[record_key (rec_of P):=kv_key e]> m)).

Lemma spsc_repr_insert D l e m :
  spsc_repr D l m -> Zlen l < n - 1 -> spsc_repr D (l ++ [e]) (spsc_after_insert (D + Zlen l) e m).
Proof.
  intros [E1 E2 E3 E4 Hlen Hs Hm] Hroom. pose proof placed as (_ & Hn & Hd).
  pose proof (record_bounds (D + Zlen l)). unfold spsc_after_insert, record_key, record_value.
  split; rewrite ?Zlen_snoc; try mlookv; [lia|..].
  - apply slots_frame_ins; [lia|lia|off_block|]. apply slots_push; [lia|lia|lia|done].
  - repeat apply slots_mapped_ins. done.
Qed.

Lemma spsc_repr_pop D e l m :
  spsc_repr D (e :: l) m -> spsc_repr (D + 1) l (<[read_idx h:=(D + 1) mod n]> m).
Proof.
  intros [E1 E2 E3 E4 Hlen Hs Hm]. pose proof placed as (_ & Hn & Hd).
  rewrite Zlen_cons in *. split; try mlookv; [lia|..].
  - apply slots_frame_ins; [lia|lia|off_block|]. by eapply slots_tail.
  - by apply slots_mapped_ins.
Qed.

Lemma spsc_insert_ok s D l m b e :
  spsc_repr D l m ->
  wpr (ds_spsc_insert s h (kv_key e) (kv_value e)) m b (fun r m' b' => b' = b /\
    if Zlen l <? n - 1 then
      r = DS_SUCCESS /\ spsc_repr D (l ++ [e]) m' /\ updates spsc_foot m m'
    else r = DS_ERROR_FULL /\ m' = m).
Proof.
  intros Hr. pose proof Hr as [E1 E2 E3 E4 Hlen Hs Hm].
  pose proof placed as (Hrec & Hn & Hd). pose proof (Zlen_nonneg l).
  pose proof (record_bounds (D + Zlen l)).
  destruct (slot_some recs 16 0 n m (D + Zlen l) Hm) as [e0 [Hk0 Hv0]].
  destruct s; unfold ds_spsc_insert, ds_spsc_insert_lkmm, ds_spsc_insert_c; prun;
    rewrite next_index, full_index by lia;
    (destruct (Z.ltb_spec (Zlen l) (n - 1)); [pif_true|pif_false]); prun;
    rewrite ?record_slot; prun; (split; [done|]); [|done| |done].
  all: split; [done|]; split; [by apply spsc_repr_insert|].
  all: repeat (apply updates_insert_trans; [unfold spsc_foot; addr|]); apply updates_refl.
Qed.

Lemma spsc_pop_ok s D l m b d :
  spsc_repr D l m ->
  wpr (ds_spsc_pop s h d) m b (fun r m' b' => b' = b /\
    match l with
    | [] => r = (DS_ERROR_NOT_FOUND, d) /\ m' = m
    | e :: l' =>
        r = (DS_SUCCESS, out_pair d e) /\ spsc_repr (D + 1) l' m' /\
        updates spsc_foot m m'
    end).
Proof.
  intros Hr. pose proof Hr as [E1 E2 E3 E4 Hlen Hs Hm].
  pose proof placed as (Hrec & Hn & Hd). pose proof (Zlen_nonneg l).
  destruct s; unfold ds_spsc_pop, ds_spsc_pop_lkmm, ds_spsc_pop_c, ds_spsc_delete_lkmm,
    ds_spsc_delete_c; prun; rewrite empty_index by lia;
    (destruct l as [|e l']; [pif_true; prun; done|]).
  all: pose proof (Zlen_nonneg l'); rewrite Zlen_cons in *; pif_false; prun; rewrite record_slot.
  all: destruct (slots_head _ _ _ _ _ _ _ _ Hs) as [Hk Hv].
  all: apply (wpr_mono _ _ _ (fun r m' b' => m' = m /\ b' = b /\ r = out_pair d e));
    [by destruct d as [d|], e; prun|intros r m' b' (-> & -> & ->)].
  all: prun; rewrite next_index; split; [done|]; split; [done|]; split; [by eapply spsc_repr_pop|].
  all: apply updates_insert; unfold spsc_foot; addr.
Qed.

(** The verifier accepts every well-formed ring. *)
Lemma spsc_verify_ok s D l m b :
  spsc_repr D l m ->
  wpr (ds_spsc_verify s h) m b (fun r m' b' => r = DS_SUCCESS /\ m' = m /\ b' = b).
Proof.
  intros [E1 E2 E3 E4 Hlen Hs Hm]. pose proof placed as (Hrec & Hn & Hd).
  pose proof (Zlen_nonneg l). pose proof (Z.mod_pos_bound D n ltac:(lia)).
  pose proof (Z.mod_pos_bound (D + Zlen l) n ltac:(lia)).
  destruct s; unfold ds_spsc_verify, ds_spsc_verify_lkmm, ds_spsc_verify_c; prun;
    unfold spsc_check; rewrite distance_ok, u32_id, s32_id by lia;
    (destruct (Z.geb_spec (D mod n) n); [lia|]);
    (destruct (Z.geb_spec ((D + Zlen l) mod n) n); [lia|]); cbn [orb];
    (destruct (Z.gtb_spec (Zlen l) (n - 1)); [lia|done]).
Qed.

Lemma spsc_size_ok s D l m b :
  spsc_repr D l m ->
  wpr (ds_spsc_size s h) m b (fun r m' b' => r = Zlen l /\ m' = m /\ b' = b).
Proof.
  intros [E1 E2 E3 E4 Hlen Hs Hm]. pose proof placed as (Hrec & Hn & Hd).
  pose proof (Zlen_nonneg l).
  destruct s; unfold ds_spsc_size, ds_spsc_size_lkmm, ds_spsc_size_c; prun;
    rewrite distance_ok, u32_id by lia; done.
Qed.

Lemma spsc_is_empty_ok s D l m b :
  spsc_repr D l m ->
  wpr (ds_spsc_is_empty s h) m b (fun r m' b' => r = (Zlen l =? 0) /\ m' = m /\ b' = b).
Proof.
  intros [E1 E2 E3 E4 Hlen Hs Hm]. pose proof (Zlen_nonneg l).
  destruct s; unfold ds_spsc_is_empty, ds_spsc_is_empty_lkmm, ds_spsc_is_empty_c; prun;
    rewrite empty_index by lia; done.
Qed.

Lemma spsc_is_full_ok s D l m b :
  spsc_repr D l m ->
  wpr (ds_spsc_is_full s h) m b (fun r m' b' => r = (Zlen l =? n - 1) /\ m' = m /\ b' = b).
Proof.
  intros [E1 E2 E3 E4 Hlen Hs Hm]. pose proof (Zlen_nonneg l).
  destruct s; unfold ds_spsc_is_full, ds_spsc_is_full_lkmm, ds_spsc_is_full_c; prun;
    rewrite next_index, full_index by lia; done.
Qed.

(** The observers agree with the contents: [size] is their number, [is_empty] and [is_full]
    say whether it is zero and whether it is the capacity [n - 1]. *)
Lemma spsc_observers s D l m b :
  spsc_repr D l m ->
  wpr (ds_spsc_size s h) m b (fun r m' b' => r = Zlen l /\ m' = m /\ b' = b) /\
  wpr (ds_spsc_is_empty s h) m b (fun r m' b' => r = (Zlen l =? 0) /\ m' = m /\ b' = b) /\
  wpr (ds_spsc_is_full s h) m b (fun r m' b' => r = (Zlen l =? n - 1) /\ m' = m /\ b' = b).
Proof.
  intros Hr. split_and!; [by eapply spsc_size_ok|by eapply spsc_is_empty_ok|by eapply spsc_is_full_ok].
Qed.
End spec.

(** ** Initialisation *)

Section init_spec.
Context `{K : Kernel} `{Al : Allocator} `{!AllocLaws Al}.
Variables h n : Z.

Definition spsc_own (recs : Z) : list block := [(h, 128); (recs, 16 * n)].

Definition spsc_head_mapped (m : mem) : Prop :=
  is_Some (m !! write_idx h) /\ is_Some (m !! read_idx h) /\ is_Some (m !! size h) /\
  is_Some (m !! records h).

Definition spsc_init_post (rest : list block) (m : mem) (r : Z) (m' : mem) : Prop :=
  (r = DS_ERROR_NOMEM /\ heap_holds [(h, 128)] rest m' /\
     forall a, in_block h 128 a -> m' !! a = m !! a) \/
  (r = DS_SUCCESS /\ exists recs, spsc_placed h recs n /\ spsc_repr h recs n 0 [] m' /\
     heap_holds (spsc_own recs) rest m').

Lemma spsc_init_ok s rest m b :
  heap_holds [(h, 128)] rest m -> spsc_head_mapped m -> 2 <= n < 2 ^ 27 -> alloc_pre (16 * n) m ->
  wpr (ds_spsc_init s h n) m b (fun r m' b' => b' = b /\
    (forall c, in_live rest c -> m' !! c = m !! c) /\ spsc_init_post rest m r m').
Proof.
  intros Hh (M1 & M2 & M3 & M4) Hn Hpre.
  assert (Hsz : (16 * n) mod 8 = 0) by (replace (16 * n) with (2 * n * 8) by lia; apply Z_mod_mult).
  destruct s; unfold ds_spsc_init, ds_spsc_init_lkmm, ds_spsc_init_c; rewrite u32_id by lia; pif;
    replace (n * 16) with (16 * n) by lia;
    (eapply wpr_call; [apply (alloc_beside h 128 rest (16 * n)); (done || lia)|]);
    intros p m1 b1 (-> & Hrest & Hhd & [[-> Hh1]|(Hp & Hsep & Hmp & Hh1)]).
  1,3: pif_true; prun; split; [done|split; [done|left; by split_and!]].
  all: rewrite <- Hhd in M1, M2, M3, M4 by addr; pif_false; prun; split; [done|].
  all: pose proof (slots_mapped_words p n m1 ltac:(lia) Hmp) as Hsl.
  all: match goal with |- _ /\ spsc_init_post _ _ _ ?m' => set (m2 := m') end.
  all: assert (Hu : updates (in_block h 128) m1 m2)
    by (unfold m2; repeat (apply updates_insert_trans; [addr|]); apply updates_refl).
  all: destruct (heap_holds_updates _ rest m1 m2 _ Hh1 Hu) as [Hh2 Hrest2];
    [intros a Ha; apply in_live_cons; by left|].
  all: split; [intros c Hcr; rewrite Hrest2 by done; by apply Hrest|].
  all: right; split; [done|]; exists p; split; [by repeat split; try lia|]; split; [|done].
  all: pose proof (@Zlen_nil ds_kv); unfold m2; split; try mlookv; [lia|..].
  1,3: by apply slots_nil.
  all: by repeat apply slots_mapped_ins.
Qed.
End init_spec.

(** ** The ring as a container *)

Section container.
Context `{K : Kernel} `{Al : Allocator} `{!AllocLaws Al}.
Variables (s : side) (h n : Z).
Lemma spsc_repr_frame recs D l m m' :
  2 <= n ->
  (forall a, in_live (spsc_own h n recs) a -> m' !! a = m !! a) ->
  spsc_repr h recs n D l m -> spsc_repr h recs n D l m'.
Proof.
  intros Hrange Hf [E1 E2 E3 E4 Hlen Hs Hm].
  assert (Hh : forall a, in_block h 128 a -> m' !! a = m !! a)
    by (intros a Ha; by apply Hf, in_own_head).
  assert (Ha : forall a, in_block recs (16 * n) a -> m' !! a = m !! a)
    by (intros a Ha; by apply Hf, in_own_array).
  split; try (rewrite Hh by addr; done); try done.
  - by eapply slots_hold_frame; [lia..|exact Ha|].
  - by eapply slots_mapped_frame; [lia..|exact Ha|].
Qed.

Hypothesis n_range : 2 <= n < 2 ^ 27.
Hypothesis alloc_ready : forall live sz m, heap_ok live m -> alloc_pre sz m.

Lemma spsc_home_frame m m' :
  (forall a, in_block h 128 a -> m' !! a = m !! a) ->
  (spsc_head_mapped h m -> spsc_head_mapped h m') /\ (m !! records h = Some 0 -> m' !! records h = Some 0).
Proof. intros Hf. unfold spsc_head_mapped. split; rewrite ?Hf by addr; done. Qed.

Definition spsc_container : Container := {|
  c_init := ds_spsc_init s h n;
  c_insert := ds_spsc_insert s h;
  c_pop := ds_spsc_pop s h;
  c_home := (h, 128);
  c_ready := spsc_head_mapped h;
  c_blank m := m !! records h = Some 0;
  c_inv own l m := exists recs, spsc_placed h recs n /\ own = spsc_own h n recs /\
                     exists D, spsc_repr h recs n D l m;
  c_spec := bounded fifo_add (n - 1) DS_ERROR_FULL;
  c_init_budget := 0;
  c_budget := 0
|}.

#[export] Instance spsc_container_laws : ContainerLaws s spsc_container.
Proof.
  split.
  - intros own l m m' Hf (recs & Hp & -> & D & Hr). exists recs. split; [done|]. split; [done|].
    exists D. eapply spsc_repr_frame; [lia|done|done].
  - intros m m' Hf. apply spsc_home_frame. intros a Ha. by apply Hf, in_own_head.
  - intros rest m b j Hh Hrd Hb.
    eapply wpr_mono; [apply (spsc_init_ok h n s rest); try done; by destruct Hh; eapply alloc_ready|].
    intros r m' b' (-> & Hrest & [(-> & Hh' & Hhd)|(-> & recs & Hp & Hr & Hh')]);
      (split; [exact Hb|split; [done|]]);
      [left; split; [done|]; split; [exact Hh'|]; destruct (spsc_home_frame m m' Hhd) as [Hr1 Hr2]; split; [exact (Hr1 Hrd)|exact Hr2]|right]. split; [done|]. exists (spsc_own h n recs). split; [done|].
    exists recs. split; [done|]. split; [done|]. by exists 0.
  - intros own rest l m b e Hh (recs & Hp & -> & D & Hr) _.
    eapply wpr_mono; [by apply (spsc_insert_ok h recs n Hp s D l)|].
    intros r m' b' (_ & Hpost).
    eapply (array_insert_law _ _ _ _ _ (spsc_foot h recs n) _ (spsc_repr h recs n D));
      [done|intros; exists recs; eauto|done|done|..]; destruct (Zlen l <? n - 1);
      first [by destruct Hpost as (-> & Hr' & Hu)
            |destruct Hpost as [-> ->]; (done || apply updates_refl)].
  - intros own rest l m b d Hh (recs & Hp & -> & D & Hr) _.
    eapply wpr_mono; [by apply (spsc_pop_ok h recs n Hp s D l)|].
    intros r m' b' (_ & Hpost).
    eapply (array_pop_law _ _ _ _ _ (spsc_foot h recs n) _
      (fun l m => exists D, spsc_repr h recs n D l m)); [done|intros; exists recs; eauto|done|..]; destruct l;
      first [destruct Hpost as (-> & Hr' & Hu); by eauto
            |destruct Hpost as [-> ->]; first [apply updates_refl|by eauto]].
Qed.
End container.
