(* ===== verification/CkRing.v ===== *)
(** * ConcurrencyKit's SPSC ring ([include/ds_ck_ring_spsc.h]). *)
From stdpp Require Import base numbers gmap list fin_maps option strings.
From S2P Require Import Prelude Machine Logic Api Owned Container Ring.

(** ** Layout of [struct ds_ck_ring_spsc_head] *)

Module CkRingHead.
Definition capacity (head : Z) : Z := head + 0.
Definition mask (head : Z) : Z := head + 4.
Definition c_head (head : Z) : Z := head + 8.
Definition p_tail (head : Z) : Z := head + 12.
Definition slots (head : Z) : Z := head + 16.
Definition sizeof : Z := 24.
End CkRingHead.

#[export] Hint Unfold CkRingHead.capacity CkRingHead.mask CkRingHead.c_head CkRingHead.p_tail
  CkRingHead.slots CkRingHead.sizeof : layout.

Import CkRingHead.

(** [&head->slots[i]]: an array of [struct ds_kv]. *)
Definition ck_slot (slots i : Z) : Z := slots + 16 * i.
Definition slot_key (slot : Z) : Z := slot + 0.
Definition slot_value (slot : Z) : Z := slot + 8.

#[export] Hint Unfold slot_key slot_value : layout.

Definition ds_ck_ring_spsc_is_power_of_two (value : Z) : bool :=
  (value >=? 2) && (Z.land value (u32 (value - 1)) =? 0).

(** C40. The capacity test accepts exactly the powers of two from two on, in 32-bit arithmetic. *)
Theorem is_power_of_two_iff v :
  0 <= v < 2 ^ 32 ->
  ds_ck_ring_spsc_is_power_of_two v = true <-> exists k, 1 <= k <= 31 /\ v = 2 ^ k.
Proof.
  intros Hv. unfold ds_ck_ring_spsc_is_power_of_two. rewrite andb_true_iff, Z.eqb_eq. split.
  - intros [Hge Hl]. apply pow2_test_word in Hl as (k & Hk & ->); [|lia]. exists k. split; [|done].
    assert (k <> 0) by (intros ->; lia). lia.
  - intros (k & Hk & ->). assert (2 ^ 1 <= 2 ^ k <= 2 ^ 31) by (split; apply Z.pow_le_mono_r; lia).
    split; [lia|]. apply pow2_test_word; [lia|]. exists k. lia.
Qed.

Section operations.
Context `{Al : Allocator}.

Definition ds_ck_ring_spsc_init_lkmm (head capacity_ : Z) : prog Z :=
  if head =? 0 then Ret DS_ERROR_INVALID else
  if negb (ds_ck_ring_spsc_is_power_of_two capacity_) then Ret DS_ERROR_INVALID else
  p ← bpf_arena_alloc (u32 (capacity_ * 16));
  if p =? 0 then Ret DS_ERROR_NOMEM else
  store Plain (capacity head) capacity_;;
  store Plain (mask head) (u32 (capacity_ - 1));;
  store Plain (c_head head) 0;;
  store Plain (p_tail head) 0;;
  WRITE_ONCE (slots head) p;;
  Ret DS_SUCCESS.

Definition ds_ck_ring_spsc_init_c (head capacity_ : Z) : prog Z :=
  if head =? 0 then Ret DS_ERROR_INVALID else
  if negb (ds_ck_ring_spsc_is_power_of_two capacity_) then Ret DS_ERROR_INVALID else
  p ← bpf_arena_alloc (u32 (capacity_ * 16));
  if p =? 0 then Ret DS_ERROR_NOMEM else
  store Plain (capacity head) capacity_;;
  store Plain (mask head) (u32 (capacity_ - 1));;
  store Plain (c_head head) 0;;
  store Plain (p_tail head) 0;;
  arena_atomic_store (slots head) p Relaxed;;
  Ret DS_SUCCESS.

Definition ds_ck_ring_spsc_init (s : side) (head capacity_ : Z) : prog Z :=
  match s with
  | BPF => ds_ck_ring_spsc_init_lkmm head capacity_
  | USER => ds_ck_ring_spsc_init_c head capacity_
  end.
End operations.

Definition ds_ck_ring_spsc_insert_lkmm (head key value : Z) : prog Z :=
  if head =? 0 then Ret DS_ERROR_INVALID else
  sl ← load Plain (slots head);
  if sl =? 0 then Ret DS_ERROR_INVALID else
  consumer ← READ_ONCE (c_head head);
  producer ← READ_ONCE (p_tail head);
  msk ← load Plain (mask head);
  let next := Z.land (u32 (producer + 1)) msk in
  if next =? consumer then Ret DS_ERROR_FULL else
  sl ← load Plain (slots head);
  let slot := ck_slot sl producer in
  store Plain (slot_key slot) key;;
  store Plain (slot_value slot) value;;
  smp_store_release (p_tail head) next;;
  Ret DS_SUCCESS.

Definition ds_ck_ring_spsc_insert_c (head key value : Z) : prog Z :=
  if head =? 0 then Ret DS_ERROR_INVALID else
  sl ← load Plain (slots head);
  if sl =? 0 then Ret DS_ERROR_INVALID else
  consumer ← arena_atomic_load (c_head head) Acquire;
  producer ← arena_atomic_load (p_tail head) Relaxed;
  msk ← load Plain (mask head);
  let next := Z.land (u32 (producer + 1)) msk in
  if next =? consumer then Ret DS_ERROR_FULL else
  sl ← load Plain (slots head);
  let slot := ck_slot sl producer in
  store Plain (slot_key slot) key;;
  store Plain (slot_value slot) value;;
  arena_atomic_store (p_tail head) next Release;;
  Ret DS_SUCCESS.

Definition ds_ck_ring_spsc_insert (s : side) (head key value : Z) : prog Z :=
  match s with
  | BPF => ds_ck_ring_spsc_insert_lkmm head key value
  | USER => ds_ck_ring_spsc_insert_c head key value
  end.

(** [out] is the caller's output pair, [None] for the null pointer. *)
Definition ds_ck_ring_spsc_delete_lkmm (head : Z) (out : option ds_kv) : prog (Z * option ds_kv) :=
  if head =? 0 then Ret (DS_ERROR_INVALID, out) else
  sl ← load Plain (slots head);
  if sl =? 0 then Ret (DS_ERROR_INVALID, out) else
  consumer ← READ_ONCE (c_head head);
  producer ← smp_load_acquire (p_tail head);
  if consumer =? producer then Ret (DS_ERROR_NOT_FOUND, out) else
  sl ← load Plain (slots head);
  let slot := ck_slot sl consumer in
  out ← match out with
        | None => Ret None
        | Some _ =>
            k ← load Plain (slot_key slot);
            v ← load Plain (slot_value slot);
            Ret (Some (mk_kv k v))
        end;
  msk ← load Plain (mask head);
  let next := Z.land (u32 (consumer + 1)) msk in
  smp_store_release (c_head head) next;;
  Ret (DS_SUCCESS, out).

Definition ds_ck_ring_spsc_delete_c (head : Z) (out : option ds_kv) : prog (Z * option ds_kv) :=
  if head =? 0 then Ret (DS_ERROR_INVALID, out) else
  sl ← load Plain (slots head);
  if sl =? 0 then Ret (DS_ERROR_INVALID, out) else
  consumer ← arena_atomic_load (c_head head) Relaxed;
  producer ← arena_atomic_load (p_tail head) Acquire;
  if consumer =? producer then Ret (DS_ERROR_NOT_FOUND, out) else
  arena_memory_barrier;;
  sl ← load Plain (slots head);
  let slot := ck_slot sl consumer in
  out ← match out with
        | None => Ret None
        | Some _ =>
            k ← load Plain (slot_key slot);
            v ← load Plain (slot_value slot);
            Ret (Some (mk_kv k v))
        end;
  msk ← load Plain (mask head);
  let next := Z.land (u32 (consumer + 1)) msk in
  arena_atomic_store (c_head head) next Release;;
  Ret (DS_SUCCESS, out).

Definition ds_ck_ring_spsc_delete (s : side) (head : Z) (out : option ds_kv)
  : prog (Z * option ds_kv) :=
  match s with
  | BPF => ds_ck_ring_spsc_delete_lkmm head out
  | USER => ds_ck_ring_spsc_delete_c head out
  end.

Definition ds_ck_ring_spsc_pop (s : side) (head : Z) (out : option ds_kv) : prog (Z * option ds_kv) :=
  ds_ck_ring_spsc_delete s head out.

Definition ds_ck_ring_spsc_search (head key : Z) : prog Z := Ret DS_ERROR_INVALID.

Definition ds_ck_ring_spsc_size_lkmm (head : Z) : prog Z :=
  consumer ← READ_ONCE (c_head head);
  producer ← READ_ONCE (p_tail head);
  msk ← load Plain (mask head);
  Ret (Z.land (u32 (producer - consumer)) msk).

Definition ds_ck_ring_spsc_size_c (head : Z) : prog Z :=
  consumer ← arena_atomic_load (c_head head) Acquire;
  producer ← arena_atomic_load (p_tail head) Acquire;
  msk ← load Plain (mask head);
  Ret (Z.land (u32 (producer - consumer)) msk).

Definition ds_ck_ring_spsc_size (s : side) (head : Z) : prog Z :=
  match s with
  | BPF => ds_ck_ring_spsc_size_lkmm head
  | USER => ds_ck_ring_spsc_size_c head
  end.

Definition ds_ck_ring_spsc_is_empty_lkmm (head : Z) : prog bool :=
  consumer ← READ_ONCE (c_head head);
  producer ← READ_ONCE (p_tail head);
  Ret (consumer =? producer).

Definition ds_ck_ring_spsc_is_empty_c (head : Z) : prog bool :=
  consumer ← arena_atomic_load (c_head head) Relaxed;
  producer ← arena_atomic_load (p_tail head) Relaxed;
  Ret (consumer =? producer).

Definition ds_ck_ring_spsc_is_empty (s : side) (head : Z) : prog bool :=
  match s with
  | BPF => ds_ck_ring_spsc_is_empty_lkmm head
  | USER => ds_ck_ring_spsc_is_empty_c head
  end.

Definition ds_ck_ring_spsc_is_full_lkmm (head : Z) : prog bool :=
  consumer ← READ_ONCE (c_head head);
  producer ← READ_ONCE (p_tail head);
  msk ← load Plain (mask head);
  Ret (Z.land (u32 (producer + 1)) msk =? consumer).

Definition ds_ck_ring_spsc_is_full_c (head : Z) : prog bool :=
  consumer ← arena_atomic_load (c_head head) Acquire;
  producer ← arena_atomic_load (p_tail head) Relaxed;
  msk ← load Plain (mask head);
  Ret (Z.land (u32 (producer + 1)) msk =? consumer).

Definition ds_ck_ring_spsc_is_full (s : side) (head : Z) : prog bool :=
  match s with
  | BPF => ds_ck_ring_spsc_is_full_lkmm head
  | USER => ds_ck_ring_spsc_is_full_c head
  end.

Definition ds_ck_ring_spsc_verify_lkmm (head : Z) : prog Z :=
  if head =? 0 then Ret DS_ERROR_INVALID else
  sl ← load Plain (slots head);
  if sl =? 0 then Ret DS_ERROR_CORRUPT else
  cap ← load Plain (capacity head);
  msk ← load Plain (mask head);
  if negb (ds_ck_ring_spsc_is_power_of_two cap) then Ret DS_ERROR_CORRUPT else
  if negb (msk =? u32 (cap - 1)) then Ret DS_ERROR_CORRUPT else
  consumer ← READ_ONCE (c_head head);
  producer ← READ_ONCE (p_tail head);
  if negb (Z.land consumer msk =? consumer) then Ret DS_ERROR_CORRUPT else
  if negb (Z.land producer msk =? producer) then Ret DS_ERROR_CORRUPT else
  let size := Z.land (u32 (producer - consumer)) msk in
  if size >? msk then Ret DS_ERROR_CORRUPT else Ret DS_SUCCESS.

Definition ds_ck_ring_spsc_verify_c (head : Z) : prog Z :=
  if head =? 0 then Ret DS_ERROR_INVALID else
  sl ← load Plain (slots head);
  if sl =? 0 then Ret DS_ERROR_CORRUPT else
  cap ← load Plain (capacity head);
  msk ← load Plain (mask head);
  if negb (ds_ck_ring_spsc_is_power_of_two cap) then Ret DS_ERROR_CORRUPT else
  if negb (msk =? u32 (cap - 1)) then Ret DS_ERROR_CORRUPT else
  consumer ← arena_atomic_load (c_head head) Relaxed;
  producer ← arena_atomic_load (p_tail head) Relaxed;
  if negb (Z.land consumer msk =? consumer) then Ret DS_ERROR_CORRUPT else
  if negb (Z.land producer msk =? producer) then Ret DS_ERROR_CORRUPT else
  let size := Z.land (u32 (producer - consumer)) msk in
  if size >? msk then Ret DS_ERROR_CORRUPT else Ret DS_SUCCESS.

Definition ds_ck_ring_spsc_verify (s : side) (head : Z) : prog Z :=
  match s with
  | BPF => ds_ck_ring_spsc_verify_lkmm head
  | USER => ds_ck_ring_spsc_verify_c head
  end.

(** ** Representation: [D] pops so far; both indices are kept reduced by the mask. *)
Section spec.
Context `{K : Kernel}.
Variables h sl k : Z.

Definition ck_ring_placed : Prop :=
  0 < h /\ 0 < sl /\ 1 <= k <= 31 /\ (h + 24 <= sl \/ sl + 16 * 2 ^ k <= h).

Definition ck_ring_foot (a : Z) : Prop := in_block h 24 a \/ in_block sl (16 * 2 ^ k) a.

Record ck_ring_repr (D : Z) (l : list ds_kv) (m : mem) : Prop := {
  cr_capacity : m !! capacity h = Some (2 ^ k);
  cr_mask : m !! mask h = Some (2 ^ k - 1);
  cr_chead : m !! c_head h = Some (D mod 2 ^ k);
  cr_ptail : m !! p_tail h = Some ((D + Zlen l) mod 2 ^ k);
  cr_slotsp : m !! slots h = Some sl;
  cr_len : Zlen l <= 2 ^ k - 1;
  cr_slots : slots_hold sl 16 0 (2 ^ k) m D l;
  cr_mapped : slots_mapped sl 16 0 (2 ^ k) m
}.

Hypothesis placed : ck_ring_placed.

Notation slot_of := (slot sl 16 (2 ^ k)) (only parsing).

Lemma ck_cap : 2 <= 2 ^ k <= 2 ^ 31.
Proof.
  destruct placed as (_ & _ & Hk & _).
  split; [change 2 with (2 ^ 1) at 1|]; apply Z.pow_le_mono_r; lia.
Qed.

Lemma ck_slot_at p : ck_slot sl (p mod 2 ^ k) = slot_of p.
Proof. done. Qed.

Lemma ck_slot_bounds p : sl <= slot_of p /\ slot_of p + 16 <= sl + 16 * 2 ^ k.
Proof. pose proof ck_cap. apply (slot_bounds sl 16 0); lia. Qed.

Lemma ck_next p : Z.land (u32 (p mod 2 ^ k + 1)) (2 ^ k - 1) = (p + 1) mod 2 ^ k.
Proof.
  pose proof ck_cap. destruct placed as (_ & _ & Hk & _).
  rewrite land_mask by lia. unfold u32. rewrite mod_pow2_wrap by lia.
  apply Zplus_mod_idemp_l.
Qed.

Lemma ck_size D len :
  0 <= len <= 2 ^ k - 1 ->
  Z.land (u32 ((D + len) mod 2 ^ k - D mod 2 ^ k)) (2 ^ k - 1) = len.
Proof.
  intros Hl. pose proof ck_cap. destruct placed as (_ & _ & Hk & _).
  rewrite land_mask by lia. unfold u32. rewrite mod_pow2_wrap, <- Zminus_mod by lia.
  rewrite Z.mod_small; lia.
Qed.

Lemma ck_full D len :
  0 <= len <= 2 ^ k - 1 -> ((D + len + 1) mod 2 ^ k =? D mod 2 ^ k) = (len =? 2 ^ k - 1).
Proof.
  intros Hl. pose proof ck_cap. destruct (Z.eqb_spec len (2 ^ k - 1)) as [->|Hne].
  - apply Z.eqb_eq. replace (D + (2 ^ k - 1) + 1) with (D + 1 * 2 ^ k) by lia.
    apply Z_mod_plus_full.
  - apply Z.eqb_neq. apply mod_window_ne; lia.
Qed.

Lemma ck_empty D len :
  0 <= len <= 2 ^ k - 1 -> (D mod 2 ^ k =? (D + len) mod 2 ^ k) = (len =? 0).
Proof.
  intros Hl. pose proof ck_cap. destruct (Z.eqb_spec len 0) as [->|Hne].
  - rewrite Z.add_0_r. apply Z.eqb_refl.
  - apply Z.eqb_neq. apply mod_window_ne; lia.
Qed.

Definition ck_after_insert (P : Z) (e : ds_kv) (m : mem) : mem :=
  <[p_tail h:=(P + 1) mod 2 ^ k]>
    (<[slot_value (slot_of P):=kv_value e]> (<[slot_key (slot_of P):=kv_key e]> m)).

Lemma ck_repr_insert D l e m :
  ck_ring_repr D l m -> Zlen l < 2 ^ k - 1 ->
  ck_ring_repr D (l ++ [e]) (ck_after_insert (D + Zlen l) e m).
Proof.
  intros [E1 E2 E3 E4 E5 Hlen Hs Hm] Hroom. pose proof placed as (_ & _ & Hk & Hd).
  pose proof ck_cap. pose proof (ck_slot_bounds (D + Zlen l)).
  unfold ck_after_insert, slot_key, slot_value.
  split; rewrite ?Zlen_snoc; try mlookv; [lia|..].
  - apply slots_frame_ins; [lia|lia|off_block|]. apply slots_push; [lia|lia|lia|done].
  - repeat apply slots_mapped_ins. done.
Qed.

Lemma ck_repr_pop D e l m :
  ck_ring_repr D (e :: l) m ->
  ck_ring_repr (D + 1) l (<[c_head h:=(D + 1) mod 2 ^ k]> m).
Proof.
  intros [E1 E2 E3 E4 E5 Hlen Hs Hm]. pose proof placed as (_ & _ & Hk & Hd). pose proof ck_cap.
  rewrite Zlen_cons in *. split; try mlookv; [lia|..].
  - apply slots_frame_ins; [lia|lia|off_block|]. by eapply slots_tail.
  - by apply slots_mapped_ins.
Qed.

Lemma ck_ring_insert_ok s D l m b e :
  ck_ring_repr D l m ->
  wpr (ds_ck_ring_spsc_insert s h (kv_key e) (kv_value e)) m b (fun r m' b' => b' = b /\
    if Zlen l <? 2 ^ k - 1 then
      r = DS_SUCCESS /\ ck_ring_repr D (l ++ [e]) m' /\ updates ck_ring_foot m m'
    else r = DS_ERROR_FULL /\ m' = m).
Proof.
  intros Hr. pose proof Hr as [E1 E2 E3 E4 E5 Hlen Hs Hm].
  pose proof placed as (Hh & Hsl & Hk & Hd). pose proof (Zlen_nonneg l). pose proof ck_cap.
  pose proof (ck_slot_bounds (D + Zlen l)).
  destruct (slot_some sl 16 0 (2 ^ k) m (D + Zlen l) Hm) as [e0 [Hk0 Hv0]].
  destruct s; unfold ds_ck_ring_spsc_insert, ds_ck_ring_spsc_insert_lkmm,
    ds_ck_ring_spsc_insert_c; pif; prun; pif; prun; rewrite ck_next, ck_full by lia;
    (destruct (Z.ltb_spec (Zlen l) (2 ^ k - 1)); [pif_false|pif_true]); prun;
    rewrite ?ck_slot_at; prun; (split; [done|]); [|done| |done].
  all: split; [done|]; split; [by apply ck_repr_insert|].
  all: repeat (apply updates_insert_trans; [unfold ck_ring_foot; addr|]); apply updates_refl.
Qed.

Lemma ck_ring_pop_ok s D l m b d :
  ck_ring_repr D l m ->
  wpr (ds_ck_ring_spsc_pop s h d) m b (fun r m' b' => b' = b /\
    match l with
    | [] => r = (DS_ERROR_NOT_FOUND, d) /\ m' = m
    | e :: l' =>
        r = (DS_SUCCESS, out_pair d e) /\ ck_ring_repr (D + 1) l' m' /\
        updates ck_ring_foot m m'
    end).
Proof.
  intros Hr. pose proof Hr as [E1 E2 E3 E4 E5 Hlen Hs Hm].
  pose proof placed as (Hh & Hsl & Hk & Hd). pose proof (Zlen_nonneg l). pose proof ck_cap.
  destruct s; unfold ds_ck_ring_spsc_pop, ds_ck_ring_spsc_delete, ds_ck_ring_spsc_delete_lkmm,
    ds_ck_ring_spsc_delete_c; pif; prun; pif; prun; rewrite ck_empty by lia;
    (destruct l as [|e l']; [pif_true; prun; done|]).
  all: pose proof (Zlen_nonneg l'); rewrite Zlen_cons in *; pif_false; prun; rewrite ck_slot_at.
  all: destruct (slots_head _ _ _ _ _ _ _ _ Hs) as [Hkk Hkv].
  all: apply (wpr_mono _ _ _ (fun r m' b' => m' = m /\ b' = b /\ r = out_pair d e));
    [by destruct d as [d|], e; prun|intros r m' b' (-> & -> & ->)].
  all: prun; rewrite ck_next; split; [done|]; split; [done|]; split; [by eapply ck_repr_pop|].
  all: apply updates_insert; unfold ck_ring_foot; addr.
Qed.

Lemma ck_ring_size_ok s D l m b :
  ck_ring_repr D l m ->
  wpr (ds_ck_ring_spsc_size s h) m b (fun r m' b' => r = Zlen l /\ m' = m /\ b' = b).
Proof.
  intros [E1 E2 E3 E4 E5 Hlen Hs Hm]. pose proof (Zlen_nonneg l).
  destruct s; unfold ds_ck_ring_spsc_size, ds_ck_ring_spsc_size_lkmm, ds_ck_ring_spsc_size_c;
    prun; rewrite ck_size by lia; done.
Qed.

Lemma ck_ring_is_empty_ok s D l m b :
  ck_ring_repr D l m ->
  wpr (ds_ck_ring_spsc_is_empty s h) m b (fun r m' b' => r = (Zlen l =? 0) /\ m' = m /\ b' = b).
Proof.
  intros [E1 E2 E3 E4 E5 Hlen Hs Hm]. pose proof (Zlen_nonneg l).
  destruct s; unfold ds_ck_ring_spsc_is_empty, ds_ck_ring_spsc_is_empty_lkmm,
    ds_ck_ring_spsc_is_empty_c; prun; rewrite ck_empty by lia; done.
Qed.

Lemma ck_ring_is_full_ok s D l m b :
  ck_ring_repr D l m ->
  wpr (ds_ck_ring_spsc_is_full s h) m b
    (fun r m' b' => r = (Zlen l =? 2 ^ k - 1) /\ m' = m /\ b' = b).
Proof.
  intros [E1 E2 E3 E4 E5 Hlen Hs Hm]. pose proof (Zlen_nonneg l).
  destruct s; unfold ds_ck_ring_spsc_is_full, ds_ck_ring_spsc_is_full_lkmm,
    ds_ck_ring_spsc_is_full_c; prun; rewrite ck_next, ck_full by lia; done.
Qed.

Lemma is_power_of_two_ok : ds_ck_ring_spsc_is_power_of_two (2 ^ k) = true.
Proof.
  pose proof ck_cap. destruct placed as (_ & _ & Hk & _).
  unfold ds_ck_ring_spsc_is_power_of_two. rewrite u32_id by lia.
  rewrite (proj2 (pow2_test (2 ^ k) ltac:(lia))) by (exists k; lia). lia.
Qed.

(** The verifier accepts every well-formed ring. *)
Lemma ck_ring_verify_ok s D l m b :
  ck_ring_repr D l m ->
  wpr (ds_ck_ring_spsc_verify s h) m b (fun r m' b' => r = DS_SUCCESS /\ m' = m /\ b' = b).
Proof.
  intros [E1 E2 E3 E4 E5 Hlen Hs Hm]. pose proof placed as (Hh & Hsl & Hk & Hd).
  pose proof (Zlen_nonneg l). pose proof ck_cap.
  assert (Hl : forall x, Z.land (x mod 2 ^ k) (2 ^ k - 1) = x mod 2 ^ k)
    by (intros x; rewrite land_mask, Z.mod_mod by lia; done).
  destruct s; unfold ds_ck_ring_spsc_verify, ds_ck_ring_spsc_verify_lkmm,
    ds_ck_ring_spsc_verify_c; pif; prun; pif; prun; rewrite is_power_of_two_ok, u32_id by lia;
    pif_false; pif_false; prun; rewrite !Hl, !Z.eqb_refl, ck_size by lia;
    repeat pif_false; prun; done.
Qed.

(** The observers agree with the contents: [size] is their number, [is_empty] and [is_full]
    say whether it is zero and whether it is the capacity [2 ^ k - 1]. *)
Lemma ck_ring_observers s D l m b :
  ck_ring_repr D l m ->
  wpr (ds_ck_ring_spsc_size s h) m b (fun r m' b' => r = Zlen l /\ m' = m /\ b' = b) /\
  wpr (ds_ck_ring_spsc_is_empty s h) m b
    (fun r m' b' => r = (Zlen l =? 0) /\ m' = m /\ b' = b) /\
  wpr (ds_ck_ring_spsc_is_full s h) m b
    (fun r m' b' => r = (Zlen l =? 2 ^ k - 1) /\ m' = m /\ b' = b).
Proof.
  intros Hr. split_and!;
    [by eapply ck_ring_size_ok|by eapply ck_ring_is_empty_ok|by eapply ck_ring_is_full_ok].
Qed.
End spec.

(** ** Initialisation *)

Section init_spec.
Context `{K : Kernel} `{Al : Allocator} `{!AllocLaws Al}.
Variables h k : Z.
Hypothesis h_pos : 0 < h.

Definition ck_ring_own (sl : Z) : list block := [(h, 24); (sl, 16 * 2 ^ k)].

Definition ck_ring_head_mapped (m : mem) : Prop :=
  is_Some (m !! capacity h) /\ is_Some (m !! mask h) /\ is_Some (m !! c_head h) /\
  is_Some (m !! p_tail h) /\ is_Some (m !! slots h).

Definition ck_ring_init_post (rest : list block) (m : mem) (r : Z) (m' : mem) : Prop :=
  (r = DS_ERROR_NOMEM /\ heap_holds [(h, 24)] rest m' /\
     forall a, in_block h 24 a -> m' !! a = m !! a) \/
  (r = DS_SUCCESS /\ exists sl, ck_ring_placed h sl k /\ ck_ring_repr h sl k 0 [] m' /\
     heap_holds (ck_ring_own sl) rest m').

Lemma ck_ring_init_ok s rest m b :
  heap_holds [(h, 24)] rest m -> ck_ring_head_mapped m -> 1 <= k <= 27 ->
  alloc_pre (16 * 2 ^ k) m ->
  wpr (ds_ck_ring_spsc_init s h (2 ^ k)) m b (fun r m' b' => b' = b /\
    (forall c, in_live rest c -> m' !! c = m !! c) /\ ck_ring_init_post rest m r m').
Proof.
  intros Hh (M1 & M2 & M3 & M4 & M5) Hk Hpre.
  assert (Hcap : 2 <= 2 ^ k <= 2 ^ 27)
    by (split; [change 2 with (2 ^ 1) at 1|]; apply Z.pow_le_mono_r; lia).
  assert (Hsz : (16 * 2 ^ k) mod 8 = 0)
    by (replace (16 * 2 ^ k) with (2 * 2 ^ k * 8) by lia; apply Z_mod_mult).
  assert (Hp2 : ds_ck_ring_spsc_is_power_of_two (2 ^ k) = true).
  { unfold ds_ck_ring_spsc_is_power_of_two. rewrite u32_id by lia.
    rewrite (proj2 (pow2_test (2 ^ k) ltac:(lia))) by (exists k; lia). lia. }
  destruct s; unfold ds_ck_ring_spsc_init, ds_ck_ring_spsc_init_lkmm, ds_ck_ring_spsc_init_c;
    rewrite Hp2, !u32_id by lia; pif; pif_false; replace (2 ^ k * 16) with (16 * 2 ^ k) by lia;
    (eapply wpr_call; [apply (alloc_beside h 24 rest (16 * 2 ^ k)); (done || lia)|]);
    intros p m1 b1 (-> & Hrest & Hhd & [[-> Hh1]|(Hp & Hsep & Hmp & Hh1)]).
  1,3: pif_true; prun; split; [done|split; [done|left; by split_and!]].
  all: rewrite <- Hhd in M1, M2, M3, M4, M5 by addr; pif_false; prun; split; [done|].
  all: pose proof (slots_mapped_words p (2 ^ k) m1 ltac:(lia) Hmp) as Hslm.
  all: match goal with |- _ /\ ck_ring_init_post _ _ _ ?m' => set (m2 := m') end.
  all: assert (Hu : updates (in_block h 24) m1 m2)
    by (unfold m2; repeat (apply updates_insert_trans; [addr|]); apply updates_refl).
  all: destruct (heap_holds_updates _ rest m1 m2 _ Hh1 Hu) as [Hh2 Hrest2];
    [intros a Ha; apply in_live_cons; by left|].
  all: split; [intros c Hcr; rewrite Hrest2 by done; by apply Hrest|].
  all: right; split; [done|]; exists p; split; [by repeat split; try lia|]; split; [|done].
  all: pose proof (@Zlen_nil ds_kv); unfold m2; split; try mlookv; [lia|..].
  1,3: by apply slots_nil.
  all: by repeat apply slots_mapped_ins.
Qed.
End init_spec.

(** ** The ring as a container *)

Section container.
Context `{K : Kernel} `{Al : Allocator} `{!AllocLaws Al}.
Variables (s : side) (h k : Z).
Hypothesis h_pos : 0 < h.
Lemma ck_ring_repr_frame sl D l m m' :
  1 <= k ->
  (forall a, in_live (ck_ring_own h k sl) a -> m' !! a = m !! a) ->
  ck_ring_repr h sl k D l m -> ck_ring_repr h sl k D l m'.
Proof.
  intros Hrange Hf [E1 E2 E3 E4 E5 Hlen Hs Hm]. pose proof (Z.pow_pos_nonneg 2 k).
  assert (Hh : forall a, in_block h 24 a -> m' !! a = m !! a)
    by (intros a Ha; by apply Hf, in_own_head).
  assert (Ha : forall a, in_block sl (16 * 2 ^ k) a -> m' !! a = m !! a)
    by (intros a Ha; by apply Hf, in_own_array).
  split; try (rewrite Hh by addr; done); try done.
  - by eapply slots_hold_frame; [lia..|exact Ha|].
  - by eapply slots_mapped_frame; [lia..|exact Ha|].
Qed.

Hypothesis k_range : 1 <= k <= 27.
Hypothesis alloc_ready : forall live sz m, heap_ok live m -> alloc_pre sz m.

Lemma ck_ring_home_frame m m' :
  (forall a, in_block h 24 a -> m' !! a = m !! a) ->
  (ck_ring_head_mapped h m -> ck_ring_head_mapped h m') /\ (m !! slots h = Some 0 -> m' !! slots h = Some 0).
Proof. intros Hf. unfold ck_ring_head_mapped. split; rewrite ?Hf by addr; done. Qed.

Definition ck_ring_container : Container := {|
  c_init := ds_ck_ring_spsc_init s h (2 ^ k);
  c_insert := ds_ck_ring_spsc_insert s h;
  c_pop := ds_ck_ring_spsc_pop s h;
  c_home := (h, 24);
  c_ready := ck_ring_head_mapped h;
  c_blank m := m !! slots h = Some 0;
  c_inv own l m := exists sl, ck_ring_placed h sl k /\ own = ck_ring_own h k sl /\
                     exists D, ck_ring_repr h sl k D l m;
  c_spec := bounded fifo_add (2 ^ k - 1) DS_ERROR_FULL;
  c_init_budget := 0;
  c_budget := 0
|}.

#[export] Instance ck_ring_container_laws : ContainerLaws s ck_ring_container.
Proof.
  split.
  - intros own l m m' Hf (sl & Hp & -> & D & Hr). exists sl. split; [done|]. split; [done|].
    exists D. eapply ck_ring_repr_frame; [lia|done|done].
  - intros m m' Hf. apply ck_ring_home_frame. intros a Ha. by apply Hf, in_own_head.
  - intros rest m b j Hh Hrd Hb.
    eapply wpr_mono; [apply (ck_ring_init_ok h k h_pos s rest); try done; by destruct Hh; eapply alloc_ready|].
    intros r m' b' (-> & Hrest & [(-> & Hh' & Hhd)|(-> & sl & Hp & Hr & Hh')]);
      (split; [exact Hb|split; [done|]]);
      [left; split; [done|]; split; [exact Hh'|]; destruct (ck_ring_home_frame m m' Hhd) as [Hr1 Hr2]; split; [exact (Hr1 Hrd)|exact Hr2]|right]. split; [done|]. exists (ck_ring_own h k sl). split; [done|].
    exists sl. split; [done|]. split; [done|]. by exists 0.
  - intros own rest l m b e Hh (sl & Hp & -> & D & Hr) _.
    eapply wpr_mono; [by apply (ck_ring_insert_ok h sl k Hp s D l)|].
    intros r m' b' (_ & Hpost).
    eapply (array_insert_law _ _ _ _ _ (ck_ring_foot h sl k) _ (ck_ring_repr h sl k D));
      [done|intros; exists sl; eauto|done|done|..]; destruct (Zlen l <? 2 ^ k - 1);
      first [by destruct Hpost as (-> & Hr' & Hu)
            |destruct Hpost as [-> ->]; (done || apply updates_refl)].
  - intros own rest l m b d Hh (sl & Hp & -> & D & Hr) _.
    eapply wpr_mono; [by apply (ck_ring_pop_ok h sl k Hp s D l)|].
    intros r m' b' (_ & Hpost).
    eapply (array_pop_law _ _ _ _ _ (ck_ring_foot h sl k) _
      (fun l m => exists D, ck_ring_repr h sl k D l m)); [done|intros; exists sl; eauto|done|..];
      destruct l;
      first [destruct Hpost as (-> & Hr' & Hu); by eauto
            |destruct Hpost as [-> ->]; first [apply updates_refl|by eauto]].
Qed.
End container.
