(* ===== verification/IoUring.v ===== *)
(** * The io_uring-style SPSC ring ([include/ds_io_uring.h]). *)
From stdpp Require Import base numbers gmap list fin_maps option strings.
From S2P Require Import Prelude Machine Logic Api Owned Container Ring.

(** ** Layout of [struct ds_io_uring_ring_head] *)

Module UringHead.
Definition prod_tail (head : Z) : Z := head + 0.
Definition cons_head (head : Z) : Z := head + 64.
Definition ring_entries (head : Z) : Z := head + 68.
Definition ring_mask (head : Z) : Z := head + 72.
Definition sq_flags (head : Z) : Z := head + 76.
Definition entries (head : Z) : Z := head + 80.
Definition sizeof : Z := 128.
End UringHead.

#[export] Hint Unfold UringHead.prod_tail UringHead.cons_head UringHead.ring_entries
  UringHead.ring_mask UringHead.sq_flags UringHead.entries UringHead.sizeof : layout.

Import UringHead.

Definition DS_IO_URING_SQ_FLAG_FULL : Z := Z.shiftl 1 0.

(** [&head->entries[i]]: an array of [struct ds_kv]. *)
Definition uring_entry (entries i : Z) : Z := entries + 16 * i.
Definition entry_key (slot : Z) : Z := slot + 0.
Definition entry_value (slot : Z) : Z := slot + 8.

#[export] Hint Unfold entry_key entry_value : layout.

Section operations.
Context `{Al : Allocator}.

Definition ds_io_uring_init_lkmm (head ring_entries_ : Z) : prog Z :=
  if (ring_entries_ =? 0) || negb (Z.land ring_entries_ (u32 (ring_entries_ - 1)) =? 0) then
    Ret DS_ERROR_INVALID
  else
  p ← bpf_arena_alloc (u32 (ring_entries_ * 16));
  if p =? 0 then Ret DS_ERROR_NOMEM else
  store Plain (ring_entries head) ring_entries_;;
  store Plain (ring_mask head) (u32 (ring_entries_ - 1));;
  WRITE_ONCE (prod_tail head) 0;;
  WRITE_ONCE (cons_head head) 0;;
  WRITE_ONCE (sq_flags head) 0;;
  store Plain (entries head) p;;
  Ret DS_SUCCESS.

Definition ds_io_uring_init_c (head ring_entries_ : Z) : prog Z :=
  if (ring_entries_ =? 0) || negb (Z.land ring_entries_ (u32 (ring_entries_ - 1)) =? 0) then
    Ret DS_ERROR_INVALID
  else
  p ← bpf_arena_alloc (u32 (ring_entries_ * 16));
  if p =? 0 then Ret DS_ERROR_NOMEM else
  arena_atomic_store (ring_entries head) ring_entries_ Relaxed;;
  arena_atomic_store (ring_mask head) (u32 (ring_entries_ - 1)) Relaxed;;
  arena_atomic_store (prod_tail head) 0 Relaxed;;
  arena_atomic_store (cons_head head) 0 Relaxed;;
  arena_atomic_store (sq_flags head) 0 Relaxed;;
  arena_atomic_store (entries head) p Relaxed;;
  Ret DS_SUCCESS.

Definition ds_io_uring_init (s : side) (head ring_entries_ : Z) : prog Z :=
  match s with
  | BPF => ds_io_uring_init_lkmm head ring_entries_
  | USER => ds_io_uring_init_c head ring_entries_
  end.
End operations.

Definition ds_io_uring_insert_lkmm (head key value : Z) : prog Z :=
  tail ← READ_ONCE (prod_tail head);
  h ← smp_load_acquire (cons_head head);
  n ← load Plain (ring_entries head);
  if u32 (tail - h) >=? n then
    _ ← arena_atomic_or (sq_flags head) DS_IO_URING_SQ_FLAG_FULL Relaxed;
    Ret DS_ERROR_FULL
  else
  ents ← load Plain (entries head);
  msk ← load Plain (ring_mask head);
  let slot := uring_entry ents (Z.land tail msk) in
  store Plain (entry_key slot) key;;
  store Plain (entry_value slot) value;;
  smp_store_release (prod_tail head) (u32 (tail + 1));;
  _ ← arena_atomic_and (sq_flags head) (u32 (Z.lnot DS_IO_URING_SQ_FLAG_FULL)) Relaxed;
  Ret DS_SUCCESS.

Definition ds_io_uring_insert_c (head key value : Z) : prog Z :=
  tail ← arena_atomic_load (prod_tail head) Relaxed;
  h ← arena_atomic_load (cons_head head) Acquire;
  n ← load Plain (ring_entries head);
  if u32 (tail - h) >=? n then
    _ ← arena_atomic_or (sq_flags head) DS_IO_URING_SQ_FLAG_FULL Relaxed;
    Ret DS_ERROR_FULL
  else
  ents ← load Plain (entries head);
  msk ← load Plain (ring_mask head);
  let slot := uring_entry ents (Z.land tail msk) in
  arena_atomic_store (entry_key slot) key Relaxed;;
  arena_atomic_store (entry_value slot) value Relaxed;;
  arena_atomic_store (prod_tail head) (u32 (tail + 1)) Release;;
  _ ← arena_atomic_and (sq_flags head) (u32 (Z.lnot DS_IO_URING_SQ_FLAG_FULL)) Relaxed;
  Ret DS_SUCCESS.

Definition ds_io_uring_insert (s : side) (head key value : Z) : prog Z :=
  match s with
  | BPF => ds_io_uring_insert_lkmm head key value
  | USER => ds_io_uring_insert_c head key value
  end.

(** [out] is the caller's output pair, [None] for the null pointer. *)
Definition ds_io_uring_pop_lkmm (head : Z) (out : option ds_kv) : prog (Z * option ds_kv) :=
  h ← READ_ONCE (cons_head head);
  t ← smp_load_acquire (prod_tail head);
  if h =? t then Ret (DS_ERROR_NOT_FOUND, out) else
  ents ← load Plain (entries head);
  msk ← load Plain (ring_mask head);
  let slot := uring_entry ents (Z.land h msk) in
  out ← match out with
        | None => Ret None
        | Some _ =>
            k ← READ_ONCE (entry_key slot);
            v ← READ_ONCE (entry_value slot);
            Ret (Some (mk_kv k v))
        end;
  smp_store_release (cons_head head) (u32 (h + 1));;
  Ret (DS_SUCCESS, out).

Definition ds_io_uring_pop_c (head : Z) (out : option ds_kv) : prog (Z * option ds_kv) :=
  h ← arena_atomic_load (cons_head head) Relaxed;
  t ← arena_atomic_load (prod_tail head) Acquire;
  if h =? t then Ret (DS_ERROR_NOT_FOUND, out) else
  ents ← load Plain (entries head);
  msk ← load Plain (ring_mask head);
  let slot := uring_entry ents (Z.land h msk) in
  out ← match out with
        | None => Ret None
        | Some _ =>
            k ← arena_atomic_load (entry_key slot) Relaxed;
            v ← arena_atomic_load (entry_value slot) Relaxed;
            Ret (Some (mk_kv k v))
        end;
  arena_atomic_store (cons_head head) (u32 (h + 1)) Release;;
  Ret (DS_SUCCESS, out).

Definition ds_io_uring_pop (s : side) (head : Z) (out : option ds_kv) : prog (Z * option ds_kv) :=
  match s with
  | BPF => ds_io_uring_pop_lkmm head out
  | USER => ds_io_uring_pop_c head out
  end.

Definition ds_io_uring_search_lkmm (head key : Z) : prog Z := Ret DS_ERROR_INVALID.

Definition ds_io_uring_search_c (head key : Z) : prog Z := Ret DS_ERROR_INVALID.

Definition ds_io_uring_search (s : side) (head key : Z) : prog Z :=
  match s with
  | BPF => ds_io_uring_search_lkmm head key
  | USER => ds_io_uring_search_c head key
  end.

Definition ds_io_uring_verify_lkmm (head : Z) : prog Z :=
  n ← load Plain (ring_entries head);
  if (n =? 0) || negb (Z.land n (u32 (n - 1)) =? 0) then Ret DS_ERROR_CORRUPT else
  msk ← load Plain (ring_mask head);
  if negb (msk =? u32 (n - 1)) then Ret DS_ERROR_CORRUPT else
  tail ← READ_ONCE (prod_tail head);
  h ← READ_ONCE (cons_head head);
  if u32 (tail - h) >? n then Ret DS_ERROR_CORRUPT else Ret DS_SUCCESS.

Definition ds_io_uring_verify_c (head : Z) : prog Z :=
  n ← arena_atomic_load (ring_entries head) Relaxed;
  if (n =? 0) || negb (Z.land n (u32 (n - 1)) =? 0) then Ret DS_ERROR_CORRUPT else
  msk ← arena_atomic_load (ring_mask head) Relaxed;
  if negb (msk =? u32 (n - 1)) then Ret DS_ERROR_CORRUPT else
  tail ← arena_atomic_load (prod_tail head) Relaxed;
  h ← arena_atomic_load (cons_head head) Relaxed;
  if u32 (tail - h) >? n then Ret DS_ERROR_CORRUPT else Ret DS_SUCCESS.

Definition ds_io_uring_verify (s : side) (head : Z) : prog Z :=
  match s with
  | BPF => ds_io_uring_verify_lkmm head
  | USER => ds_io_uring_verify_c head
  end.

(** ** Representation: free-running 32-bit indices; [D] pops so far. All the slots are used. *)
Section spec.
Context `{K : Kernel}.
Variables h ents k : Z.

Definition uring_placed : Prop :=
  0 < ents /\ 0 <= k <= 31 /\ (h + 128 <= ents \/ ents + 16 * 2 ^ k <= h).

Definition uring_foot (a : Z) : Prop := in_block h 128 a \/ in_block ents (16 * 2 ^ k) a.

Record uring_repr (D : Z) (l : list ds_kv) (flags : Z) (m : mem) : Prop := {
  ur_tail : m !! prod_tail h = Some (u32 (D + Zlen l));
  ur_head : m !! cons_head h = Some (u32 D);
  ur_entries : m !! ring_entries h = Some (2 ^ k);
  ur_mask : m !! ring_mask h = Some (2 ^ k - 1);
  ur_flags : m !! sq_flags h = Some flags;
  ur_ents : m !! entries h = Some ents;
  ur_len : Zlen l <= 2 ^ k;
  ur_slots : slots_hold ents 16 0 (2 ^ k) m D l;
  ur_mapped : slots_mapped ents 16 0 (2 ^ k) m
}.

Hypothesis placed : uring_placed.

Notation ent_of := (slot ents 16 (2 ^ k)) (only parsing).

Lemma uring_cap : 1 <= 2 ^ k <= 2 ^ 31.
Proof.
  destruct placed as (_ & Hk & _).
  split; [change 1 with (2 ^ 0)|]; apply Z.pow_le_mono_r; lia.
Qed.

Lemma uring_slot p : uring_entry ents (Z.land (u32 p) (2 ^ k - 1)) = ent_of p.
Proof.
  destruct placed as (_ & Hk & _). unfold uring_entry, slot, u32.
  rewrite land_mask by lia. by rewrite mod_pow2_wrap by lia.
Qed.

Lemma uring_slot_bounds p : ents <= ent_of p /\ ent_of p + 16 <= ents + 16 * 2 ^ k.
Proof. pose proof uring_cap. apply (slot_bounds ents 16 0); lia. Qed.

(** The 32-bit difference of the indices is the occupancy, across wrap-around. *)
Lemma uring_distance D len : 0 <= len <= 2 ^ 31 -> u32 (u32 (D + len) - u32 D) = len.
Proof. intros Hl. rewrite u32_sub. replace (D + len - D) with len by lia. apply u32_id. lia. Qed.

Lemma uring_empty D len : 0 <= len <= 2 ^ 31 -> (u32 D =? u32 (D + len)) = (len =? 0).
Proof.
  intros Hl. destruct (Z.eqb_spec len 0) as [->|Hne].
  - rewrite Z.add_0_r. apply Z.eqb_refl.
  - apply Z.eqb_neq. unfold u32. apply mod_window_ne; lia.
Qed.

Definition uring_after_insert (P : Z) (e : ds_kv) (flags : Z) (m : mem) : mem :=
  <[sq_flags h:=flags]> (<[prod_tail h:=u32 (P + 1)]>
    (<[entry_value (ent_of P):=kv_value e]> (<[entry_key (ent_of P):=kv_key e]> m))).

Lemma uring_repr_insert D l f f' e m :
  uring_repr D l f m -> Zlen l < 2 ^ k ->
  uring_repr D (l ++ [e]) f' (uring_after_insert (D + Zlen l) e f' m).
Proof.
  intros [E1 E2 E3 E4 E5 E6 Hlen Hs Hm] Hroom. pose proof placed as (_ & Hk & Hd).
  pose proof uring_cap. pose proof (uring_slot_bounds (D + Zlen l)).
  unfold uring_after_insert, entry_key, entry_value.
  split; rewrite ?Zlen_snoc; try mlookv; [lia|..].
  - repeat (apply slots_frame_ins; [lia|lia|off_block|]). apply slots_push; [lia|lia|lia|done].
  - repeat apply slots_mapped_ins. done.
Qed.

Lemma uring_repr_pop D e l f m :
  uring_repr D (e :: l) f m -> uring_repr (D + 1) l f (<[cons_head h:=u32 (D + 1)]> m).
Proof.
  intros [E1 E2 E3 E4 E5 E6 Hlen Hs Hm]. pose proof placed as (_ & Hk & Hd). pose proof uring_cap.
  rewrite Zlen_cons in *. split; try mlookv; [lia|..].
  - apply slots_frame_ins; [lia|lia|off_block|]. by eapply slots_tail.
  - by apply slots_mapped_ins.
Qed.

Lemma uring_repr_flags D l f f' m :
  uring_repr D l f m -> uring_repr D l f' (<[sq_flags h:=f']> m).
Proof.
  intros [E1 E2 E3 E4 E5 E6 Hlen Hs Hm]. pose proof placed as (_ & Hk & Hd). pose proof uring_cap.
  split; try mlookv; [done| |by apply slots_mapped_ins].
  apply slots_frame_ins; [lia|lia|off_block|done].
Qed.

(** An insertion clears the flag; a rejected one raises it. *)
Lemma uring_insert_ok s D l f m b e :
  uring_repr D l f m ->
  wpr (ds_io_uring_insert s h (kv_key e) (kv_value e)) m b (fun r m' b' => b' = b /\
    updates uring_foot m m' /\
    if Zlen l <? 2 ^ k then
      r = DS_SUCCESS /\ uring_repr D (l ++ [e]) (Z.land f (2 ^ 32 - 2)) m'
    else r = DS_ERROR_FULL /\ uring_repr D l (Z.lor f 1) m').
Proof.
  intros Hr. pose proof Hr as [E1 E2 E3 E4 E5 E6 Hlen Hs Hm].
  pose proof placed as (Hents & Hk & Hd). pose proof (Zlen_nonneg l). pose proof uring_cap.
  pose proof (uring_slot_bounds (D + Zlen l)).
  destruct (slot_some ents 16 0 (2 ^ k) m (D + Zlen l) Hm) as [e0 [Hk0 Hv0]].
  destruct s; unfold ds_io_uring_insert, ds_io_uring_insert_lkmm, ds_io_uring_insert_c; prun;
    rewrite uring_distance by lia;
    (destruct (Z.ltb_spec (Zlen l) (2 ^ k)); [pif_false|pif_true]); prun;
    rewrite ?uring_slot, ?u32_add_l; prun; (split; [done|]); cbn [rmw_eval].
  1,3: split; [|split; [done|by eapply uring_repr_insert]].
  3,4: split; [|split; [done|by eapply uring_repr_flags]].
  all: repeat (apply updates_insert_trans; [unfold uring_foot; addr|]); apply updates_refl.
Qed.

Lemma uring_pop_ok s D l f m b d :
  uring_repr D l f m ->
  wpr (ds_io_uring_pop s h d) m b (fun r m' b' => b' = b /\
    match l with
    | [] => r = (DS_ERROR_NOT_FOUND, d) /\ m' = m
    | e :: l' =>
        r = (DS_SUCCESS, out_pair d e) /\ uring_repr (D + 1) l' f m' /\
        updates uring_foot m m'
    end).
Proof.
  intros Hr. pose proof Hr as [E1 E2 E3 E4 E5 E6 Hlen Hs Hm].
  pose proof placed as (Hents & Hk & Hd). pose proof (Zlen_nonneg l). pose proof uring_cap.
  destruct s; unfold ds_io_uring_pop, ds_io_uring_pop_lkmm, ds_io_uring_pop_c; prun;
    rewrite uring_empty by lia; (destruct l as [|e l']; [pif_true; prun; done|]).
  all: pose proof (Zlen_nonneg l'); rewrite Zlen_cons in *; pif_false; prun; rewrite uring_slot.
  all: destruct (slots_head _ _ _ _ _ _ _ _ Hs) as [Hkk Hkv].
  all: apply (wpr_mono _ _ _ (fun r m' b' => m' = m /\ b' = b /\ r = out_pair d e));
    [by destruct d as [d|], e; prun|intros r m' b' (-> & -> & ->)].
  all: prun; rewrite u32_add_l; split; [done|]; split; [done|]; split; [by eapply uring_repr_pop|].
  all: apply updates_insert; unfold uring_foot; addr.
Qed.

(** The verifier accepts every well-formed ring, also across the wrap of its positions. *)
Lemma uring_verify_ok s D l f m b :
  uring_repr D l f m ->
  wpr (ds_io_uring_verify s h) m b (fun r m' b' => r = DS_SUCCESS /\ m' = m /\ b' = b).
Proof.
  intros [E1 E2 E3 E4 E5 E6 Hlen Hs Hm]. pose proof placed as (Hents & Hk & Hd).
  pose proof (Zlen_nonneg l). pose proof uring_cap.
  assert (Hp2 : Z.land (2 ^ k) (2 ^ k - 1) = 0) by (apply pow2_test; [lia|exists k; lia]).
  destruct s; unfold ds_io_uring_verify, ds_io_uring_verify_lkmm, ds_io_uring_verify_c; prun;
    rewrite u32_id, Hp2 by lia; pif_false; prun; pif_false; prun;
    rewrite uring_distance by lia; pif_false; prun; done.
Qed.

(** The overflow flag tells the outcome of the last insertion: it is raised by an insertion
    that found the ring full and cleared by one that succeeded; the other flags are kept. *)
Lemma uring_full_flag s D l f m b e :
  uring_repr D l f m ->
  wpr (ds_io_uring_insert s h (kv_key e) (kv_value e)) m b (fun r m' b' => b' = b /\
    exists f', m' !! sq_flags h = Some f' /\
      Z.testbit f' 0 = negb (r =? DS_SUCCESS) /\ (r = DS_SUCCESS <-> Zlen l < 2 ^ k) /\
      forall i, 0 < i < 32 -> Z.testbit f' i = Z.testbit f i).
Proof.
  intros Hr. eapply wpr_mono; [by apply (uring_insert_ok s D l f)|].
  intros r m' b' (-> & _ & Hpost). split; [done|].
  destruct (Z.ltb_spec (Zlen l) (2 ^ k)) as [Hlt|Hge]; destruct Hpost as [-> [_ _ _ _ Ef _ _ _ _]].
  - exists (Z.land f (2 ^ 32 - 2)). split; [done|]. split; [by rewrite Z.land_spec, andb_false_r|].
    split; [done|]. intros i Hi. rewrite Z.land_spec.
    replace (2 ^ 32 - 2) with (Z.shiftl (Z.ones 31) 1) by done.
    rewrite Z.shiftl_spec, Z.testbit_ones_nonneg by lia.
    replace (i - 1 <? 31) with true by lia. apply andb_true_r.
  - exists (Z.lor f 1). split; [done|]. split; [by rewrite Z.lor_spec, orb_true_r|].
    split; [split; [done|lia]|]. intros i Hi. rewrite Z.lor_spec.
    change 1 with (Z.ones 1). rewrite Z.testbit_ones_nonneg by lia.
    replace (i <? 1) with false by lia. apply orb_false_r.
Qed.
End spec.

(** ** Initialisation *)

Section init_spec.
Context `{K : Kernel} `{Al : Allocator} `{!AllocLaws Al}.
Variables h k : Z.

Definition uring_own (ents : Z) : list block := [(h, 128); (ents, 16 * 2 ^ k)].

Definition uring_head_mapped (m : mem) : Prop :=
  is_Some (m !! prod_tail h) /\ is_Some (m !! cons_head h) /\ is_Some (m !! ring_entries h) /\
  is_Some (m !! ring_mask h) /\ is_Some (m !! sq_flags h) /\ is_Some (m !! entries h).

Definition uring_init_post (rest : list block) (m : mem) (r : Z) (m' : mem) : Prop :=
  (r = DS_ERROR_NOMEM /\ heap_holds [(h, 128)] rest m' /\
     forall a, in_block h 128 a -> m' !! a = m !! a) \/
  (r = DS_SUCCESS /\ exists ents, uring_placed h ents k /\ uring_repr h ents k 0 [] 0 m' /\
     heap_holds (uring_own ents) rest m').

Lemma uring_init_ok s rest m b :
  heap_holds [(h, 128)] rest m -> uring_head_mapped m -> 0 <= k <= 27 ->
  alloc_pre (16 * 2 ^ k) m ->
  wpr (ds_io_uring_init s h (2 ^ k)) m b (fun r m' b' => b' = b /\
    (forall c, in_live rest c -> m' !! c = m !! c) /\ uring_init_post rest m r m').
Proof.
  intros Hh (M1 & M2 & M3 & M4 & M5 & M6) Hk Hpre.
  assert (Hcap : 1 <= 2 ^ k <= 2 ^ 27)
    by (split; [change 1 with (2 ^ 0) at 1|]; apply Z.pow_le_mono_r; lia).
  assert (Hsz : (16 * 2 ^ k) mod 8 = 0)
    by (replace (16 * 2 ^ k) with (2 * 2 ^ k * 8) by lia; apply Z_mod_mult).
  assert (Hp2 : Z.land (2 ^ k) (2 ^ k - 1) = 0) by (apply pow2_test; [lia|exists k; lia]).
  destruct s; unfold ds_io_uring_init, ds_io_uring_init_lkmm, ds_io_uring_init_c;
    rewrite !u32_id, Hp2 by lia; pif_false; replace (2 ^ k * 16) with (16 * 2 ^ k) by lia;
    (eapply wpr_call; [apply (alloc_beside h 128 rest (16 * 2 ^ k)); (done || lia)|]);
    intros p m1 b1 (-> & Hrest & Hhd & [[-> Hh1]|(Hp & Hsep & Hmp & Hh1)]).
  1,3: pif_true; prun; split; [done|split; [done|left; by split_and!]].
  all: rewrite <- Hhd in M1, M2, M3, M4, M5, M6 by addr; pif_false; prun; split; [done|].
  all: pose proof (slots_mapped_words p (2 ^ k) m1 ltac:(lia) Hmp) as Hslm.
  all: match goal with |- _ /\ uring_init_post _ _ _ ?m' => set (m2 := m') end.
  all: assert (Hu : updates (in_block h 128) m1 m2)
    by (unfold m2; repeat (apply updates_insert_trans; [addr|]); apply updates_refl).
  all: destruct (heap_holds_updates _ rest m1 m2 _ Hh1 Hu) as [Hh2 Hrest2];
    [intros a Ha; apply in_live_cons; by left|].
  all: split; [intros c Hcr; rewrite Hrest2 by done; by apply Hrest|].
  all: right; split; [done|]; exists p; split; [by repeat split; try lia|]; split; [|done].
  all: pose proof (@Zlen_nil ds_kv); unfold m2; split; try mlookv; [lia|..].
  1,3: by apply slots_nil.
  all: by repeat apply slots_mapped_ins.
Qed.
End init_spec.

(** ** The ring as a container *)

Section container.
Context `{K : Kernel} `{Al : Allocator} `{!AllocLaws Al}.
Variables (s : side) (h k : Z).
Lemma uring_repr_frame ents D l f m m' :
  0 <= k ->
  (forall a, in_live (uring_own h k ents) a -> m' !! a = m !! a) ->
  uring_repr h ents k D l f m -> uring_repr h ents k D l f m'.
Proof.
  intros Hrange Hf [E1 E2 E3 E4 E5 E6 Hlen Hs Hm]. pose proof (Z.pow_pos_nonneg 2 k).
  assert (Hh : forall a, in_block h 128 a -> m' !! a = m !! a)
    by (intros a Ha; by apply Hf, in_own_head).
  assert (Ha : forall a, in_block ents (16 * 2 ^ k) a -> m' !! a = m !! a)
    by (intros a Ha; by apply Hf, in_own_array).
  split; try (rewrite Hh by addr; done); try done.
  - by eapply slots_hold_frame; [lia..|exact Ha|].
  - by eapply slots_mapped_frame; [lia..|exact Ha|].
Qed.

Hypothesis k_range : 0 <= k <= 27.
Hypothesis alloc_ready : forall live sz m, heap_ok live m -> alloc_pre sz m.

Lemma uring_home_frame m m' :
  (forall a, in_block h 128 a -> m' !! a = m !! a) ->
  (uring_head_mapped h m -> uring_head_mapped h m') /\ (m !! entries h = Some 0 -> m' !! entries h = Some 0).
Proof. intros Hf. unfold uring_head_mapped. split; rewrite ?Hf by addr; done. Qed.

Definition uring_container : Container := {|
  c_init := ds_io_uring_init s h (2 ^ k);
  c_insert := ds_io_uring_insert s h;
  c_pop := ds_io_uring_pop s h;
  c_home := (h, 128);
  c_ready := uring_head_mapped h;
  c_blank m := m !! entries h = Some 0;
  c_inv own l m := exists ents, uring_placed h ents k /\ own = uring_own h k ents /\
                     exists D f, uring_repr h ents k D l f m;
  c_spec := bounded fifo_add (2 ^ k) DS_ERROR_FULL;
  c_init_budget := 0;
  c_budget := 0
|}.

#[export] Instance uring_container_laws : ContainerLaws s uring_container.
Proof.
  split.
  - intros own l m m' Hf (ents & Hp & -> & D & f & Hr). exists ents. split; [done|].
    split; [done|]. exists D, f. eapply uring_repr_frame; [lia|done|done].
  - intros m m' Hf. apply uring_home_frame. intros a Ha. by apply Hf, in_own_head.
  - intros rest m b j Hh Hrd Hb.
    eapply wpr_mono; [apply (uring_init_ok h k s rest); try done; by destruct Hh; eapply alloc_ready|].
    intros r m' b' (-> & Hrest & [(-> & Hh' & Hhd)|(-> & ents & Hp & Hr & Hh')]);
      (split; [exact Hb|split; [done|]]);
      [left; split; [done|]; split; [exact Hh'|]; destruct (uring_home_frame m m' Hhd) as [Hr1 Hr2]; split; [exact (Hr1 Hrd)|exact Hr2]|right]. split; [done|]. exists (uring_own h k ents). split; [done|].
    exists ents. split; [done|]. split; [done|]. by exists 0, 0.
  - intros own rest l m b e Hh (ents & Hp & -> & D & f & Hr) _.
    eapply wpr_mono; [by apply (uring_insert_ok h ents k Hp s D l f)|].
    intros r m' b' (_ & Hu & Hpost).
    eapply (array_insert_law _ _ _ _ _ (uring_foot h ents k) _
      (fun l m => exists f, uring_repr h ents k D l f m));
      [done|intros ?? (? & ?); exists ents; eauto|done|done|done|].
    destruct (Zlen l <? 2 ^ k); destruct Hpost as [-> Hr']; eauto.
  - intros own rest l m b d Hh (ents & Hp & -> & D & f & Hr) _.
    eapply wpr_mono; [by apply (uring_pop_ok h ents k Hp s D l f)|].
    intros r m' b' (_ & Hpost).
    eapply (array_pop_law _ _ _ _ _ (uring_foot h ents k) _
      (fun l m => exists D f, uring_repr h ents k D l f m)); [done|intros; exists ents; eauto|done|..];
      destruct l;
      first [destruct Hpost as (-> & Hr' & Hu); by eauto
            |destruct Hpost as [-> ->]; first [apply updates_refl|by eauto]].
Qed.
End container.
