(* ===== verification/SpscRings.v ===== *)
(** * The three single-producer single-consumer rings under concurrency.

    Each ring is an instance of [SpscRing]; its insert and pop, in either build, are checked
    access by access against the interference of the other side. The theorems hold for every
    pairing of builds: a kernel producer with a userspace consumer, or the reverse. *)
From stdpp Require Import base numbers gmap list fin_maps option relations.
From S2P Require Import Prelude Machine Logic Api Owned Conc Container Duet Spsc Ring FollySpsc CkRing IoUring.

(** Cells of the header or of the array. *)
Ltac in_array := first [apply in_own_head; addr | apply in_own_array; addr].

(** ** Folly's ring *)

Section folly.
Context `{K : Kernel} `{Al : Allocator}.
Variables h recs n : Z.
Hypothesis placed : spsc_placed h recs n.
(** Cells of the two threads, outside the ring. *)
Variables pcells ccells : Z -> Prop.
Hypothesis cells_apart : forall a, pcells a -> ~ ccells a.
Hypothesis cells_outside : forall a, pcells a \/ ccells a -> ~ in_live (spsc_own h n recs) a.
Import SpscHead.

#[local] Instance folly_ring : SpscRing := {|
  sp_repr := spsc_repr h recs n;
  sp_cap := n - 1;
  sp_enc p := p mod n;
  sp_prod := write_idx h;
  sp_cons := read_idx h;
  sp_key p := record_key (slot recs 16 n p);
  sp_value p := record_value (slot recs 16 n p);
  sp_pcells := pcells;
  sp_ccells := ccells
|}.

#[local] Instance folly_ring_laws : SpscRingLaws folly_ring.
Proof.
  pose proof placed as (Hrec & Hn & Hd). split; cbn.
  - intros D l m []. lia.
  - by intros D l m [].
  - by intros D l m [].
  - intros D l m p [E1 E2 E3 E4 Hlen Hs Hm]. apply Hm.
  - intros D e l m [E1 E2 E3 E4 Hlen Hs Hm]. by apply slots_head in Hs.
  - intros D l m a v [E1 E2 E3 E4 Hlen Hs Hm] Hroom Ha.
    pose proof (record_bounds h recs n placed (D + Zlen l)).
    assert (Hin : in_block (slot recs 16 n (D + Zlen l)) 16 a).
    { unfold record_key, record_value in Ha. unfold in_block. lia. }
    split; try mlookv; [done| |by apply slots_mapped_ins].
    apply slots_scribble; [lia|lia|lia|done|done].
  - intros D l m e [E1 E2 E3 E4 Hlen Hs Hm] Hroom Hk Hv.
    pose proof (record_bounds h recs n placed (D + Zlen l)).
    split; rewrite ?Zlen_snoc; try mlookv; [lia| |by apply slots_mapped_ins].
    apply slots_frame_ins; [lia|lia|off_block|]. apply slots_snoc; [done|]. by split.
  - intros D e l m. by apply spsc_repr_pop.
  - intros p. pose proof (record_bounds h recs n placed p). unfold record_key, record_value. addr.
  - intros a Ha%cells_outside. split_and!; [| |intros p; pose proof (record_bounds h recs n placed p);
      split]; intros ->; apply Ha; in_array.
  - done.
  - intros D l m a v Ha. apply spsc_repr_frame; [lia|]. intros c Hc. apply lookup_insert_ne. intros ->.
    by apply (cells_outside c).
Qed.

Notation at_producer := (producing (R := folly_ring)).
Notation at_consumer := (consuming (R := folly_ring)).

Section threads.
Variable l0 : list ds_kv.

Lemma folly_write_idx P I s : at_producer l0 P I s -> s.1 !! write_idx h = Some (P mod n).
Proof. apply (producing_index (R := folly_ring)). Qed.

Lemma folly_size P I s : at_producer l0 P I s -> s.1 !! size h = Some n.
Proof. by intros ([[] _] & _). Qed.

Lemma folly_records_full P I c s : filling (R := folly_ring) l0 P I c s -> s.1 !! records h = Some recs.
Proof. by intros (([[] _] & _) & _). Qed.

Lemma folly_insert_spec s : insert_spec (R := folly_ring) l0 (spsc_container s h n).
Proof.
  intros P I e. cbn [c_insert spsc_container]. pose proof placed as (_ & Hn & _).
  destruct s; unfold ds_spsc_insert, ds_spsc_insert_lkmm, ds_spsc_insert_c.
  all: tread folly_write_idx; tread folly_size; rewrite (next_index h recs) by done; taccess.
  all: apply (producer_checks (R := folly_ring) l0 _ _ _ _ e); cbn [sp_cap sp_enc folly_ring].
  1,3: replace (P + 1) with (P - (n - 1) + 1 * n) by lia; rewrite Z_mod_plus_full, Z.eqb_refl;
    apply triple_ret; [apply _..|by eauto].
  all: intros D HD; destruct (Z.eqb_spec ((P + 1) mod n) (D mod n)) as [E|_];
    [exfalso; revert E; apply mod_window_ne; lia|].
  all: tread folly_records_full; rewrite record_slot; taccess.
  all: apply (producer_writes (R := folly_ring)); [by left|by constructor|]; taccess.
  all: apply (producer_writes (R := folly_ring)); [by right|constructor; [|by constructor]|]; taccess.
  1,3: cbn; unfold record_key, record_value; lia.
  all: apply (producer_publishes (R := folly_ring)), triple_ret; [apply _..|by eauto].
Qed.
Lemma folly_read_idx D O s : at_consumer l0 D O s -> s.1 !! read_idx h = Some (D mod n).
Proof. apply (consuming_index (R := folly_ring)). Qed.

Lemma folly_held D O e s :
  holding (R := folly_ring) l0 D O e s -> s.1 !! records h = Some recs /\ s.1 !! size h = Some n.
Proof. by intros (([[] _] & _) & _). Qed.

Lemma folly_pop_spec s : pop_spec (R := folly_ring) l0 (spsc_container s h n).
Proof.
  intros D O d. cbn [c_pop spsc_container]. pose proof placed as (_ & Hn & _).
  destruct s; unfold ds_spsc_pop, ds_spsc_pop_lkmm, ds_spsc_pop_c, ds_spsc_delete_lkmm,
    ds_spsc_delete_c.
  all: tread folly_read_idx; taccess.
  all: apply (consumer_checks (R := folly_ring) l0 _ _ _ _ d); cbn [sp_cap sp_enc folly_ring]; taccess.
  1,3: rewrite Z.eqb_refl; apply triple_ret; [apply _..|by eauto].
  all: intros P e HP; taccess; destruct (Z.eqb_spec (D mod n) (P mod n)) as [E|_];
    [exfalso; revert E; apply mod_window_ne; lia|].
  all: tread folly_held; rewrite record_slot; taccess.
  all: apply (consumer_copies (R := folly_ring)); taccess.
  all: tread folly_held; rewrite (next_index h recs) by done; taccess.
  all: apply (consumer_retires (R := folly_ring) l0 _ _ _ _ d), triple_ret; [apply _..|by eauto].
Qed.
End threads.

Lemma folly_duet_laws sp sc l0 lim :
  DuetLaws (ring_duet (R := folly_ring) l0) (ring_holds (spsc_repr h recs n)) (ring_holds (spsc_repr h recs n))
    (bounded fifo_add (n - 1) DS_ERROR_FULL) l0 lim (spsc_container sp h n) (spsc_container sc h n).
Proof.
  apply (ring_duet_laws (R := folly_ring)); [apply folly_insert_spec|apply folly_pop_spec].
Qed.
End folly.

Definition no_cells (a : Z) : Prop := False.

(** C11. A producer and a consumer that share Folly's ring, each in either build, in every
    interleaving of their accesses: every schedule ends, no access faults, and at every moment
    the ring holds the contents reached by one legal sequential history whose insertions and
    pops are, in order, what the two threads saw. *)
Theorem folly_spsc_linearizable `{K : Kernel} `{Al : Allocator} h recs n sp sc D l es ds m :
  spsc_placed h recs n -> spsc_repr h recs n D l m ->
  spsc_linearizable (ring_holds (spsc_repr h recs n)) (ring_holds (spsc_repr h recs n))
    (bounded fifo_add (n - 1) DS_ERROR_FULL) l es ds
    (perform (spsc_container sp h n) (map OInsert es))
    (perform (spsc_container sc h n) (map OPop ds)) m.
Proof.
  intros Hp Hr. pose (R := folly_ring h recs n no_cells no_cells).
  assert (HL : SpscRingLaws R) by (apply folly_ring_laws; [done|by intros a []|by intros a [[]|[]]]).
  apply (ring_linearizable (R := R) l _ _ es ds m D); [| |done].
  - apply folly_insert_spec; [done|by intros a []|by intros a [[]|[]]].
  - apply folly_pop_spec; [done|by intros a []|by intros a [[]|[]]].
Qed.


(** ** ConcurrencyKit's ring *)

Section ck.
Context `{K : Kernel} `{Al : Allocator}.
Variables h sl k : Z.
Hypothesis placed : ck_ring_placed h sl k.
(** Cells of the two threads, outside the ring. *)
Variables pcells ccells : Z -> Prop.
Hypothesis cells_apart : forall a, pcells a -> ~ ccells a.
Hypothesis cells_outside : forall a, pcells a \/ ccells a -> ~ in_live (ck_ring_own h k sl) a.
Import CkRingHead.

#[local] Instance ck_ring : SpscRing := {|
  sp_repr := ck_ring_repr h sl k;
  sp_cap := 2 ^ k - 1;
  sp_enc p := p mod 2 ^ k;
  sp_prod := p_tail h;
  sp_cons := c_head h;
  sp_key p := slot_key (slot sl 16 (2 ^ k) p);
  sp_value p := slot_value (slot sl 16 (2 ^ k) p);
  sp_pcells := pcells;
  sp_ccells := ccells
|}.

#[local] Instance ck_ring_laws : SpscRingLaws ck_ring.
Proof.
  pose proof placed as (Hh & Hsl & Hk & Hd). pose proof (ck_cap h sl k placed) as Hcap. split; cbn.
  - intros D l m []. lia.
  - by intros D l m [].
  - by intros D l m [].
  - intros D l m p [E1 E2 E3 E4 E5 Hlen Hs Hm]. apply Hm.
  - intros D e l m [E1 E2 E3 E4 E5 Hlen Hs Hm]. by apply slots_head in Hs.
  - intros D l m a v [E1 E2 E3 E4 E5 Hlen Hs Hm] Hroom Ha.
    pose proof (ck_slot_bounds h sl k placed (D + Zlen l)).
    assert (Hin : in_block (slot sl 16 (2 ^ k) (D + Zlen l)) 16 a).
    { unfold slot_key, slot_value in Ha. unfold in_block. lia. }
    split; try mlookv; [done| |by apply slots_mapped_ins].
    apply slots_scribble; [lia|lia|lia|done|done].
  - intros D l m e [E1 E2 E3 E4 E5 Hlen Hs Hm] Hroom Hkey Hv.
    pose proof (ck_slot_bounds h sl k placed (D + Zlen l)).
    split; rewrite ?Zlen_snoc; try mlookv; [lia| |by apply slots_mapped_ins].
    apply slots_frame_ins; [lia|lia|off_block|]. apply slots_snoc; [done|]. by split.
  - intros D e l m. by apply ck_repr_pop.
  - intros p. pose proof (ck_slot_bounds h sl k placed p). unfold slot_key, slot_value. addr.
  - intros a Ha%cells_outside. split_and!; [| |intros p; pose proof (ck_slot_bounds h sl k placed p);
      split]; intros ->; apply Ha; in_array.
  - done.
  - intros D l m a v Ha. apply ck_ring_repr_frame; [lia|]. intros c Hc. apply lookup_insert_ne. intros ->.
    by apply (cells_outside c).
Qed.

Section threads.
Variable l0 : list ds_kv.

(** The cells no operation changes. *)
Lemma ck_fixed s : ring_inv (R := ck_ring) l0 s ->
  s.1 !! slots h = Some sl /\ s.1 !! mask h = Some (2 ^ k - 1).
Proof. by intros [[] _]. Qed.

Lemma ck_fixed_producing P I s : producing (R := ck_ring) l0 P I s ->
  s.1 !! p_tail h = Some (P mod 2 ^ k) /\ s.1 !! slots h = Some sl /\ s.1 !! mask h = Some (2 ^ k - 1).
Proof.
  intros Hp. split; [by apply (producing_index (R := ck_ring) l0 P I)|]. destruct Hp as (Hi & _).
  by apply ck_fixed.
Qed.

Lemma ck_fixed_filling P I c s : filling (R := ck_ring) l0 P I c s ->
  s.1 !! p_tail h = Some (P mod 2 ^ k) /\ s.1 !! slots h = Some sl /\ s.1 !! mask h = Some (2 ^ k - 1).
Proof. intros [Hp _]. by eapply ck_fixed_producing. Qed.

Lemma ck_fixed_consuming D O s : consuming (R := ck_ring) l0 D O s ->
  s.1 !! c_head h = Some (D mod 2 ^ k) /\ s.1 !! slots h = Some sl /\ s.1 !! mask h = Some (2 ^ k - 1).
Proof.
  intros Hp. split; [by apply (consuming_index (R := ck_ring) l0 D O)|]. destruct Hp as (Hi & _).
  by apply ck_fixed.
Qed.

Lemma ck_fixed_holding D O e s : holding (R := ck_ring) l0 D O e s ->
  s.1 !! c_head h = Some (D mod 2 ^ k) /\ s.1 !! slots h = Some sl /\ s.1 !! mask h = Some (2 ^ k - 1).
Proof. intros [Hp _]. by eapply ck_fixed_consuming. Qed.

Lemma ck_insert_spec s : insert_spec (R := ck_ring) l0 (ck_ring_container s h k).
Proof.
  intros P I e. cbn [c_insert ck_ring_container]. pose proof placed as (Hh & Hsl & _).
  pose proof (ck_cap h sl k placed) as Hcap.
  destruct s; unfold ds_ck_ring_spsc_insert, ds_ck_ring_spsc_insert_lkmm, ds_ck_ring_spsc_insert_c.
  all: replace (h =? 0) with false by lia; tread ck_fixed_producing;
    replace (sl =? 0) with false by lia; taccess.
  all: apply (producer_checks (R := ck_ring) l0 _ _ _ _ e); cbn [sp_cap sp_enc ck_ring].
  1,3: tread ck_fixed_producing; tread ck_fixed_producing; rewrite (ck_next h sl) by done;
    replace (P + 1) with (P - (2 ^ k - 1) + 1 * 2 ^ k) by lia; rewrite Z_mod_plus_full, Z.eqb_refl;
    apply triple_ret; [apply _..|by eauto].
  all: intros D HD; tread ck_fixed_filling; tread ck_fixed_filling; rewrite (ck_next h sl) by done.
  all: destruct (Z.eqb_spec ((P + 1) mod 2 ^ k) (D mod 2 ^ k)) as [E|_];
    [exfalso; revert E; apply mod_window_ne; lia|].
  all: tread ck_fixed_filling; rewrite ck_slot_at; taccess.
  all: apply (producer_writes (R := ck_ring)); [by left|by constructor|]; taccess.
  all: apply (producer_writes (R := ck_ring)); [by right|constructor; [|by constructor]|]; taccess.
  1,3: cbn; unfold slot_key, slot_value; lia.
  all: apply (producer_publishes (R := ck_ring)), triple_ret; [apply _..|by eauto].
Qed.

Lemma ck_pop_spec s : pop_spec (R := ck_ring) l0 (ck_ring_container s h k).
Proof.
  intros D O d. cbn [c_pop ck_ring_container]. pose proof placed as (Hh & Hsl & _).
  pose proof (ck_cap h sl k placed) as Hcap.
  unfold ds_ck_ring_spsc_pop.
  destruct s; unfold ds_ck_ring_spsc_delete, ds_ck_ring_spsc_delete_lkmm, ds_ck_ring_spsc_delete_c.
  all: replace (h =? 0) with false by lia; tread ck_fixed_consuming;
    replace (sl =? 0) with false by lia; tread ck_fixed_consuming; taccess.
  all: apply (consumer_checks (R := ck_ring) l0 _ _ _ _ d); cbn [sp_cap sp_enc ck_ring]; taccess.
  1,3: rewrite Z.eqb_refl; apply triple_ret; [apply _..|by eauto].
  all: intros P e HP; taccess; destruct (Z.eqb_spec (D mod 2 ^ k) (P mod 2 ^ k)) as [E|_];
    [exfalso; revert E; apply mod_window_ne; lia|].
  all: tread ck_fixed_holding; rewrite ck_slot_at; taccess.
  all: apply (consumer_copies (R := ck_ring)); taccess.
  all: tread ck_fixed_holding; rewrite (ck_next h sl) by done; taccess.
  all: apply (consumer_retires (R := ck_ring) l0 _ _ _ _ d), triple_ret; [apply _..|by eauto].
Qed.
End threads.

Lemma ck_duet_laws sp sc l0 lim :
  DuetLaws (ring_duet (R := ck_ring) l0) (ring_holds (ck_ring_repr h sl k)) (ring_holds (ck_ring_repr h sl k))
    (bounded fifo_add (2 ^ k - 1) DS_ERROR_FULL) l0 lim (ck_ring_container sp h k) (ck_ring_container sc h k).
Proof.
  apply (ring_duet_laws (R := ck_ring)); [apply ck_insert_spec|apply ck_pop_spec].
Qed.
End ck.

(** C12. The same for ConcurrencyKit's ring, whose producer reads the consumer's index before
    its own. *)
Theorem ck_ring_linearizable `{K : Kernel} `{Al : Allocator} h sl k sp sc D l es ds m :
  ck_ring_placed h sl k -> ck_ring_repr h sl k D l m ->
  spsc_linearizable (ring_holds (ck_ring_repr h sl k)) (ring_holds (ck_ring_repr h sl k))
    (bounded fifo_add (2 ^ k - 1) DS_ERROR_FULL) l es ds
    (perform (ck_ring_container sp h k) (map OInsert es))
    (perform (ck_ring_container sc h k) (map OPop ds)) m.
Proof.
  intros Hp Hr. pose (R := ck_ring h sl k no_cells no_cells).
  assert (HL : SpscRingLaws R) by (apply ck_ring_laws; [done|by intros a []|by intros a [[]|[]]]).
  apply (ring_linearizable (R := R) l _ _ es ds m D); [| |done].
  - apply ck_insert_spec; [done|by intros a []|by intros a [[]|[]]].
  - apply ck_pop_spec; [done|by intros a []|by intros a [[]|[]]].
Qed.


(** ** The io_uring-style ring *)

Section uring.
Context `{K : Kernel} `{Al : Allocator}.
Variables h ents k : Z.
Hypothesis placed : uring_placed h ents k.
(** Cells of the two threads, outside the ring. *)
Variables pcells ccells : Z -> Prop.
Hypothesis cells_apart : forall a, pcells a -> ~ ccells a.
Hypothesis cells_outside : forall a, pcells a \/ ccells a -> ~ in_live (uring_own h k ents) a.
Import UringHead.

Definition uring_repr_any (D : Z) (l : list ds_kv) (m : mem) : Prop :=
  exists flags, uring_repr h ents k D l flags m.

#[local] Instance uring_ring : SpscRing := {|
  sp_repr := uring_repr_any;
  sp_cap := 2 ^ k;
  sp_enc := u32;
  sp_prod := prod_tail h;
  sp_cons := cons_head h;
  sp_key p := entry_key (slot ents 16 (2 ^ k) p);
  sp_value p := entry_value (slot ents 16 (2 ^ k) p);
  sp_pcells := pcells;
  sp_ccells := ccells
|}.

#[local] Instance uring_ring_laws : SpscRingLaws uring_ring.
Proof.
  pose proof placed as (Hents & Hk & Hd). pose proof (uring_cap h ents k placed) as Hcap.
  split; cbn.
  - intros D l m [f []]. lia.
  - by intros D l m [f []].
  - by intros D l m [f []].
  - intros D l m p [f [E1 E2 E3 E4 E5 E6 Hlen Hs Hm]]. apply Hm.
  - intros D e l m [f [E1 E2 E3 E4 E5 E6 Hlen Hs Hm]]. by apply slots_head in Hs.
  - intros D l m a v [f [E1 E2 E3 E4 E5 E6 Hlen Hs Hm]] Hroom Ha. exists f.
    pose proof (uring_slot_bounds h ents k placed (D + Zlen l)).
    assert (Hin : in_block (slot ents 16 (2 ^ k) (D + Zlen l)) 16 a).
    { unfold entry_key, entry_value in Ha. unfold in_block. lia. }
    split; try mlookv; [done| |by apply slots_mapped_ins].
    apply slots_scribble; [lia|lia|lia|done|done].
  - intros D l m e [f [E1 E2 E3 E4 E5 E6 Hlen Hs Hm]] Hroom Hkey Hv. exists f.
    pose proof (uring_slot_bounds h ents k placed (D + Zlen l)).
    split; rewrite ?Zlen_snoc; try mlookv; [lia| |by apply slots_mapped_ins].
    apply slots_frame_ins; [lia|lia|off_block|]. apply slots_snoc; [done|]. by split.
  - intros D e l m [f Hr]. exists f. by eapply uring_repr_pop.
  - intros p. pose proof (uring_slot_bounds h ents k placed p).
    unfold entry_key, entry_value. addr.
  - intros a Ha%cells_outside. split_and!; [| |intros p; pose proof (uring_slot_bounds h ents k placed p);
      split]; intros ->; apply Ha; in_array.
  - done.
  - intros D l m a v Ha [f Hr]. exists f. eapply uring_repr_frame; [lia| |exact Hr]. intros c Hc.
    apply lookup_insert_ne. intros ->. by apply (cells_outside c).
Qed.

Section threads.
Variable l0 : list ds_kv.

Lemma uring_fixed s : ring_inv (R := uring_ring) l0 s ->
  s.1 !! ring_entries h = Some (2 ^ k) /\ s.1 !! ring_mask h = Some (2 ^ k - 1) /\
  s.1 !! entries h = Some ents.
Proof. by intros [[f []] _]. Qed.

Lemma uring_fixed_producing P I s : producing (R := uring_ring) l0 P I s ->
  s.1 !! prod_tail h = Some (u32 P) /\
  s.1 !! ring_entries h = Some (2 ^ k) /\ s.1 !! ring_mask h = Some (2 ^ k - 1) /\
  s.1 !! entries h = Some ents.
Proof.
  intros Hp. split; [by apply (producing_index (R := uring_ring) l0 P I)|].
  destruct Hp as (Hi & _). by apply uring_fixed.
Qed.

Lemma uring_fixed_filling P I c s : filling (R := uring_ring) l0 P I c s ->
  s.1 !! prod_tail h = Some (u32 P) /\
  s.1 !! ring_entries h = Some (2 ^ k) /\ s.1 !! ring_mask h = Some (2 ^ k - 1) /\
  s.1 !! entries h = Some ents.
Proof. intros [Hp _]. by eapply uring_fixed_producing. Qed.

Lemma uring_fixed_consuming D O s : consuming (R := uring_ring) l0 D O s ->
  s.1 !! cons_head h = Some (u32 D) /\
  s.1 !! ring_entries h = Some (2 ^ k) /\ s.1 !! ring_mask h = Some (2 ^ k - 1) /\
  s.1 !! entries h = Some ents.
Proof.
  intros Hp. split; [by apply (consuming_index (R := uring_ring) l0 D O)|].
  destruct Hp as (Hi & _). by apply uring_fixed.
Qed.

Lemma uring_fixed_holding D O e s : holding (R := uring_ring) l0 D O e s ->
  s.1 !! cons_head h = Some (u32 D) /\
  s.1 !! ring_entries h = Some (2 ^ k) /\ s.1 !! ring_mask h = Some (2 ^ k - 1) /\
  s.1 !! entries h = Some ents.
Proof. intros [Hp _]. by eapply uring_fixed_consuming. Qed.

(** The producer maintains the overflow flag after the operation took effect. *)
Lemma producer_flags {A} o op v (f : Z -> prog A) P I Q :
  (forall old, triple (prod_rely (R := uring_ring) l0) (prod_guar (R := uring_ring) l0)
     (producing (R := uring_ring) l0 P I) (f old) Q) ->
  triple (prod_rely (R := uring_ring) l0) (prod_guar (R := uring_ring) l0)
    (producing (R := uring_ring) l0 P I) (rmw o op (sq_flags h) v ≫= f) Q.
Proof.
  intros Hf. eapply triple_rmw; [apply _| |exact Hf].
  intros [m g] (Hi & HP & HI). pose proof Hi as [[fl Hr] Hs]. cbn in *.
  exists fl. split; [by destruct Hr|]. exists g.
  assert (Hi' : ring_inv (R := uring_ring) l0 (<[sq_flags h:=rmw_eval op fl v]> m, g)).
  { split; [|done]. eexists. by eapply uring_repr_flags. }
  split; [|by split_and!].
  assert (Hkeep : forall c, pcells c \/ ccells c -> <[sq_flags h:=rmw_eval op fl v]> m !! c = m !! c).
  { intros c Hc. apply lookup_insert_ne. intros <-. apply (cells_outside (sq_flags h)); [done|in_array]. }
  intros _. split; [|cbn; auto]. intros _. split_and!; cbn; auto.
Qed.

Lemma uring_insert_spec s : insert_spec (R := uring_ring) l0 (uring_container s h k).
Proof.
  intros P I e. cbn [c_insert uring_container]. pose proof placed as (Hents & Hk & _).
  pose proof (uring_cap h ents k placed) as Hcap.
  destruct s; unfold ds_io_uring_insert, ds_io_uring_insert_lkmm, ds_io_uring_insert_c.
  all: tread uring_fixed_producing; taccess.
  all: apply (producer_checks (R := uring_ring) l0 _ _ _ _ e); cbn [sp_cap sp_enc uring_ring].
  1,3: tread uring_fixed_producing; rewrite u32_sub;
    replace (P - (P - 2 ^ k)) with (2 ^ k) by lia; rewrite u32_id by lia;
    replace (2 ^ k >=? 2 ^ k) with true by lia; taccess;
    apply producer_flags; intros _; apply triple_ret; [apply _..|by eauto].
  all: intros D HD; tread uring_fixed_filling; rewrite u32_sub, u32_id by lia;
    replace (P - D >=? 2 ^ k) with false by lia.
  all: tread uring_fixed_filling; tread uring_fixed_filling; rewrite (uring_slot h) by done; taccess.
  all: apply (producer_writes (R := uring_ring)); [by left|by constructor|]; taccess.
  all: apply (producer_writes (R := uring_ring)); [by right|constructor; [|by constructor]|]; taccess.
  1,3: cbn; unfold entry_key, entry_value; lia.
  all: rewrite u32_add_l; apply (producer_publishes (R := uring_ring)); taccess.
  all: apply producer_flags; intros _; apply triple_ret; [apply _..|by eauto].
Qed.

Lemma uring_pop_spec s : pop_spec (R := uring_ring) l0 (uring_container s h k).
Proof.
  intros D O d. cbn [c_pop uring_container]. pose proof placed as (Hents & Hk & _).
  pose proof (uring_cap h ents k placed) as Hcap.
  destruct s; unfold ds_io_uring_pop, ds_io_uring_pop_lkmm, ds_io_uring_pop_c.
  all: tread uring_fixed_consuming; taccess.
  all: apply (consumer_checks (R := uring_ring) l0 _ _ _ _ d); cbn [sp_cap sp_enc uring_ring]; taccess.
  1,3: rewrite Z.eqb_refl; apply triple_ret; [apply _..|by eauto].
  all: intros P e HP; taccess; replace P with (D + (P - D)) at 1 by lia;
    rewrite uring_empty by lia; replace (P - D =? 0) with false by lia.
  all: tread uring_fixed_holding; tread uring_fixed_holding; rewrite (uring_slot h) by done; taccess.
  all: apply (consumer_copies (R := uring_ring)); taccess; rewrite u32_add_l.
  all: apply (consumer_retires (R := uring_ring) l0 _ _ _ _ d), triple_ret; [apply _..|by eauto].
Qed.
End threads.

Lemma uring_duet_laws sp sc l0 lim :
  DuetLaws (ring_duet (R := uring_ring) l0) (ring_holds uring_repr_any) (ring_holds uring_repr_any)
    (bounded fifo_add (2 ^ k) DS_ERROR_FULL) l0 lim (uring_container sp h k) (uring_container sc h k).
Proof.
  apply (ring_duet_laws (R := uring_ring)); [apply uring_insert_spec|apply uring_pop_spec].
Qed.
End uring.

(** C13. The same for the io_uring-style ring, also when its 32-bit positions wrap around while
    the two sides are at work. *)
Theorem io_uring_linearizable `{K : Kernel} `{Al : Allocator} h ents k sp sc D l f es ds m :
  uring_placed h ents k -> uring_repr h ents k D l f m ->
  spsc_linearizable (ring_holds (uring_repr_any h ents k)) (ring_holds (uring_repr_any h ents k))
    (bounded fifo_add (2 ^ k) DS_ERROR_FULL) l es ds
    (perform (uring_container sp h k) (map OInsert es))
    (perform (uring_container sc h k) (map OPop ds)) m.
Proof.
  intros Hp Hr. pose (R := uring_ring h ents k no_cells no_cells).
  assert (HL : SpscRingLaws R) by (apply uring_ring_laws; [done|by intros a []|by intros a [[]|[]]]).
  apply (ring_linearizable (R := R) l _ _ es ds m D); [| |by exists f].
  - apply uring_insert_spec; [done|by intros a []|by intros a [[]|[]]].
  - apply uring_pop_spec; [done|by intros a []|by intros a [[]|[]]].
Qed.

