(* ===== verification/Kcov.v ===== *)
(** * The kcov-style append buffer ([include/ds_kcov.h]): a counter word followed by pairs of
    words. Pairs are popped from the end, so the buffer is a bounded stack. *)
From stdpp Require Import base numbers gmap list fin_maps option strings.
From S2P Require Import Prelude Machine Logic Api Owned Container Ring.

(** ** Layout of [struct ds_kcov_buf] *)

Module KcovBuf.
Definition size (head : Z) : Z := head + 0.
Definition area (head : Z) : Z := head + 8.
Definition sizeof : Z := 16.
End KcovBuf.

#[export] Hint Unfold KcovBuf.size KcovBuf.area KcovBuf.sizeof : layout.

Import KcovBuf.

Definition KCOV_WORDS_PER_ENTRY : Z := 2.

(** [&area[i]] *)
Definition area_word (area i : Z) : Z := area + 8 * i.

#[export] Hint Unfold area_word : layout.

(** [start_index] of the [count]-th entry, in 64-bit arithmetic. *)
Definition kcov_start_index (count : Z) : Z :=
  u64 (1 + u64 (u64 (count - 1) * KCOV_WORDS_PER_ENTRY)).

Section operations.
Context `{Al : Allocator}.

Definition ds_kcov_init_lkmm (head size_ : Z) : prog Z :=
  if size_ <? 1 + KCOV_WORDS_PER_ENTRY then Ret DS_ERROR_INVALID else
  a ← bpf_arena_alloc (u32 (u64 (size_ * 8)));
  if a =? 0 then Ret DS_ERROR_NOMEM else
  WRITE_ONCE (area_word a 0) 0;;
  store Plain (area head) a;;
  store Plain (size head) size_;;
  Ret DS_SUCCESS.

Definition ds_kcov_init_c (head size_ : Z) : prog Z :=
  if size_ <? 1 + KCOV_WORDS_PER_ENTRY then Ret DS_ERROR_INVALID else
  a ← bpf_arena_alloc (u32 (u64 (size_ * 8)));
  if a =? 0 then Ret DS_ERROR_NOMEM else
  arena_atomic_store (area_word a 0) 0 Relaxed;;
  arena_atomic_store (area head) a Relaxed;;
  arena_atomic_store (size head) size_ Relaxed;;
  Ret DS_SUCCESS.

Definition ds_kcov_init (s : side) (head size_ : Z) : prog Z :=
  match s with
  | BPF => ds_kcov_init_lkmm head size_
  | USER => ds_kcov_init_c head size_
  end.
End operations.

(** The counter is published before the pair it counts is written. *)
Definition ds_kcov_insert_lkmm (head key value : Z) : prog Z :=
  a ← READ_ONCE (area head);
  if a =? 0 then Ret DS_ERROR_INVALID else
  c ← READ_ONCE (area_word a 0);
  let count := u64 (c + 1) in
  let start_index := kcov_start_index count in
  let end_index := u64 (start_index + KCOV_WORDS_PER_ENTRY) in
  n ← load Plain (size head);
  if end_index >? n then Ret DS_ERROR_FULL else
  WRITE_ONCE (area_word a 0) count;;
  barrier;;
  WRITE_ONCE (area_word a start_index) key;;
  WRITE_ONCE (area_word a (u64 (start_index + 1))) value;;
  Ret DS_SUCCESS.

Definition ds_kcov_insert_c (head key value : Z) : prog Z :=
  a ← arena_atomic_load (area head) Relaxed;
  if a =? 0 then Ret DS_ERROR_INVALID else
  c ← arena_atomic_load (area_word a 0) Relaxed;
  let count := u64 (c + 1) in
  let start_index := kcov_start_index count in
  let end_index := u64 (start_index + KCOV_WORDS_PER_ENTRY) in
  n ← arena_atomic_load (size head) Relaxed;
  if end_index >? n then Ret DS_ERROR_FULL else
  arena_atomic_store (area_word a 0) count Relaxed;;
  barrier;;
  arena_atomic_store (area_word a start_index) key Relaxed;;
  arena_atomic_store (area_word a (u64 (start_index + 1))) value Relaxed;;
  Ret DS_SUCCESS.

Definition ds_kcov_insert (s : side) (head key value : Z) : prog Z :=
  match s with
  | BPF => ds_kcov_insert_lkmm head key value
  | USER => ds_kcov_insert_c head key value
  end.

(** [out] is the caller's output pair, [None] for the null pointer. *)
Definition ds_kcov_pop_lkmm (head : Z) (out : option ds_kv) : prog (Z * option ds_kv) :=
  a ← READ_ONCE (area head);
  if a =? 0 then Ret (DS_ERROR_INVALID, out) else
  count ← READ_ONCE (area_word a 0);
  if count =? 0 then Ret (DS_ERROR_NOT_FOUND, out) else
  let start_index := kcov_start_index count in
  out ← match out with
        | None => Ret None
        | Some _ =>
            k ← READ_ONCE (area_word a start_index);
            v ← READ_ONCE (area_word a (u64 (start_index + 1)));
            Ret (Some (mk_kv k v))
        end;
  barrier;;
  WRITE_ONCE (area_word a 0) (u64 (count - 1));;
  Ret (DS_SUCCESS, out).

Definition ds_kcov_pop_c (head : Z) (out : option ds_kv) : prog (Z * option ds_kv) :=
  a ← arena_atomic_load (area head) Relaxed;
  if a =? 0 then Ret (DS_ERROR_INVALID, out) else
  count ← arena_atomic_load (area_word a 0) Relaxed;
  if count =? 0 then Ret (DS_ERROR_NOT_FOUND, out) else
  let start_index := kcov_start_index count in
  out ← match out with
        | None => Ret None
        | Some _ =>
            k ← arena_atomic_load (area_word a start_index) Relaxed;
            v ← arena_atomic_load (area_word a (u64 (start_index + 1))) Relaxed;
            Ret (Some (mk_kv k v))
        end;
  barrier;;
  arena_atomic_store (area_word a 0) (u64 (count - 1)) Relaxed;;
  Ret (DS_SUCCESS, out).

Definition ds_kcov_pop (s : side) (head : Z) (out : option ds_kv) : prog (Z * option ds_kv) :=
  match s with
  | BPF => ds_kcov_pop_lkmm head out
  | USER => ds_kcov_pop_c head out
  end.

Definition ds_kcov_search_lkmm (head key : Z) : prog Z := Ret DS_ERROR_INVALID.

Definition ds_kcov_search_c (head key : Z) : prog Z := Ret DS_ERROR_INVALID.

Definition ds_kcov_search (s : side) (head key : Z) : prog Z :=
  match s with
  | BPF => ds_kcov_search_lkmm head key
  | USER => ds_kcov_search_c head key
  end.

Definition ds_kcov_verify_lkmm (head : Z) : prog Z :=
  a ← READ_ONCE (area head);
  if a =? 0 then Ret DS_ERROR_INVALID else
  count ← READ_ONCE (area_word a 0);
  n ← load Plain (size head);
  if n <? 1 then Ret DS_ERROR_CORRUPT else
  n ← load Plain (size head);
  let max_entries := u64 (n - 1) / KCOV_WORDS_PER_ENTRY in
  if count >? max_entries then Ret DS_ERROR_CORRUPT else Ret DS_SUCCESS.

Definition ds_kcov_verify_c (head : Z) : prog Z :=
  a ← arena_atomic_load (area head) Relaxed;
  if a =? 0 then Ret DS_ERROR_INVALID else
  count ← arena_atomic_load (area_word a 0) Relaxed;
  n ← arena_atomic_load (size head) Relaxed;
  if n <? 1 then Ret DS_ERROR_CORRUPT else
  let max_entries := u64 (n - 1) / KCOV_WORDS_PER_ENTRY in
  if count >? max_entries then Ret DS_ERROR_CORRUPT else Ret DS_SUCCESS.

Definition ds_kcov_verify (s : side) (head : Z) : prog Z :=
  match s with
  | BPF => ds_kcov_verify_lkmm head
  | USER => ds_kcov_verify_c head
  end.

(** ** Representation: the buffer as a stack, the last entry first. *)
Section spec.
Context `{K : Kernel}.
Variables h a n : Z.

(** The entries that fit behind the counter word. *)
Definition kcov_max_entries : Z := (n - 1) / 2.

Notation cap := kcov_max_entries (only parsing).

Definition kcov_placed : Prop :=
  0 < a /\ 3 <= n < 2 ^ 60 /\ (h + 16 <= a \/ a + 8 * n <= h).

Definition kcov_foot (x : Z) : Prop := in_block h 16 x \/ in_block a (8 * n) x.

Record kcov_repr (l : list ds_kv) (m : mem) : Prop := {
  kr_size : m !! size h = Some n;
  kr_area : m !! area h = Some a;
  kr_count : m !! area_word a 0 = Some (Zlen l);
  kr_len : Zlen l <= kcov_max_entries;
  kr_slots : slots_hold (a + 8) 16 0 kcov_max_entries m 0 (rev l);
  kr_mapped : slots_mapped (a + 8) 16 0 kcov_max_entries m
}.

Hypothesis placed : kcov_placed.

Notation ent_of := (slot (a + 8) 16 kcov_max_entries) (only parsing).

Lemma kcov_cap : 1 <= cap /\ 16 * cap + 8 <= 8 * n /\ n - 2 <= 2 * cap.
Proof.
  destruct placed as (_ & Hn & _). unfold kcov_max_entries.
  Z.div_mod_to_equations. lia.
Qed.

Lemma Zlen_rev {A} (l : list A) : Zlen (rev l) = Zlen l.
Proof. unfold Zlen. by rewrite length_rev. Qed.

Lemma kcov_start i : 0 <= i < 2 ^ 60 -> kcov_start_index (i + 1) = 1 + 2 * i.
Proof.
  intros Hi. unfold kcov_start_index, KCOV_WORDS_PER_ENTRY.
  rewrite (u64_id (i + 1 - 1)) by lia. rewrite (u64_id ((i + 1 - 1) * 2)), u64_id by lia. lia.
Qed.

Lemma kcov_word i : 0 <= i < cap -> area_word a (1 + 2 * i) = ent_of i + 0.
Proof. intros Hi. unfold area_word, slot. rewrite Z.mod_small by done. lia. Qed.

Lemma kcov_word' i : 0 <= i < cap -> area_word a (1 + 2 * i + 1) = ent_of i + (0 + 8).
Proof. intros Hi. unfold area_word, slot. rewrite Z.mod_small by done. lia. Qed.

Lemma kcov_ent_bounds p : a + 8 <= ent_of p /\ ent_of p + 16 <= a + 8 * n.
Proof.
  pose proof kcov_cap. destruct (slot_bounds (a + 8) 16 0 cap ltac:(lia) ltac:(lia) p). lia.
Qed.

Definition kcov_after_insert (l : list ds_kv) (e : ds_kv) (m : mem) : mem :=
  <[ent_of (Zlen l) + (0 + 8):=kv_value e]>
    (<[ent_of (Zlen l) + 0:=kv_key e]> (<[area_word a 0:=Zlen l + 1]> m)).

Lemma kcov_repr_insert l e m :
  kcov_repr l m -> Zlen l < cap -> kcov_repr (e :: l) (kcov_after_insert l e m).
Proof.
  intros [E1 E2 E3 Hlen Hs Hm] Hroom. pose proof placed as (_ & Hn & Hd). pose proof kcov_cap.
  pose proof (kcov_ent_bounds (Zlen l)). unfold kcov_after_insert, area_word in *.
  split; rewrite ?Zlen_cons; try mlookv; [lia|..].
  - cbn [rev]. rewrite <- (Zlen_rev l).
    apply (slots_push (a + 8) 16 0 cap); rewrite ?Zlen_rev; [lia|lia|lia|].
    apply slots_frame_ins; [lia|lia|off_block|done].
  - repeat apply slots_mapped_ins. done.
Qed.

Lemma kcov_repr_pop e l m :
  kcov_repr (e :: l) m -> kcov_repr l (<[area_word a 0:=Zlen l]> m).
Proof.
  intros [E1 E2 E3 Hlen Hs Hm]. pose proof placed as (_ & Hn & Hd). pose proof kcov_cap.
  unfold area_word in *. rewrite Zlen_cons in *.
  split; try mlookv; [lia|..].
  - apply slots_frame_ins; [lia|lia|off_block|].
    cbn [rev] in Hs. by apply slots_unsnoc in Hs as [Hs _].
  - by apply slots_mapped_ins.
Qed.

Lemma kcov_insert_ok s l m b e :
  kcov_repr l m ->
  wpr (ds_kcov_insert s h (kv_key e) (kv_value e)) m b (fun r m' b' => b' = b /\
    if Zlen l <? kcov_max_entries then
      r = DS_SUCCESS /\ kcov_repr (e :: l) m' /\ updates kcov_foot m m'
    else r = DS_ERROR_FULL /\ m' = m).
Proof.
  intros Hr. pose proof Hr as [E1 E2 E3 Hlen Hs Hm].
  pose proof placed as (Ha & Hn & Hd). pose proof (Zlen_nonneg l). pose proof kcov_cap.
  pose proof (kcov_ent_bounds (Zlen l)).
  destruct (slot_some (a + 8) 16 0 cap m (Zlen l) Hm) as [e0 [Hk0 Hv0]].
  destruct s; unfold ds_kcov_insert, ds_kcov_insert_lkmm, ds_kcov_insert_c; prun; pif; prun;
    rewrite (u64_id (Zlen l + 1)), kcov_start by lia;
    unfold KCOV_WORDS_PER_ENTRY; rewrite (u64_id (1 + 2 * Zlen l + 2)) by lia;
    (destruct (Z.ltb_spec (Zlen l) kcov_max_entries); [pif_false|pif_true]); prun; try done.
  all: rewrite (u64_id (1 + 2 * Zlen l + 1)), kcov_word, kcov_word' by lia.
  all: unfold area_word in *; prun; split; [done|]; split; [done|].
  all: split; [by apply kcov_repr_insert|].
  all: repeat (apply updates_insert_trans; [unfold kcov_foot; addr|]); apply updates_refl.
Qed.

Lemma kcov_pop_ok s l m b d :
  kcov_repr l m ->
  wpr (ds_kcov_pop s h d) m b (fun r m' b' => b' = b /\
    match l with
    | [] => r = (DS_ERROR_NOT_FOUND, d) /\ m' = m
    | e :: l' =>
        r = (DS_SUCCESS, out_pair d e) /\ kcov_repr l' m' /\ updates kcov_foot m m'
    end).
Proof.
  intros Hr. pose proof Hr as [E1 E2 E3 Hlen Hs Hm].
  pose proof placed as (Ha & Hn & Hd). pose proof (Zlen_nonneg l). pose proof kcov_cap.
  destruct s; unfold ds_kcov_pop, ds_kcov_pop_lkmm, ds_kcov_pop_c; prun; pif; prun;
    (destruct l as [|e l']; [pif_true; prun; done|]).
  all: pose proof (Zlen_nonneg l'); rewrite Zlen_cons in *; pif_false.
  all: rewrite (Z.add_comm 1), kcov_start by lia.
  all: rewrite (u64_id (1 + 2 * Zlen l' + 1)), kcov_word, kcov_word' by lia.
  all: cbn [rev] in Hs; destruct (slots_unsnoc _ _ _ _ _ _ _ _ Hs) as [_ [Hk Hv]].
  all: rewrite Zlen_rev in Hk, Hv; rewrite Z.add_0_l in Hk, Hv.
  all: apply wpr_bind; apply (wpr_mono _ _ _ (fun r m' b' => m' = m /\ b' = b /\ r = out_pair d e));
    [by destruct d as [d|], e; prun|intros r m' b' (-> & -> & ->)].
  all: prun; rewrite (u64_id (Zlen l' + 1 - 1)) by lia.
  all: replace (Zlen l' + 1 - 1) with (Zlen l') by lia.
  all: split; [done|]; split; [done|]; split; [by eapply kcov_repr_pop|].
  all: apply updates_insert; unfold kcov_foot, area_word; addr.
Qed.

(** The verifier accepts every well-formed buffer. *)
Lemma kcov_verify_ok s l m b :
  kcov_repr l m ->
  wpr (ds_kcov_verify s h) m b (fun r m' b' => r = DS_SUCCESS /\ m' = m /\ b' = b).
Proof.
  intros [E1 E2 E3 Hlen Hs Hm]. pose proof placed as (Ha & Hn & Hd).
  unfold kcov_max_entries in Hlen.
  destruct s; unfold ds_kcov_verify, ds_kcov_verify_lkmm, ds_kcov_verify_c; prun; pif; prun;
    unfold KCOV_WORDS_PER_ENTRY; pif_false; prun; rewrite ?(u64_id (n - 1)) by lia;
    repeat (pif_false; prun); done.
Qed.
End spec.

(** ** Initialisation *)

Section init_spec.
Context `{K : Kernel} `{Al : Allocator} `{!AllocLaws Al}.
Variables h n : Z.

Definition kcov_own (a : Z) : list block := [(h, 16); (a, 8 * n)].

Definition kcov_head_mapped (m : mem) : Prop :=
  is_Some (m !! size h) /\ is_Some (m !! area h).

Definition kcov_init_post (rest : list block) (m : mem) (r : Z) (m' : mem) : Prop :=
  (r = DS_ERROR_NOMEM /\ heap_holds [(h, 16)] rest m' /\
     forall a, in_block h 16 a -> m' !! a = m !! a) \/
  (r = DS_SUCCESS /\ exists a, kcov_placed h a n /\ kcov_repr h a n [] m' /\
     heap_holds (kcov_own a) rest m').

Lemma kcov_init_ok s rest m b :
  heap_holds [(h, 16)] rest m -> kcov_head_mapped m -> 3 <= n < 2 ^ 28 -> alloc_pre (8 * n) m ->
  wpr (ds_kcov_init s h n) m b (fun r m' b' => b' = b /\
    (forall c, in_live rest c -> m' !! c = m !! c) /\ kcov_init_post rest m r m').
Proof.
  intros Hh (M1 & M2) Hn Hpre.
  assert (Hsz : (8 * n) mod 8 = 0) by (rewrite Z.mul_comm; apply Z_mod_mult).
  destruct s; unfold ds_kcov_init, ds_kcov_init_lkmm, ds_kcov_init_c, KCOV_WORDS_PER_ENTRY;
    rewrite u64_id, u32_id by lia; pif; replace (n * 8) with (8 * n) by lia;
    (eapply wpr_call; [apply (alloc_beside h 16 rest (8 * n)); (done || lia)|]);
    intros p m1 b1 (-> & Hrest & Hhd & [[-> Hh1]|(Hp & Hsep & Hmp & Hh1)]).
  1,3: pif_true; prun; split; [done|split; [done|left; by split_and!]].
  all: rewrite <- Hhd in M1, M2 by addr; pif_false.
  all: pose proof (Hmp 0 ltac:(lia) ltac:(lia)) as M0; fold (area_word p 0) in M0.
  all: prun; split; [done|].
  all: assert (Hcap : 1 <= kcov_max_entries n /\ 16 * kcov_max_entries n + 8 <= 8 * n)
    by (unfold kcov_max_entries; Z.div_mod_to_equations; lia).
  all: assert (Hslm : slots_mapped (p + 8) 16 0 (kcov_max_entries n) m1)
    by (apply slots_mapped_words; [lia|]; intros i Hi Hin;
        replace (p + 8 + 8 * i) with (p + 8 * (i + 1)) by lia; apply Hmp; lia).
  all: match goal with |- _ /\ kcov_init_post _ _ _ ?m' => set (m2 := m') end.
  all: assert (Hu : updates (in_live (kcov_own p)) m1 m2).
  1,3: unfold m2; repeat (apply updates_insert_trans;
    [apply in_live_cons; first [left; addr|right; apply in_live_cons; left; addr]|]);
    apply updates_refl.
  all: destruct (heap_holds_updates (kcov_own p) rest m1 m2 _ Hh1 Hu) as [Hh2 Hrest2]; [done|].
  all: split; [intros c Hcr; rewrite Hrest2 by done; by apply Hrest|].
  all: right; split; [done|]; exists p; split; [by repeat split; try lia|]; split; [|done].
  all: pose proof (@Zlen_nil ds_kv); unfold m2; split; try mlookv; [lia|..].
  1,3: by apply slots_nil.
  all: by repeat apply slots_mapped_ins.
Qed.
End init_spec.

(** ** The buffer as a container *)

Section container.
Context `{K : Kernel} `{Al : Allocator} `{!AllocLaws Al}.
Variables (s : side) (h n : Z).
Hypothesis n_range : 3 <= n < 2 ^ 28.
Hypothesis alloc_ready : forall live sz m, heap_ok live m -> alloc_pre sz m.

Lemma kcov_repr_frame a l m m' :
  kcov_placed h a n -> (forall c, in_live (kcov_own h n a) c -> m' !! c = m !! c) ->
  kcov_repr h a n l m -> kcov_repr h a n l m'.
Proof.
  intros Hp Hf [E1 E2 E3 Hlen Hs Hm]. pose proof (kcov_cap _ _ _ Hp).
  assert (Hh : forall c, in_block h 16 c -> m' !! c = m !! c)
    by (intros c Hc; by apply Hf, in_own_head).
  assert (Ha : forall c, in_block a (8 * n) c -> m' !! c = m !! c)
    by (intros c Hc; by apply Hf, in_own_array).
  assert (Hs' : forall c, in_block (a + 8) (16 * kcov_max_entries n) c -> m' !! c = m !! c)
    by (intros c Hc; apply Ha; unfold in_block in *; lia).
  split; try (rewrite Hh by addr; done); try done.
  - unfold area_word in *. rewrite Ha by (unfold in_block; lia). done.
  - by eapply slots_hold_frame; [lia..|exact Hs'|].
  - by eapply slots_mapped_frame; [lia..|exact Hs'|].
Qed.

Lemma kcov_home_frame m m' :
  (forall a, in_block h 16 a -> m' !! a = m !! a) ->
  (kcov_head_mapped h m -> kcov_head_mapped h m') /\ (m !! area h = Some 0 -> m' !! area h = Some 0).
Proof. intros Hf. unfold kcov_head_mapped. split; rewrite ?Hf by addr; done. Qed.

Definition kcov_container : Container := {|
  c_init := ds_kcov_init s h n;
  c_insert := ds_kcov_insert s h;
  c_pop := ds_kcov_pop s h;
  c_home := (h, 16);
  c_ready := kcov_head_mapped h;
  c_blank m := m !! area h = Some 0;
  c_inv own l m := exists a, kcov_placed h a n /\ own = kcov_own h n a /\ kcov_repr h a n l m;
  c_spec := bounded lifo_add (kcov_max_entries n) DS_ERROR_FULL;
  c_init_budget := 0;
  c_budget := 0
|}.

#[export] Instance kcov_container_laws : ContainerLaws s kcov_container.
Proof.
  split.
  - intros own l m m' Hf (a & Hp & -> & Hr). exists a. split; [done|]. split; [done|].
    by eapply kcov_repr_frame.
  - intros m m' Hf. apply kcov_home_frame. intros a Ha. by apply Hf, in_own_head.
  - intros rest m b j Hh Hrd Hb.
    eapply wpr_mono; [apply (kcov_init_ok h n s rest); try done; by destruct Hh; eapply alloc_ready|].
    intros r m' b' (-> & Hrest & [(-> & Hh' & Hhd)|(-> & a & Hp & Hr & Hh')]);
      (split; [exact Hb|split; [done|]]);
      [left; split; [done|]; split; [exact Hh'|]; destruct (kcov_home_frame m m' Hhd) as [Hr1 Hr2]; split; [exact (Hr1 Hrd)|exact Hr2]|right]. split; [done|]. exists (kcov_own h n a). split; [done|]. by exists a.
  - intros own rest l m b e Hh (a & Hp & -> & Hr) _.
    eapply wpr_mono; [by apply (kcov_insert_ok h a n Hp s l)|].
    intros r m' b' (_ & Hpost).
    eapply (array_insert_law _ _ _ _ _ (kcov_foot h a n) _ (kcov_repr h a n));
      [done|intros; exists a; eauto|done|done|..]; destruct (Zlen l <? kcov_max_entries n);
      first [by destruct Hpost as (-> & Hr' & Hu)
            |destruct Hpost as [-> ->]; (done || apply updates_refl)].
  - intros own rest l m b d Hh (a & Hp & -> & Hr) _.
    eapply wpr_mono; [by apply (kcov_pop_ok h a n Hp s l)|].
    intros r m' b' (_ & Hpost).
    eapply (array_pop_law _ _ _ _ _ (kcov_foot h a n) _ (kcov_repr h a n));
      [done|intros; exists a; eauto|done|..]; destruct l;
      first [destruct Hpost as (-> & Hr' & Hu); by eauto
            |destruct Hpost as [-> ->]; first [apply updates_refl|by eauto]].
Qed.
End container.
