(* ===== verification/KcovRace.v ===== *)
(** * The kcov-style buffer with a producer and a consumer at work.

    The buffer follows kcov in writing its counter before the entry, which is meant for a single
    thread that reads its own entries. The relay puts a producer and a consumer on each buffer. *)
From stdpp Require Import base numbers gmap list fin_maps option relations.
From S2P Require Import Prelude Machine Logic Api Owned Conc Container Duet Spsc Ring Kcov.
Import KcovBuf.

(** One access of thread [i]. *)
Lemma schedule_step `{K : Kernel} {A} i sched (ts : list (thread A)) m e k b v m' b' c :
  ts !! i = Some (Do e k, b) -> exec e m b = Some (v, m', b') ->
  run_schedule sched (<[i:=(k v, b')]> ts) m' = c -> run_schedule (i :: sched) ts m = c.
Proof. intros Ei Ee H. cbn [run_schedule]. by rewrite Ei, Ee. Qed.

Lemma exec_load `{K : Kernel} o p m b v : m !! p = Some v -> exec (Load o p) m b = Some (v, m, b).
Proof. intros E. cbn. by rewrite E. Qed.

Lemma exec_store `{K : Kernel} o p v m b :
  is_Some (m !! p) -> exec (Store o p v) m b = Some (0, <[p:=v]> m, b).
Proof. intros [w E]. cbn. by rewrite E. Qed.

Lemma exec_fence `{K : Kernel} o m b : exec (Fence o) m b = Some (0, m, b).
Proof. done. Qed.

(** Exposes the next access of a program, then makes it. *)
Ltac expose :=
  unfold READ_ONCE, WRITE_ONCE, barrier, arena_atomic_load, arena_atomic_store, load, store, fence;
  cbn [mbind prog_mbind pbind insert list_insert fst snd].

Ltac schedule :=
  eapply schedule_step;
    [reflexivity
    |first [apply exec_fence | apply exec_load; mlook | apply exec_store; solve [msome]]
    |cbn [mbind prog_mbind pbind insert list_insert]].

(** Decides the test that the scheduled thread makes next. *)
Ltac decided b v := replace b with v by lia; cbn [mbind prog_mbind pbind].

Section race.
Context `{K : Kernel} `{Al : Allocator}.
Variables h a n : Z.
Hypothesis placed : kcov_placed h a n.

(** C30. On an empty buffer, a consumer that runs between the producer's update of the counter and
    its writes of the entry takes an entry that nobody inserted (whatever the slot held before),
    with the answer [DS_SUCCESS]; the producer's insertion also answers [DS_SUCCESS], and its
    pair is lost: the buffer ends up empty. *)
Theorem kcov_torn_entry si sp e d k0 v0 m b0 b1 :
  kcov_repr h a n [] m -> m !! area_word a 1 = Some k0 -> m !! area_word a 2 = Some v0 ->
  exists m', rtc pool_step
    ([(perform (kcov_container si h n) [OInsert e], b0);
      (perform (kcov_container sp h n) [OPop d], b1)], m)
    ([(Ret [EInsert e DS_SUCCESS], b0); (Ret [EPop d DS_SUCCESS (Some (mk_kv k0 v0))], b1)], m') /\
    kcov_repr h a n [] m'.
Proof.
  intros Hr Ek Ev. pose proof placed as (Ha & Hn & Hd). pose proof (kcov_cap h a n placed).
  pose proof Hr as [E1 E2 E3 Hlen Hs Hm]. change (Zlen []) with 0 in E3.
  eexists. split.
  - apply (run_schedule_steps [0;0;0;0;1;1;1;1;1;1;0;0;0]%nat).
    destruct si, sp; cbn [perform run_op c_insert c_pop kcov_container ds_kcov_insert ds_kcov_pop];
      unfold ds_kcov_insert_lkmm, ds_kcov_insert_c, ds_kcov_pop_lkmm, ds_kcov_pop_c; expose.
    all: schedule; decided (a =? 0) false; do 2 schedule; change (u64 (0 + 1)) with 1;
      change (kcov_start_index 1) with 1; change (u64 (1 + KCOV_WORDS_PER_ENTRY)) with 3;
      change (u64 (1 + 1)) with 2; decided (3 >? n) false; schedule.
    all: schedule; decided (a =? 0) false; schedule; cbn [Z.eqb];
      change (kcov_start_index 1) with 1; change (u64 (1 + 1)) with 2; change (u64 (1 - 1)) with 0;
      do 4 schedule.
    all: do 3 schedule; reflexivity.
  - split; try mlookv; [done|by apply slots_nil|]. by repeat apply slots_mapped_ins.
Qed.
End race.
