(* ===== verification/Linked.v ===== *)
(** * Linked structures: chains of nodes.

    Shared by the structures that allocate a node per element: [chain] relates a run of nodes in
    memory to the list of pairs they carry. *)
From stdpp Require Import base numbers gmap list fin_maps option.
From S2P Require Import Prelude Machine Logic Api Owned.

(** ** Chains of nodes *)

Section chain.
(** Offsets of the link, the key and the value in a node, and the size of a node. *)
Variables nx kk vv sz : Z.

Definition node_blocks (ns : list Z) : list block := map (fun a => (a, sz)) ns.

(** The nodes [ns], starting at [p], carry the pairs [l]; the last one links to [q]. *)
Fixpoint chain (m : mem) (p : Z) (ns : list Z) (l : list ds_kv) (q : Z) : Prop :=
  match ns, l with
  | [], [] => p = q
  | a :: ns', e :: l' =>
      p = a /\ 0 < a /\ m !! (a + kk) = Some (kv_key e) /\ m !! (a + vv) = Some (kv_value e) /\
      exists p', m !! (a + nx) = Some p' /\ chain m p' ns' l' q
  | _, _ => False
  end.

Definition layout_ok : Prop :=
  0 <= nx < sz /\ 0 <= kk < sz /\ 0 <= vv < sz /\ nx <> kk /\ nx <> vv /\ kk <> vv.

Hypothesis offsets : layout_ok.

Lemma node_in a ns x : a ∈ ns -> 0 <= x < sz -> in_live (node_blocks ns) (a + x).
Proof.
  intros Ha Hx. exists a, sz. split; [|unfold in_block; lia].
  unfold node_blocks. apply list_elem_of_In, in_map_iff. exists a. split; [done|].
  by apply list_elem_of_In.
Qed.

Lemma node_blocks_app ns ns' : node_blocks (ns ++ ns') = node_blocks ns ++ node_blocks ns'.
Proof. apply map_app. Qed.

Lemma node_blocks_sub a ns c : in_live (node_blocks ns) c -> in_live (node_blocks (a :: ns)) c.
Proof. intros H. apply in_live_cons. by right. Qed.

Lemma chain_length m p ns l q : chain m p ns l q -> length ns = length l.
Proof.
  revert p l. induction ns as [|a ns IH]; intros p [|e l]; cbn [chain length]; try done.
  intros (_ & _ & _ & _ & p' & _ & H). f_equal. by eapply IH.
Qed.

Lemma chain_frame m m' p ns l q :
  (forall a, in_live (node_blocks ns) a -> m' !! a = m !! a) ->
  chain m p ns l q -> chain m' p ns l q.
Proof.
  destruct offsets as (? & ? & ? & _).
  revert p l. induction ns as [|a ns IH]; intros p [|e l] Hf; cbn [chain]; try done.
  intros (-> & Ha & Hk & Hv & p' & Hn & Hc).
  rewrite !Hf by (apply node_in; [left|done]). split_and!; try done. exists p'. split; [done|].
  apply IH; [|done]. intros c Hc'. by apply Hf, node_blocks_sub.
Qed.

Lemma chain_frame_ins m a v p ns l q :
  ~ in_live (node_blocks ns) a -> chain m p ns l q -> chain (<[a:=v]> m) p ns l q.
Proof.
  intros Ha. apply chain_frame. intros c Hc. apply lookup_insert_ne. by intros ->.
Qed.

Lemma chain_app m p ns ns' l l' q :
  length ns = length l ->
  chain m p (ns ++ ns') (l ++ l') q <-> exists r, chain m p ns l r /\ chain m r ns' l' q.
Proof.
  revert p l. induction ns as [|a ns IH]; intros p [|e l] Hlen; cbn [app chain length] in *; try done.
  - split; [intros H; by exists p|intros (r & -> & H); done].
  - specialize (fun p => IH p l ltac:(lia)). split.
    + intros (-> & Ha & Hk & Hv & p' & Hn & Hc). apply IH in Hc as (r & H1 & H2).
      exists r. split; [|done]. split_and!; try done. by exists p'.
    + intros (r & (-> & Ha & Hk & Hv & p' & Hn & Hc) & H2). split_and!; try done.
      exists p'. split; [done|]. apply IH. by exists r.
Qed.

Lemma chain_pos m p ns l q a : chain m p ns l q -> a ∈ ns -> 0 < a.
Proof.
  revert p l. induction ns as [|c ns IH]; intros p [|e l]; cbn [chain]; try done.
  - intros _ Ha. by apply elem_of_nil in Ha.
  - intros (-> & Hc & _ & _ & p' & _ & H) [->|Ha]%elem_of_cons; [done|by eapply IH].
Qed.

(** Every node of a chain can be written. *)
Lemma chain_mapped m p ns l q a :
  chain m p ns l q -> a ∈ ns ->
  is_Some (m !! (a + nx)) /\ is_Some (m !! (a + kk)) /\ is_Some (m !! (a + vv)).
Proof.
  revert p l. induction ns as [|c ns IH]; intros p [|e l]; cbn [chain]; try done.
  - intros _ Ha. by apply elem_of_nil in Ha.
  - intros (-> & Hc & Hk & Hv & p' & Hn & H) [->|Ha]%elem_of_cons; [|by eapply IH].
    split_and!; by eexists.
Qed.

(** The first node of a chain that ends in [NULL]. *)
Lemma chain_null m p ns l : chain m p ns l 0 -> (p =? 0) = match l with [] => true | _ => false end.
Proof.
  destruct ns as [|a ns], l as [|e l]; cbn [chain]; try done; [by intros ->|].
  intros (-> & Ha & _). lia.
Qed.

Lemma chain_hd m a ns e l q : chain m a (a :: ns) (e :: l) q ->
  0 < a /\ m !! (a + kk) = Some (kv_key e) /\ m !! (a + vv) = Some (kv_value e) /\
  exists p', m !! (a + nx) = Some p' /\ chain m p' ns l q.
Proof. intros (_ & H). done. Qed.

(** Linking the last node of a chain to [q']. *)
Lemma chain_link m p ns a l e q q' :
  length ns = length l -> ~ in_live (node_blocks ns) (a + nx) ->
  chain m p (ns ++ [a]) (l ++ [e]) q ->
  chain (<[a + nx:=q']> m) p (ns ++ [a]) (l ++ [e]) q'.
Proof.
  intros Hlen Hna. rewrite !chain_app by done. destruct offsets as (_ & _ & _ & ? & ? & _).
  intros (r & H1 & H2). exists r. split; [by apply chain_frame_ins|].
  destruct H2 as (-> & Ha & Hk & Hv & p' & Hn & ->). split_and!; try done.
  - rewrite lookup_insert_ne by lia. done.
  - rewrite lookup_insert_ne by lia. done.
  - exists q'. split; [by rewrite lookup_insert_eq|done].
Qed.

Lemma separated_node_next ns a rest :
  separated (node_blocks (ns ++ [a]) ++ rest) -> ~ in_live (node_blocks ns) (a + nx).
Proof.
  destruct offsets as (Hnx & _). rewrite node_blocks_app, <- app_assoc.
  intros (_ & _ & Hsep)%separated_app Hin. apply (Hsep _ Hin), in_live_app. left.
  apply node_in; [left|done].
Qed.

(** A freshly written node is a chain of one. *)
Lemma chain_single m a e q :
  0 < a -> m !! (a + kk) = Some (kv_key e) -> m !! (a + vv) = Some (kv_value e) ->
  m !! (a + nx) = Some q -> chain m a [a] [e] q.
Proof. intros. split_and!; try done. by exists q. Qed.

(** The nodes of a separated family are distinct. *)
Lemma separated_nodup ns rest : separated (node_blocks ns ++ rest) -> NoDup ns.
Proof.
  destruct offsets as (Hnx & _). induction ns as [|a ns IH]; cbn; [constructor|].
  intros [Hd Hs]. constructor; [|by apply IH]. intros Ha.
  apply (Hd (a + 0)); [unfold in_block; lia|]. apply in_live_app. left. apply node_in; [done|lia].
Qed.

(** Different nodes of a separated family share no byte. *)
Lemma separated_nodes_apart ns rest x y c :
  separated (node_blocks ns ++ rest) -> x ∈ ns -> y ∈ ns -> x <> y ->
  in_block x sz c -> ~ in_block y sz c.
Proof.
  assert (Hlive : forall z zs, z ∈ zs -> in_block z sz c -> in_live (node_blocks zs ++ rest) c).
  { intros z zs Hz Hc. apply in_live_app. left. exists z, sz. split; [|done].
    apply list_elem_of_In, in_map_iff. exists z. by rewrite <- list_elem_of_In. }
  induction ns as [|a ns IH]; cbn [node_blocks map app]; [intros _ []%elem_of_nil|].
  intros [Hd Hs] Hx Hy Hne Hcx Hcy.
  apply elem_of_cons in Hx as [->|Hx]; apply elem_of_cons in Hy as [->|Hy]; [done|..].
  - by apply (Hd c Hcx), (Hlive y).
  - by apply (Hd c Hcy), (Hlive x).
  - by apply IH.
Qed.

(** A duplicate-free part of a separated family is separated. *)
Lemma separated_part ns ns' : NoDup ns' -> (forall a, a ∈ ns' -> a ∈ ns) ->
  separated (node_blocks ns) -> separated (node_blocks ns').
Proof.
  intros Hnd Hsub Hs. destruct (submseteq_Permutation ns' ns) as [k Hk]; [by apply NoDup_submseteq|].
  eapply separated_perm in Hs; [|unfold node_blocks; by rewrite Hk].
  by rewrite map_app in Hs; apply separated_app in Hs as [Hs _].
Qed.

(** Cells at different offsets of nodes of a separated family are different cells. *)
Lemma separated_cells ns rest x y i j :
  separated (node_blocks ns ++ rest) -> x ∈ ns -> y ∈ ns ->
  0 <= i < sz -> 0 <= j < sz -> i <> j -> x + i <> y + j.
Proof.
  induction ns as [|a ns IH]; cbn [node_blocks map app]; [intros _ []%elem_of_nil|].
  intros [Hd Hs] Hx Hy Hi Hj Hij Heq.
  apply elem_of_cons in Hx as [->|Hx]; apply elem_of_cons in Hy as [->|Hy]; [lia|..].
  - apply (Hd (a + i)); [unfold in_block; lia|]. apply in_live_app. left. rewrite Heq.
    by apply node_in.
  - apply (Hd (a + j)); [unfold in_block; lia|]. apply in_live_app. left. rewrite <- Heq.
    by apply node_in.
  - by apply (IH Hs Hx Hy Hi Hj Hij).
Qed.

(** Appending a fresh node to a chain that ends at its last node. *)
Lemma chain_append m p ns l a e :
  ns <> [] -> chain m p ns l 0 -> separated (node_blocks ns) ->
  ~ in_live (node_blocks ns) (a + nx) -> ~ in_live (node_blocks ns) (a + kk) ->
  ~ in_live (node_blocks ns) (a + vv) ->
  0 < a -> m !! (a + kk) = Some (kv_key e) -> m !! (a + vv) = Some (kv_value e) ->
  m !! (a + nx) = Some 0 ->
  chain (<[List.last ns 0 + nx:=a]> m) p (ns ++ [a]) (l ++ [e]) 0.
Proof.
  intros Hne Hc Hs A1 A2 A3 Ha Hk Hv Hn. pose proof (chain_length _ _ _ _ _ Hc) as Hlen.
  assert (Hl : l <> []) by (intros ->; by destruct ns).
  set (t := List.last ns 0) in *.
  assert (Ht : t ∈ ns) by (rewrite (app_removelast_last 0 Hne); apply elem_of_app; right; left).
  destruct offsets as (? & ? & ? & _).
  rewrite chain_app by done. exists a. split.
  - rewrite (app_removelast_last 0 Hne), (app_removelast_last (mk_kv 0 0) Hl) in Hc |- *.
    fold t in Hc |- *. eapply chain_link; [| |exact Hc].
    + rewrite !removelast_firstn_len, !length_firstn. lia.
    + eapply (separated_node_next _ _ []). rewrite app_nil_r. unfold t.
      by rewrite <- (app_removelast_last 0 Hne).
  - apply chain_single; [done|..]; (rewrite lookup_insert_ne; [done|]);
      intros Heq; first [apply A2; rewrite <- Heq | apply A3; rewrite <- Heq | apply A1; rewrite <- Heq];
      by apply node_in.
Qed.
End chain.
