(* ===== verification/CkStack.v ===== *)
(** * ConcurrencyKit's UPMC (Treiber) stack ([include/ds_ck_stack_upmc.h]). *)
From stdpp Require Import base numbers gmap list fin_maps option strings.
From S2P Require Import Prelude Machine Logic Api Owned Container Ring Linked.

(** ** Layout of [struct ds_ck_stack_upmc_head] and [struct ds_ck_stack_upmc_entry] *)

Module StackHead.
Definition head (stack : Z) : Z := stack + 0.
Definition count (stack : Z) : Z := stack + 8.
Definition sizeof : Z := 16.
End StackHead.

Module StackEntry.
Definition next (entry : Z) : Z := entry + 0.
Definition data_key (entry : Z) : Z := entry + 8.
Definition data_value (entry : Z) : Z := entry + 16.
Definition sizeof : Z := 24.
End StackEntry.

#[export] Hint Unfold StackHead.head StackHead.count StackHead.sizeof StackEntry.next
  StackEntry.data_key StackEntry.data_value StackEntry.sizeof : layout.

Import StackHead StackEntry.

Definition ds_ck_stack_upmc_init_lkmm (stack : Z) : prog unit :=
  if stack =? 0 then Ret tt else
  WRITE_ONCE (head stack) 0;;
  WRITE_ONCE (count stack) 0.

Definition ds_ck_stack_upmc_init_c (stack : Z) : prog unit :=
  if stack =? 0 then Ret tt else
  arena_atomic_store (head stack) 0 Relaxed;;
  arena_atomic_store (count stack) 0 Relaxed.

Definition ds_ck_stack_upmc_init (s : side) (stack : Z) : prog unit :=
  match s with
  | BPF => ds_ck_stack_upmc_init_lkmm stack
  | USER => ds_ck_stack_upmc_init_c stack
  end.

Definition ds_ck_stack_upmc_isempty_lkmm (stack : Z) : prog bool :=
  if stack =? 0 then Ret true else
  h ← READ_ONCE (head stack);
  Ret (h =? 0).

Definition ds_ck_stack_upmc_isempty_c (stack : Z) : prog bool :=
  if stack =? 0 then Ret true else
  h ← arena_atomic_load (head stack) Acquire;
  Ret (h =? 0).

Definition ds_ck_stack_upmc_isempty (s : side) (stack : Z) : prog bool :=
  match s with
  | BPF => ds_ck_stack_upmc_isempty_lkmm stack
  | USER => ds_ck_stack_upmc_isempty_c stack
  end.

Section loops.
(** A bound on the turns of the retry loops and of the verifier's walk: C has none. *)
Variable fuel : nat.

Definition ds_ck_stack_upmc_push_upmc_lkmm (stack entry key value : Z) : prog unit :=
  if (stack =? 0) || (entry =? 0) then Ret tt else
  store Plain (data_key entry) key;;
  store Plain (data_value entry) value;;
  h ← READ_ONCE (head stack);
  pushed ← loop fuel (fun h =>
    store Plain (next entry) h;;
    observed ← arena_atomic_cmpxchg (head stack) h entry Release Relaxed;
    if observed =? h then break true
    else
      c ← can_loop;
      if (c : bool) then continue observed else break false) h;
  if (pushed : bool) then _ ← arena_atomic_add 64 (count stack) 1 Relaxed; Ret tt else Ret tt.

Definition ds_ck_stack_upmc_push_upmc_c (stack entry key value : Z) : prog unit :=
  if (stack =? 0) || (entry =? 0) then Ret tt else
  store Plain (data_key entry) key;;
  store Plain (data_value entry) value;;
  h ← arena_atomic_load (head stack) Relaxed;
  pushed ← loop fuel (fun h =>
    arena_atomic_store (next entry) h Relaxed;;
    observed ← arena_atomic_cmpxchg (head stack) h entry Release Relaxed;
    if observed =? h then break true else continue observed) h;
  if (pushed : bool) then _ ← arena_atomic_add 64 (count stack) 1 Relaxed; Ret tt else Ret tt.

Definition ds_ck_stack_upmc_push_upmc (s : side) (stack entry key value : Z) : prog unit :=
  match s with
  | BPF => ds_ck_stack_upmc_push_upmc_lkmm stack entry key value
  | USER => ds_ck_stack_upmc_push_upmc_c stack entry key value
  end.

Definition ds_ck_stack_upmc_pop_upmc_lkmm (stack : Z) : prog Z :=
  if stack =? 0 then Ret 0 else
  h ← READ_ONCE (head stack);
  loop fuel (fun h =>
    if h =? 0 then break 0 else
    c ← can_loop;
    if (c : bool) then
      nxt ← READ_ONCE (next h);
      observed ← arena_atomic_cmpxchg (head stack) h nxt Relaxed Relaxed;
      if observed =? h then
        _ ← arena_atomic_sub 64 (count stack) 1 Relaxed;
        break h
      else continue observed
    else break 0) h.

Definition ds_ck_stack_upmc_pop_upmc_c (stack : Z) : prog Z :=
  if stack =? 0 then Ret 0 else
  h ← arena_atomic_load (head stack) Acquire;
  loop fuel (fun h =>
    if h =? 0 then break 0 else
    nxt ← arena_atomic_load (next h) Relaxed;
    observed ← arena_atomic_cmpxchg (head stack) h nxt Acquire Relaxed;
    if observed =? h then
      _ ← arena_atomic_sub 64 (count stack) 1 Relaxed;
      break h
    else continue observed) h.

Definition ds_ck_stack_upmc_pop_upmc (s : side) (stack : Z) : prog Z :=
  match s with
  | BPF => ds_ck_stack_upmc_pop_upmc_lkmm stack
  | USER => ds_ck_stack_upmc_pop_upmc_c stack
  end.

Section alloc.
Context `{Al : Allocator}.

Definition ds_ck_stack_upmc_insert_lkmm (stack key value : Z) : prog Z :=
  if stack =? 0 then Ret DS_ERROR_INVALID else
  entry ← bpf_arena_alloc StackEntry.sizeof;
  if entry =? 0 then Ret DS_ERROR_NOMEM else
  ds_ck_stack_upmc_push_upmc_lkmm stack entry key value;;
  Ret DS_SUCCESS.

Definition ds_ck_stack_upmc_insert_c (stack key value : Z) : prog Z :=
  if stack =? 0 then Ret DS_ERROR_INVALID else
  entry ← bpf_arena_alloc StackEntry.sizeof;
  if entry =? 0 then Ret DS_ERROR_NOMEM else
  ds_ck_stack_upmc_push_upmc_c stack entry key value;;
  Ret DS_SUCCESS.

Definition ds_ck_stack_upmc_insert (s : side) (stack key value : Z) : prog Z :=
  match s with
  | BPF => ds_ck_stack_upmc_insert_lkmm stack key value
  | USER => ds_ck_stack_upmc_insert_c stack key value
  end.
End alloc.

(** [out] is the caller's output pair, [None] for the null pointer. The entry is not freed. *)
Definition ds_ck_stack_upmc_pop_lkmm (stack : Z) (out : option ds_kv) : prog (Z * option ds_kv) :=
  match out with
  | None => Ret (DS_ERROR_INVALID, out)
  | Some _ =>
      if stack =? 0 then Ret (DS_ERROR_INVALID, out) else
      entry ← ds_ck_stack_upmc_pop_upmc_lkmm stack;
      if entry =? 0 then Ret (DS_ERROR_NOT_FOUND, out) else
      k ← load Plain (data_key entry);
      v ← load Plain (data_value entry);
      Ret (DS_SUCCESS, Some (mk_kv k v))
  end.

Definition ds_ck_stack_upmc_pop_c (stack : Z) (out : option ds_kv) : prog (Z * option ds_kv) :=
  match out with
  | None => Ret (DS_ERROR_INVALID, out)
  | Some _ =>
      if stack =? 0 then Ret (DS_ERROR_INVALID, out) else
      entry ← ds_ck_stack_upmc_pop_upmc_c stack;
      if entry =? 0 then Ret (DS_ERROR_NOT_FOUND, out) else
      k ← load Plain (data_key entry);
      v ← load Plain (data_value entry);
      Ret (DS_SUCCESS, Some (mk_kv k v))
  end.

Definition ds_ck_stack_upmc_pop (s : side) (stack : Z) (out : option ds_kv)
  : prog (Z * option ds_kv) :=
  match s with
  | BPF => ds_ck_stack_upmc_pop_lkmm stack out
  | USER => ds_ck_stack_upmc_pop_c stack out
  end.

(** Two cursors, one twice as fast: they meet on a cycle. *)
Definition ds_ck_stack_upmc_verify_lkmm (stack : Z) : prog Z :=
  if stack =? 0 then Ret DS_ERROR_INVALID else
  slow ← READ_ONCE (head stack);
  loop fuel (fun '(slow, fast) =>
    if fast =? 0 then break DS_SUCCESS else
    c ← can_loop;
    if (c : bool) then
      fast_next ← READ_ONCE (next fast);
      if fast_next =? 0 then break DS_SUCCESS else
      fast ← READ_ONCE (next fast_next);
      slow ← (if negb (slow =? 0) then READ_ONCE (next slow) else Ret slow);
      if negb (slow =? 0) && (slow =? fast) then break DS_ERROR_CORRUPT
      else continue (slow, fast)
    else break DS_SUCCESS) (slow, slow).

Definition ds_ck_stack_upmc_verify_c (stack : Z) : prog Z :=
  if stack =? 0 then Ret DS_ERROR_INVALID else
  slow ← arena_atomic_load (head stack) Acquire;
  loop fuel (fun '(slow, fast) =>
    if fast =? 0 then break DS_SUCCESS else
    fast_next ← arena_atomic_load (next fast) Acquire;
    if fast_next =? 0 then break DS_SUCCESS else
    fast ← arena_atomic_load (next fast_next) Acquire;
    slow ← (if negb (slow =? 0) then arena_atomic_load (next slow) Acquire else Ret slow);
    if negb (slow =? 0) && (slow =? fast) then break DS_ERROR_CORRUPT
    else continue (slow, fast)) (slow, slow).

Definition ds_ck_stack_upmc_verify (s : side) (stack : Z) : prog Z :=
  match s with
  | BPF => ds_ck_stack_upmc_verify_lkmm stack
  | USER => ds_ck_stack_upmc_verify_c stack
  end.
End loops.

Definition ds_ck_stack_upmc_trypush_upmc_lkmm (stack entry key value : Z) : prog bool :=
  if (stack =? 0) || (entry =? 0) then Ret false else
  store Plain (data_key entry) key;;
  store Plain (data_value entry) value;;
  h ← READ_ONCE (head stack);
  store Plain (next entry) h;;
  observed ← arena_atomic_cmpxchg (head stack) h entry Release Relaxed;
  if negb (observed =? h) then Ret false else
  _ ← arena_atomic_add 64 (count stack) 1 Relaxed;
  Ret true.

Definition ds_ck_stack_upmc_trypush_upmc_c (stack entry key value : Z) : prog bool :=
  if (stack =? 0) || (entry =? 0) then Ret false else
  store Plain (data_key entry) key;;
  store Plain (data_value entry) value;;
  h ← arena_atomic_load (head stack) Relaxed;
  arena_atomic_store (next entry) h Relaxed;;
  observed ← arena_atomic_cmpxchg (head stack) h entry Release Relaxed;
  if negb (observed =? h) then Ret false else
  _ ← arena_atomic_add 64 (count stack) 1 Relaxed;
  Ret true.

Definition ds_ck_stack_upmc_trypush_upmc (s : side) (stack entry key value : Z) : prog bool :=
  match s with
  | BPF => ds_ck_stack_upmc_trypush_upmc_lkmm stack entry key value
  | USER => ds_ck_stack_upmc_trypush_upmc_c stack entry key value
  end.

(** [entry_out] is what the caller's pointer variable holds, [None] for a null [entry_out]. *)
Definition ds_ck_stack_upmc_trypop_upmc_lkmm (stack : Z) (entry_out : option Z)
  : prog (bool * option Z) :=
  if stack =? 0 then Ret (false, entry_out) else
  h ← READ_ONCE (head stack);
  if h =? 0 then Ret (false, entry_out) else
  nxt ← READ_ONCE (next h);
  observed ← arena_atomic_cmpxchg (head stack) h nxt Relaxed Relaxed;
  if negb (observed =? h) then Ret (false, entry_out) else
  _ ← arena_atomic_sub 64 (count stack) 1 Relaxed;
  Ret (true, match entry_out with None => None | Some _ => Some h end).

Definition ds_ck_stack_upmc_trypop_upmc_c (stack : Z) (entry_out : option Z)
  : prog (bool * option Z) :=
  if stack =? 0 then Ret (false, entry_out) else
  h ← arena_atomic_load (head stack) Acquire;
  if h =? 0 then Ret (false, entry_out) else
  nxt ← arena_atomic_load (next h) Relaxed;
  observed ← arena_atomic_cmpxchg (head stack) h nxt Acquire Relaxed;
  if negb (observed =? h) then Ret (false, entry_out) else
  _ ← arena_atomic_sub 64 (count stack) 1 Relaxed;
  Ret (true, match entry_out with None => None | Some _ => Some h end).

Definition ds_ck_stack_upmc_trypop_upmc (s : side) (stack : Z) (entry_out : option Z)
  : prog (bool * option Z) :=
  match s with
  | BPF => ds_ck_stack_upmc_trypop_upmc_lkmm stack entry_out
  | USER => ds_ck_stack_upmc_trypop_upmc_c stack entry_out
  end.

(** The stack has no keyed deletion. *)
Definition ds_ck_stack_upmc_delete (stack key : Z) : prog Z :=
  if stack =? 0 then Ret DS_ERROR_INVALID else Ret DS_ERROR_INVALID.

Definition STACK_MAX_STEPS : Z := 100000.

Definition ds_ck_stack_upmc_search_lkmm (stack key : Z) : prog Z :=
  if stack =? 0 then Ret DS_ERROR_INVALID else
  cursor ← READ_ONCE (head stack);
  loop (S (Z.to_nat STACK_MAX_STEPS)) (fun '(cursor, iterations) =>
    if negb (cursor =? 0) && (iterations <? STACK_MAX_STEPS) then
      c ← can_loop;
      if (c : bool) then
        k ← load Plain (data_key cursor);
        if k =? key then break DS_SUCCESS else
        cursor ← READ_ONCE (next cursor);
        continue (cursor, iterations + 1)
      else break DS_ERROR_NOT_FOUND
    else break DS_ERROR_NOT_FOUND) (cursor, 0).

Definition ds_ck_stack_upmc_search_c (stack key : Z) : prog Z :=
  if stack =? 0 then Ret DS_ERROR_INVALID else
  cursor ← arena_atomic_load (head stack) Acquire;
  loop (S (Z.to_nat STACK_MAX_STEPS)) (fun '(cursor, iterations) =>
    if negb (cursor =? 0) && (iterations <? STACK_MAX_STEPS) then
      k ← load Plain (data_key cursor);
      if k =? key then break DS_SUCCESS else
      cursor ← arena_atomic_load (next cursor) Acquire;
      continue (cursor, iterations + 1)
    else break DS_ERROR_NOT_FOUND) (cursor, 0).

Definition ds_ck_stack_upmc_search (s : side) (stack key : Z) : prog Z :=
  match s with
  | BPF => ds_ck_stack_upmc_search_lkmm stack key
  | USER => ds_ck_stack_upmc_search_c stack key
  end.

(** [stats] is the caller's structure, [None] for the null pointer. *)
Definition with_current (st : ds_stats) (n : Z) : ds_stats :=
  {| st_ops := st_ops st; st_current_elements := n; st_max_elements := 0; st_memory_used := 0 |}.

Definition ds_ck_stack_upmc_stats_lkmm (stack : Z) (stats : option ds_stats)
  : prog (Z * option ds_stats) :=
  match stats with
  | None => Ret (DS_ERROR_INVALID, stats)
  | Some st =>
      if stack =? 0 then Ret (DS_ERROR_INVALID, stats) else
      n ← READ_ONCE (count stack);
      Ret (DS_SUCCESS, Some (with_current st n))
  end.

Definition ds_ck_stack_upmc_stats_c (stack : Z) (stats : option ds_stats)
  : prog (Z * option ds_stats) :=
  match stats with
  | None => Ret (DS_ERROR_INVALID, stats)
  | Some st =>
      if stack =? 0 then Ret (DS_ERROR_INVALID, stats) else
      n ← arena_atomic_load (count stack) Relaxed;
      Ret (DS_SUCCESS, Some (with_current st n))
  end.

Definition ds_ck_stack_upmc_stats (s : side) (stack : Z) (stats : option ds_stats)
  : prog (Z * option ds_stats) :=
  match s with
  | BPF => ds_ck_stack_upmc_stats_lkmm stack stats
  | USER => ds_ck_stack_upmc_stats_c stack stats
  end.

Lemma stack_layout : layout_ok 0 8 16 24.
Proof. unfold layout_ok. lia. Qed.

(** ** Representation: a chain of entries from the head, top first. *)
Section spec.
Context `{K : Kernel} `{Al : Allocator} `{!AllocLaws Al}.
Variables (h : Z) (fuel : nat).
Hypothesis h_pos : 0 < h.
Hypothesis fuel_pos : (0 < fuel)%nat.

Notation entries m p ns l := (chain 0 8 16 m p ns l 0).

Definition stack_own (ns : list Z) : list block := (h, 16) :: node_blocks 24 ns.

Record stack_repr (ns : list Z) (l : list ds_kv) (m : mem) : Prop := {
  st_chain : exists p, m !! head h = Some p /\ entries m p ns l;
  st_count : m !! count h = Some (u64 (Zlen l));
  st_sep : separated (stack_own ns)
}.

Lemma stack_head_apart ns a : separated (stack_own ns) -> in_block h 16 a ->
  ~ in_live (node_blocks 24 ns) a.
Proof. intros [Hd _] Ha. by apply Hd. Qed.

Lemma stack_repr_frame ns l m m' :
  (forall a, in_live (stack_own ns) a -> m' !! a = m !! a) ->
  stack_repr ns l m -> stack_repr ns l m'.
Proof.
  intros Hf [(p & Hp & Hc) Hn Hs].
  assert (Hh : forall a, in_block h 16 a -> m' !! a = m !! a)
    by (intros a Ha; apply Hf, in_live_cons; by left).
  split; [|by rewrite Hh by addr|done].
  exists p. split; [by rewrite Hh by addr|]. eapply chain_frame; [apply stack_layout| |done].
  intros a Ha. apply Hf, in_live_cons. by right.
Qed.

(** Pushing the freshly allocated block [a]. *)
Definition after_push (a n p : Z) (e : ds_kv) (m : mem) : mem :=
  <[count h:=u64 (n + 1)]>
    (<[head h:=a]> (<[next a:=p]> (<[data_value a:=kv_value e]> (<[data_key a:=kv_key e]> m)))).

Lemma stack_repr_push a ns l e p m :
  stack_repr ns l m -> m !! head h = Some p -> 0 < a -> disjoint_block a 24 (stack_own ns) ->
  stack_repr (a :: ns) (e :: l) (after_push a (u64 (Zlen l)) p e m).
Proof.
  intros [(p' & Hp & Hc) Hn Hs] Hp' Ha Hd. rewrite Hp' in Hp. injection Hp as <-.
  assert (Hsep : h + 16 <= a \/ a + 24 <= h)
    by (eapply (disjoint_block_sep a 24 h 16); [exact Hd|left|lia|lia]).
  assert (Hblk : forall c, in_block a 24 c -> ~ in_live (node_blocks 24 ns) c).
  { intros c Hcb Hin. apply (Hd c Hcb), in_live_cons. by right. }
  pose proof (stack_head_apart ns) as Hhd. unfold after_push. split.
  - exists a. split; [mlook|]. split; [done|]. split; [done|].
    split; [mlook|]. split; [mlook|]. exists p. split; [mlook|].
    eapply chain_frame; [apply stack_layout| |exact Hc]. intros c Hin.
    rewrite !lookup_insert_ne; [done|..]; intros <-;
      first [eapply Hblk; [|exact Hin]; addr | eapply Hhd; [done| |exact Hin]; addr].
  - rewrite u64_add_l, Zlen_cons. mlookv.
  - cbn. destruct Hs as [Hs1 Hs2]. apply disjoint_block_cons in Hd as [Hd1 Hd2].
    split_and!; try done. apply disjoint_block_cons. split; [|done]. intros c Hc1 Hc2. by apply (Hd1 c).
Qed.
Lemma push_ok s a p n e m b :
  m !! head h = Some p -> m !! count h = Some n -> 0 < a -> h + 16 <= a \/ a + 24 <= h ->
  mapped_words a 24 m ->
  wpr (ds_ck_stack_upmc_push_upmc fuel s h a (kv_key e) (kv_value e)) m b
    (fun _ m' b' => b' = b /\ m' = after_push a n p e m).
Proof.
  intros Hp Hn Ha Hsep Hm.
  pose proof (Hm 0 ltac:(lia) ltac:(lia)) as M0. pose proof (Hm 1 ltac:(lia) ltac:(lia)) as M1.
  pose proof (Hm 2 ltac:(lia) ltac:(lia)) as M2. cbn in M0, M1, M2.
  destruct fuel as [|f]; [lia|].
  destruct s; unfold ds_ck_stack_upmc_push_upmc, ds_ck_stack_upmc_push_upmc_lkmm,
    ds_ck_stack_upmc_push_upmc_c; pif; prun; ploop; prun; rewrite Z.eqb_refl; prun; done.
Qed.

Lemma stack_insert_ok s ns l rest m b e :
  heap_holds (stack_own ns) rest m -> stack_repr ns l m -> alloc_pre 24 m ->
  wpr (ds_ck_stack_upmc_insert fuel s h (kv_key e) (kv_value e)) m b (fun r m' b' =>
    b' = b /\ (forall a, in_live rest a -> m' !! a = m !! a) /\
    ((r = DS_ERROR_NOMEM /\ heap_holds (stack_own ns) rest m' /\ stack_repr ns l m') \/
     (r = DS_SUCCESS /\ exists a,
        heap_holds (stack_own (a :: ns)) rest m' /\ stack_repr (a :: ns) (e :: l) m'))).
Proof.
  intros Hh Hr Hpre.
  apply (wpr_mono _ _ _ (fun r m' b' => b' = b /\ exists m1 a,
    (forall c, in_live (stack_own ns ++ rest) c -> m1 !! c = m !! c) /\
    ((r = DS_ERROR_NOMEM /\ m' = m1 /\ heap_holds (stack_own ns) rest m1) \/
     (r = DS_SUCCESS /\ 0 < a /\ disjoint_block a 24 (stack_own ns ++ rest) /\
      heap_holds ((a, 24) :: stack_own ns) rest m1 /\
      exists p, m1 !! head h = Some p /\ m' = after_push a (u64 (Zlen l)) p e m1)))).
  - destruct s; unfold ds_ck_stack_upmc_insert, ds_ck_stack_upmc_insert_lkmm,
      ds_ck_stack_upmc_insert_c; pif; (eapply wpr_call; [by apply alloc_owned|]);
      intros a m1 b1 (-> & Hsame & Ha).
    all: destruct Ha as [[-> Hh1]|(Ha & Hin & Hd & Hm1 & Hh1)];
      [pif_true; prun; split; [done|]; exists m1, 0; split; [done|]; by left|].
    all: pif_false; destruct (stack_repr_frame ns l m m1) as [(p & Hp & Hc1) Hn Hs];
      [intros c Hc'; apply Hsame, in_live_app; by left|done|].
    all: eapply wpr_call; [first [apply (push_ok BPF a p) | apply (push_ok USER a p)]; try done|].
    all: try (eapply (disjoint_block_sep a 24 h 16); [exact Hd|left|lia|lia]).
    all: intros _ m2 b2 (-> & ->); prun; split; [done|]; exists m1, a; split; [done|]; right.
    all: split_and!; try done; by exists p.
  - intros r m' b' (-> & m1 & a & Hsame & H). split; [done|].
    assert (Hr1 : stack_repr ns l m1).
    { eapply stack_repr_frame; [|exact Hr]. intros c Hc. apply Hsame, in_live_app. by left. }
    destruct H as [(-> & -> & Hh1)|(-> & Ha & Hd & Hh1 & p & Hp & ->)].
    + split; [intros c Hc; apply Hsame, in_live_app; by right|by left].
    + assert (Hown : forall c, in_block h 16 c \/ in_block a 24 c -> in_live ((a, 24) :: stack_own ns) c).
      { intros c [Hc|Hc]; apply in_live_cons; [right; apply in_live_cons|]; auto. }
      destruct (heap_holds_update _ _ m1 (after_push a (u64 (Zlen l)) p e m1) Hh1)
        as [Hh2 Hrest]; [|by unfold after_push; auto 8 with arena|].
      { unfold after_push.
        repeat (apply unchanged_insert_trans; [apply Hown; addr|]). apply unchanged_refl. }
      split; [intros c Hc; rewrite Hrest by done; apply Hsame, in_live_app; by right|].
      right. split; [done|]. exists a. split.
      * eapply heap_holds_perm; [apply perm_swap|done].
      * apply stack_repr_push; try done. by apply disjoint_block_app in Hd as [Hd _].
Qed.
Lemma stack_pop_ok s ns l m b d :
  stack_repr ns l m -> budget s 1 b ->
  wpr (ds_ck_stack_upmc_pop fuel s h (Some d)) m b (fun r m' _ =>
    match l with
    | [] => r = (DS_ERROR_NOT_FOUND, Some d) /\ m' = m
    | e :: l' =>
        r = (DS_SUCCESS, Some e) /\ (exists a ns', ns = a :: ns' /\ stack_repr ns' l' m') /\
        unchanged_outside (in_block h 16) m m' /\ grows m m'
    end).
Proof.
  intros [(p & Hp & Hc) Hn Hs] Hb. destruct fuel as [|f] eqn:Ef; [lia|].
  destruct s; unfold ds_ck_stack_upmc_pop, ds_ck_stack_upmc_pop_lkmm, ds_ck_stack_upmc_pop_c,
    ds_ck_stack_upmc_pop_upmc_lkmm, ds_ck_stack_upmc_pop_upmc_c; try specialize (Hb eq_refl);
    pif; apply wpr_bind; prun; ploop; rewrite (chain_null _ _ _ _ _ _ _ Hc).
  all: destruct ns as [|a ns'], l as [|e l']; cbn [chain] in Hc; try done.
  all: destruct Hc as (-> & Ha & Hk & Hv & p' & Hnx & Hc); prun; rewrite Z.eqb_refl.
  all: assert (Hsep : a + 24 <= h \/ h + 16 <= a)
    by (destruct Hs as [Hd _]; eapply (disjoint_block_sep h 16 a 24); [exact Hd|left|lia|lia]).
  all: prun; pif_false; prun; split; [by destruct e|]; cbn [rmw_eval].
  all: split; [exists a, ns'; split; [done|]|split; [frame|auto with arena]].
  all: assert (Hs' : separated (stack_own ns')) by
    (destruct Hs as [Hd [_ Hs]]; apply disjoint_block_cons in Hd as [_ Hd]; done).
  all: pose proof (stack_head_apart ns') as Hhd; split; [exists p'; split; [mlook|]| |done].
  1,3: eapply chain_frame; [apply stack_layout| |exact Hc]; intros c Hin;
    rewrite !lookup_insert_ne; [done|..]; intros <-; eapply Hhd; [done| |exact Hin|done| |exact Hin]; addr.
  all: eapply lookup_value; [mlook|]; rewrite Zlen_cons; fold (u64 (u64 (1 + Zlen l') - 1));
    rewrite u64_sub_l; f_equal; lia.
Qed.
(** Searching finds a key exactly when one of the topmost [STACK_MAX_STEPS] pairs has it. *)
Lemma stack_search_ok s ns l m b key :
  stack_repr ns l m -> budget s (length l) b ->
  wpr (ds_ck_stack_upmc_search s h key) m b (fun r m' _ =>
    r = search_result key (take (Z.to_nat STACK_MAX_STEPS) l) /\ m' = m).
Proof.
  intros [(p & Hp & Hc) Hn Hs] Hb. assert (Hmax : 0 <= STACK_MAX_STEPS) by done.
  destruct s; unfold ds_ck_stack_upmc_search, ds_ck_stack_upmc_search_lkmm,
    ds_ck_stack_upmc_search_c; pif; prun.
  1: pose (sd := BPF). 2: pose (sd := USER).
  all: apply (wpr_loop _ (fun n '(cursor, it) m' b' => m' = m /\ exists ns' rest,
         entries m cursor ns' rest /\ n = Z.to_nat (STACK_MAX_STEPS - it) /\
         0 <= it <= STACK_MAX_STEPS /\ budget sd (length rest) b' /\
         search_result key (take n rest) =
           search_result key (take (Z.to_nat STACK_MAX_STEPS) l)) _ (Z.to_nat STACK_MAX_STEPS));
    [|split; [done|]; exists ns, l; rewrite Z.sub_0_r; split_and!; (done || lia)|lia].
  all: intros n [cursor it] m' b' (-> & ns' & rest & Hch & -> & Hit & Hbn & Hres).
  all: rewrite (chain_null _ _ _ _ _ _ _ Hch); destruct (it <? STACK_MAX_STEPS) eqn:Elt;
    rewrite ?andb_true_r, ?andb_false_r;
    [|replace (STACK_MAX_STEPS - it) with 0 in Hres by lia; prun; by rewrite <- Hres].
  all: replace (Z.to_nat (STACK_MAX_STEPS - it)) with (S (Z.to_nat (STACK_MAX_STEPS - (it + 1))))
      in * by lia.
  all: destruct ns' as [|a ns'], rest as [|e rest]; cbn [chain negb] in *; try done.
  all: destruct Hch as (-> & Ha & Hk & Hv & p' & Hnx & Hch); try specialize (Hbn eq_refl);
    cbn [length take] in *; prun.
  all: unfold search_result, has_key in *; cbn [existsb] in Hres;
    destruct (kv_key e =? key); prun; [done|].
  all: eexists; split; [apply Nat.lt_succ_diag_r|]; split; [done|]; exists ns', rest;
    split_and!; try (done || lia); intros ?; (done || lia).
Qed.

(** The verifier, Floyd's two-speed walk, ends and accepts every well-formed stack: a sound stack
    has no cycle, and the fast cursor runs off its end. *)
Lemma stack_verify_ok s ns l m b :
  stack_repr ns l m -> (length l < fuel)%nat ->
  wpr (ds_ck_stack_upmc_verify fuel s h) m b (fun r m' _ => r = DS_SUCCESS /\ m' = m).
Proof.
  intros [(p & Hp & Hc) Hn Hs] Hfuel.
  assert (Hnd : NoDup ns).
  { destruct Hs as [_ Hs]. eapply (separated_nodup _ _ _ _ stack_layout ns []).
    by rewrite app_nil_r. }
  rewrite <- (chain_length _ _ _ _ _ _ _ _ Hc) in Hfuel.
  destruct s; unfold ds_ck_stack_upmc_verify, ds_ck_stack_upmc_verify_lkmm,
    ds_ck_stack_upmc_verify_c; pif; prun.
  all: apply (wpr_loop _ (fun n '(slow, fast) m' b' => m' = m /\ exists pre ns' ls lf,
         NoDup (pre ++ ns') /\ entries m slow (pre ++ ns') ls /\ entries m fast ns' lf /\
         n = length ns') _ (length ns)); [|by split; [done|]; exists [], ns, l, l|done].
  all: intros n [slow fast] m' b' (-> & pre & ns' & ls & lf & Hnd' & Hslow & Hfast & ->).
  all: destruct ns' as [|x ns'], lf as [|ex lf]; cbn [chain] in Hfast; try done;
    [subst fast; prun; done|]; destruct Hfast as (-> & Hx & _ & _ & nf & Hnf & Hfast); pif_false.
  1: destruct b' as [|b']; [apply wpr_bind, wpr_can_loop_exhausted; prun; done|].
  all: prun.
  all: destruct ns' as [|y ns'], lf as [|ey lf]; cbn [chain] in Hfast; try done;
    [subst nf; prun; done|]; destruct Hfast as (-> & Hy & _ & _ & nf' & Hnf' & Hfast); pif_false; prun.
  all: assert (exists c pre' ls' ec, pre ++ x :: y :: ns' = c :: pre' ++ y :: ns' /\ ls = ec :: ls')
    as (c & pre' & ls' & ec & Epre & ->)
    by (destruct ls as [|ec ls']; [by destruct pre|]; destruct pre as [|c pre'];
        [exists x, [], ls', ec|exists c, (pre' ++ [x]), ls', ec; rewrite <- app_assoc]; done).
  all: rewrite Epre in Hnd', Hslow; cbn [chain] in Hslow;
    destruct Hslow as (-> & Hcpos & _ & _ & sn & Hsn & Hslow); pif_true; prun.
  all: assert (Hz : exists z pre2, pre' ++ y :: ns' = z :: pre2 ++ ns')
    by (destruct pre' as [|z pre2]; [by exists y, []|exists z, (pre2 ++ [y]); by rewrite <- app_assoc]).
  all: destruct Hz as (z & pre2 & Ez); rewrite Ez in Hslow, Hnd'; apply NoDup_cons in Hnd' as [_ Hnd'].
  all: destruct ls' as [|ez ls']; [done|]; pose proof Hslow as (-> & Hz & _).
  all: assert (Hne : z <> nf') by (intros ->; destruct ns' as [|w ns'], lf; cbn [chain] in Hfast;
      try done; [lia|]; destruct Hfast as (-> & _); apply NoDup_cons in Hnd' as [Hnin _];
      apply Hnin; apply elem_of_app; right; left).
  all: pif_false; prun; exists (length ns'); split; [cbn; lia|]; split; [done|].
  all: exists (z :: pre2), ns', (ez :: ls'), lf; done.
Qed.

Lemma stack_isempty_ok s ns l m b :
  stack_repr ns l m ->
  wpr (ds_ck_stack_upmc_isempty s h) m b
    (fun r m' b' => r = (Zlen l =? 0) /\ m' = m /\ b' = b).
Proof.
  intros [(p & Hp & Hc) Hn Hs].
  destruct s; unfold ds_ck_stack_upmc_isempty, ds_ck_stack_upmc_isempty_lkmm,
    ds_ck_stack_upmc_isempty_c; pif; prun; rewrite (chain_null _ _ _ _ _ _ _ Hc);
    (split; [|done]); destruct l; rewrite ?Zlen_cons; try done; pose proof (Zlen_nonneg l); lia.
Qed.

Lemma stack_stats_ok s ns l m b st :
  stack_repr ns l m -> Zlen l < 2 ^ 64 ->
  wpr (ds_ck_stack_upmc_stats s h (Some st)) m b (fun r m' b' =>
    r = (DS_SUCCESS, Some (with_current st (Zlen l))) /\ m' = m /\ b' = b).
Proof.
  intros [_ Hn _] Hl. pose proof (Zlen_nonneg l). rewrite u64_id in Hn by lia.
  destruct s; unfold ds_ck_stack_upmc_stats, ds_ck_stack_upmc_stats_lkmm,
    ds_ck_stack_upmc_stats_c; pif; prun; done.
Qed.

Lemma stack_init_ok s m b :
  is_Some (m !! head h) -> is_Some (m !! count h) ->
  wpr (ds_ck_stack_upmc_init s h) m b (fun _ m' b' =>
    stack_repr [] [] m' /\ unchanged_outside (in_block h 16) m m' /\ grows m m' /\ b' = b).
Proof.
  intros M1 M2. destruct s; unfold ds_ck_stack_upmc_init, ds_ck_stack_upmc_init_lkmm,
    ds_ck_stack_upmc_init_c; pif; prun;
    (split; [|split; [frame|split; [auto with arena|done]]]);
    (split; [exists 0; split; [mlook|done]|mlook|]); split; try done;
    intros a _; apply in_live_nil.
Qed.

(** One attempt is enough when nobody interferes. *)
Lemma stack_trypush_ok s a p n e m b :
  m !! head h = Some p -> m !! count h = Some n -> 0 < a -> h + 16 <= a \/ a + 24 <= h ->
  mapped_words a 24 m ->
  wpr (ds_ck_stack_upmc_trypush_upmc s h a (kv_key e) (kv_value e)) m b
    (fun r m' b' => r = true /\ m' = after_push a n p e m /\ b' = b).
Proof.
  intros Hp Hn Ha Hsep Hm.
  pose proof (Hm 0 ltac:(lia) ltac:(lia)) as M0. pose proof (Hm 1 ltac:(lia) ltac:(lia)) as M1.
  pose proof (Hm 2 ltac:(lia) ltac:(lia)) as M2. cbn in M0, M1, M2.
  destruct s; unfold ds_ck_stack_upmc_trypush_upmc, ds_ck_stack_upmc_trypush_upmc_lkmm,
    ds_ck_stack_upmc_trypush_upmc_c; pif; prun; rewrite Z.eqb_refl; pif_false; prun; done.
Qed.

(** The observers: [isempty] answers whether the stack is empty, and [stats] reports the
    number of its elements; neither changes it. *)
Lemma stack_observers s ns l m b st :
  stack_repr ns l m -> Zlen l < 2 ^ 64 ->
  wpr (ds_ck_stack_upmc_isempty s h) m b
    (fun r m' b' => r = (Zlen l =? 0) /\ m' = m /\ b' = b) /\
  wpr (ds_ck_stack_upmc_stats s h (Some st)) m b (fun r m' b' =>
    r = (DS_SUCCESS, Some (with_current st (Zlen l))) /\ m' = m /\ b' = b).
Proof. intros Hr Hl. split; [by eapply stack_isempty_ok|by eapply stack_stats_ok]. Qed.
End spec.

(** ** The stack as a container *)

Section container.
Context `{K : Kernel} `{Al : Allocator} `{!AllocLaws Al}.
Variables (s : side) (h : Z) (fuel : nat).
Hypothesis h_pos : 0 < h.
Hypothesis fuel_pos : (0 < fuel)%nat.
Hypothesis alloc_ready : forall live sz m, heap_ok live m -> alloc_pre sz m.

Lemma stack_own_tail a ns : stack_own h (a :: ns) ≡ₚ (a, 24) :: stack_own h ns.
Proof. apply perm_swap. Qed.

Definition stack_container : Container := {|
  c_init := ds_ck_stack_upmc_init s h;; Ret DS_SUCCESS;
  c_insert := ds_ck_stack_upmc_insert fuel s h;
  c_pop := ds_ck_stack_upmc_pop fuel s h;
  c_home := (h, 16);
  c_ready m := is_Some (m !! head h) /\ is_Some (m !! count h);
  c_blank _ := True;
  c_inv own l m := exists ns, own = stack_own h ns /\ stack_repr h ns l m;
  c_spec := unbounded lifo_add;
  c_init_budget := 0;
  c_budget := 1
|}.

#[export] Instance stack_container_laws : ContainerLaws s stack_container.
Proof.
  split.
  - intros own l m m' Hf (ns & -> & Hr). exists ns. split; [done|]. by eapply stack_repr_frame.
  - intros m m' Hf. assert (Hh : forall a, in_block h 16 a -> m' !! a = m !! a)
      by (intros a Ha; by apply Hf, in_own_head).
    split; cbn; [rewrite !Hh by addr|]; done.
  - intros rest m b j Hh [M1 M2] Hb. eapply wpr_call; [by apply (stack_init_ok h fuel h_pos fuel_pos s)|].
    intros _ m' b' (Hr & Hu & Hg & ->). apply wpr_ret. split; [exact Hb|].
    destruct (heap_holds_update [(h, 16)] rest m m' Hh) as [Hh' Hrest]; [|done|].
    { eapply unchanged_mono; [exact Hu|]. intros a Ha. by apply in_own_head. }
    split; [done|right]. split; [done|]. exists (stack_own h []). split; [done|]. by exists [].
  - intros own rest l m b e Hh (ns & -> & Hr) _.
    eapply wpr_mono; [apply (stack_insert_ok h fuel h_pos fuel_pos s ns l rest); try done;
      by destruct Hh; eapply alloc_ready|].
    intros r m' b' (_ & Hrest & [(-> & Hh' & Hr')|(-> & a & Hh' & Hr')]); (split; [done|]).
    + exists (stack_own h ns), l. split; [done|]. split; [by exists ns|by right].
    + exists (stack_own h (a :: ns)), (e :: l). split; [done|]. split; [by exists (a :: ns)|by left].
  - intros own rest l m b d Hh (ns & -> & Hr) Hb.
    eapply wpr_mono; [by apply (stack_pop_ok h fuel h_pos fuel_pos s ns l)|].
    intros r m' b' Hpost. destruct l as [|e l'].
    + destruct Hpost as [-> ->]. split; [done|]. exists (stack_own h ns). split; [done|].
      split; [done|]. by exists ns.
    + destruct Hpost as (-> & (a & ns' & -> & Hr') & Hu & Hg).
      destruct (heap_holds_update _ rest m m' Hh) as [Hh' Hrest]; [|done|].
      { eapply unchanged_mono; [exact Hu|]. intros c Hc. by apply in_own_head. }
      split; [done|]. exists (stack_own h ns'). split; [|split; [done|by exists ns']].
      eapply heap_holds_drop, heap_holds_perm; [apply stack_own_tail|exact Hh'].
Qed.
End container.
