(* ===== verification/CkStackConc.v ===== *)
(** * The Treiber stack, shared by any number of threads.

    Each thread pushes entries of its own and pops, in either build. A push takes effect at its
    successful compare-and-swap, a successful pop likewise, a pop that finds the stack empty when
    it reads the null head. Entries are never reused, so a compare-and-swap that succeeds saw the
    present top: [pub] only grows and the cells of published entries never change. *)
From stdpp Require Import base numbers gmap list fin_maps option relations.
From S2P Require Import Prelude Machine Logic Api Owned Container Conc Threads Ring Linked CkStack.
Import StackHead StackEntry.

(** ** Clients *)

(** What a thread asks for: to push the pair [e] in the entry it allocated, or to pop into a
    pair that holds [d]. *)
Inductive stack_call := SPush (entry : Z) (e : ds_kv) | SPop (d : ds_kv).

Definition call_op (c : stack_call) : op :=
  match c with SPush _ e => OInsert e | SPop d => OPop d end.

Definition call_entry (c : stack_call) : option Z :=
  match c with SPush a _ => Some a | SPop _ => None end.

Definition entries_of (cs : list stack_call) : list Z := omap call_entry cs.

Definition run_call (fuel : nat) (s : side) (h : Z) (c : stack_call) : prog event :=
  match c with
  | SPush a e =>
      ds_ck_stack_upmc_push_upmc fuel s h a (kv_key e) (kv_value e);;
      Ret (EInsert e DS_SUCCESS)
  | SPop d => r ← ds_ck_stack_upmc_pop fuel s h (Some d); Ret (EPop d r.1 r.2)
  end.

Fixpoint run_calls (fuel : nat) (s : side) (h : Z) (cs : list stack_call) : prog (list event) :=
  match cs with
  | [] => Ret []
  | c :: cs' =>
      ev ← run_call fuel s h c;
      evs ← run_calls fuel s h cs';
      Ret (ev :: evs)
  end.

(** ** The ghost state *)

(** Everything ever published, the stack (entries and pairs), the history, the operations each
    thread has left, and what each thread owes to the counter. *)
Record sview := mk_sview {
  sv_pub : list Z;
  sv_top : list Z;
  sv_items : list ds_kv;
  sv_hist : history;
  sv_todo : list nat;
  sv_owed : list Z
}.

Section stack.
Context `{K : Kernel}.
Variables (h : Z) (l0 : list ds_kv) (nodes : list Z) (E : nat -> list Z) (N T : nat).
Hypothesis h_pos : 0 < h.
Hypothesis nodes_pos : forall a, a ∈ nodes -> 0 < a.
Hypothesis nodes_sep : separated (stack_own h nodes).
Hypothesis E_nodes : forall i a, a ∈ E i -> a ∈ nodes.
Hypothesis E_apart : forall i j a, i <> j -> a ∈ E i -> ~ a ∈ E j.
Implicit Types (s : mem * sview) (g : sview) (F : list Z) (evs : list event).

Notation entries m p ns l := (chain 0 8 16 m p ns l 0).

Record stack_inv s : Prop := {
  si_chain : exists p, s.1 !! head h = Some p /\ entries s.1 p s.2.(sv_top) s.2.(sv_items);
  si_count : s.1 !! count h = Some (u64 (Zlen s.2.(sv_items) - zsum s.2.(sv_owed)));
  si_nodup : NoDup s.2.(sv_top);
  si_top : forall a, a ∈ s.2.(sv_top) -> a ∈ s.2.(sv_pub);
  si_pub : forall a, a ∈ s.2.(sv_pub) -> a ∈ nodes;
  si_mapped : forall a, a ∈ nodes -> mapped_words a 24 s.1;
  si_hist : abs_steps (unbounded lifo_add) l0 (s.2.(sv_hist).*2) s.2.(sv_items);
  si_owed : length s.2.(sv_owed) = N;
  si_who : Forall (fun p => (p.1 < N)%nat) s.2.(sv_hist)
}.

Definition total s : nat := sum_list s.2.(sv_todo).

(** Progress: an operation took effect, or the head is where it was. *)
Definition advanced s s' : Prop :=
  (total s' < total s)%nat \/ (total s' = total s /\ s'.1 !! head h = s.1 !! head h).

(** The cells that nobody but thread [i] may change. *)
Definition kept i s (c : Z) : Prop := exists a, (a ∈ s.2.(sv_pub) \/ a ∈ E i) /\ in_block a 24 c.

(** The cells that thread [i] may change. *)
Definition writable i s (c : Z) : Prop :=
  c = head h \/ c = count h \/ exists a, a ∈ E i /\ ~ a ∈ s.2.(sv_pub) /\ in_block a 24 c.

Definition rely i s s' : Prop :=
  stack_inv s -> stack_inv s' /\
    mine i s'.2.(sv_hist) = mine i s.2.(sv_hist) /\
    s'.2.(sv_todo) !! i = s.2.(sv_todo) !! i /\
    s'.2.(sv_owed) !! i = s.2.(sv_owed) !! i /\
    (forall a, a ∈ s.2.(sv_pub) -> a ∈ s'.2.(sv_pub)) /\
    (forall a, a ∈ E i -> a ∈ s'.2.(sv_pub) -> a ∈ s.2.(sv_pub)) /\
    (forall c, kept i s c -> s'.1 !! c = s.1 !! c) /\
    advanced s s'.

Definition guar i s s' : Prop :=
  stack_inv s -> stack_inv s' /\
    (forall j, i <> j -> mine j s'.2.(sv_hist) = mine j s.2.(sv_hist) /\
       s'.2.(sv_todo) !! j = s.2.(sv_todo) !! j /\ s'.2.(sv_owed) !! j = s.2.(sv_owed) !! j) /\
    (forall a, a ∈ s.2.(sv_pub) -> a ∈ s'.2.(sv_pub)) /\
    (forall a, a ∈ s'.2.(sv_pub) -> a ∈ s.2.(sv_pub) \/ a ∈ E i) /\
    unchanged_outside (writable i s) s.1 s'.1 /\
    advanced s s'.

Lemma advanced_trans s1 s2 s3 : advanced s1 s2 -> advanced s2 s3 -> advanced s1 s3.
Proof. unfold advanced. intros [?|[? E1]] [?|[? E2]]; [left; lia..|right]. split; congruence. Qed.

#[local] Instance rely_preorder i : PreOrder (rely i).
Proof.
  split.
  - intros s Hi. split_and!; try done. by right.
  - intros s1 s2 s3 H12 H23 Hi. destruct (H12 Hi) as (Hi2 & A1 & A2 & A3 & A4 & A5 & A6 & A7).
    destruct (H23 Hi2) as (Hi3 & B1 & B2 & B3 & B4 & B5 & B6 & B7).
    split_and!; [done|congruence|congruence|congruence|auto|auto| |by eapply advanced_trans].
    intros c Hc. rewrite B6, A6; [done|done|]. destruct Hc as (a & [Ha|Ha] & Hac); exists a; auto.
Qed.

#[local] Instance guar_refl i : Reflexive (guar i).
Proof. intros s Hi. split_and!; auto. - apply unchanged_refl. - by right. Qed.

Lemma head_cell a : a ∈ nodes -> ~ in_block a 24 (head h) /\ ~ in_block a 24 (count h).
Proof.
  intros Ha. pose proof nodes_sep as [Hd _].
  assert (Hin : forall c, in_block a 24 c -> in_live (node_blocks 24 nodes) c).
  { intros c Hc. exists a, 24. split; [|done]. apply list_elem_of_In, in_map_iff. exists a.
    by rewrite <- list_elem_of_In. }
  split; intros Hc; eapply (Hd _); [|by apply Hin| |by apply Hin]; addr.
Qed.

Lemma nodes_apart a b c : a ∈ nodes -> b ∈ nodes -> a <> b -> in_block a 24 c -> ~ in_block b 24 c.
Proof.
  intros Ha Hb Hne. pose proof nodes_sep as [_ Hs].
  eapply (separated_nodes_apart 24 nodes []); [by rewrite app_nil_r|done..].
Qed.

Lemma guar_compatible i j s s' : i <> j -> guar i s s' -> rely j s s'.
Proof.
  intros Hne HG Hi. destruct (HG Hi) as (Hi' & Hj & Hp & Hp' & Hu & Ha).
  destruct (Hj j Hne) as (J1 & J2 & J3). split_and!; try done.
  - intros a HaE Hap. destruct (Hp' a Hap) as [|HaE']; [done|]. by destruct (E_apart i j a).
  - intros c (a & Hk & Hac). apply Hu. assert (Han : a ∈ nodes).
    { destruct Hk as [Hk|Hk]; [by apply (si_pub _ Hi)|by eapply E_nodes]. }
    destruct (head_cell a Han) as [A1 A2].
    intros [-> |[-> |(b & Hb & Hbp & Hbc)]]; [done..|]. revert Hbc.
    apply (nodes_apart a b); [done|by eapply E_nodes| |done]. intros <-.
    destruct Hk as [Hk|Hk]; [done|by apply (E_apart i j a)].
Qed.

(** ** What a thread knows *)

(** Thread [i] has [k] operations left, owes [o] to the counter and has made the events [evs];
    its entries [F] are still private. *)
Definition at_ i (k : nat) (o : Z) evs F s : Prop :=
  stack_inv s /\ s.2.(sv_todo) !! i = Some k /\ s.2.(sv_owed) !! i = Some o /\
  mine i s.2.(sv_hist) = evs /\ (forall a, a ∈ F -> a ∈ E i /\ ~ a ∈ s.2.(sv_pub)) /\
  (total s <= T)%nat.

(** Fewer than [t] operations are left, or [t] are and the head is still [x]. *)
Definition lag (t : nat) x s : Prop :=
  stack_inv s /\ ((total s < t)%nat \/ (total s = t /\ s.1 !! head h = Some x)).

Definition knows i (c : list (Z * Z)) s : Prop :=
  stack_inv s /\ Forall (fun av => kept i s av.1 /\ s.1 !! av.1 = Some av.2) c.

Definition published x s : Prop := stack_inv s /\ x ∈ s.2.(sv_pub).

#[local] Instance at_stable i k o evs F : Stable (rely i) (at_ i k o evs F).
Proof.
  intros s s' (Hi & A1 & A2 & A3 & A4 & A5) HR. destruct (HR Hi) as (Hi' & B1 & B2 & B3 & _ & B5 & _ & B7).
  split_and!; [done|congruence|congruence|congruence| |].
  - intros a Ha. destruct (A4 a Ha) as [HE Hp]. split; [done|]. intros Hp'. by apply Hp, B5.
  - destruct B7 as [|[-> _]]; lia.
Qed.

#[local] Instance lag_stable i t x : Stable (rely i) (lag t x).
Proof.
  intros s s' (Hi & Hl) HR. destruct (HR Hi) as (Hi' & _ & _ & _ & _ & _ & _ & Ha). split; [done|].
  destruct Ha as [Ha|[Ha Eh]], Hl as [Hl|[Hl Ex]]; [left; lia..|]. right. split; congruence.
Qed.

#[local] Instance knows_stable i c : Stable (rely i) (knows i c).
Proof.
  intros s s' (Hi & Hc) HR. destruct (HR Hi) as (Hi' & _ & _ & _ & Hp & _ & Hk & _). split; [done|].
  eapply Forall_impl; [exact Hc|]. intros av [Hav Ev]. split; [|by rewrite Hk].
  destruct Hav as (a & [Ha|Ha] & Hin); exists a; auto.
Qed.

#[local] Instance published_stable i x : Stable (rely i) (published x).
Proof. intros s s' (Hi & Hx) HR. destruct (HR Hi) as (Hi' & _ & _ & _ & Hp & _). split; auto. Qed.

Lemma at_lag i k o evs F s : at_ i k o evs F s -> lag (S T) 0 s.
Proof. intros (Hi & _ & _ & _ & _ & Ht). split; [done|]. left. lia. Qed.

(** ** The accesses of a push *)

Definition field a x : Prop := exists j, 0 <= j /\ 8 * j + 8 <= 24 /\ x = a + 8 * j.

Lemma field_in a x : field a x -> in_block a 24 x.
Proof. intros (j & ? & ? & ->). unfold in_block. lia. Qed.

(** A write to a private entry. *)
Lemma write_inv m g a c v :
  stack_inv (m, g) -> a ∈ nodes -> ~ a ∈ g.(sv_pub) -> in_block a 24 c -> stack_inv (<[c:=v]> m, g).
Proof.
  intros [(p & Hp & Hc) Hn Hnd Ht Hpub Hm Hh Ho Hwho] Ha Hap Hac. cbn in *.
  destruct (head_cell a Ha) as [A1 A2]. split; cbn; try done.
  - exists p. split; [rewrite lookup_insert_ne; [done|congruence]|].
    apply (chain_frame_ins _ _ _ 24 stack_layout); [|done].
    intros (b & z & Hb & Hbc). apply list_elem_of_In, in_map_iff in Hb as (b' & [= -> <-] & Hb).
    apply list_elem_of_In in Hb. revert Hbc. apply (nodes_apart a b); auto. intros <-. auto.
  - rewrite lookup_insert_ne; [done|congruence].
  - intros b Hb j Hj1 Hj2. apply lookup_insert_is_Some'. right. by apply Hm.
Qed.

Lemma push_drafts {A n n'} o a x v (f : unit -> prog A) i k r evs F c t y Q :
  a ∈ F -> field a x -> Forall (fun av => av.1 <> x) c ->
  btriple (rely i) (guar i) n (fun s => at_ i k r evs F s /\ knows i ((x, v) :: c) s /\ lag t y s)
    (f tt) n' Q ->
  btriple (rely i) (guar i) n (fun s => at_ i k r evs F s /\ knows i c s /\ lag t y s)
    (store o x v ≫= f) n' Q.
Proof.
  intros Ha Hx Hc Hf. eapply triple_store; [apply _..| |exact Hf].
  intros [m g] ((Hi & A1 & A2 & A3 & A4 & A5) & [_ Hk] & [_ Hl]). cbn in *.
  destruct (A4 a Ha) as [HE Hp]. pose proof (E_nodes _ _ HE) as Han. pose proof (field_in a x Hx) as Hin.
  destruct (head_cell a Han) as [B1 B2].
  split; [destruct Hx as (j & ? & ? & ->); by apply (si_mapped _ Hi a)|]. exists g.
  pose proof (write_inv m g a x v Hi Han Hp Hin) as Hi'.
  assert (Hhd : <[x:=v]> m !! head h = m !! head h) by (apply lookup_insert_ne; congruence).
  split.
  { intros _. split_and!; auto; [|by right].
    apply unchanged_insert. right. right. by exists a. }
  split; [by split_and!|]. split; [split; [done|]|by split; [|unfold total in *; cbn in *; rewrite Hhd]].
  constructor; [split; [exists a; auto|apply lookup_insert_eq]|].
  clear -Hc Hk. induction Hk as [|[b w] c [Hb Ew] Hk IH]; [done|].
  apply Forall_cons in Hc as [Hne Hc]. cbn in *. constructor; [|by apply IH].
  split; [done|]. cbn. rewrite lookup_insert_ne; [done|congruence].
Qed.

(** Thread [i] makes the event [ev]: [k] operations are left to it, and it owes [o]. *)
Definition log i k o ev pub top items g : sview :=
  mk_sview pub top items (g.(sv_hist) ++ [(i, ev)]) (<[i:=k]> g.(sv_todo)) (<[i:=o]> g.(sv_owed)).

Lemma log_total m m' g i k o ev pub top items :
  g.(sv_todo) !! i = Some (S k) -> (total (m', log i k o ev pub top items g) < total (m, g))%nat.
Proof. intros Hi. pose proof (sum_list_insert _ i (S k) k Hi). unfold total, log. cbn. lia. Qed.

Lemma log_others g i k o ev pub top items j : i <> j ->
  mine j (log i k o ev pub top items g).(sv_hist) = mine j g.(sv_hist) /\
  (log i k o ev pub top items g).(sv_todo) !! j = g.(sv_todo) !! j /\
  (log i k o ev pub top items g).(sv_owed) !! j = g.(sv_owed) !! j.
Proof. intros Hne. cbn. by rewrite mine_snoc_ne, !list_lookup_insert_ne. Qed.

(** The thread's own part of the books after it made an event. *)
Lemma log_at m m' g i k o ev pub top items evs r F F' :
  at_ i (S k) r evs F (m, g) -> stack_inv (m', log i k o ev pub top items g) ->
  (forall a, a ∈ F' -> a ∈ F /\ (a ∈ pub -> a ∈ g.(sv_pub))) ->
  at_ i k o (evs ++ [ev]) F' (m', log i k o ev pub top items g).
Proof.
  intros (_ & A1 & A2 & A3 & A4 & A5) Hi' HF. pose proof (log_total m m' g i k o ev pub top items A1).
  cbn in *. split; [done|]. cbn.
  rewrite !list_lookup_insert_eq by (by eapply lookup_lt_Some). rewrite mine_snoc, A3.
  split_and!; try done; [|unfold total in *; cbn in *; lia].
  intros a Ha. destruct (HF a Ha) as [HaF Hap]. destruct (A4 a HaF) as [HE Hp]. auto.
Qed.

Lemma push_inv m g i k a e x :
  stack_inv (m, g) -> g.(sv_owed) !! i = Some 0 -> a ∈ nodes -> ~ a ∈ g.(sv_pub) ->
  m !! next a = Some x -> m !! data_value a = Some (kv_value e) -> m !! data_key a = Some (kv_key e) ->
  m !! head h = Some x ->
  stack_inv (<[head h:=a]> m, log i k 1 (EInsert e DS_SUCCESS) (a :: g.(sv_pub)) (a :: g.(sv_top))
    (e :: g.(sv_items)) g).
Proof.
  intros [(p & Hp & Hc) Hn Hnd Ht Hpub Hm Hh Ho Hwho] Hoi Ha Hap Enx Ev Ek Eh. cbn in *.
  rewrite Eh in Hp. injection Hp as <-.
  assert (Hhd : forall b c, b ∈ nodes -> in_block b 24 c -> <[head h:=a]> m !! c = m !! c).
  { intros b c Hb Hbc. apply lookup_insert_ne. intros <-. by destruct (head_cell b Hb). }
  split; cbn.
  - exists a. split; [apply lookup_insert_eq|]. split; [done|]. split; [by apply nodes_pos|].
    rewrite !(Hhd a) by (done || addr). split; [done|]. split; [done|]. exists x. split; [done|].
    eapply chain_frame; [apply stack_layout| |exact Hc]. intros c (b & z & Hb & Hbc).
    apply list_elem_of_In, in_map_iff in Hb as (b' & [= -> <-] & Hb). apply list_elem_of_In in Hb.
    apply (Hhd b); auto.
  - rewrite lookup_insert_ne by addr. rewrite Hn, Zlen_cons, (zsum_insert _ _ _ _ Hoi).
    do 2 f_equal. lia.
  - constructor; auto.
  - intros b [->|Hb]%elem_of_cons; [left|right; auto].
  - intros b [->|Hb]%elem_of_cons; auto.
  - intros b Hb j Hj1 Hj2. apply lookup_insert_is_Some'. right. by apply Hm.
  - eapply abs_steps_log; [exact Hh|]. by apply (abs_insert (unbounded lifo_add)).
  - by rewrite length_insert.
  - eapply who_snoc; [exact Ho|exact Hoi|done].
Qed.

(** The head, read before the first attempt. *)
Lemma push_reads {A n n'} o (f : Z -> prog A) i k r evs F c t y Q :
  (forall t x, (t <= T)%nat -> btriple (rely i) (guar i) n
     (fun s => at_ i k r evs F s /\ knows i c s /\ lag t x s) (f x) n' Q) ->
  btriple (rely i) (guar i) n (fun s => at_ i k r evs F s /\ knows i c s /\ lag t y s)
    (load o (head h) ≫= f) n' Q.
Proof.
  intros Hf. apply (triple_load_lin _ _ _ _ _ _ (fun x s => exists t, (t <= T)%nat /\
    at_ i k r evs F s /\ knows i c s /\ lag t x s)); [apply _| |].
  - intros [m g] (Hat & Hk & _). pose proof Hat as (Hi & _ & _ & _ & _ & Ht).
    destruct (si_chain _ Hi) as (p & Hp & _). exists p. split; [done|]. exists g.
    split; [apply guar_refl|]. exists (total (m, g)).
    split; [done|]. split; [done|]. split; [done|]. split; [done|by right].
  - intros x. apply triple_exists. intros t'. apply triple_pure. intros Ht'. by apply Hf.
Qed.

(** The attempt to publish the entry [a]. *)
Lemma push_swaps {A n n'} so fo a e x t (f : Z -> prog A) i k evs F Q :
  NoDup (a :: F) ->
  btriple (rely i) (guar i) n (at_ i k 1 (evs ++ [EInsert e DS_SUCCESS]) F) (f x) n' Q ->
  (forall v, v <> x -> btriple (rely i) (guar i) n (fun s => exists t', (t' < t)%nat /\
     at_ i (S k) 0 evs (a :: F) s /\
     knows i [(data_value a, kv_value e); (data_key a, kv_key e)] s /\ lag t' v s) (f v) n' Q) ->
  btriple (rely i) (guar i) n (fun s => at_ i (S k) 0 evs (a :: F) s /\
     knows i [(next a, x); (data_value a, kv_value e); (data_key a, kv_key e)] s /\ lag t x s)
    (cas so fo (head h) x a ≫= f) n' Q.
Proof.
  intros Hnd Hdone Hretry. eapply triple_cas; [apply _| |exact Hdone|exact Hretry].
  intros [m g] (Hat & [_ Hk] & [_ Hl]). pose proof Hat as (Hi & A1 & A2 & A3 & A4 & A5).
  destruct (si_chain _ Hi) as (p & Hp & _). exists p. split; [done|]. cbn in *.
  destruct (A4 a ltac:(left)) as [HE Hpub]. pose proof (E_nodes _ _ HE) as Ha.
  apply Forall_cons in Hk as [[K1 E1] Hk]. pose proof Hk as Hk'.
  apply Forall_cons in Hk' as [[_ E2] Hk']. apply Forall_cons in Hk' as [[_ E3] _]. cbn in *.
  split; intros Hpx.
  - subst p. pose proof (push_inv m g i k a e x Hi A2 Ha Hpub E1 E2 E3 Hp) as Hi'.
    eexists. split; [|eapply log_at; [exact Hat|exact Hi'|]].
    + intros _. split; [done|]. split; [by apply log_others|].
      split; [intros b Hb; by right|]. split; [intros b [->|Hb]%elem_of_cons; auto|].
      split; [apply unchanged_insert; by left|]. left. by apply log_total.
    + intros b Hb. split; [by right|]. intros [->|]%elem_of_cons; [|done].
      by apply NoDup_cons in Hnd as [].
  - exists g. split; [apply guar_refl|]. destruct Hl as [Hl|[_ Hl]]; [|congruence].
    exists (total (m, g)). split; [done|]. split; [done|]. split; [by split|]. split; [done|]. by right.
Qed.

(** The counter follows. *)
Lemma settles {A n n'} o op w (f : Z -> prog A) i k r evs F c Q :
  (forall old, rmw_eval op old w = u64 (old + r)) ->
  (forall old, btriple (rely i) (guar i) n (fun s => at_ i k 0 evs F s /\ knows i c s) (f old) n' Q) ->
  btriple (rely i) (guar i) n (fun s => at_ i k r evs F s /\ knows i c s)
    (rmw o op (count h) w ≫= f) n' Q.
Proof.
  intros Hop. apply (triple_rmw _ _ _ _ _ _ _ _ (fun _ s => at_ i k 0 evs F s /\ knows i c s)); [apply _|].
  intros [m g] (Hat & [_ Hk]). pose proof Hat as (Hi & A1 & A2 & A3 & A4 & A5). cbn in *.
  destruct Hi as [(p & Hp & Hc) Hn Hnd Ht Hpub Hm Hh Ho Hwho]. eexists. split; [done|].
  set (old := u64 _). rewrite Hop. set (v := u64 (old + r)).
  assert (Hcnt : forall b z, b ∈ nodes -> in_block b 24 z -> <[count h:=v]> m !! z = m !! z).
  { intros b z Hb Hbz. apply lookup_insert_ne. intros <-. by destruct (head_cell b Hb). }
  set (g' := mk_sview g.(sv_pub) g.(sv_top) g.(sv_items) g.(sv_hist) g.(sv_todo) (<[i:=0]> g.(sv_owed))).
  assert (Hi' : stack_inv (<[count h:=v]> m, g')).
  { split; cbn; auto.
    - exists p. rewrite lookup_insert_ne by addr. split; [done|].
      eapply chain_frame; [apply stack_layout| |exact Hc]. intros z (b & y & Hb & Hbz).
      apply list_elem_of_In, in_map_iff in Hb as (b' & [= -> <-] & Hb). apply list_elem_of_In in Hb.
      apply (Hcnt b); auto.
    - rewrite lookup_insert_eq, (zsum_insert _ _ _ _ A2). unfold v, old. rewrite u64_add_l. do 2 f_equal.
      cbn. lia.
    - intros b Hb j Hj1 Hj2. apply lookup_insert_is_Some'. right. by apply Hm.
    - by rewrite length_insert. }
  exists g'. split.
  { intros _. split; [done|]. split; [intros j Hne; cbn; by rewrite list_lookup_insert_ne|].
    split; [done|]. split; [intros b Hb; by left|]. split; [apply unchanged_insert; by right; left|].
    right. split; [done|]. cbn. by rewrite lookup_insert_ne by addr. }
  split; [split_and!; try done; cbn; by rewrite list_lookup_insert_eq by (by eapply lookup_lt_Some)|].
  split; [done|]. eapply Forall_impl; [exact Hk|]. intros [z y] [(b & Hb & Hz) Ez]; cbn in *.
  split; [by exists b|]. rewrite (Hcnt b); [done| |done].
  destruct Hb as [Hb|Hb]; [auto|by eapply E_nodes].
Qed.

(** ** The accesses of a pop *)

(** The head has been read: it was null, and the pop found the stack empty then, or it was the
    published entry [x]. *)
Definition seen i k evs F (d : ds_kv) t x s : Prop :=
  (x = 0 /\ at_ i k 0 (evs ++ [EPop d DS_ERROR_NOT_FOUND (Some d)]) F s) \/
  (x <> 0 /\ at_ i (S k) 0 evs F s /\ published x s /\ lag t x s).

#[local] Instance seen_stable i k evs F d t x : Stable (rely i) (seen i k evs F d t x).
Proof. unfold seen. apply _. Qed.

Lemma empty_inv m g i k d :
  stack_inv (m, g) -> g.(sv_owed) !! i = Some 0 -> g.(sv_items) = [] ->
  stack_inv (m, log i k 0 (EPop d DS_ERROR_NOT_FOUND (Some d)) g.(sv_pub) g.(sv_top) g.(sv_items) g).
Proof.
  intros [Hc Hn Hnd Ht Hpub Hm Hh Ho Hwho] Hoi Hit. cbn in *. split; cbn; auto.
  - rewrite (zsum_insert _ _ _ _ Hoi), Hn. do 2 f_equal. lia.
  - eapply abs_steps_log; [exact Hh|]. rewrite Hit. constructor.
  - by rewrite length_insert.
  - eapply who_snoc; [exact Ho|exact Hoi|done].
Qed.

Lemma sees_head m g i k evs F d :
  at_ i (S k) 0 evs F (m, g) ->
  exists x g', m !! head h = Some x /\ guar i (m, g) (m, g') /\
    seen i k evs F d (total (m, g)) x (m, g').
Proof.
  intros Hat. pose proof Hat as (Hi & A1 & A2 & A3 & A4 & A5). cbn in *.
  destruct (si_chain _ Hi) as (p & Hp & Hc). exists p. cbn in *.
  destruct (sv_top g) as [|a top] eqn:Et, (sv_items g) as [|e items] eqn:Ei; try done.
  - cbn in Hc. subst p. pose proof (empty_inv m g i k d Hi A2 Ei) as Hi'. eexists.
    split; [done|]. split; [|left; split; [done|]; eapply log_at; [exact Hat|exact Hi'|auto]].
    intros _. split; [done|]. split; [intros j; by apply log_others|]. split_and!; auto.
    + apply unchanged_refl.
    + left. by apply log_total.
  - destruct Hc as (-> & Ha & _). exists g. split; [done|]. split; [apply guar_refl|]. right.
    split; [lia|]. split; [done|]. split; [split; [done|apply (si_top _ Hi); cbn; rewrite Et; left]|].
    split; [done|by right].
Qed.

Lemma pop_reads {A n n'} o (f : Z -> prog A) i k evs F d Q :
  (forall t x, (t <= T)%nat -> btriple (rely i) (guar i) n (seen i k evs F d t x) (f x) n' Q) ->
  btriple (rely i) (guar i) n (at_ i (S k) 0 evs F) (load o (head h) ≫= f) n' Q.
Proof.
  intros Hf. apply (triple_load_lin _ _ _ _ _ _ (fun x s => exists t, (t <= T)%nat /\
    seen i k evs F d t x s)); [apply _| |].
  - intros [m g] Hat. pose proof Hat as (_ & _ & _ & _ & _ & Ht).
    destruct (sees_head m g i k evs F d Hat) as (x & g' & Hx & HG & Hs). eauto 8.
  - intros x. apply triple_exists. intros t. apply triple_pure. intros Ht. by apply Hf.
Qed.

Lemma pop_links {A n n'} o x (f : Z -> prog A) i k r evs F t Q :
  (forall y, btriple (rely i) (guar i) n (fun s => at_ i k r evs F s /\ published x s /\
     knows i [(next x, y)] s /\ lag t x s) (f y) n' Q) ->
  btriple (rely i) (guar i) n (fun s => at_ i k r evs F s /\ published x s /\ lag t x s)
    (load o (next x) ≫= f) n' Q.
Proof.
  apply (triple_load_lin _ _ _ _ _ _ (fun y s => at_ i k r evs F s /\ published x s /\
     knows i [(next x, y)] s /\ lag t x s)); [apply _|].
  intros [m g] (Hat & [Hi Hx] & Hl). cbn in *.
  destruct (si_mapped _ Hi x (si_pub _ Hi x Hx) 0) as [y Hy]; [lia..|]. exists y. split; [done|].
  exists g. split; [apply guar_refl|]. split; [done|]. split; [done|]. split; [|done].
  split; [done|]. constructor; [|constructor]. split; [|done]. exists x. split; [by left|cbn; addr].
Qed.

Lemma pop_inv m g i k d x y :
  stack_inv (m, g) -> g.(sv_owed) !! i = Some 0 -> x <> 0 -> m !! next x = Some y ->
  m !! head h = Some x -> exists e top items,
  m !! data_key x = Some (kv_key e) /\ m !! data_value x = Some (kv_value e) /\
  stack_inv (<[head h:=y]> m, log i k (-1) (EPop d DS_SUCCESS (Some e)) g.(sv_pub) top items g).
Proof.
  intros [(p & Hp & Hc) Hn Hnd Ht Hpub Hm Hh Ho Hwho] Hoi Hx Enx Eh. cbn in *.
  rewrite Eh in Hp. injection Hp as <-.
  destruct (sv_top g) as [|a top], (sv_items g) as [|e items]; try done.
  destruct Hc as (-> & Ha & Ek & Ev & y' & Enx' & Hc). cbn in Enx'.
  replace (a + 0) with (next a) in Enx' by done. rewrite Enx in Enx'. injection Enx' as <-.
  assert (Hhd : forall b c, b ∈ nodes -> in_block b 24 c -> <[head h:=y]> m !! c = m !! c).
  { intros b c Hb Hbc. apply lookup_insert_ne. intros <-. by destruct (head_cell b Hb). }
  apply NoDup_cons in Hnd as [_ Hnd]. exists e, top, items. split; [done|]. split; [done|].
  split; cbn; auto.
  - exists y. split; [apply lookup_insert_eq|].
    eapply chain_frame; [apply stack_layout| |exact Hc]. intros c (b & z & Hb & Hbc).
    apply list_elem_of_In, in_map_iff in Hb as (b' & [= -> <-] & Hb). apply list_elem_of_In in Hb.
    apply (Hhd b); [|done]. apply Hpub, Ht. by right.
  - rewrite lookup_insert_ne by addr. rewrite Hn, Zlen_cons, (zsum_insert _ _ _ _ Hoi).
    do 2 f_equal. lia.
  - intros b Hb. apply Ht. by right.
  - intros b Hb j Hj1 Hj2. apply lookup_insert_is_Some'. right. by apply Hm.
  - eapply abs_steps_log; [exact Hh|]. constructor.
  - by rewrite length_insert.
  - eapply who_snoc; [exact Ho|exact Hoi|done].
Qed.

(** The attempt to take the entry [x] off. *)
Lemma pop_swaps {A n n'} so fo x y t (f : Z -> prog A) i k evs F d Q :
  x <> 0 ->
  (forall e, btriple (rely i) (guar i) n (fun s => at_ i k (-1) (evs ++ [EPop d DS_SUCCESS (Some e)]) F s /\
     knows i [(data_key x, kv_key e); (data_value x, kv_value e)] s) (f x) n' Q) ->
  (forall v, v <> x -> btriple (rely i) (guar i) n (fun s => exists t', (t' < t)%nat /\
     seen i k evs F d t' v s) (f v) n' Q) ->
  btriple (rely i) (guar i) n (fun s => at_ i (S k) 0 evs F s /\ published x s /\
     knows i [(next x, y)] s /\ lag t x s) (cas so fo (head h) x y ≫= f) n' Q.
Proof.
  intros Hx Hdone Hretry.
  eapply (triple_cas _ _ _ _ _ _ _ _ _ (fun s => exists e,
    at_ i k (-1) (evs ++ [EPop d DS_SUCCESS (Some e)]) F s /\
     knows i [(data_key x, kv_key e); (data_value x, kv_value e)] s));
    [apply _| |by apply triple_exists|exact Hretry].
  intros [m g] (Hat & [_ Hpx] & [_ Hk] & [_ Hl]). pose proof Hat as (Hi & A1 & A2 & A3 & A4 & A5).
  apply Forall_cons in Hk as [[_ Enx] _]. cbn in *.
  destruct (sees_head m g i k evs F d Hat) as (p & g' & Hp & HG & Hs). exists p. split; [done|].
  split; intros Hpx'.
  - subst p. destruct (pop_inv m g i k d x y Hi A2 Hx Enx Hp) as (e & top & items & Ek & Ev & Hi').
    eexists. split; [|exists e; split; [eapply log_at; [exact Hat|exact Hi'|auto]|split; [exact Hi'|]]].
    + intros _. split; [done|]. split; [intros j; by apply log_others|].
      split; [auto|]. split; [auto|].
      split; [apply unchanged_insert; by left|]. left. by apply log_total.
    + assert (Hxn : x ∈ nodes) by (by apply (si_pub _ Hi)). destruct (head_cell x Hxn) as [B _].
      assert (Hhd : forall c, in_block x 24 c -> <[head h:=y]> m !! c = m !! c).
      { intros c Hc. apply lookup_insert_ne. by intros <-. }
      repeat constructor; cbn; rewrite ?Hhd by addr; try done; exists x; (split; [by left|addr]).
  - exists g'. split; [done|]. destruct Hl as [Hl|[_ Hl]]; [|congruence]. by exists (total (m, g)).
Qed.

(** ** From the stack to its threads and back *)

(** Before anything happened, with these operations to go. *)
Definition start_sview (ns : list Z) (todo : list nat) : sview := mk_sview ns ns l0 [] todo (replicate N 0).

Lemma start_s_inv m ns todo :
  stack_repr h ns l0 m -> NoDup ns -> (forall a, a ∈ ns -> a ∈ nodes) -> (forall a, a ∈ nodes -> mapped_words a 24 m) ->
  stack_inv (m, start_sview ns todo).
Proof.
  intros [Hc Hn Hs] Hnd Hin Hm. split; cbn; try done.
  - rewrite Hn, zsum_zero by (intros i x Hx; by apply lookup_replicate in Hx as []). do 2 f_equal. lia.
  - apply length_replicate.
Qed.

Lemma start_s_at m ns todo i n F :
  stack_inv (m, start_sview ns todo) -> (i < N)%nat -> todo !! i = Some n -> (sum_list todo <= T)%nat ->
  (forall a, a ∈ F -> a ∈ E i /\ ~ a ∈ ns) -> at_ i n 0 [] F (m, start_sview ns todo).
Proof.
  intros Hi HiN Hn HT HF. split; [done|]. cbn. split; [done|]. split; [by apply lookup_replicate|]. done.
Qed.

(** Once every thread is between two operations, memory holds the stack. *)
Lemma stack_settled m g : stack_inv (m, g) -> (forall i x, g.(sv_owed) !! i = Some x -> x = 0) ->
  stack_repr h g.(sv_top) g.(sv_items) m.
Proof.
  intros [Hc Hn Hnd Htop Hpub _ _ Ho _] Hz. cbn in *. pose proof nodes_sep as [Hd Hsep]. split; [done| |].
  - rewrite Hn, zsum_zero by done. do 2 f_equal. lia.
  - split.
    + intros a Ha (b & z & Hb & Hbz). apply (Hd a Ha). exists b, z. split; [|done].
      apply list_elem_of_In, in_map_iff in Hb as (b' & [= -> <-] & Hb). apply list_elem_of_In in Hb.
      apply list_elem_of_In, in_map_iff. exists b. split; [done|]. apply list_elem_of_In. auto.
    + eapply separated_part; [exact Hnd| |exact Hsep]. auto.
Qed.

(** ** The operations *)

Variable fuel : nat.
Hypothesis fuel_enough : (T < fuel)%nat.

Lemma private_pos i k o evs F s a : at_ i k o evs F s -> a ∈ F -> 0 < a.
Proof. intros (_ & _ & _ & _ & HF & _) Ha. destruct (HF a Ha) as [HE _]. by eapply nodes_pos, E_nodes. Qed.

Lemma field_next a : field a (next a).
Proof. exists 0. unfold next. lia. Qed.

Lemma field_key a : field a (data_key a).
Proof. exists 1. unfold data_key. lia. Qed.

Lemma field_value a : field a (data_value a).
Proof. exists 2. unfold data_value. lia. Qed.

(** The retry loop of a push. *)
Definition pushing i k evs F a e t x s : Prop :=
  at_ i (S k) 0 evs (a :: F) s /\ knows i [(data_value a, kv_value e); (data_key a, kv_key e)] s /\ lag t x s.

Lemma c_push_ok sd i k evs F a e n :
  NoDup (a :: F) ->
  btriple (rely i) (guar i) (cost sd n (S T)) (at_ i (S k) 0 evs (a :: F))
    (ds_ck_stack_upmc_push_upmc fuel sd h a (kv_key e) (kv_value e)) n
    (fun _ => at_ i k 0 (evs ++ [EInsert e DS_SUCCESS]) F).
Proof.
  intros Hnd.
  apply (triple_pre _ _ _ _ (fun s => 0 < a /\ at_ i (S k) 0 evs (a :: F) s /\ knows i [] s /\ lag (S T) 0 s)).
  2:{ intros s Hs. split; [eapply private_pos; [done|left]|]. split; [done|].
      split; [|by eapply at_lag]. destruct Hs as [Hi _]. split; [done|constructor]. }
  apply triple_pure. intros Ha.
  destruct sd; unfold ds_ck_stack_upmc_push_upmc, ds_ck_stack_upmc_push_upmc_lkmm,
    ds_ck_stack_upmc_push_upmc_c; replace (h =? 0) with false by lia; replace (a =? 0) with false by lia;
    cbn [orb].
  1: pose (sd := BPF). 2: pose (sd := USER).
  all: apply (push_drafts _ a); [left|apply field_key|constructor|].
  all: apply (push_drafts _ a); [left|apply field_value|repeat constructor; cbn; addr|].
  all: taccess; apply push_reads; intros t x Ht.
  all: eapply (triple_bind _ _ (n' := n) _ _ _ _ (fun r s => r = true /\
    at_ i k 1 (evs ++ [EInsert e DS_SUCCESS]) F s)).
  2,4: intros r; apply triple_pure; intros ->; taccess;
    apply (triple_pre _ _ _ _ (fun s => at_ i k 1 (evs ++ [EInsert e DS_SUCCESS]) F s /\ knows i [] s));
    [|intros s Hs; split; [done|]; destruct Hs as [Hi _]; by split];
    apply settles; [done|]; intros old; apply triple_ret; [apply _|by intros s []].
  all: eapply (triple_budget _ _ (cost sd n (S t)) (cost sd n 0));
    [apply (triple_loop _ _ (cost sd n) _ _ (pushing i k evs F a e)); [apply cost_mono| |apply _|lia]
    |apply cost_mono; lia|apply cost_end].
  all: intros t' x'; taccess; apply (push_drafts _ a); [left|apply field_next|repeat constructor; cbn; addr|].
  all: taccess; apply push_swaps; [done| |].
  1,3: rewrite Z.eqb_refl; apply (triple_budget _ _ (cost sd n t') (cost sd n t'));
    [apply triple_ret; [apply _|done]|apply cost_mono; lia|done].
  all: intros v Hv; replace (v =? x') with false by lia.
  - change (cost sd n (S t')) with (S (cost sd n t')). apply triple_can_loop; [apply _..|].
    apply triple_ret; [apply _|done].
  - apply triple_ret; [apply _|done].
Qed.

(** A single attempt: it publishes the entry, or the entry is still the thread's. *)
Lemma c_trypush_ok sd i k evs F a e n :
  NoDup (a :: F) ->
  btriple (rely i) (guar i) n (at_ i (S k) 0 evs (a :: F))
    (ds_ck_stack_upmc_trypush_upmc sd h a (kv_key e) (kv_value e)) n
    (fun ok s => (ok = true /\ at_ i k 0 (evs ++ [EInsert e DS_SUCCESS]) F s) \/
                 (ok = false /\ at_ i (S k) 0 evs (a :: F) s)).
Proof.
  intros Hnd.
  apply (triple_pre _ _ _ _ (fun s => 0 < a /\ at_ i (S k) 0 evs (a :: F) s /\ knows i [] s /\ lag (S T) 0 s)).
  2:{ intros s Hs. split; [eapply private_pos; [done|left]|]. split; [done|].
      split; [|by eapply at_lag]. destruct Hs as [Hi _]. split; [done|constructor]. }
  apply triple_pure. intros Ha.
  destruct sd; unfold ds_ck_stack_upmc_trypush_upmc, ds_ck_stack_upmc_trypush_upmc_lkmm,
    ds_ck_stack_upmc_trypush_upmc_c; replace (h =? 0) with false by lia; replace (a =? 0) with false by lia;
    cbn [orb].
  all: apply (push_drafts _ a); [left|apply field_key|constructor|].
  all: apply (push_drafts _ a); [left|apply field_value|repeat constructor; cbn; addr|].
  all: taccess; apply push_reads; intros t x Ht.
  all: taccess; apply (push_drafts _ a); [left|apply field_next|repeat constructor; cbn; addr|].
  all: taccess; apply push_swaps; [done| |].
  2,4: intros v Hv; replace (v =? x) with false by lia; cbn [negb]; apply triple_exists; intros t'; apply triple_pure; intros _;
    apply triple_ret; [apply _|]; intros s [Hs _]; by right.
  all: rewrite Z.eqb_refl; cbn [negb]; taccess;
    apply (triple_pre _ _ _ _ (fun s => at_ i k 1 (evs ++ [EInsert e DS_SUCCESS]) F s /\ knows i [] s));
    [|intros s Hs; split; [done|]; destruct Hs as [Hi _]; by split];
    apply settles; [done|]; intros old; apply triple_ret; [apply _|]; intros s [Hs _]; by left.
Qed.

(** The retry loop of a pop, and how it ends. *)
Definition popped_entry i k evs F d x s : Prop :=
  (x = 0 /\ at_ i k 0 (evs ++ [EPop d DS_ERROR_NOT_FOUND (Some d)]) F s) \/
  (x <> 0 /\ exists e, at_ i k 0 (evs ++ [EPop d DS_SUCCESS (Some e)]) F s /\
     knows i [(data_key x, kv_key e); (data_value x, kv_value e)] s).

#[local] Instance popped_entry_stable i k evs F d x : Stable (rely i) (popped_entry i k evs F d x).
Proof. unfold popped_entry. apply _. Qed.

Lemma pop_upmc_ok sd i k evs F d n :
  btriple (rely i) (guar i) (cost sd n (S T)) (at_ i (S k) 0 evs F)
    (ds_ck_stack_upmc_pop_upmc fuel sd h) n (popped_entry i k evs F d).
Proof.
  destruct sd; unfold ds_ck_stack_upmc_pop_upmc, ds_ck_stack_upmc_pop_upmc_lkmm,
    ds_ck_stack_upmc_pop_upmc_c; replace (h =? 0) with false by lia.
  1: pose (sd := BPF). 2: pose (sd := USER).
  all: taccess; apply (pop_reads _ _ _ _ _ _ d); intros t x Ht.
  all: eapply (triple_budget _ _ (cost sd n (S t)) (cost sd n 0));
    [apply (triple_loop _ _ (cost sd n) _ _ (seen i k evs F d)); [apply cost_mono| |apply _|lia]
    |apply cost_mono; lia|apply cost_end].
  all: intros t' x'; apply triple_or; apply triple_pure.
  1,3: intros ->; rewrite Z.eqb_refl; apply (triple_budget _ _ (cost sd n t') (cost sd n t'));
    [apply triple_ret; [apply _|]; intros s Hs; by left|apply cost_mono; lia|done].
  all: intros Hx; replace (x' =? 0) with false by lia.
  1: change (cost sd n (S t')) with (S (cost sd n t')); apply triple_can_loop; [apply _..|].
  all: taccess; apply pop_links; intros y; taccess;
    apply (pop_swaps _ _ _ _ _ _ _ _ _ _ d); [done| |].
  1,3: intros e; rewrite Z.eqb_refl; taccess; apply settles; [done|]; intros old;
    apply triple_ret; [apply _|]; intros s Hs; right; split; [done|by exists e].
  all: intros v Hv; replace (v =? x') with false by lia; apply triple_ret; [apply _|done].
Qed.

Lemma c_pop_ok sd i k evs F d n :
  btriple (rely i) (guar i) (cost sd n (S T)) (at_ i (S k) 0 evs F)
    (ds_ck_stack_upmc_pop fuel sd h (Some d)) n
    (fun r => at_ i k 0 (evs ++ [EPop d r.1 r.2]) F).
Proof.
  destruct sd; unfold ds_ck_stack_upmc_pop, ds_ck_stack_upmc_pop_lkmm, ds_ck_stack_upmc_pop_c;
    replace (h =? 0) with false by lia.
  1: pose (sd := BPF). 2: pose (sd := USER).
  all: eapply triple_bind; [apply _..|apply (pop_upmc_ok sd _ _ _ _ d)|]; intros x; apply triple_or;
    apply triple_pure; intros Hx; taccess.
  1,3: subst x; apply triple_ret; [apply _|done].
  all: replace (x =? 0) with false by lia; apply triple_exists; intros e.
  all: assert (Hck : forall s, knows i [(data_key x, kv_key e); (data_value x, kv_value e)] s ->
    s.1 !! data_key x = Some (kv_key e) /\ s.1 !! data_value x = Some (kv_value e))
    by (intros s [_ Hk]; apply Forall_cons in Hk as [[_ E1] Hk]; by apply Forall_cons in Hk as [[_ E2] _]).
  all: eapply triple_load; [apply _..|intros s [_ Hs]; apply (Hck s Hs)|].
  all: eapply triple_load; [apply _..|intros s [_ Hs]; apply (Hck s Hs)|].
  all: apply triple_ret; [apply _|]; intros s [Hs _]; by destruct e.
Qed.

Lemma call_ok sd i k evs c cs n :
  NoDup (entries_of (c :: cs)) ->
  btriple (rely i) (guar i) (cost sd n (S T)) (at_ i (S k) 0 evs (entries_of (c :: cs)))
    (run_call fuel sd h c) n
    (fun ev s => event_op ev = call_op c /\ at_ i k 0 (evs ++ [ev]) (entries_of cs) s).
Proof.
  intros Hnd. destruct c as [a e|d]; cbn [run_call].
  - eapply triple_bind; [apply _..|by apply (c_push_ok sd i k evs (entries_of cs) a e)|]. intros [].
    apply triple_ret; [apply _|done].
  - eapply triple_bind; [apply _..|by apply c_pop_ok|]. intros [r out].
    apply triple_ret; [apply _|done].
Qed.

Lemma calls_ok sd i cs evs :
  NoDup (entries_of cs) ->
  btriple (rely i) (guar i) (spend sd (S T) (length cs)) (at_ i (length cs) 0 evs (entries_of cs))
    (run_calls fuel sd h cs) 0
    (fun evs' s => map event_op evs' = map call_op cs /\ at_ i 0 0 (evs ++ evs') [] s).
Proof.
  revert evs. induction cs as [|c cs IH]; intros evs Hnd; cbn [run_calls].
  - apply (triple_budget _ _ 0 0); [|lia|done]. apply triple_ret; [apply _|].
    intros s Hs. by rewrite app_nil_r.
  - change (length (c :: cs)) with (S (length cs)). rewrite <- spend_succ. eapply triple_bind; [apply _..|by apply call_ok|]. intros ev.
    apply triple_pure. intros Hev. eapply triple_bind; [apply _..|apply IH|].
    { destruct c; [by apply NoDup_cons in Hnd as []|done]. }
    intros evs'. apply triple_pure. intros Hevs. apply triple_ret; [apply _|].
    intros s Hs. cbn [map]. rewrite Hev, Hevs. by rewrite <- app_assoc in Hs.
Qed.
End stack.

(** ** Pools of clients *)

Record stack_client := mk_client {
  cl_side : side;
  cl_calls : list stack_call;
  cl_budget : nat
}.

Definition stack_pool `{K : Kernel} (fuel : nat) (h : Z) (cls : list stack_client) : list (thread (list event)) :=
  map (fun c => (run_calls fuel (cl_side c) h (cl_calls c), cl_budget c)) cls.

Definition all_entries (cls : list stack_client) : list Z :=
  concat (map (fun c => entries_of (cl_calls c)) cls).

Definition workload (cls : list stack_client) : nat := sum_list (map (fun c => length (cl_calls c)) cls).

Definition entries_at (cls : list stack_client) (i : nat) : list Z :=
  match cls !! i with Some c => entries_of (cl_calls c) | None => [] end.

(** Every thread has its entries, apart from those of the others and of the stack, and a BPF
    thread may retry each of its calls as often as there are calls in all. *)
Record clients_ready (h : Z) (ns : list Z) (cls : list stack_client) (m : mem) : Prop := {
  cr_apart : separated (stack_own h (ns ++ all_entries cls));
  cr_entries : forall a, a ∈ all_entries cls -> 0 < a /\ mapped_words a 24 m;
  cr_budget : forall c, c ∈ cls ->
    (spend (cl_side c) (S (workload cls)) (length (cl_calls c)) <= cl_budget c)%nat
}.

(** What the threads did together: at every moment memory holds the stack reached by one legal
    sequential history, a thread that has ended saw exactly its events of that history, and once
    all have ended the counter agrees too. *)
Definition stack_outcome (h : Z) (l0 : list ds_kv) (cls : list stack_client)
    (ts : list (thread (list event))) (m : mem) : Prop :=
  exists ns l H,
    (exists p, m !! head h = Some p /\ chain 0 8 16 m p ns l 0) /\
    abs_steps (unbounded lifo_add) l0 (H.*2) l /\
    (forall i evs b, ts !! i = Some (Ret evs, b) -> evs = mine i H /\
       exists c, cls !! i = Some c /\ map event_op evs = map call_op (cl_calls c)) /\
    ((forall t, t ∈ ts -> is_Some (thread_done t)) -> stack_repr h ns l m).

Lemma entries_at_in cls i a : a ∈ entries_at cls i -> a ∈ all_entries cls.
Proof.
  unfold entries_at. destruct (cls !! i) as [c|] eqn:Ec; [|by intros ?%elem_of_nil].
  intros Ha. apply list_elem_of_In, in_concat. exists (entries_of (cl_calls c)). split.
  - apply in_map_iff. exists c. split; [done|]. apply list_elem_of_In. by eapply list_elem_of_lookup_2.
  - by apply list_elem_of_In.
Qed.

Lemma entries_at_apart cls i j a :
  NoDup (all_entries cls) -> i <> j -> a ∈ entries_at cls i -> ~ a ∈ entries_at cls j.
Proof.
  revert i j. induction cls as [|c cls IH]; intros i j Hnd Hne Hi Hj; [by apply elem_of_nil in Hi|].
  apply NoDup_app in Hnd as (_ & Hd & Hnd).
  destruct i as [|i], j as [|j]; [done|..].
  - by apply (Hd a Hi), (entries_at_in cls j).
  - by apply (Hd a Hj), (entries_at_in cls i).
  - apply (IH i j); auto.
Qed.

Lemma entries_at_nodup cls i c :
  NoDup (all_entries cls) -> cls !! i = Some c -> NoDup (entries_of (cl_calls c)).
Proof.
  revert i. induction cls as [|x cls IH]; intros [|i] Hnd Hi; try done;
    apply NoDup_app in Hnd as (Hx & _ & Hnd).
  - by injection Hi as <-.
  - by apply (IH i).
Qed.

Section pool.
Context `{K : Kernel}.
Variables (h : Z) (ns : list Z) (l0 : list ds_kv) (cls : list stack_client) (m : mem).
Hypothesis h_pos : 0 < h.
Hypothesis start : stack_repr h ns l0 m.
Hypothesis ready : clients_ready h ns cls m.

Notation nodes := (ns ++ all_entries cls).
Notation N := (length cls).
Notation T := (workload cls).
Notation E := (entries_at cls).
Notation inv := (stack_inv h l0 nodes N).

Lemma pool_nodes_mapped a : a ∈ nodes -> 0 < a /\ mapped_words a 24 m.
Proof.
  intros [Ha|Ha]%elem_of_app; [|by apply (cr_entries _ _ _ _ ready)].
  destruct start as [(p & Hp & Hc) _ _]. split; [by eapply chain_pos|]. intros j Hj1 Hj2.
  destruct (chain_mapped _ _ _ _ _ _ _ _ _ Hc Ha) as (M1 & M2 & M3).
  assert (Hj : j = 0 \/ j = 1 \/ j = 2) by lia. by destruct Hj as [-> | [-> | ->]].
Qed.

Lemma pool_nodup : NoDup nodes.
Proof.
  destruct (cr_apart _ _ _ _ ready) as [_ Hs].
  eapply (separated_nodup _ _ _ _ stack_layout _ []). by rewrite app_nil_r.
Qed.

Notation first_view := (start_sview l0 N ns (map (fun c => length (cl_calls c)) cls)).

Lemma first_inv : inv (m, first_view).
Proof.
  pose proof pool_nodup as Hnd. apply NoDup_app in Hnd as (Hnd & _ & _). apply start_s_inv; [done|done| |].
  - intros a Ha. apply elem_of_app. by left.
  - intros a Ha. by apply pool_nodes_mapped.
Qed.

Lemma first_at i c : cls !! i = Some c ->
  at_ h l0 nodes E N T i (length (cl_calls c)) 0 [] (entries_of (cl_calls c)) (m, first_view).
Proof.
  intros Hi. apply start_s_at; [apply first_inv|by eapply lookup_lt_Some| |done|].
  - change (map ?f cls) with (f <$> cls). by rewrite list_lookup_fmap, Hi.
  - intros a Ha. assert (HaE : a ∈ E i) by (unfold entries_at; by rewrite Hi).
    split; [done|]. intros Hn. pose proof pool_nodup as Hnd. apply NoDup_app in Hnd as (_ & Hd & _).
    by apply (Hd a Hn), (entries_at_in cls i).
Qed.

Definition stack_post (i : nat) (evs : list event) (s : mem * sview) : Prop :=
  exists c, cls !! i = Some c /\ map event_op evs = map call_op (cl_calls c) /\
    at_ h l0 nodes E N T i 0 0 evs [] s.

Lemma first_pool_ok fuel : (T < fuel)%nat ->
  pool_ok (rely h l0 nodes E N) (guar h l0 nodes E N) stack_post (stack_pool fuel h cls) (m, first_view).
Proof.
  intros Hfuel i p b Hi. unfold stack_pool in Hi. apply list_lookup_fmap_Some in Hi as (c & [= -> ->] & Hc).
  assert (Hnd : NoDup (all_entries cls)) by (by pose proof pool_nodup as (_ & _ & ?)%NoDup_app).
  eapply (triple_thread _ _ _ _ _ _ (stack_post i)).
  - eapply triple_weaken; [eapply (calls_ok h l0 nodes E N T) with (evs := []); try done|done|done|].
    + intros a Ha. by apply pool_nodes_mapped.
    + apply ready.
    + intros j a Ha. apply elem_of_app. right. by eapply entries_at_in.
    + by eapply entries_at_nodup.
    + intros evs s [Hm Hs]. exists c. split; [done|]. by split.
  - apply (cr_budget _ _ _ _ ready). by eapply list_elem_of_lookup_2.
  - by apply first_at.
Qed.

(** C10. Any number of threads that push entries of their own onto the stack and pop, each in
    either build, in every interleaving of their accesses: every schedule ends, no access faults,
    no retry loop turns more often than there are operations in all, and at every moment memory
    holds the stack reached by one legal sequential history of which each thread saw its part;
    once all are done the counter agrees with the contents. *)
Theorem ck_stack_linearizable fuel : (T < fuel)%nat ->
  Acc (flip pool_step) (stack_pool fuel h cls, m) /\
  forall ts m', rtc pool_step (stack_pool fuel h cls, m) (ts, m') ->
    (forall i t, ts !! i = Some t -> ~ thread_faults t m' /\ t.1 <> NoFuel) /\
    stack_outcome h l0 cls ts m'.
Proof.
  intros Hfuel. split; [apply pool_terminates|]. intros ts m' Hs.
  pose proof (cr_apart _ _ _ _ ready) as Hsep.
  assert (HEn : forall i a, a ∈ E i -> a ∈ nodes)
    by (intros j a Ha; apply elem_of_app; right; by eapply entries_at_in).
  assert (HEa : forall i j a, i <> j -> a ∈ E i -> ~ a ∈ E j)
    by (intros i j a; apply entries_at_apart; by pose proof pool_nodup as (_ & _ & ?)%NoDup_app).
  destruct (pool_safe (rely h l0 nodes E N) (guar h l0 nodes E N) stack_post
    (rely_preorder h l0 nodes E N) (guar_compatible h l0 nodes E N Hsep HEn HEa) inv
    (fun i s s' Hi HG => proj1 (HG Hi)) _ _ _ _ _ (first_pool_ok fuel Hfuel) first_inv Hs)
    as (g & Hok & Hi).
  pose proof (pool_ok_thread _ (guar h l0 nodes E N) stack_post (rely_preorder h l0 nodes E N) ts m' g) as Ht. split.
  { intros i [p b] Hi'. by destruct (Ht _ _ _ Hok Hi') as (H1 & H2 & _). }
  exists g.(sv_top), g.(sv_items), g.(sv_hist).
  assert (Hret : forall i evs b, ts !! i = Some (Ret evs, b) -> stack_post i evs (m', g)).
  { intros i evs b E'. destruct (Ht _ _ _ Hok E') as (_ & _ & Hq). by apply Hq. }
  split; [apply (si_chain _ _ _ _ _ Hi)|]. split; [apply (si_hist _ _ _ _ _ Hi)|]. split.
  - intros i evs b E'. destruct (Hret i evs b E') as (c & Hc & Hm & _ & _ & _ & <- & _).
    split; [done|by exists c].
  - intros Hdone. pose proof (si_owed _ _ _ _ _ Hi) as Ho. cbn in Ho. eapply stack_settled; [exact Hsep|exact Hi|].
    intros i x Hx. pose proof (pool_steps_length _ _ Hs) as Hlen. cbn in Hlen. unfold stack_pool in Hlen.
    rewrite length_map in Hlen. apply lookup_lt_Some in Hx as Hlt. rewrite Ho, <- Hlen in Hlt.
    apply lookup_lt_is_Some in Hlt as [[[evs|e k|] b] E'];
      try (by destruct (Hdone _ (list_elem_of_lookup_2 _ _ _ E'))).
    destruct (Hret i evs b E') as (c & _ & _ & _ & _ & Hx' & _). cbn in Hx'. congruence.
Qed.
End pool.
