(* ===== verification/StackCrowd.v ===== *)
(** * The Treiber stack as a structure that any number of threads share.

    The triples of [CkStackConc] as an instance of the interface [Crowd], for threads that push
    the entries they were given one after the other ([E]), each with attempts that may fail, and
    that pop entries and look into them. The events are those that took effect. *)
From stdpp Require Import base numbers gmap list fin_maps option relations.
From S2P Require Import Prelude Machine Logic Api Owned Container Conc Threads Crowd Ring Linked CkStack CkStackConc.
Import StackHead StackEntry.

(** ** What took effect *)

Definition effective (evs : list event) : list event :=
  List.filter (fun ev => match ev with EInsert _ r | EPop _ r _ => r =? DS_SUCCESS end) evs.

Lemma effective_snoc evs ev : effective (evs ++ [ev]) = effective evs ++ effective [ev].
Proof. apply List.filter_app. Qed.

Lemma accepted_effective evs : accepted (effective evs) = accepted evs.
Proof.
  induction evs as [|ev evs IH] using rev_ind; [done|]. rewrite effective_snoc, !accepted_app, IH. f_equal.
  destruct ev as [e r|d r o]; unfold effective, accepted; cbn; destruct (r =? DS_SUCCESS) eqn:E; cbn; by rewrite ?E.
Qed.

Lemma popped_effective evs : popped (effective evs) = popped evs.
Proof.
  induction evs as [|ev evs IH] using rev_ind; [done|]. rewrite effective_snoc, !popped_app, IH. f_equal.
  destruct ev as [e r|d r o]; unfold effective, popped; cbn; destruct (r =? DS_SUCCESS) eqn:E; cbn; by rewrite ?E.
Qed.

(** What an operation that took effect did. *)
Definition stack_answers (ev : event) : Prop :=
  exists e, ev = EInsert e DS_SUCCESS \/ exists d, ev = EPop d DS_SUCCESS (Some e).

Lemma legal_effective l evs l' : abs_steps (unbounded lifo_add) l evs l' ->
  forall ev, ev ∈ evs -> ev ∈ effective [ev] -> stack_answers ev.
Proof.
  induction 1 as [l|l1 ev l2 evs l3 Hs _ IH]; intros ev' Hin Heff; [by apply elem_of_nil in Hin|].
  apply elem_of_cons in Hin as [->|Hin]; [|by apply IH].
  revert Heff. destruct Hs as [l e _|l e r _ _|l e d|d]; intros Heff.
  - exists e. by left.
  - unfold effective in Heff. cbn in Heff. destruct (Z.eqb_spec r DS_SUCCESS) as [->|_]; [exists e; by left|].
    by apply elem_of_nil in Heff.
  - exists e. right. by exists d.
  - by apply elem_of_nil in Heff.
Qed.

(** The output a pop without one leaves. *)
Definition no_out : ds_kv := mk_kv 0 0.

Section crowd.
Context `{K : Kernel}.
Variables (h : Z) (l0 : list ds_kv) (nodes : list Z) (E : nat -> list Z) (N T : nat) (fuel : nat).
Hypothesis h_pos : 0 < h.
Hypothesis nodes_pos : forall a, a ∈ nodes -> 0 < a.
Hypothesis nodes_sep : separated (stack_own h nodes).
Hypothesis E_nodes : forall i a, a ∈ E i -> a ∈ nodes.
Hypothesis E_apart : forall i j a, i <> j -> a ∈ E i -> ~ a ∈ E j.
Hypothesis E_nodup : forall i, NoDup (E i).
Hypothesis fuel_enough : (T < fuel)%nat.

Notation inv := (stack_inv h l0 nodes N).
Notation rely := (rely h l0 nodes E N).
Notation guar := (guar h l0 nodes E N).
Notation at_ := (at_ h l0 nodes E N T).
Notation knows := (knows h l0 nodes E N).

(** ** Memory that is not the stack's *)

Definition s_foreign (a : Z) : Prop := ~ in_live (stack_own h nodes) a.

Lemma s_foreign_ne a c : s_foreign a -> in_live (stack_own h nodes) c -> a <> c.
Proof. intros Ha Hc ->. done. Qed.

Lemma node_cell a c : a ∈ nodes -> in_block a 24 c -> in_live (stack_own h nodes) c.
Proof.
  intros Ha Hc. apply in_live_cons. right. exists a, 24. split; [|done]. apply list_elem_of_In, in_map_iff.
  exists a. split; [done|]. by apply list_elem_of_In.
Qed.

Lemma s_inv_write m g a v : inv (m, g) -> s_foreign a -> is_Some (m !! a) -> inv (<[a:=v]> m, g).
Proof.
  intros [(p & Hp & Hc) Hn Hnd Ht Hpub Hm Hh Ho Hwho] Ha Hsome. cbn in *.
  assert (Hsame : forall c, in_live (stack_own h nodes) c -> <[a:=v]> m !! c = m !! c)
    by (intros c Hc'; by apply lookup_insert_ne, s_foreign_ne).
  assert (Hhd : forall c, in_block h 16 c -> <[a:=v]> m !! c = m !! c) by (intros c Hc'; apply Hsame, in_live_cons; by left).
  split; cbn; rewrite ?Hhd by addr; try done.
  - exists p. split; [done|]. eapply chain_frame; [apply stack_layout| |exact Hc].
    intros c (b & z & Hb & Hbc). apply list_elem_of_In, in_map_iff in Hb as (b' & [= -> <-] & Hb).
    apply list_elem_of_In in Hb. apply Hsame, (node_cell b); auto.
  - intros b Hb j Hj1 Hj2. by apply lookup_ins_is_Some, Hm.
Qed.

Lemma s_foreign_write i m g a v :
  inv (m, g) -> s_foreign a -> is_Some (m !! a) -> rely i (m, g) (<[a:=v]> m, g).
Proof.
  intros Hi Ha Hsome _. assert (Hsame : forall c, in_live (stack_own h nodes) c -> <[a:=v]> m !! c = m !! c)
    by (intros c Hc'; by apply lookup_insert_ne, s_foreign_ne).
  split_and!; try done; [by apply s_inv_write| |].
  - intros c (b & Hb & Hbc). apply Hsame, (node_cell b); [|done].
    destruct Hb as [Hb|Hb]; [by apply (si_pub _ _ _ _ _ Hi)|by eapply E_nodes].
  - right. split; [done|]. cbn. apply Hsame, in_live_cons. left. addr.
Qed.

(** ** The interface *)

#[local] Instance stack_crowd : Crowd := {|
  cr_ghost := sview;
  cr_inv := inv;
  cr_rely := rely;
  cr_guar := guar;
  cr_at i n k evs s := exists evs0, (effective evs0 = evs /\ (length (accepted evs) + n <= length (E i))%nat) /\
    at_ i (n + k) 0 evs0 (drop (length (accepted evs)) (E i)) s;
  cr_seen g i := effective (mine i (sv_hist g));
  cr_items := sv_items;
  cr_cells := s_foreign
|}.

Definition stack_quiet (l : list ds_kv) (m : mem) : Prop := exists ns, stack_repr h ns l m.

Lemma all_effective (f : nat -> list event) ns :
  popped (concat (map (fun i => effective (f i)) ns)) = popped (concat (map f ns)) /\
  accepted (concat (map (fun i => effective (f i)) ns)) = accepted (concat (map f ns)).
Proof.
  induction ns as [|i ns [IH1 IH2]]; [done|]. cbn. by rewrite !popped_app, !accepted_app, popped_effective, accepted_effective, IH1, IH2.
Qed.

#[local] Instance stack_crowd_laws : CrowdLaws stack_crowd N l0 stack_answers stack_quiet.
Proof.
  pose proof (fun i k o evs F => at_stable h l0 nodes E N T i k o evs F) as Hst.
  split; cbn [cr_rely cr_guar cr_inv cr_at cr_cells cr_items cr_ghost stack_crowd].
  - intros i. apply rely_preorder.
  - intros i. apply guar_refl.
  - intros i s s' Hi HR. by apply HR.
  - intros i j s s' _ HG Hne. by apply (guar_compatible h l0 nodes E N nodes_sep E_nodes E_apart i j).
  - intros i s s' a Hi HG Ha. destruct (HG Hi) as (_ & _ & _ & _ & Hu & _). apply Hu. intros [->|[->|(b & Hb & _ & Hab)]]; apply Ha.
    + apply in_live_cons. left. addr.
    + apply in_live_cons. left. addr.
    + apply (node_cell b); [by eapply E_nodes|done].
  - intros i n k evs s s' (evs0 & He & Hat) HR. exists evs0. split; [done|]. by eapply Hst.
  - intros i n k evs m g (evs0 & [<- _] & Hi & _ & Ho & <- & _). cbn in *. split; [done|].
    split; [rewrite <- (si_owed _ _ _ _ _ Hi); by eapply lookup_lt_Some|]. split; [done|].
    apply Forall_forall. intros ev Hev. apply list_elem_of_In, List.filter_In in Hev as [Hev Hs].
    apply list_elem_of_In, mine_sub in Hev. apply (legal_effective _ _ _ (si_hist _ _ _ _ _ Hi) ev Hev).
    apply list_elem_of_In, List.filter_In. split; [by left|done].
  - apply s_foreign_write.
  - intros m g Hi. pose proof (mine_all N _ (si_who _ _ _ _ _ Hi)) as Hall. cbn in *. unfold all_seen. cbn.
    destruct (all_effective (fun i => mine i (sv_hist g)) (seq 0 N)) as [-> ->]. rewrite Hall.
    by apply (lifo_history (unbounded lifo_add) l0), (si_hist _ _ _ _ _ Hi).
  - intros m g Hi Hat. eexists. apply (stack_settled h l0 nodes N nodes_sep m g Hi). intros i x Hx.
    pose proof (lookup_lt_Some _ _ _ Hx) as Hlt. pose proof (si_owed _ _ _ _ _ Hi) as Ho. cbn in Ho. rewrite Ho in Hlt.
    destruct (Hat i Hlt) as (n & k & evs & evs0 & _ & _ & _ & Hx' & _). cbn in *. congruence.
Qed.

(** ** The operations *)

(** The entry for the thread's next push. *)
Definition next_entry (i : nat) (evs : list event) : Z := nth (length (accepted evs)) (E i) 0.

Lemma stack_pushes i n k evs e :
  triple (cr_rely i) (cr_guar i) (cr_at i (S n) k evs)
    (ds_ck_stack_upmc_trypush_upmc USER h (next_entry i evs) (kv_key e) (kv_value e)) (fun ok s =>
      (ok = true /\ cr_at i n k (evs ++ [EInsert e DS_SUCCESS]) s) \/ (ok = false /\ cr_at i (S n) k evs s)).
Proof.
  cbn [cr_rely cr_guar cr_at stack_crowd]. apply triple_exists. intros evs0. apply triple_pure. intros [He Hlen].
  set (j := length (accepted evs)). destruct (lookup_lt_is_Some_2 (E i) j) as [a Ha]; [unfold j; lia|].
  assert (Ea : next_entry i evs = a) by by apply nth_lookup_Some. rewrite Ea, (drop_S _ _ _ Ha).
  assert (Hnd : NoDup (a :: drop (S j) (E i))) by (rewrite <- (drop_S _ _ _ Ha); apply (sublist_NoDup _ (E i)); [apply E_nodup|apply sublist_drop]).
  eapply triple_weaken; [apply (c_trypush_ok h l0 nodes E N T h_pos nodes_pos nodes_sep E_nodes fuel fuel_enough USER i (n + k) evs0 _ a e 0 Hnd)|lia|lia|].
  intros ok s [[-> Hat]|[-> Hat]]; [left|right]; (split; [done|]).
  - exists (evs0 ++ [EInsert e DS_SUCCESS]). rewrite effective_snoc, He, accepted_app, length_app. cbn. split; [split; [done|lia]|].
    replace (length (accepted evs) + 1)%nat with (S j) by (unfold j; lia). done.
  - by exists evs0.
Qed.

(** The thread took the entry [x], which holds [e]. *)
Definition holds_entry (i n k : nat) (evs : list event) (x : Z) (e : ds_kv) (s : mem * cr_ghost) : Prop :=
  cr_at i n k (evs ++ [EPop no_out DS_SUCCESS (Some e)]) s /\
  knows i [(data_key x, kv_key e); (data_value x, kv_value e)] s.

#[export] Instance holds_entry_stable i n k evs x e : Stable (cr_rely i) (holds_entry i n k evs x e).
Proof. apply stable_and; [apply _|apply knows_stable]. Qed.

Lemma holds_entry_reads i n k evs x e s : holds_entry i n k evs x e s ->
  s.1 !! data_key x = Some (kv_key e) /\ s.1 !! data_value x = Some (kv_value e).
Proof.
  intros [_ [_ Hk]]. apply Forall_cons in Hk as [[_ E1] Hk]. by apply Forall_cons in Hk as [[_ E2] _].
Qed.

Lemma stack_pops i n k evs :
  triple (cr_rely i) (cr_guar i) (cr_at i n (S k) evs) (ds_ck_stack_upmc_pop_upmc fuel USER h) (fun x s =>
    (x = 0 /\ cr_at i n k evs s) \/ (x <> 0 /\ exists e, holds_entry i n k evs x e s)).
Proof.
  cbn [cr_rely cr_guar cr_at stack_crowd]. apply triple_exists. intros evs0. apply triple_pure. intros [He Hlen].
  rewrite <- plus_n_Sm.
  eapply triple_weaken; [apply (pop_upmc_ok h l0 nodes E N T h_pos nodes_sep E_nodes fuel fuel_enough USER i (n + k) evs0 _ no_out 0)|cbn; lia|lia|].
  intros x s [[-> Hat]|(Hx & e & Hat & Hk)]; [left|right]; (split; [done|]).
  - exists (evs0 ++ [EPop no_out DS_ERROR_NOT_FOUND (Some no_out)]). rewrite effective_snoc, He. unfold effective at 1. cbn.
    by rewrite app_nil_r.
  - exists e. split; [|done]. exists (evs0 ++ [EPop no_out DS_SUCCESS (Some e)]).
    rewrite effective_snoc, He, accepted_app, app_nil_r. done.
Qed.
End crowd.
