(* ===== verification/CkFifo.v ===== *)
(** * ConcurrencyKit's SPSC linked FIFO ([include/ds_ck_fifo_spsc.h]). *)
From stdpp Require Import base numbers gmap list fin_maps option strings.
From S2P Require Import Prelude Machine Logic Api Owned Container Ring Linked.

(** ** Layout of [struct ds_ck_fifo_spsc_head] (one embedded [struct ds_ck_fifo_spsc]) and of
    [struct ds_ck_fifo_spsc_entry] *)

Module Fifo.
Definition head (fifo : Z) : Z := fifo + 0.
Definition tail (fifo : Z) : Z := fifo + 8.
Definition head_snapshot (fifo : Z) : Z := fifo + 16.
Definition garbage (fifo : Z) : Z := fifo + 24.
Definition sizeof : Z := 32.
End Fifo.

Module FifoEntry.
Definition value (entry : Z) : Z := entry + 0.
Definition next (entry : Z) : Z := entry + 8.
Definition kv (entry : Z) : Z := entry + 16.
Definition sizeof : Z := 32.
End FifoEntry.

(** [payload->key], [payload->value] of a [struct ds_kv] *)
Definition payload_key (p : Z) : Z := p + 0.
Definition payload_value (p : Z) : Z := p + 8.

#[export] Hint Unfold Fifo.head Fifo.tail Fifo.head_snapshot Fifo.garbage Fifo.sizeof
  FifoEntry.value FifoEntry.next FifoEntry.kv FifoEntry.sizeof payload_key payload_value : layout.

Import Fifo FifoEntry.

(** [&head->fifo]: the only member. *)
Definition fifo_of (head : Z) : Z := head.

Definition ds_ck_fifo_spsc_fifo_init_lkmm (fifo stub : Z) : prog unit :=
  store Plain (next stub) 0;;
  store Plain (head fifo) stub;;
  store Plain (tail fifo) stub;;
  store Plain (head_snapshot fifo) stub;;
  store Plain (garbage fifo) stub.

Definition ds_ck_fifo_spsc_fifo_init_c (fifo stub : Z) : prog unit :=
  store Plain (next stub) 0;;
  store Plain (head fifo) stub;;
  store Plain (tail fifo) stub;;
  store Plain (head_snapshot fifo) stub;;
  store Plain (garbage fifo) stub.

Definition ds_ck_fifo_spsc_fifo_init (s : side) (fifo stub : Z) : prog unit :=
  match s with
  | BPF => ds_ck_fifo_spsc_fifo_init_lkmm fifo stub
  | USER => ds_ck_fifo_spsc_fifo_init_c fifo stub
  end.

Definition ds_ck_fifo_spsc_enqueue_lkmm (fifo entry v : Z) : prog unit :=
  store Plain (value entry) v;;
  store Plain (next entry) 0;;
  t ← READ_ONCE (tail fifo);
  smp_store_release (next t) entry;;
  store Plain (tail fifo) entry.

Definition ds_ck_fifo_spsc_enqueue_c (fifo entry v : Z) : prog unit :=
  store Plain (value entry) v;;
  store Plain (next entry) 0;;
  t ← arena_atomic_load (tail fifo) Relaxed;
  arena_atomic_store (next t) entry Release;;
  store Plain (tail fifo) entry.

Definition ds_ck_fifo_spsc_enqueue (s : side) (fifo entry v : Z) : prog unit :=
  match s with
  | BPF => ds_ck_fifo_spsc_enqueue_lkmm fifo entry v
  | USER => ds_ck_fifo_spsc_enqueue_c fifo entry v
  end.

(** [value_out] is what the caller's pointer variable holds, [None] for a null [value_out]. *)
Definition ds_ck_fifo_spsc_dequeue_lkmm (fifo : Z) (value_out : option Z) : prog (bool * option Z) :=
  hd ← READ_ONCE (head fifo);
  entry ← READ_ONCE (next hd);
  if entry =? 0 then Ret (false, value_out) else
  value_out ← match value_out with
              | None => Ret None
              | Some _ => v ← READ_ONCE (value entry); Ret (Some v)
              end;
  WRITE_ONCE (head fifo) entry;;
  Ret (true, value_out).

Definition ds_ck_fifo_spsc_dequeue_c (fifo : Z) (value_out : option Z) : prog (bool * option Z) :=
  hd ← arena_atomic_load (head fifo) Relaxed;
  entry ← arena_atomic_load (next hd) Acquire;
  if entry =? 0 then Ret (false, value_out) else
  value_out ← match value_out with
              | None => Ret None
              | Some _ => v ← arena_atomic_load (value entry) Relaxed; Ret (Some v)
              end;
  arena_atomic_store (head fifo) entry Release;;
  Ret (true, value_out).

Definition ds_ck_fifo_spsc_dequeue (s : side) (fifo : Z) (value_out : option Z)
  : prog (bool * option Z) :=
  match s with
  | BPF => ds_ck_fifo_spsc_dequeue_lkmm fifo value_out
  | USER => ds_ck_fifo_spsc_dequeue_c fifo value_out
  end.

Definition ds_ck_fifo_spsc_isempty_lkmm (fifo : Z) : prog bool :=
  hd ← READ_ONCE (head fifo);
  nxt ← READ_ONCE (next hd);
  Ret (nxt =? 0).

Definition ds_ck_fifo_spsc_isempty_c (fifo : Z) : prog bool :=
  hd ← arena_atomic_load (head fifo) Relaxed;
  nxt ← arena_atomic_load (next hd) Relaxed;
  Ret (nxt =? 0).

Definition ds_ck_fifo_spsc_isempty (s : side) (fifo : Z) : prog bool :=
  match s with
  | BPF => ds_ck_fifo_spsc_isempty_lkmm fifo
  | USER => ds_ck_fifo_spsc_isempty_c fifo
  end.

(** Entries between [garbage] and the consumer's last seen [head] are reused. *)
Definition ds_ck_fifo_spsc_recycle_lkmm (fifo : Z) : prog Z :=
  snap ← load Plain (head_snapshot fifo);
  g ← load Plain (garbage fifo);
  none ← (if snap =? g then
            hd ← READ_ONCE (head fifo);
            store Plain (head_snapshot fifo) hd;;
            snap ← load Plain (head_snapshot fifo);
            g ← load Plain (garbage fifo);
            Ret (snap =? g)
          else Ret false);
  if (none : bool) then Ret 0 else
  g ← load Plain (garbage fifo);
  nxt ← load Plain (next g);
  store Plain (garbage fifo) nxt;;
  Ret g.

Definition ds_ck_fifo_spsc_recycle_c (fifo : Z) : prog Z :=
  snap ← arena_atomic_load (head_snapshot fifo) Relaxed;
  g ← arena_atomic_load (garbage fifo) Relaxed;
  none ← (if snap =? g then
            hd ← arena_atomic_load (head fifo) Relaxed;
            arena_atomic_store (head_snapshot fifo) hd Relaxed;;
            snap ← arena_atomic_load (head_snapshot fifo) Relaxed;
            g ← arena_atomic_load (garbage fifo) Relaxed;
            Ret (snap =? g)
          else Ret false);
  if (none : bool) then Ret 0 else
  g ← arena_atomic_load (garbage fifo) Relaxed;
  nxt ← arena_atomic_load (next g) Relaxed;
  arena_atomic_store (garbage fifo) nxt Relaxed;;
  Ret g.

Definition ds_ck_fifo_spsc_recycle (s : side) (fifo : Z) : prog Z :=
  match s with
  | BPF => ds_ck_fifo_spsc_recycle_lkmm fifo
  | USER => ds_ck_fifo_spsc_recycle_c fifo
  end.

Section operations.
Context `{Al : Allocator}.

Definition ds_ck_fifo_spsc_init_lkmm (head : Z) : prog Z :=
  if head =? 0 then Ret DS_ERROR_INVALID else
  stub ← bpf_arena_alloc FifoEntry.sizeof;
  if stub =? 0 then Ret DS_ERROR_NOMEM else
  store Plain (value stub) 0;;
  WRITE_ONCE (payload_key (kv stub)) 0;;
  WRITE_ONCE (payload_value (kv stub)) 0;;
  ds_ck_fifo_spsc_fifo_init_lkmm (fifo_of head) stub;;
  Ret DS_SUCCESS.

Definition ds_ck_fifo_spsc_init_c (head : Z) : prog Z :=
  if head =? 0 then Ret DS_ERROR_INVALID else
  stub ← bpf_arena_alloc FifoEntry.sizeof;
  if stub =? 0 then Ret DS_ERROR_NOMEM else
  arena_atomic_store (value stub) 0 Relaxed;;
  arena_atomic_store (payload_key (kv stub)) 0 Relaxed;;
  arena_atomic_store (payload_value (kv stub)) 0 Relaxed;;
  ds_ck_fifo_spsc_fifo_init_c (fifo_of head) stub;;
  Ret DS_SUCCESS.

Definition ds_ck_fifo_spsc_init (s : side) (head : Z) : prog Z :=
  match s with
  | BPF => ds_ck_fifo_spsc_init_lkmm head
  | USER => ds_ck_fifo_spsc_init_c head
  end.

Definition ds_ck_fifo_spsc_insert_lkmm (head key value : Z) : prog Z :=
  if head =? 0 then Ret DS_ERROR_INVALID else
  entry ← ds_ck_fifo_spsc_recycle_lkmm (fifo_of head);
  entry ← (if entry =? 0 then bpf_arena_alloc FifoEntry.sizeof else Ret entry);
  if entry =? 0 then Ret DS_ERROR_NOMEM else
  WRITE_ONCE (payload_key (kv entry)) key;;
  WRITE_ONCE (payload_value (kv entry)) value;;
  let payload := kv entry in
  ds_ck_fifo_spsc_enqueue_lkmm (fifo_of head) entry payload;;
  Ret DS_SUCCESS.

Definition ds_ck_fifo_spsc_insert_c (head key value : Z) : prog Z :=
  if head =? 0 then Ret DS_ERROR_INVALID else
  entry ← ds_ck_fifo_spsc_recycle_c (fifo_of head);
  entry ← (if entry =? 0 then bpf_arena_alloc FifoEntry.sizeof else Ret entry);
  if entry =? 0 then Ret DS_ERROR_NOMEM else
  arena_atomic_store (payload_key (kv entry)) key Relaxed;;
  arena_atomic_store (payload_value (kv entry)) value Relaxed;;
  let payload := kv entry in
  ds_ck_fifo_spsc_enqueue_c (fifo_of head) entry payload;;
  Ret DS_SUCCESS.

Definition ds_ck_fifo_spsc_insert (s : side) (head key value : Z) : prog Z :=
  match s with
  | BPF => ds_ck_fifo_spsc_insert_lkmm head key value
  | USER => ds_ck_fifo_spsc_insert_c head key value
  end.
End operations.

(** [out] is the caller's output pair, [None] for the null pointer; the local [value] that
    receives the payload pointer starts with an arbitrary content. *)
Definition ds_ck_fifo_spsc_delete_lkmm (head : Z) (out : option ds_kv) : prog (Z * option ds_kv) :=
  if head =? 0 then Ret (DS_ERROR_INVALID, out) else
  r ← ds_ck_fifo_spsc_dequeue_lkmm (fifo_of head) (Some 0);
  let '(found, value) := r in
  if negb (found : bool) then Ret (DS_ERROR_NOT_FOUND, out) else
  match out, value with
  | None, _ => Ret (DS_SUCCESS, out)
  | Some _, None => Ret (DS_ERROR_CORRUPT, out)
  | Some _, Some payload =>
      if payload =? 0 then Ret (DS_ERROR_CORRUPT, out) else
      k ← READ_ONCE (payload_key payload);
      v ← READ_ONCE (payload_value payload);
      Ret (DS_SUCCESS, Some (mk_kv k v))
  end.

Definition ds_ck_fifo_spsc_delete_c (head : Z) (out : option ds_kv) : prog (Z * option ds_kv) :=
  if head =? 0 then Ret (DS_ERROR_INVALID, out) else
  r ← ds_ck_fifo_spsc_dequeue_c (fifo_of head) (Some 0);
  let '(found, value) := r in
  if negb (found : bool) then Ret (DS_ERROR_NOT_FOUND, out) else
  match out, value with
  | None, _ => Ret (DS_SUCCESS, out)
  | Some _, None => Ret (DS_ERROR_CORRUPT, out)
  | Some _, Some payload =>
      if payload =? 0 then Ret (DS_ERROR_CORRUPT, out) else
      k ← arena_atomic_load (payload_key payload) Relaxed;
      v ← arena_atomic_load (payload_value payload) Relaxed;
      Ret (DS_SUCCESS, Some (mk_kv k v))
  end.

Definition ds_ck_fifo_spsc_delete (s : side) (head : Z) (out : option ds_kv)
  : prog (Z * option ds_kv) :=
  match s with
  | BPF => ds_ck_fifo_spsc_delete_lkmm head out
  | USER => ds_ck_fifo_spsc_delete_c head out
  end.

Definition ds_ck_fifo_spsc_pop (s : side) (head : Z) (out : option ds_kv) : prog (Z * option ds_kv) :=
  ds_ck_fifo_spsc_delete s head out.

Definition ds_ck_fifo_spsc_search (head key : Z) : prog Z := Ret DS_ERROR_INVALID.

Definition FIFO_MAX_STEPS : Z := 100000.

Definition ds_ck_fifo_spsc_verify_lkmm (hd : Z) : prog Z :=
  if hd =? 0 then Ret DS_ERROR_INVALID else
  h ← load Plain (head (fifo_of hd));
  if h =? 0 then Ret DS_ERROR_CORRUPT else
  t ← load Plain (tail (fifo_of hd));
  if t =? 0 then Ret DS_ERROR_CORRUPT else
  g ← load Plain (garbage (fifo_of hd));
  if g =? 0 then Ret DS_ERROR_CORRUPT else
  cursor ← READ_ONCE (head (fifo_of hd));
  tail_ ← READ_ONCE (tail (fifo_of hd));
  if (cursor =? 0) || (tail_ =? 0) then Ret DS_ERROR_CORRUPT else
  loop (S (Z.to_nat FIFO_MAX_STEPS)) (fun '(cursor, i) =>
    if i <? FIFO_MAX_STEPS then
      c ← can_loop;
      if (c : bool) then
        if cursor =? tail_ then break DS_SUCCESS else
        cursor ← READ_ONCE (next cursor);
        if cursor =? 0 then break DS_ERROR_CORRUPT else continue (cursor, i + 1)
      else break DS_ERROR_CORRUPT
    else break DS_ERROR_CORRUPT) (cursor, 0).

Definition ds_ck_fifo_spsc_verify_c (hd : Z) : prog Z :=
  if hd =? 0 then Ret DS_ERROR_INVALID else
  h ← load Plain (head (fifo_of hd));
  if h =? 0 then Ret DS_ERROR_CORRUPT else
  t ← load Plain (tail (fifo_of hd));
  if t =? 0 then Ret DS_ERROR_CORRUPT else
  g ← load Plain (garbage (fifo_of hd));
  if g =? 0 then Ret DS_ERROR_CORRUPT else
  cursor ← load Plain (head (fifo_of hd));
  tail_ ← load Plain (tail (fifo_of hd));
  if (cursor =? 0) || (tail_ =? 0) then Ret DS_ERROR_CORRUPT else
  loop (S (Z.to_nat FIFO_MAX_STEPS)) (fun '(cursor, i) =>
    if i <? FIFO_MAX_STEPS then
      if cursor =? tail_ then break DS_SUCCESS else
      cursor ← load Plain (next cursor);
      if cursor =? 0 then break DS_ERROR_CORRUPT else continue (cursor, i + 1)
    else break DS_ERROR_CORRUPT) (cursor, 0).

Definition ds_ck_fifo_spsc_verify (s : side) (hd : Z) : prog Z :=
  match s with
  | BPF => ds_ck_fifo_spsc_verify_lkmm hd
  | USER => ds_ck_fifo_spsc_verify_c hd
  end.

#[export] Hint Unfold fifo_of : layout.

Lemma fifo_layout : layout_ok 8 16 24 32.
Proof. unfold layout_ok. lia. Qed.

(** ** Representation: recycled entries [gs], the consumer's current entry [hd] (the stub, or the
    last entry dequeued), then the entries [ns] of the queued pairs [l]: one chain from [garbage]
    to [tail]. *)
Section spec.
Context `{K : Kernel} `{Al : Allocator} `{!AllocLaws Al}.
Variable h : Z.
Hypothesis h_pos : 0 < h.

Notation entries m p ns l := (chain 8 16 24 m p ns l 0).

Definition fifo_own (gs : list Z) (hd : Z) (ns : list Z) : list block :=
  (h, 32) :: node_blocks 32 (gs ++ hd :: ns).

Record fifo_repr (gs : list Z) (hd : Z) (ns : list Z) (l : list ds_kv) (m : mem) : Prop := {
  ff_head : m !! head h = Some hd;
  ff_tail : m !! tail h = Some (List.last (hd :: ns) 0);
  ff_snap : exists snap, m !! head_snapshot h = Some snap /\ snap ∈ gs ++ [hd];
  ff_chain : exists g ks k0, m !! garbage h = Some g /\ length gs = length ks /\
               entries m g (gs ++ hd :: ns) (ks ++ k0 :: l);
  ff_values : forall a, a ∈ ns -> m !! value a = Some (kv a);
  ff_mapped : forall a, a ∈ gs ++ hd :: ns -> is_Some (m !! value a);
  ff_sep : separated (fifo_own gs hd ns)
}.

Lemma mapped_words_4 a m :
  is_Some (m !! (a + 0)) -> is_Some (m !! (a + 8)) -> is_Some (m !! (a + 16)) ->
  is_Some (m !! (a + 24)) -> mapped_words a 32 m.
Proof.
  intros H0 H1 H2 H3 i Hi Hin. assert (i = 0 \/ i = 1 \/ i = 2 \/ i = 3) as [-> | [-> | [-> | ->]]]
    by lia; done.
Qed.

Lemma fifo_head_apart gs hd ns a : separated (fifo_own gs hd ns) -> in_block h 32 a ->
  ~ in_live (node_blocks 32 (gs ++ hd :: ns)) a.
Proof. intros [Hd _] Ha. by apply Hd. Qed.

Lemma fifo_repr_frame gs hd ns l m m' :
  (forall a, in_live (fifo_own gs hd ns) a -> m' !! a = m !! a) ->
  fifo_repr gs hd ns l m -> fifo_repr gs hd ns l m'.
Proof.
  intros Hf [E1 E2 (snap & E3 & Hsn) (g & ks & k0 & E4 & Hlen & Hc) Hv Hm Hs].
  assert (Hh : forall a, in_block h 32 a -> m' !! a = m !! a)
    by (intros a Ha; apply Hf, in_live_cons; by left).
  assert (Hn : forall a x, a ∈ gs ++ hd :: ns -> 0 <= x < 32 -> m' !! (a + x) = m !! (a + x)).
  { intros a x Ha Hx. apply Hf, in_live_cons. right. by apply (node_in 32). }
  split; try (rewrite Hh by addr; done).
  - exists snap. by rewrite Hh by addr.
  - exists g, ks, k0. rewrite Hh by addr. split_and!; try done.
    eapply chain_frame; [apply fifo_layout| |exact Hc]. intros a Ha. apply Hf, in_live_cons. by right.
  - intros a Ha. unfold value. rewrite Hn; [by apply Hv| |lia]. apply elem_of_app. right. by right.
  - intros a Ha. unfold value. rewrite Hn; [by apply Hm|done|lia].
  - done.
Qed.

(** The chain from the consumer's entry on. *)
Lemma fifo_from_head gs hd ns l m :
  fifo_repr gs hd ns l m -> exists k0, entries m hd (hd :: ns) (k0 :: l).
Proof.
  intros [E1 E2 (snap & E3 & Hsn) (g & ks & k0 & E4 & Hlen & Hc) Hv Hm Hs].
  apply chain_app in Hc as (r & _ & Hc); [|done]. exists k0. by pose proof Hc as (-> & _).
Qed.

(** *** Recycling *)

Definition recycle_post (gs : list Z) (hd : Z) (ns : list Z) (l : list ds_kv) (m : mem) (r : Z) (m' : mem)
  : Prop :=
  unchanged_outside (in_block h 32) m m' /\ grows m m' /\
  match gs with
  | [] => r = 0 /\ fifo_repr [] hd ns l m'
  | g :: gs' => r = g /\ 0 < g /\ fifo_repr gs' hd ns l m' /\ mapped_words g 32 m'
  end.

(** Moving the snapshot and the garbage pointer leaves the rest of the queue as it is. *)
Lemma fifo_repr_snapshot gs hd ns l m snap :
  fifo_repr gs hd ns l m -> snap ∈ gs ++ [hd] -> fifo_repr gs hd ns l (<[head_snapshot h:=snap]> m).
Proof.
  intros [E1 E2 (snap0 & E3 & Hsn) (g & ks & k0 & E4 & Hlen & Hc) Hv Hm Hs] Hin.
  assert (Hne : forall a, a ∈ gs ++ hd :: ns -> head_snapshot h <> value a).
  { intros a Ha Heq. eapply (fifo_head_apart gs hd ns (value a)); [done|rewrite <- Heq; addr|].
    eapply (node_in 32); [done|addr]. }
  split; try mlook; try done.
  - exists snap. split; [mlook|done].
  - exists g, ks, k0. split; [mlook|]. split; [done|].
    eapply chain_frame_ins; [apply fifo_layout| |done]. eapply fifo_head_apart; [done|addr].
  - intros a Ha. rewrite lookup_insert_ne; [by apply Hv|]. apply Hne. apply elem_of_app. right. by right.
  - intros a Ha. apply lookup_ins_is_Some. by apply Hm.
Qed.

Lemma fifo_repr_advance g gs hd ns l m :
  fifo_repr (g :: gs) hd ns l m -> m !! head_snapshot h <> Some g ->
  exists nxt, m !! next g = Some nxt /\ 0 < g /\ m !! garbage h = Some g /\
    mapped_words g 32 m /\ fifo_repr gs hd ns l (<[garbage h:=nxt]> m).
Proof.
  intros [E1 E2 (snap & E3 & Hsn) (g' & ks & k0 & E4 & Hlen & Hc) Hv Hm Hs] Hne.
  destruct ks as [|k ks]; [done|]. cbn [app chain] in Hc.
  destruct Hc as (-> & Hg & Hk & Hvv & nxt & Hnx & Hc). exists nxt.
  assert (Hne' : forall a, a ∈ (g :: gs) ++ hd :: ns -> garbage h <> value a).
  { intros a Ha Heq. eapply (fifo_head_apart (g :: gs) hd ns (value a)); [done|rewrite <- Heq; addr|].
    eapply (node_in 32); [done|addr]. }
  assert (Hs' : separated (fifo_own gs hd ns)).
  { destruct Hs as [Hd [_ Hs]]. apply disjoint_block_cons in Hd as [_ Hd]. done. }
  split_and!; try done.
  - apply mapped_words_4; [apply Hm; left|by eexists..].
  - split; try mlook; try done.
    + exists snap. split; [mlook|]. apply elem_of_cons in Hsn as [->|Hsn]; [congruence|done].
    + exists nxt, ks, k0. split; [mlook|]. split; [by injection Hlen|].
      eapply chain_frame_ins; [apply fifo_layout| |done]. eapply fifo_head_apart; [done|addr].
    + intros a Ha. rewrite lookup_insert_ne; [by apply Hv|]. apply Hne'.
      right. apply elem_of_app. right. by right.
    + intros a Ha. apply lookup_ins_is_Some. apply Hm. by right.
Qed.

Lemma fifo_garbage_hd gs hd ns l m :
  fifo_repr gs hd ns l m -> m !! garbage h = Some (List.hd hd gs).
Proof.
  intros [E1 E2 _ (g & ks & k0 & E4 & Hlen & Hc) Hv Hm Hs].
  destruct gs as [|g' gs], ks as [|k ks]; try done; destruct Hc as (-> & _); done.
Qed.

Lemma recycle_ok s gs hd ns l m b :
  fifo_repr gs hd ns l m ->
  wpr (ds_ck_fifo_spsc_recycle s h) m b (fun r m' b' => b' = b /\ recycle_post gs hd ns l m r m').
Proof.
  intros Hr. pose proof (fifo_garbage_hd _ _ _ _ _ Hr) as Eg.
  pose proof Hr as [E1 E2 (snap & E3 & Hsn) _ Hv Hm Hs].
  assert (Hnd : List.hd hd gs = hd -> gs = []).
  { intros Heq. destruct gs as [|g gs]; [done|]. cbn in Heq. subst g. exfalso.
    destruct Hs as [_ Hs]. rewrite <- (app_nil_r (node_blocks _ _)) in Hs.
    apply (separated_nodup _ _ _ _ fifo_layout) in Hs. apply NoDup_cons in Hs as [Hs _].
    apply Hs. apply elem_of_app. right. left. }
  assert (Hsnap : gs = [] -> snap = hd).
  { intros ->. cbn in Hsn. by apply list_elem_of_singleton in Hsn. }
  destruct s; unfold ds_ck_fifo_spsc_recycle, ds_ck_fifo_spsc_recycle_lkmm,
    ds_ck_fifo_spsc_recycle_c; prun.
  all: destruct (snap =? List.hd hd gs) eqn:Esnap; prun.
  all: try (destruct (hd =? List.hd hd gs) eqn:Ehd; prun; [rewrite (Hnd ltac:(lia)); split; [done|];
    split; [frame|split; [auto with arena|]]; split; [done|];
    rewrite <- (Hnd ltac:(lia)); apply fifo_repr_snapshot; [done|]; apply elem_of_app; right; left|]).
  all: destruct gs as [|g gs']; cbn [List.hd] in *; [try lia; rewrite (Hsnap eq_refl) in *; lia|].
  1,3: assert (Hr' : fifo_repr (g :: gs') hd ns l (<[head_snapshot h:=hd]> m))
    by (apply fifo_repr_snapshot; [done|]; apply elem_of_app; right; left).
  1,2: destruct (fifo_repr_advance _ _ _ _ _ _ Hr') as (nxt & Hnx & Hg & _ & Hmp & Hadv);
    [rewrite lookup_insert_eq; intros [=]; lia|].
  3,4: destruct (fifo_repr_advance _ _ _ _ _ _ Hr) as (nxt & Hnx & Hg & _ & Hmp & Hadv);
    [rewrite E3; intros [= ->]; lia|].
  all: prun; split; [done|]; split; [frame|split; [auto with arena|]]; split_and!; try done.
  all: intros i Hi Hin; apply lookup_ins_is_Some; by apply Hmp.
Qed.
(** *** Enqueueing *)

Lemma fifo_own_snoc gs hd ns a : fifo_own gs hd (ns ++ [a]) ≡ₚ (a, 32) :: fifo_own gs hd ns.
Proof.
  unfold fifo_own. rewrite app_comm_cons, app_assoc, node_blocks_app.
  rewrite (Permutation_app_comm _ (node_blocks 32 [a])). apply perm_swap.
Qed.

Definition after_enqueue (a t : Z) (m : mem) : mem :=
  <[tail h:=a]> (<[next t:=a]> (<[next a:=0]> (<[value a:=kv a]> m))).

Lemma fifo_repr_enqueue gs hd ns l a e m :
  fifo_repr gs hd ns l m -> 0 < a -> disjoint_block a 32 (fifo_own gs hd ns) ->
  mapped_words a 32 m -> m !! (a + 16) = Some (kv_key e) -> m !! (a + 24) = Some (kv_value e) ->
  fifo_repr gs hd (ns ++ [a]) (l ++ [e]) (after_enqueue a (List.last (hd :: ns) 0) m).
Proof.
  intros Hr Ha Hd Hma Hka Hva.
  pose proof Hr as [E1 E2 (snap & E3 & Hsn) (g & ks & k0 & E4 & Hlen & Hc) Hv Hm Hs].
  set (t := List.last (hd :: ns) 0) in *.
  assert (Hfull : gs ++ hd :: ns <> []) by (by destruct gs).
  assert (Ht : List.last (gs ++ hd :: ns) 0 = t) by (apply last_app_ne; discriminate).
  assert (Hin : t ∈ gs ++ hd :: ns).
  { rewrite <- Ht. by apply last_elem. }
  assert (Hsep : h + 32 <= a \/ a + 32 <= h)
    by (eapply (disjoint_block_sep a 32 h 32); [exact Hd|left|lia|lia]).
  assert (Hblk : forall c, in_block a 32 c -> ~ in_live (node_blocks 32 (gs ++ hd :: ns)) c).
  { intros c Hcb Hl. apply (Hd c Hcb), in_live_cons. by right. }
  pose proof (fun c => fifo_head_apart gs hd ns c Hs) as Hhd.
  assert (Hnode : forall x i, x ∈ gs ++ hd :: ns -> 0 <= i < 32 ->
            ~ in_block h 32 (x + i) /\ ~ in_block a 32 (x + i)).
  { intros x i Hx Hi. pose proof (node_in 32 x _ i Hx Hi) as Hl.
    split; intros Hb; [by eapply Hhd|by eapply Hblk]. }
  destruct (Hnode t 8 Hin ltac:(lia)) as [Htn1 Htn2]. unfold in_block in Htn1, Htn2.
  assert (Hcell : forall x, x ∈ gs ++ hd :: ns -> value x <> next t).
  { intros x Hx. destruct Hs as [_ Hs]. rewrite <- (app_nil_r (node_blocks _ _)) in Hs.
    by apply (separated_cells 32 _ _ _ _ 0 8 Hs). }
  assert (Hval : forall x, x ∈ gs ++ hd :: ns -> after_enqueue a t m !! value x = m !! value x).
  { intros x Hx. pose proof (Hcell x Hx). destruct (Hnode x 0 Hx ltac:(lia)) as [Hx1 Hx2].
    unfold after_enqueue, in_block in *. rewrite !lookup_insert_ne by addr. done. }
  unfold after_enqueue in *. split.
  - mlook.
  - rewrite app_comm_cons, last_snoc. mlook.
  - exists snap. split; [mlook|done].
  - exists g, ks, k0. split; [mlook|]. split; [done|].
    rewrite app_comm_cons, app_assoc, (app_comm_cons l), app_assoc, <- Ht.
    eapply chain_frame_ins; [apply fifo_layout| |].
    + rewrite node_blocks_app. intros [Hl|Hl]%in_live_app; [eapply Hhd; [|exact Hl]; addr|].
      apply in_live_cons in Hl as [Hl|Hl]; [addr|by apply in_live_nil in Hl].
    + apply (chain_append 8 16 24 32 fifo_layout); try done; try mlook.
      * eapply chain_frame; [apply fifo_layout| |exact Hc]. intros c Hl.
        rewrite !lookup_insert_ne; [done|..]; intros <-; (eapply Hblk; [|exact Hl]; addr).
      * by destruct Hs as [_ Hs].
      * apply Hblk. addr.
      * apply Hblk. addr.
      * apply Hblk. addr.
  - intros x [Hx|Hx]%elem_of_app.
    + rewrite Hval; [by apply Hv|]. apply elem_of_app. right. by right.
    + apply list_elem_of_singleton in Hx as ->. mlook.
  - intros x. rewrite app_comm_cons, app_assoc. intros [Hx|Hx]%elem_of_app.
    + rewrite Hval by done. by apply Hm.
    + apply list_elem_of_singleton in Hx as ->. eexists. mlook.
  - eapply separated_perm; [symmetry; apply fifo_own_snoc|]. by split.
Qed.

Lemma enqueue_ok s gs hd ns l a m b :
  fifo_repr gs hd ns l m -> mapped_words a 32 m -> h + 32 <= a \/ a + 32 <= h ->
  wpr (ds_ck_fifo_spsc_enqueue s h a (kv a)) m b (fun _ m' b' =>
    b' = b /\ m' = after_enqueue a (List.last (hd :: ns) 0) m).
Proof.
  intros Hr Hma Hsep. pose proof Hr as [E1 E2 _ (g & ks & k0 & E4 & Hlen & Hc) Hv Hm Hs].
  pose proof (Hma 0 ltac:(lia) ltac:(lia)) as M0. pose proof (Hma 1 ltac:(lia) ltac:(lia)) as M1.
  cbn in M0, M1.
  assert (Hin : List.last (hd :: ns) 0 ∈ gs ++ hd :: ns)
    by (apply elem_of_app; right; by apply last_elem).
  destruct (chain_mapped _ _ _ _ _ _ _ _ _ Hc Hin) as (Mn & _ & _).
  destruct s; unfold ds_ck_fifo_spsc_enqueue, ds_ck_fifo_spsc_enqueue_lkmm,
    ds_ck_fifo_spsc_enqueue_c; prun; done.
Qed.

(** *** Insertion: from the recycled entries when there is one, else from the allocator *)

(** Writing the pair into the entry [a] and linking it. *)
Definition after_fill (a t : Z) (e : ds_kv) (m : mem) : mem :=
  after_enqueue a t (<[payload_value (kv a):=kv_value e]> (<[payload_key (kv a):=kv_key e]> m)).

Lemma fill_ok s gs hd ns l a e m b :
  fifo_repr gs hd ns l m -> mapped_words a 32 m -> 0 < a -> disjoint_block a 32 (fifo_own gs hd ns) ->
  wpr (match s with
       | BPF => WRITE_ONCE (payload_key (kv a)) (kv_key e);;
                WRITE_ONCE (payload_value (kv a)) (kv_value e);;
                ds_ck_fifo_spsc_enqueue_lkmm (fifo_of h) a (kv a);;
                Ret DS_SUCCESS
       | USER => arena_atomic_store (payload_key (kv a)) (kv_key e) Relaxed;;
                 arena_atomic_store (payload_value (kv a)) (kv_value e) Relaxed;;
                 ds_ck_fifo_spsc_enqueue_c (fifo_of h) a (kv a);;
                 Ret DS_SUCCESS
       end) m b (fun r m' b' =>
    r = DS_SUCCESS /\ b' = b /\ fifo_repr gs hd (ns ++ [a]) (l ++ [e]) m' /\
    unchanged_outside (in_live ((a, 32) :: fifo_own gs hd ns)) m m' /\ grows m m').
Proof.
  intros Hr Hma Ha Hd.
  set (m1 := <[payload_value (kv a):=kv_value e]> (<[payload_key (kv a):=kv_key e]> m)).
  assert (Hsep : h + 32 <= a \/ a + 32 <= h)
    by (eapply (disjoint_block_sep a 32 h 32); [exact Hd|left|lia|lia]).
  assert (Hr1 : fifo_repr gs hd ns l m1).
  { eapply fifo_repr_frame; [|exact Hr]. intros c Hc. unfold m1.
    rewrite !lookup_insert_ne; [done|..]; intros <-; (eapply Hd; [|exact Hc]; addr). }
  assert (Hma1 : mapped_words a 32 m1)
    by (intros i Hi Hin; unfold m1; do 2 apply lookup_ins_is_Some; by apply Hma).
  pose proof (Hma 2 ltac:(lia) ltac:(lia)) as M2. pose proof (Hma 3 ltac:(lia) ltac:(lia)) as M3.
  assert (is_Some (m !! payload_key (kv a))) by (replace (payload_key (kv a)) with (a + 8 * 2) by addr; done).
  assert (is_Some (m !! payload_value (kv a))) by (replace (payload_value (kv a)) with (a + 8 * 3) by addr; done).
  assert (Hpost : fifo_repr gs hd (ns ++ [a]) (l ++ [e]) (after_fill a (List.last (hd :: ns) 0) e m) /\
    unchanged_outside (in_live ((a, 32) :: fifo_own gs hd ns)) m
      (after_fill a (List.last (hd :: ns) 0) e m) /\
    grows m (after_fill a (List.last (hd :: ns) 0) e m)).
  { split; [|split].
    - apply fifo_repr_enqueue; try done; unfold m1.
      + replace (a + 16) with (payload_key (kv a)) by addr. mlook.
      + replace (a + 24) with (payload_value (kv a)) by addr. mlook.
    - assert (Hin : List.last (hd :: ns) 0 ∈ gs ++ hd :: ns)
        by (apply elem_of_app; right; by apply last_elem).
      unfold after_fill, after_enqueue. repeat (apply unchanged_insert_trans; [apply in_live_cons|]).
      all: try (left; addr); try apply unchanged_refl; right; apply in_live_cons; first [left; addr|right].
      apply (node_in 32); [done|addr].
    - unfold after_fill, after_enqueue. auto 10 with arena. }
  destruct s; prun; fold m1.
  1: eapply wpr_mono; [apply (enqueue_ok BPF gs hd ns l a m1 b Hr1 Hma1 Hsep)|].
  2: eapply wpr_mono; [apply (enqueue_ok USER gs hd ns l a m1 b Hr1 Hma1 Hsep)|].
  all: intros _ m' b' (-> & ->); prun; split; [done|split; [done|]]; exact Hpost.
Qed.

Definition fifo_insert_post (gs : list Z) (hd : Z) (ns : list Z) (l : list ds_kv) (e : ds_kv)
    (rest : list block) (r : Z) (m' : mem) : Prop :=
  (r = DS_ERROR_NOMEM /\ gs = [] /\ heap_holds (fifo_own gs hd ns) rest m' /\
   fifo_repr gs hd ns l m') \/
  (r = DS_SUCCESS /\ exists gs' a,
     heap_holds (fifo_own gs' hd (ns ++ [a])) rest m' /\
     fifo_repr gs' hd (ns ++ [a]) (l ++ [e]) m' /\ gs = match gs with [] => [] | _ => a :: gs' end).

Lemma fifo_insert_ok s gs hd ns l rest m b e :
  heap_holds (fifo_own gs hd ns) rest m -> fifo_repr gs hd ns l m -> (gs = [] -> alloc_pre 32 m) ->
  wpr (ds_ck_fifo_spsc_insert s h (kv_key e) (kv_value e)) m b (fun r m' b' =>
    b' = b /\ (forall c, in_live rest c -> m' !! c = m !! c) /\
    fifo_insert_post gs hd ns l e rest r m').
Proof.
  intros Hh Hr Hpre.
  (* one entry: recycled, or fresh, or none *)
  assert (Hentry : forall m1 b1 r, recycle_post gs hd ns l m r m1 ->
    wpr (if r =? 0 then bpf_arena_alloc FifoEntry.sizeof else Ret r) m1 b1 (fun a m2 b2 =>
      b2 = b1 /\ (forall c, in_live rest c -> m2 !! c = m !! c) /\
      ((a = 0 /\ gs = [] /\ heap_holds (fifo_own gs hd ns) rest m2 /\ fifo_repr gs hd ns l m2) \/
       (0 < a /\ exists gs', gs = match gs with [] => [] | _ => a :: gs' end /\
          fifo_repr gs' hd ns l m2 /\ mapped_words a 32 m2 /\
          disjoint_block a 32 (fifo_own gs' hd ns) /\
          heap_holds ((a, 32) :: fifo_own gs' hd ns) rest m2)))).
  { intros m1 b1 r (Hu & Hg & Hpost).
    destruct (heap_holds_update _ _ m m1 Hh) as [Hh1 Hsame1]; [|done|].
    { eapply unchanged_mono; [exact Hu|]. intros c Hc. apply in_live_cons. by left. }
    destruct gs as [|g gs'].
    - destruct Hpost as [-> Hr1]. cbn.
      assert (Hpre1 : alloc_pre 32 m1).
      { destruct Hh as [Hh _]. eapply alloc_pre_frame; [exact Hh| |by apply Hpre].
        eapply unchanged_mono; [exact Hu|]. intros c Hc. apply in_live_cons. by left. }
      eapply wpr_mono; [by apply (alloc_owned (fifo_own [] hd ns) rest)|].
      intros a m2 b2 (-> & Hsame & Ha). split; [done|].
      assert (Hr2 : fifo_repr [] hd ns l m2)
        by (eapply fifo_repr_frame; [|exact Hr1]; intros c Hc; apply Hsame, in_live_app; by left).
      split; [intros c Hc; rewrite Hsame by (apply in_live_app; by right); by apply Hsame1|].
      destruct Ha as [[-> Hh2]|(Ha & _ & Hd & Hmp & Hh2)]; [left; done|].
      right. split; [done|]. exists []. apply disjoint_block_app in Hd as [Hd _]. done.
    - destruct Hpost as (-> & Hg0 & Hr1 & Hmp). replace (g =? 0) with false by lia. prun.
      split; [done|]. split; [done|]. right. split; [done|]. exists gs'.
      assert (Hh2 : heap_holds ((g, 32) :: fifo_own gs' hd ns) rest m1)
        by (eapply heap_holds_perm; [|exact Hh1]; apply perm_swap).
      split; [done|]. split; [done|]. split; [done|]. split; [|done].
      destruct Hh2 as [_ [Hd _]]. by apply disjoint_block_app in Hd as [Hd _]. }
  destruct s; unfold ds_ck_fifo_spsc_insert, ds_ck_fifo_spsc_insert_lkmm, ds_ck_fifo_spsc_insert_c;
    pif.
  1: eapply wpr_call; [apply (recycle_ok BPF gs hd ns l m b Hr)|].
  2: eapply wpr_call; [apply (recycle_ok USER gs hd ns l m b Hr)|].
  all: intros r m1 b1 (-> & Hpost); eapply wpr_call; [by apply Hentry|].
  all: intros a m2 b2 (-> & Hsame & Ha).
  all: destruct Ha as [(-> & Hgs & Hh2 & Hr2)|(Ha & gs' & Hgs & Hr2 & Hmp & Hd & Hh2)];
    [pif_true; prun; split; [done|split; [done|]]; by left|pif_false].
  1: eapply wpr_mono; [by apply (fill_ok BPF gs' hd ns l a e m2)|].
  2: eapply wpr_mono; [by apply (fill_ok USER gs' hd ns l a e m2)|].
  all: intros r' m3 b3 (-> & -> & Hr3 & Hu3 & Hg3); split; [done|].
  all: destruct (heap_holds_update _ _ m2 m3 Hh2 Hu3 Hg3) as [Hh3 Hsame3].
  all: split; [intros c Hcr; rewrite Hsame3 by done; by apply Hsame|].
  all: right; split; [done|]; exists gs', a; split; [|done].
  all: eapply heap_holds_perm; [symmetry; apply fifo_own_snoc|done].
Qed.
Lemma fifo_own_shift gs hd a ns : fifo_own (gs ++ [hd]) a ns = fifo_own gs hd (a :: ns).
Proof. unfold fifo_own. by rewrite <- app_assoc. Qed.

(** The dequeued entry becomes the consumer's entry; the previous one can be recycled. *)
Lemma fifo_repr_dequeue gs hd a ns e l m :
  fifo_repr gs hd (a :: ns) (e :: l) m -> fifo_repr (gs ++ [hd]) a ns l (<[head h:=a]> m).
Proof.
  intros [E1 E2 (snap & E3 & Hsn) (g & ks & k0 & E4 & Hlen & Hc) Hv Hm Hs].
  assert (Hsplit : (gs ++ [hd]) ++ a :: ns = gs ++ hd :: a :: ns) by (by rewrite <- app_assoc).
  pose proof (fun c => fifo_head_apart gs hd (a :: ns) c Hs) as Hhd.
  assert (Hval : forall x, x ∈ gs ++ hd :: a :: ns -> <[head h:=a]> m !! value x = m !! value x).
  { intros x Hx. apply lookup_insert_ne. intros Heq. apply (Hhd (value x)); [rewrite <- Heq; addr|].
    apply (node_in 32); [done|addr]. }
  split.
  - mlook.
  - mlook.
  - exists snap. split; [mlook|]. apply elem_of_app. by left.
  - exists g, (ks ++ [k0]), e. split; [mlook|]. split; [rewrite !length_app; cbn; lia|].
    rewrite Hsplit, <- app_assoc. eapply chain_frame_ins; [apply fifo_layout| |exact Hc].
    apply Hhd. addr.
  - intros x Hx. rewrite Hval; [apply Hv; by right|]. apply elem_of_app. right. right. by right.
  - intros x. rewrite Hsplit. intros Hx. rewrite Hval by done. by apply Hm.
  - by rewrite fifo_own_shift.
Qed.

Lemma fifo_pop_ok s gs hd ns l m b d :
  fifo_repr gs hd ns l m ->
  wpr (ds_ck_fifo_spsc_pop s h d) m b (fun r m' b' => b' = b /\
    match l with
    | [] => r = (DS_ERROR_NOT_FOUND, d) /\ m' = m
    | e :: l' =>
        r = (DS_SUCCESS, out_pair d e) /\
        (exists a ns', ns = a :: ns' /\ fifo_repr (gs ++ [hd]) a ns' l' m') /\
        unchanged_outside (in_block h 32) m m' /\ grows m m'
    end).
Proof.
  intros Hr. pose proof Hr as [E1 E2 _ _ Hv Hm Hs].
  destruct (fifo_from_head _ _ _ _ _ Hr) as [k0 Hc]. cbn [chain] in Hc.
  destruct Hc as (_ & Hhd & _ & _ & nxt & Hnx & Hc).
  destruct s; unfold ds_ck_fifo_spsc_pop, ds_ck_fifo_spsc_delete, ds_ck_fifo_spsc_delete_lkmm,
    ds_ck_fifo_spsc_delete_c, ds_ck_fifo_spsc_dequeue_lkmm, ds_ck_fifo_spsc_dequeue_c; pif;
    apply wpr_bind; prun; destruct ns as [|a ns'], l as [|e l']; cbn [chain] in Hc; try done.
  1,3: subst nxt; pif_true; prun; done.
  all: destruct Hc as (-> & Ha & Hk & Hvv & _); pif_false.
  all: assert (Hva : m !! value a = Some (kv a)) by (apply Hv; left).
  all: prun; pif_false.
  all: assert (Hkk : <[head h:=a]> m !! payload_key (kv a) = Some (kv_key e) /\
                     <[head h:=a]> m !! payload_value (kv a) = Some (kv_value e)).
  1,3: assert (Hap : forall x, 0 <= x < 32 -> ~ in_block h 32 (a + x));
    [intros x Hx Hb; eapply (fifo_head_apart gs hd (a :: ns')); [done|exact Hb|];
     apply (node_in 32); [apply elem_of_app; right; right; left|done]|];
    pose proof (Hap 16 ltac:(lia)); pose proof (Hap 24 ltac:(lia)); unfold in_block in *;
    split; (rewrite lookup_insert_ne by addr);
    [replace (payload_key (kv a)) with (a + 16) by addr|replace (payload_value (kv a)) with (a + 24) by addr]; done.
  all: assert (0 < kv a) by addr; destruct Hkk as [Hkk Hkv]; destruct d as [d|]; [pif_false|]; prun.
  all: split; [done|]; split; [by destruct e|]; split; [|split; [frame|auto with arena]].
  all: exists a, ns'; split; [done|]; by eapply fifo_repr_dequeue.
Qed.

Lemma fifo_isempty_ok s gs hd ns l m b :
  fifo_repr gs hd ns l m ->
  wpr (ds_ck_fifo_spsc_isempty s h) m b
    (fun r m' b' => r = (Zlen l =? 0) /\ m' = m /\ b' = b).
Proof.
  intros Hr. pose proof Hr as [E1 _ _ _ _ _ _].
  destruct (fifo_from_head _ _ _ _ _ Hr) as [k0 Hc]. cbn [chain] in Hc.
  destruct Hc as (_ & Hhd & _ & _ & nxt & Hnx & Hc).
  destruct s; unfold ds_ck_fifo_spsc_isempty, ds_ck_fifo_spsc_isempty_lkmm,
    ds_ck_fifo_spsc_isempty_c; prun; rewrite (chain_null _ _ _ _ _ _ _ Hc);
    (split; [|done]); destruct l; rewrite ?Zlen_cons; try done; pose proof (Zlen_nonneg l); lia.
Qed.

(** The walk from the head reaches the tail, within the step bound and the loop budget. *)
(** The verifier accepts every well-formed queue of fewer than [FIFO_MAX_STEPS] elements, given the loop budget
    for the walk. *)
Lemma fifo_verify_ok s gs hd ns l m b :
  fifo_repr gs hd ns l m -> Zlen l < FIFO_MAX_STEPS -> budget s (S (length l)) b ->
  wpr (ds_ck_fifo_spsc_verify s h) m b (fun r m' _ => r = DS_SUCCESS /\ m' = m).
Proof.
  intros Hr Hmax Hb. pose proof (fifo_garbage_hd _ _ _ _ _ Hr) as Eg.
  destruct (fifo_from_head _ _ _ _ _ Hr) as [k0 Hc].
  pose proof Hr as [E1 E2 _ (g & ks & k1 & _ & _ & Hall) _ _ Hs].
  assert (Hpos : forall x, x ∈ gs ++ hd :: ns -> 0 < x) by (intros x; by eapply chain_pos).
  assert (0 < hd) by (apply Hpos; apply elem_of_app; right; left).
  assert (0 < List.hd hd gs) by (destruct gs; [done|]; apply Hpos; left).
  set (t := List.last (hd :: ns) 0) in *.
  assert (0 < t) by (apply Hpos; apply elem_of_app; right; by apply last_elem).
  assert (Hnd : NoDup (hd :: ns)).
  { destruct Hs as [_ Hs]. rewrite <- (app_nil_r (node_blocks _ _)) in Hs.
    apply (separated_nodup _ _ _ _ fifo_layout) in Hs. by apply NoDup_app in Hs as (_ & _ & Hs). }
  pose proof (chain_length _ _ _ _ _ _ _ _ Hc) as Hlen. cbn [length] in Hlen. unfold Zlen in Hmax.
  destruct s; unfold ds_ck_fifo_spsc_verify, ds_ck_fifo_spsc_verify_lkmm, ds_ck_fifo_spsc_verify_c;
    pif; prun; pif_false; prun; pif_false; prun; pif_false; prun; pif_false.
  1: pose (sd := BPF). 2: pose (sd := USER).
  all: apply (wpr_loop _ (fun n '(cursor, i) m' b' => m' = m /\ exists ns' l' k',
         entries m cursor (cursor :: ns') (k' :: l') /\ t = List.last (cursor :: ns') 0 /\
         NoDup (cursor :: ns') /\ n = length ns' /\ 0 <= i /\
         i + Z.of_nat (length ns') = Z.of_nat (length ns) /\ budget sd (S n) b') _ (length ns));
    [|split; [done|]; exists ns, l, k0; split_and!; try (done || lia);
      by replace (length ns) with (length l) by lia|lia].
  all: intros n [cursor i] m' b' (-> & ns' & l' & k' & Hch & Ht & Hnd' & -> & Hi & Hpi & Hbn).
  all: pif_true; try specialize (Hbn eq_refl); prun.
  all: destruct Hch as (_ & _ & _ & _ & nxt & Hnx & Hch).
  all: destruct ns' as [|x ns'], l' as [|ex l']; cbn [chain] in Hch; try done;
    [cbn [List.last] in Ht; pif_true; prun; done|].
  all: assert (Htx : t ∈ x :: ns') by (rewrite Ht; change (List.last (cursor :: x :: ns') 0) with (List.last (x :: ns') 0); by apply last_elem).
  all: assert (cursor <> t) by (intros ->; by apply NoDup_cons in Hnd' as [? _]).
  all: destruct Hch as (-> & Hx & Hch); pif_false; prun; pif_false; prun.
  all: exists (length ns'); split; [cbn; lia|]; split; [done|]; exists ns', l', ex.
  all: cbn [length] in *; apply NoDup_cons in Hnd' as [_ Hnd']; split_and!; try (done || lia).
  all: intros ?; (done || lia).
Qed.

Lemma fifo_init_ok s rest m b :
  heap_holds [(h, 32)] rest m -> mapped_words h 32 m -> alloc_pre 32 m ->
  wpr (ds_ck_fifo_spsc_init s h) m b (fun r m' b' => b' = b /\
    (forall c, in_live rest c -> m' !! c = m !! c) /\
    ((r = DS_ERROR_NOMEM /\ heap_holds [(h, 32)] rest m' /\
      forall a, in_block h 32 a -> m' !! a = m !! a) \/
     (r = DS_SUCCESS /\ exists stub,
        heap_holds (fifo_own [] stub []) rest m' /\ fifo_repr [] stub [] [] m'))).
Proof.
  intros Hh Hmh Hpre.
  destruct s; unfold ds_ck_fifo_spsc_init, ds_ck_fifo_spsc_init_lkmm, ds_ck_fifo_spsc_init_c,
    ds_ck_fifo_spsc_fifo_init_lkmm, ds_ck_fifo_spsc_fifo_init_c; pif;
    (eapply wpr_call; [by apply (alloc_owned [(h, 32)] rest)|]);
    intros a m1 b1 (-> & Hsame & [[-> Hh1]|(Ha & _ & Hd & Hma & Hh1)]).
  1,3: pif_true; prun; split; [done|]; split; [intros c Hcr; apply Hsame, in_live_app; by right|left].
  1,2: split_and!; [done|done|]; intros c Hcr; apply Hsame, in_live_app; left; by apply in_own_head.
  all: pif_false; change FifoEntry.sizeof with 32 in *.
  all: assert (Hmh1 : forall x, 0 <= x < 32 -> is_Some (m !! (h + x)) -> is_Some (m1 !! (h + x)))
    by (intros x Hx; rewrite Hsame; [done|]; apply in_live_app; left; apply in_live_cons; left; addr).
  all: pose proof (Hmh1 0 ltac:(lia) (Hmh 0 ltac:(lia) ltac:(lia)));
       pose proof (Hmh1 8 ltac:(lia) (Hmh 1 ltac:(lia) ltac:(lia)));
       pose proof (Hmh1 16 ltac:(lia) (Hmh 2 ltac:(lia) ltac:(lia)));
       pose proof (Hmh1 24 ltac:(lia) (Hmh 3 ltac:(lia) ltac:(lia))).
  all: pose proof (Hma 0 ltac:(lia) ltac:(lia)) as M0; pose proof (Hma 1 ltac:(lia) ltac:(lia)) as M1;
       pose proof (Hma 2 ltac:(lia) ltac:(lia)) as M2; pose proof (Hma 3 ltac:(lia) ltac:(lia)) as M3;
       cbn in M0, M1, M2, M3.
  all: assert (is_Some (m1 !! payload_key (kv a))) by (replace (payload_key (kv a)) with (a + 16) by addr; done).
  all: assert (is_Some (m1 !! payload_value (kv a))) by (replace (payload_value (kv a)) with (a + 24) by addr; done).
  all: apply disjoint_block_app in Hd as [Hd _].
  all: assert (Hsep : h + 32 <= a \/ a + 32 <= h)
    by (eapply (disjoint_block_sep a 32 h 32); [exact Hd|left|lia|lia]).
  all: prun; split; [done|].
  all: match goal with |- _ /\ (_ \/ (_ = _ /\ exists stub, heap_holds _ _ ?m' /\ _)) => set (m2 := m') end.
  all: destruct (heap_holds_update _ _ m1 m2 Hh1) as [Hh2 Hrest];
    [unfold m2; repeat (apply unchanged_insert_trans; [apply in_live_cons; first [left; addr|right; apply in_live_cons; left; addr]|]); apply unchanged_refl
    |unfold m2; auto 10 with arena|].
  all: split; [intros c Hcr; rewrite Hrest by done; apply Hsame, in_live_app; by right|].
  all: right; split; [done|]; exists a; split; [eapply heap_holds_perm; [apply perm_swap|exact Hh2]|].
  all: unfold m2; split; try mlook; cbn [app List.last].
  all: try (exists a; split; [mlook|left]).
  all: try (intros x Hx; by apply elem_of_nil in Hx).
  all: try (intros x Hx; apply list_elem_of_singleton in Hx as ->; eexists; mlook).
  1,3: exists a, [], (mk_kv 0 0); split; [mlook|]; split; [done|]; apply chain_single; [done|..];
    cbn [kv_key kv_value];
    [replace (a + 16) with (payload_key (kv a)) by addr; mlook
    |replace (a + 24) with (payload_value (kv a)) by addr; mlook
    |mlook].
  all: destruct Hh2 as [_ Hh2]; cbn in Hh2 |- *; destruct Hh2 as (Hd1 & Hd2 & Hd3).
  all: apply disjoint_block_cons in Hd1 as [Hd1 _]; split; [|split; [|done]]; [|by intros ? _ ?%in_live_nil].
  all: intros c Hc1 Hc2; apply in_live_cons in Hc2 as [Hc2|Hc2]; [by apply (Hd1 c)|by apply in_live_nil in Hc2].
Qed.

(** An insertion that finds a consumed entry behind the head reuses it: it succeeds without
    the allocator, whatever memory is left, and owns no more entries than before. *)
Lemma fifo_insert_recycles s g gs hd ns l rest m b e :
  heap_holds (fifo_own (g :: gs) hd ns) rest m -> fifo_repr (g :: gs) hd ns l m ->
  wpr (ds_ck_fifo_spsc_insert s h (kv_key e) (kv_value e)) m b (fun r m' b' =>
    b' = b /\ r = DS_SUCCESS /\ exists gs' a,
      g :: gs = a :: gs' /\ fifo_repr gs' hd (ns ++ [a]) (l ++ [e]) m' /\
      heap_holds (fifo_own gs' hd (ns ++ [a])) rest m').
Proof.
  intros Hh Hr. eapply wpr_mono; [by apply (fifo_insert_ok s (g :: gs) hd ns l rest)|].
  intros r m' b' (-> & _ & [(_ & ? & _)|(-> & gs' & a & Hh' & Hr' & E)]); [done|].
  split; [done|]. split; [done|]. by exists gs', a.
Qed.
End spec.

(** ** The FIFO as a container *)

Section container.
Context `{K : Kernel} `{Al : Allocator} `{!AllocLaws Al}.
Variables (s : side) (h : Z).
Hypothesis h_pos : 0 < h.
Hypothesis alloc_ready : forall live sz m, heap_ok live m -> alloc_pre sz m.

Lemma fifo_home_frame m m' :
  (forall a, in_block h 32 a -> m' !! a = m !! a) ->
  (mapped_words h 32 m -> mapped_words h 32 m') /\
  (m !! head h = Some 0 /\ m !! tail h = Some 0 -> m' !! head h = Some 0 /\ m' !! tail h = Some 0).
Proof.
  intros Hf. split; [|rewrite !Hf by addr; done].
  intros Hm i Hi1 Hi2. rewrite Hf by addr. by apply Hm.
Qed.

Definition fifo_container : Container := {|
  c_init := ds_ck_fifo_spsc_init s h;
  c_insert := ds_ck_fifo_spsc_insert s h;
  c_pop := ds_ck_fifo_spsc_pop s h;
  c_home := (h, 32);
  c_ready := mapped_words h 32;
  c_blank m := m !! head h = Some 0 /\ m !! tail h = Some 0;
  c_inv own l m := exists gs hd ns, own = fifo_own h gs hd ns /\ fifo_repr h gs hd ns l m;
  c_spec := unbounded fifo_add;
  c_init_budget := 0;
  c_budget := 0
|}.

#[export] Instance fifo_container_laws : ContainerLaws s fifo_container.
Proof.
  split.
  - intros own l m m' Hf (gs & hd & ns & -> & Hr). exists gs, hd, ns. split; [done|].
    by eapply fifo_repr_frame.
  - intros m m' Hf. apply fifo_home_frame. intros a Ha. by apply Hf, in_own_head.
  - intros rest m b j Hh Hm Hb.
    eapply wpr_mono; [apply (fifo_init_ok h h_pos s rest); try done;
      by destruct Hh; eapply alloc_ready|].
    intros r m' b' (-> & Hrest & [(-> & Hh' & Hhd)|(-> & stub & Hh' & Hr)]);
      (split; [exact Hb|split; [done|]]);
      [left; split; [done|]; split; [exact Hh'|]; destruct (fifo_home_frame m m' Hhd) as [Hr1 Hr2]; split; [exact (Hr1 Hm)|exact Hr2]|right].
    split; [done|]. exists (fifo_own h [] stub []). split; [done|]. by exists [], stub, [].
  - intros own rest l m b e Hh (gs & hd & ns & -> & Hr) _.
    eapply wpr_mono; [apply (fifo_insert_ok h h_pos s gs hd ns l rest); try done;
      intros _; by destruct Hh; eapply alloc_ready|].
    intros r m' b' (_ & Hrest & [(-> & _ & Hh' & Hr')|(-> & gs' & a & Hh' & Hr' & _)]);
      (split; [done|]).
    + exists (fifo_own h gs hd ns), l. split; [done|]. split; [by exists gs, hd, ns|by right].
    + exists (fifo_own h gs' hd (ns ++ [a])), (l ++ [e]). split; [done|].
      split; [by exists gs', hd, (ns ++ [a])|by left].
  - intros own rest l m b d Hh (gs & hd & ns & -> & Hr) _.
    eapply wpr_mono; [by apply (fifo_pop_ok h h_pos s gs hd ns l)|].
    intros r m' b' (_ & Hpost). destruct l as [|e l'].
    + destruct Hpost as [-> ->]. split; [done|]. exists (fifo_own h gs hd ns). split; [done|].
      split; [done|]. by exists gs, hd, ns.
    + destruct Hpost as (-> & (a & ns' & -> & Hr') & Hu & Hg).
      destruct (heap_holds_update _ rest m m' Hh) as [Hh' Hrest]; [|done|].
      { eapply unchanged_mono; [exact Hu|]. intros c Hc. by apply in_own_head. }
      split; [done|]. exists (fifo_own h (gs ++ [hd]) a ns').
      split; [by rewrite fifo_own_shift|]. split; [done|]. by exists (gs ++ [hd]), a, ns'.
Qed.
End container.
