(* ===== verification/FifoConc.v ===== *)
(** * ConcurrencyKit's linked FIFO under one producer and one consumer.

    All entries ever linked and not yet recycled form one chain, from [garbage] to the last one;
    the consumer's [head] is somewhere in it and only moves forward, the producer takes entries
    off its front (never past the head it has seen) and links new ones to its end. An insertion
    takes effect when it links its entry, before it writes [tail], which only the producer reads;
    a successful pop when it moves [head], an empty one when it reads the null link. The entry
    [head] points to is read after that move: it is not recycled before the next pop. *)
From stdpp Require Import base numbers gmap list fin_maps option relations.
From S2P Require Import Prelude Machine Logic Api Owned Container Conc SoleAlloc Duet Ring Linked CkFifo.
Import Fifo FifoEntry.

(** ** The ghost state *)

(** The entries with their pairs: recycled ones, the consumer's, the queued ones. *)
Record fview := mk_fview {
  fv_gs : list (Z * ds_kv);
  fv_hd : Z * ds_kv;
  fv_ns : list (Z * ds_kv);
  fv_hist : list event
}.

Definition fv_nodes (g : fview) : list (Z * ds_kv) := g.(fv_gs) ++ g.(fv_hd) :: g.(fv_ns).
Definition fv_items (g : fview) : list ds_kv := g.(fv_ns).*2.

(** Memory is that of a live queue, but for [tail], which an insertion in progress leaves
    behind. *)
Definition fifo_shared `{K : Kernel} (h : Z) (l : list ds_kv) (m : mem) : Prop :=
  exists gs hd ns, fifo_repr h gs hd ns l (<[tail h:=List.last (hd :: ns) 0]> m).

Definition fifo_quiet `{K : Kernel} (h : Z) (l : list ds_kv) (m : mem) : Prop :=
  exists gs hd ns, fifo_repr h gs hd ns l m.

Section fifo.
Context `{K : Kernel} `{Al : Allocator} `{!AllocLaws Al} {room : Z -> nat -> mem -> Prop}
  `{!SoleAllocLaws Al room}.
Variables (h : Z) (rest : list block) (l0 : list ds_kv) (lim : nat) (pcells ccells : Z -> Prop).
Hypothesis h_pos : 0 < h.
(** Cells of the two threads, in blocks that are not the queue's. *)
Hypothesis cells_rest : forall a, pcells a \/ ccells a -> in_live rest a.
Hypothesis cells_apart : forall a, pcells a -> ~ ccells a.
Implicit Types (s : mem * fview) (g : fview) (N : list (Z * ds_kv)) (I O : list event).

Notation entries m p ns l := (chain 8 16 24 m p ns l 0).

Definition own N : list block := (h, 32) :: node_blocks 32 (N.*1).

Record fifo_inv s : Prop := {
  fi_head : s.1 !! head h = Some s.2.(fv_hd).1;
  fi_snap : exists sp, s.1 !! head_snapshot h = Some sp /\ sp ∈ (s.2.(fv_gs) ++ [s.2.(fv_hd)]).*1;
  fi_chain : exists gb, s.1 !! garbage h = Some gb /\
               entries s.1 gb (fv_nodes s.2).*1 (fv_nodes s.2).*2;
  fi_values : forall x, x ∈ s.2.(fv_ns) -> s.1 !! value x.1 = Some (kv x.1);
  fi_mapped : forall x, x ∈ fv_nodes s.2 -> is_Some (s.1 !! value x.1);
  fi_sep : separated (own (fv_nodes s.2) ++ rest);
  fi_hist : abs_steps (unbounded fifo_add) l0 s.2.(fv_hist) (fv_items s.2)
}.

(** What the consumer may do while the producer is at work, and vice versa. *)
Definition prod_rely s s' : Prop :=
  fifo_inv s -> fifo_inv s' /\
    fv_nodes s'.2 = fv_nodes s.2 /\ inserts s'.2.(fv_hist) = inserts s.2.(fv_hist) /\
    (forall x, x ∈ (s.2.(fv_gs) ++ [s.2.(fv_hd)]).*1 -> x ∈ (s'.2.(fv_gs) ++ [s'.2.(fv_hd)]).*1) /\
    unchanged_outside (fun a => a = head h \/ ccells a) s.1 s'.1 /\ grows s.1 s'.1.

Definition cons_rely s s' : Prop :=
  fifo_inv s -> fifo_inv s' /\
    s'.2.(fv_hd) = s.2.(fv_hd) /\ s.2.(fv_ns) `prefix_of` s'.2.(fv_ns) /\
    pops s'.2.(fv_hist) = pops s.2.(fv_hist) /\
    (forall a, ccells a -> s'.1 !! a = s.1 !! a).

#[local] Instance prod_rely_preorder : PreOrder prod_rely.
Proof.
  split.
  - intros s Hi. split_and!; auto using unchanged_refl. by intros a.
  - intros s1 s2 s3 H12 H23 Hi. destruct (H12 Hi) as (Hi2 & A1 & A2 & A3 & A4 & A5).
    destruct (H23 Hi2) as (Hi3 & B1 & B2 & B3 & B4 & B5).
    split_and!; [done|congruence|congruence|auto|by eapply unchanged_trans|intros a Ha; auto].
Qed.

#[local] Instance cons_rely_preorder : PreOrder cons_rely.
Proof.
  split.
  - intros s Hi. by split_and!.
  - intros s1 s2 s3 H12 H23 Hi. destruct (H12 Hi) as (Hi2 & A1 & A2 & A3 & A4).
    destruct (H23 Hi2) as (Hi3 & B1 & B2 & B3 & B4).
    split_and!; [done|congruence|by etrans|congruence|intros a Ha; rewrite B4; auto].
Qed.

(** The moves of the two sides: the other side's cells, and their own, stay as they are. *)
Definition prod_guar s s' : Prop :=
  fifo_inv s -> cons_rely s s' /\ forall a, pcells a -> s'.1 !! a = s.1 !! a.

Definition cons_guar s s' : Prop :=
  fifo_inv s -> prod_rely s s' /\ forall a, ccells a -> s'.1 !! a = s.1 !! a.

#[local] Instance prod_guar_refl : Reflexive prod_guar.
Proof. intros s Hi. by split; [reflexivity|]. Qed.

#[local] Instance cons_guar_refl : Reflexive cons_guar.
Proof. intros s Hi. by split; [reflexivity|]. Qed.

(** ** Where things are *)

Lemma own_node N x i : x ∈ N -> 0 <= i < 32 -> in_live (own N) (x.1 + i).
Proof.
  intros Hx Hi. apply in_live_cons. right. apply (node_in 32); [|done]. by apply list_elem_of_fmap_2.
Qed.

Lemma own_head N a : in_block h 32 a -> in_live (own N) a.
Proof. intros Ha. apply in_live_cons. by left. Qed.

Lemma head_off N a : separated (own N ++ rest) -> in_block h 32 a -> ~ in_live (node_blocks 32 (N.*1)) a.
Proof. intros [Hd _] Ha Hl. apply (Hd a Ha), in_live_app. by left. Qed.

Lemma cells_off N a : separated (own N ++ rest) -> pcells a \/ ccells a -> ~ in_live (own N) a.
Proof. intros (_ & _ & Hd)%separated_app Ha Hl. apply (Hd a Hl). by apply cells_rest. Qed.

(** Cells of the queue that nobody touches keep their part of the invariant. *)
Lemma fifo_inv_frame m m' g :
  fifo_inv (m, g) -> (forall a, in_live (own (fv_nodes g)) a -> m' !! a = m !! a) -> fifo_inv (m', g).
Proof.
  intros [E1 (sp & E2 & Hsn) (gb & E3 & Hc) Hv Hm Hs Hh] Hf. cbn in *.
  assert (Hhd : forall a, in_block h 32 a -> m' !! a = m !! a) by (intros a Ha; by apply Hf, own_head).
  assert (Hn : forall x, x ∈ fv_nodes g -> m' !! value x.1 = m !! value x.1)
    by (intros x Hx; apply Hf, own_node; [done|lia]).
  split; cbn; try done.
  - by rewrite Hhd by addr.
  - exists sp. by rewrite Hhd by addr.
  - exists gb. rewrite Hhd by addr. split; [done|]. eapply chain_frame; [apply fifo_layout| |exact Hc].
    intros a Ha. apply Hf, in_live_cons. by right.
  - intros x Hx. rewrite Hn; [by apply Hv|]. apply elem_of_app. right. by right.
  - intros x Hx. rewrite Hn by done. by apply Hm.
Qed.

(** ** The producer *)

(** The insertions so far are [I], [k] more requests can be made; the entries [F] are private to
    the producer, and their cells [c] have been written. *)
Record pst I (F : list Z) N (sp gb t : Z) (c : list (Z * Z)) (k : nat) s : Prop := {
  ps_inv : fifo_inv s;
  ps_hist : inserts s.2.(fv_hist) = I;
  ps_nodes : fv_nodes s.2 = N;
  ps_snap : s.1 !! head_snapshot h = Some sp;
  ps_garb : s.1 !! garbage h = Some gb;
  ps_tail : s.1 !! tail h = Some t;
  ps_heap : heap_holds (node_blocks 32 F ++ own N) rest s.1;
  ps_mapped : forall a, a ∈ F -> 0 < a /\ mapped_words a 32 s.1;
  ps_cells : Forall (fun av => in_live (node_blocks 32 F) av.1 /\ s.1 !! av.1 = Some av.2) c;
  ps_room : room 32 k s.1
}.

(** Between two operations. *)
Definition idle I (k : nat) s : Prop := exists N sp gb, pst I [] N sp gb (List.last (N.*1) 0) [] k s.

Lemma prely_writes N a : a = head h \/ ccells a -> in_live (own N ++ rest) a.
Proof.
  intros [-> |Ha]; apply in_live_app; [left; apply own_head; addr|right; apply cells_rest; by right].
Qed.

Lemma head_cell_kept N a : separated (own N ++ rest) -> in_block h 32 a -> a <> head h -> ~ (a = head h \/ ccells a).
Proof.
  intros Hs Ha Hne [?|Hc]; [done|]. apply (cells_off N a Hs); [by right|by apply own_head].
Qed.

#[local] Instance pst_stable I F N sp gb t c k : Stable prod_rely (pst I F N sp gb t c k).
Proof.
  intros s s' [Hi HI HN E1 E2 E3 Hh Hm Hc Hr] HR. destruct (HR Hi) as (Hi' & B1 & B2 & _ & B4 & B5).
  pose proof (fi_sep _ Hi) as Hs. rewrite HN in Hs.
  assert (Hw : unchanged_outside (in_live ((node_blocks 32 F ++ own N) ++ rest)) s.1 s'.1).
  { eapply unchanged_mono; [exact B4|]. intros a Ha. rewrite <- app_assoc. apply in_live_app. right.
    by apply prely_writes. }
  assert (Hk : forall a, in_block h 32 a -> a <> head h -> s'.1 !! a = s.1 !! a)
    by (intros a Ha Hne; apply B4; by apply (head_cell_kept N)).
  split; try done; try congruence; try (rewrite Hk by addr; done).
  - destruct Hh as [Hh Hsep]. split; [by eapply heap_ok_frame|done].
  - intros a Ha. destruct (Hm a Ha) as [Ha0 Hma]. split; [done|]. intros j Hj1 Hj2. by apply B5, Hma.
  - eapply Forall_impl; [exact Hc|]. intros [a v] [Ha Ev]; cbn in *. split; [done|].
    rewrite B4; [done|]. intros Hw'. destruct Hh as [_ Hsep]. rewrite <- app_assoc in Hsep.
    apply separated_app in Hsep as (_ & _ & Hd). apply (Hd a Ha). by apply prely_writes.
  - eapply (sole_room _ 32 k); [exact (proj1 Hh)|done|done].
Qed.

#[local] Hint Extern 0 (Stable _ (fun s => pst _ _ _ _ _ _ _ _ s)) => apply pst_stable : typeclass_instances.

(** Forgetting what was written to the private entries. *)
Lemma pst_forget I F N sp gb t c k s : pst I F N sp gb t c k s -> pst I F N sp gb t [] k s.
Proof. intros []. by split. Qed.

(** The producer's own moves: cells the consumer relies on stay as they are. *)
Lemma prod_move m m' g g' :
  fifo_inv (m', g') -> g'.(fv_hd) = g.(fv_hd) -> g.(fv_ns) `prefix_of` g'.(fv_ns) ->
  pops g'.(fv_hist) = pops g.(fv_hist) -> (forall a, in_live rest a -> m' !! a = m !! a) ->
  prod_guar (m, g) (m', g').
Proof.
  intros Hi H1 H2 H3 Hr _. split; [|intros a Ha; apply Hr, cells_rest; by left].
  intros _. split_and!; try done. intros a Ha. apply Hr, cells_rest. by right.
Qed.

(** A write to a cell that is not one of the queue's or of the rest. *)
Lemma write_outside m g c v :
  fifo_inv (m, g) -> ~ in_live (own (fv_nodes g) ++ rest) c ->
  fifo_inv (<[c:=v]> m, g) /\ prod_guar (m, g) (<[c:=v]> m, g).
Proof.
  intros Hi Hc.
  assert (Hf : forall a, in_live (own (fv_nodes g) ++ rest) a -> <[c:=v]> m !! a = m !! a)
    by (intros a Ha; apply lookup_insert_ne; by intros ->).
  assert (Hi' : fifo_inv (<[c:=v]> m, g))
    by (eapply fifo_inv_frame; [exact Hi|]; intros a Ha; apply Hf, in_live_app; by left).
  split; [done|]. apply prod_move; try done. intros a Ha. apply Hf, in_live_app. by right.
Qed.

(** The rest does not see a write to the queue's header. *)
Lemma rest_kept N a v (m : mem) : separated (own N ++ rest) -> in_live (own N) a ->
  forall c, in_live rest c -> <[a:=v]> m !! c = m !! c.
Proof.
  intros (_ & _ & Hd)%separated_app Ha c Hc. apply lookup_insert_ne. intros ->. by apply (Hd c).
Qed.

Lemma heap_holds_write F N m a v :
  heap_holds (node_blocks 32 F ++ own N) rest m -> in_live (node_blocks 32 F ++ own N) a ->
  is_Some (m !! a) -> heap_holds (node_blocks 32 F ++ own N) rest (<[a:=v]> m).
Proof.
  intros Hh Ha _. apply (heap_holds_update _ _ m); [done| |auto with arena].
  by apply unchanged_insert.
Qed.

Lemma room_write F N m a v k :
  heap_holds (node_blocks 32 F ++ own N) rest m -> in_live (node_blocks 32 F ++ own N) a ->
  room 32 k m -> room 32 k (<[a:=v]> m).
Proof.
  intros [Hh _] Ha. eapply sole_room; [exact Hh|].
  apply unchanged_insert, in_live_app. by left.
Qed.

(** Writing a cell of a private entry. *)
Lemma prod_drafts {A} o a j v (f : unit -> prog A) I N sp gb t c k Q :
  j = 0 \/ j = 8 \/ j = 16 \/ j = 24 -> Forall (fun av => av.1 <> a + j) c ->
  triple prod_rely prod_guar (pst I [a] N sp gb t ((a + j, v) :: c) k) (f tt) Q ->
  triple prod_rely prod_guar (pst I [a] N sp gb t c k) (store o (a + j) v ≫= f) Q.
Proof.
  intros Hj Hnew Hf. eapply triple_store; [apply _..| |exact Hf].
  intros [m g] [Hi HI HN E1 E2 E3 Hh Hm Hc Hr]. cbn [fst snd] in *. subst N.
  destruct (Hm a ltac:(by left)) as [Ha Hma].
  assert (Hin : in_live (node_blocks 32 [a]) (a + j)) by (apply (node_in 32); [left|lia]).
  assert (Hmp : is_Some (m !! (a + j))).
  { destruct Hj as [-> | [-> | [-> | ->]]];
      [apply (Hma 0)|apply (Hma 1)|apply (Hma 2)|apply (Hma 3)]; lia. }
  split; [done|]. exists g.
  assert (Hout : ~ in_live (own (fv_nodes g) ++ rest) (a + j)).
  { destruct Hh as [_ Hs]. rewrite <- app_assoc in Hs. apply separated_app in Hs as (_ & _ & Hd). by apply Hd. }
  assert (Hk : forall x, in_block h 32 x -> <[a + j:=v]> m !! x = m !! x).
  { intros x Hx. apply lookup_insert_ne. intros <-. apply Hout, in_live_app. left. by apply own_head. }
  destruct (write_outside m g _ v Hi Hout) as [Hi' HG].
  split; [done|]. split; cbn [fst snd]; try done; try (rewrite Hk by addr; done).
  - apply (heap_holds_write [a]); [done| |done]. apply in_live_app. by left.
  - intros b Hb. destruct (Hm b Hb) as [Hb0 Hmb]. split; [done|]. intros i Hi1 Hi2.
    by apply lookup_ins_is_Some, Hmb.
  - constructor; [split; [done|apply lookup_insert_eq]|]. clear -Hc Hnew.
    induction Hc as [|[b w] c [Hb E] Hc IH]; [done|]. apply Forall_cons in Hnew as [Hne Hnew]. cbn in *.
    constructor; [|by apply IH]. cbn. split; [done|]. by rewrite lookup_insert_ne by congruence.
  - eapply (room_write [a]); [done| |done]. apply in_live_app. by left.
Qed.

(** While the allocator works, its state is not the producer's to know. *)
Definition pmid I N (sp gb t : Z) s : Prop :=
  fifo_inv s /\ inserts s.2.(fv_hist) = I /\ fv_nodes s.2 = N /\ s.1 !! head_snapshot h = Some sp /\
  s.1 !! garbage h = Some gb /\ s.1 !! tail h = Some t.

#[local] Instance pmid_stable I N sp gb t : Stable prod_rely (pmid I N sp gb t).
Proof.
  intros s s' (Hi & HI & HN & E1 & E2 & E3) HR. destruct (HR Hi) as (Hi' & B1 & B2 & _ & B4 & _).
  pose proof (fi_sep _ Hi) as Hs. rewrite HN in Hs.
  assert (Hk : forall a, in_block h 32 a -> a <> head h -> s'.1 !! a = s.1 !! a)
    by (intros a Ha Hne; apply B4; by apply (head_cell_kept N)).
  split_and!; try done; try congruence; rewrite Hk by addr; done.
Qed.

(** The history after a refused insertion. *)
Definition refuse g e : fview :=
  mk_fview g.(fv_gs) g.(fv_hd) g.(fv_ns) (g.(fv_hist) ++ [EInsert e DS_ERROR_NOMEM]).

Lemma refuse_inv m g e : fifo_inv (m, g) -> fifo_inv (m, refuse g e).
Proof.
  intros [E1 E2 E3 Hv Hm Hs Hh]. split; try done. cbn. eapply abs_steps_snoc; [exact Hh|].
  by constructor.
Qed.

Lemma spares_inv m m' g :
  fifo_inv (m, g) -> spares (own (fv_nodes g) ++ rest) m m' -> fifo_inv (m', g).
Proof.
  intros Hi [Hsame _]. eapply fifo_inv_frame; [exact Hi|]. intros a Ha. apply Hsame, in_live_app. by left.
Qed.

(** A fresh entry, or none: then the insertion is refused here. *)
Lemma prod_allocs {A} (f : Z -> prog A) I N sp gb t k e Q :
  triple prod_rely prod_guar (pst (I ++ [EInsert e DS_ERROR_NOMEM]) [] N sp gb t [] k) (f 0) Q ->
  (forall a, 0 < a -> triple prod_rely prod_guar (pst I [a] N sp gb t [] k) (f a) Q) ->
  triple prod_rely prod_guar (pst I [] N sp gb t [] (S k)) (bpf_arena_alloc 32 ≫= f) Q.
Proof.
  intros Hno Hyes b [m g] _ [Hi HI HN E1 E2 E3 Hh _ _ Hr]. apply rg_bind; [apply _..|].
  set (P' := fun a (b' : nat) s => (a = 0 /\ pst (I ++ [EInsert e DS_ERROR_NOMEM]) [] N sp gb t [] k s) \/
    (0 < a /\ pst I [a] N sp gb t [] k s)).
  eapply rg_mono with (Q := P'); [apply _..| |].
  2:{ intros a b' s' [[-> Hs]|[Ha Hs]]; [by apply Hno; [lia|]|by apply Hyes; [|lia|]]. }
  destruct Hh as [Hh Hsep].
  eapply (rg_lift _ _ (owners_write (own N ++ rest)) (spares (own N ++ rest)) (pmid I N sp gb t) P');
    [apply _|unfold P'; apply _|..|by apply (sole_alloc (own N ++ rest) 32 k)].
  - intros m0. split; [apply unchanged_refl|by intros a].
  - intros s s' (Hi0 & _) HR. destruct (HR Hi0) as (_ & _ & _ & _ & B4 & B5). split; [|done].
    eapply unchanged_mono; [exact B4|]. intros a Ha. by apply prely_writes.
  - intros m0 g0 m1 (Hi0 & HI0 & HN0 & F1 & F2 & F3) Hsp. cbn [fst snd] in *. rewrite <- HN0 in Hsp.
    pose proof (spares_inv _ _ _ Hi0 Hsp) as Hi1. destruct Hsp as [Hsame Hg].
    assert (Hk : forall a, in_block h 32 a -> m1 !! a = m0 !! a)
      by (intros a Ha; apply Hsame, in_live_app; left; by apply own_head).
    split; [apply prod_move; try done; intros a Ha; apply Hsame, in_live_app; by right|].
    split_and!; try done; cbn; rewrite Hk by addr; done.
  - intros m0 g0 m1 a b' (Hi0 & HI0 & HN0 & F1 & F2 & F3) Hsp (-> & Hr1 & Ha). cbn [fst snd] in *. rewrite <- HN0 in Hsp.
    pose proof (spares_inv _ _ _ Hi0 Hsp) as Hi1. destruct Hsp as [Hsame Hg].
    assert (Hk : forall a, in_block h 32 a -> m1 !! a = m0 !! a)
      by (intros a' Ha'; apply Hsame, in_live_app; left; by apply own_head).
    assert (Hrest : forall a, in_live rest a -> m1 !! a = m0 !! a)
      by (intros a' Ha'; apply Hsame, in_live_app; by right).
    destruct Ha as [[-> Hh1]|(Ha & Hd & Hmp & Hh1)].
    + exists (refuse g0 e). pose proof (refuse_inv _ _ e Hi1) as Hi2.
      split; [apply prod_move; try done; apply pops_snoc_insert|]. left. split; [done|].
      split; cbn [fst snd]; try done; try (rewrite Hk by addr; done).
      * cbn. rewrite inserts_snoc. by f_equal.
      * by intros a' []%elem_of_nil.
    + exists g0. split; [by apply prod_move|]. right. split; [done|].
      split; cbn [fst snd]; try done; try (rewrite Hk by addr; done).
      intros a' ->%list_elem_of_singleton. done.
  - apply sole_call.
  - split_and!; done.
Qed.

(** *** Recycling *)

(** The head, read and remembered: it stays an entry at or before the consumer's. *)
Lemma prod_snapshots {A} o o' (f : unit -> prog A) I N sp gb t k Q :
  (forall x, triple prod_rely prod_guar (pst I [] N x gb t [] k) (f tt) Q) ->
  triple prod_rely prod_guar (pst I [] N sp gb t [] k)
    (load o (head h) ≫= fun x => store o' (head_snapshot h) x ≫= f) Q.
Proof.
  intros Hf. apply (triple_load_lin _ _ _ _ _ _ (fun x s =>
    (exists x', x = x' /\ pst I [] N sp gb t [] k s) /\
    (fifo_inv s /\ x ∈ (s.2.(fv_gs) ++ [s.2.(fv_hd)]).*1))); [apply _| |].
  - intros [m g] Hs. pose proof (ps_inv _ _ _ _ _ _ _ _ _ Hs) as Hi. exists g.(fv_hd).1.
    split; [apply (fi_head _ Hi)|]. exists g. split; [done|].
    split; [by eexists|]. split; [done|]. rewrite fmap_app. apply elem_of_app. right. left.
  - intros x.
    eapply (triple_store _ _ _ _ _ _ _ (pst I [] N x gb t [] k)); [|..].
    + intros s s' [(x' & Ex & Hs) [Hi Hx]] HR. split; [exists x'; split; [done|by eapply pst_stable]|].
      destruct (HR Hi) as (Hi' & _ & _ & B3 & _). split; [done|auto].
    + intros [m g] [(_ & _ & [Hi HI HN E1 E2 E3 Hh Hm Hc Hr]) [_ Hx]]. cbn [fst snd] in *.
      split; [by eexists|]. exists g. pose proof (fi_sep _ Hi) as Hs. cbn [snd] in Hs. subst N.
      assert (Hin : in_live (own (fv_nodes g)) (head_snapshot h)) by (apply own_head; addr).
      assert (Hoff : forall v c, ~ in_block h 32 c -> <[head_snapshot h:=v]> m !! c = m !! c)
        by (intros v c Hc'; apply lookup_insert_ne; intros <-; apply Hc'; addr).
      assert (Hi' : fifo_inv (<[head_snapshot h:=x]> m, g)).
      { destruct Hi as [F1 F2 (gb' & F3 & Hch) Hv Hmp Hs' Hhist]. cbn [fst snd] in *.
        assert (Hn : forall y, y ∈ fv_nodes g -> <[head_snapshot h:=x]> m !! value y.1 = m !! value y.1).
        { intros y Hy. apply Hoff. intros Hb. apply (head_off _ _ Hs Hb). apply (node_in 32); [|lia].
          by apply list_elem_of_fmap_2. }
        split; cbn [fst snd]; try done; try mlook.
        - exists x. split; [mlook|done].
        - exists gb'. split; [mlook|]. eapply chain_frame_ins; [apply fifo_layout| |done].
          apply (head_off _ _ Hs). addr.
        - intros y Hy. rewrite Hn; [by apply Hv|]. apply elem_of_app. right. by right.
        - intros y Hy. rewrite Hn by done. by apply Hmp. }
      split; [apply prod_move; try done; by apply (rest_kept (fv_nodes g))|].
      split; cbn [fst snd]; try done; try mlook.
      * apply (heap_holds_write []); [exact Hh|exact Hin|by eexists].
      * by intros a []%elem_of_nil.
      * eapply (room_write []); [exact Hh|exact Hin|done].
    + apply Hf.
Qed.

Lemma unlinked_mapped m g a e gs :
  fifo_inv (m, g) -> g.(fv_gs) = (a, e) :: gs -> mapped_words a 32 m.
Proof.
  intros [_ _ (gb & _ & Hc) _ Hm _ _] Hgs. cbn [fst snd] in *.
  assert (Hin : (a, e) ∈ fv_nodes g) by (unfold fv_nodes; rewrite Hgs; left).
  destruct (chain_mapped _ _ _ _ _ _ _ _ a Hc) as (M1 & M2 & M3); [by apply (list_elem_of_fmap_2 fst _ (a, e))|].
  apply mapped_words_4; [by apply (Hm (a, e))|done..].
Qed.

Lemma unlinked_inv m g a e gs y N :
  fifo_inv (m, g) -> g.(fv_gs) = (a, e) :: gs -> gs ++ fv_hd g :: fv_ns g = y :: N ->
  separated (own (y :: N) ++ rest) ->
  forall sp, sp <> a -> m !! head_snapshot h = Some sp -> m !! garbage h = Some a -> m !! next a = Some y.1 ->
  (forall x, x ∈ y :: N -> <[garbage h:=y.1]> m !! value x.1 = m !! value x.1) ->
  fifo_inv (<[garbage h:=y.1]> m, mk_fview gs g.(fv_hd) g.(fv_ns) g.(fv_hist)).
Proof.
  intros [E1 (sp' & E2 & Hsn) (gb' & E3 & Hc) Hv Hm _ Hh] Hgs Hnodes Hsep sp Hne E2' E3' En Hoff.
  cbn [fst snd] in *. rewrite E2' in E2. injection E2 as <-. rewrite E3' in E3. injection E3 as <-.
  unfold fv_nodes in *. rewrite Hgs in *. rewrite <- app_comm_cons, Hnodes in Hc, Hm.
  split; cbn [fst snd fv_gs fv_hd fv_ns fv_hist]; unfold fv_nodes; cbn [fv_gs fv_hd fv_ns]; rewrite ?Hnodes;
    try done; try mlook.
  - exists sp. split; [mlook|]. cbn in Hsn. by apply elem_of_cons in Hsn as [->|Hsn].
  - exists y.1. split; [mlook|]. destruct Hc as (_ & _ & _ & _ & p & Hp & Hc).
    change (m !! next a = Some p) in Hp. rewrite En in Hp. injection Hp as <-.
    eapply chain_frame_ins; [apply fifo_layout| |exact Hc]. apply (head_off _ _ Hsep). addr.
  - intros x Hx. rewrite Hoff; [by apply Hv|]. rewrite <- Hnodes. apply elem_of_app. right. by right.
  - intros x Hx. rewrite Hoff by done. apply Hm. by right.
Qed.

(** An entry before the snapshot leaves the chain at its front. *)
Lemma prod_unlinks {A} o o' (f : unit -> prog A) I N sp gb k Q :
  sp <> gb ->
  (forall N' gb', N <> [] -> List.last (N'.*1) 0 = List.last (N.*1) 0 -> 0 < gb ->
     triple prod_rely prod_guar (pst I [gb] N' sp gb' (List.last (N.*1) 0) [] k) (f tt) Q) ->
  triple prod_rely prod_guar (pst I [] N sp gb (List.last (N.*1) 0) [] k)
    (load o (next gb) ≫= fun x => store o' (garbage h) x ≫= f) Q.
Proof.
  intros Hne Hf.
  (* the chain from [garbage] on *)
  assert (Hsplit : forall s, pst I [] N sp gb (List.last (N.*1) 0) [] k s -> exists e y N' gs',
    N = (gb, e) :: y :: N' /\ s.2.(fv_gs) = (gb, e) :: gs' /\ 0 < gb /\ s.1 !! next gb = Some y.1).
  { intros [m g] [[E1 (sp' & E2 & Hsn) (gb' & E3 & Hc) _ _ _ _] _ HN F2 F3 _ _ _ _ _]. cbn [fst snd] in *.
    rewrite F2 in E2. injection E2 as <-. rewrite F3 in E3. injection E3 as <-. subst N.
    unfold fv_nodes in *. destruct (fv_gs g) as [|[a e] gs].
    - cbn in *. destruct Hc as (-> & _). by apply list_elem_of_singleton in Hsn.
    - cbn [app fmap list_fmap chain fst snd] in Hc. destruct Hc as (-> & Ha & _ & _ & p & Hp & Hc).
      exists e, (List.hd (fv_hd g) gs), (List.tl (gs ++ fv_hd g :: fv_ns g)), gs. split_and!; try done.
      + by destruct gs.
      + unfold next. rewrite Hp. f_equal. by destruct gs; destruct Hc as (-> & _). }
  intros b s Hb Hs. pose proof (Hsplit s Hs) as (e & y & N' & _ & HN & _ & Hgb & _).
  revert b s Hb Hs. change (triple prod_rely prod_guar (pst I [] N sp gb (List.last (N.*1) 0) [] k)
    (load o (next gb) ≫= fun x => store o' (garbage h) x ≫= f) Q).
  eapply (triple_load _ _ _ _ y.1); [apply _..| |].
  { intros s Hs. destruct (Hsplit s Hs) as (e' & y' & N'' & _ & HN' & _ & _ & E). rewrite HN in HN'. by injection HN' as <- <- <-. }
  eapply triple_store; [apply _..| |apply (Hf (y :: N') y.1); by rewrite ?HN].
  intros [m g] Hs. destruct (Hsplit _ Hs) as (e' & y' & N'' & gs' & HN' & Hgs & _ & En).
  rewrite HN in HN'. injection HN' as <- <- <-.
  destruct Hs as [Hi HI HN0 E1 E2 E3 Hh Hm _ Hr]. cbn [fst snd] in *. split; [by eexists|].
  exists (mk_fview gs' g.(fv_hd) g.(fv_ns) g.(fv_hist)).
  assert (Hnodes : gs' ++ fv_hd g :: fv_ns g = y :: N').
  { unfold fv_nodes in HN0. rewrite Hgs, HN in HN0. by injection HN0. }
  assert (Hh1 : heap_holds (node_blocks 32 [gb] ++ own (y :: N')) rest m).
  { eapply heap_holds_perm; [|exact Hh]. rewrite HN. apply perm_swap. }
  assert (Hsep : separated (own (y :: N') ++ rest)).
  { destruct Hh1 as [_ Hs]. rewrite <- app_assoc in Hs. by apply separated_app in Hs as (_ & Hs & _). }
  assert (Hin : in_live (own (y :: N')) (garbage h)) by (apply own_head; addr).
  assert (Hoff : forall x, x ∈ y :: N' -> <[garbage h:=y.1]> m !! value x.1 = m !! value x.1).
  { intros x Hx. apply lookup_insert_ne. intros Heq. apply (head_off _ (garbage h) Hsep); [addr|].
    rewrite Heq. apply (node_in 32); [|lia]. by apply list_elem_of_fmap_2. }
  pose proof (unlinked_inv _ _ _ _ _ _ _ Hi Hgs Hnodes Hsep _ Hne E1 E2 En Hoff) as Hi'.
  split; [apply prod_move; try done; by apply (rest_kept (y :: N'))|].
  split; cbn [fst snd]; try done; try mlook.
  - apply heap_holds_write; [done| |by eexists]. apply in_live_app. by right.
  - intros a ->%list_elem_of_singleton. split; [done|]. intros j Hj1 Hj2.
    apply lookup_ins_is_Some. by apply (unlinked_mapped _ _ _ _ _ Hi Hgs).
  - eapply (room_write [gb]); [exact Hh1| |done]. apply in_live_app. by right.
Qed.

(** What recycling hands over: nothing, or a private entry. *)
Definition drafting I k (a : Z) s : Prop :=
  exists N sp gb, pst I [a] N sp gb (List.last (N.*1) 0) [] k s.

Definition recycled I k (r : Z) s : Prop := (r = 0 /\ idle I k s) \/ (0 < r /\ drafting I k r s).

#[local] Instance idle_stable I k : Stable prod_rely (idle I k).
Proof. repeat (apply stable_exists; intros ?). apply pst_stable. Qed.

#[local] Instance drafting_stable I k a : Stable prod_rely (drafting I k a).
Proof. repeat (apply stable_exists; intros ?). apply pst_stable. Qed.

#[local] Instance recycled_stable I k r : Stable prod_rely (recycled I k r).
Proof. unfold recycled. apply _. Qed.

Lemma c_recycle_ok sd I k :
  triple prod_rely prod_guar (idle I k) (ds_ck_fifo_spsc_recycle sd h) (recycled I k).
Proof.
  apply triple_exists. intros N. apply triple_exists. intros sp. apply triple_exists. intros gb.
  set (t := List.last (N.*1) 0).
  assert (Hend : forall A (x : prog A) sp' Q, sp' <> gb ->
    (forall N' gb', List.last (N'.*1) 0 = t -> 0 < gb ->
       triple prod_rely prod_guar (pst I [gb] N' sp' gb' t [] k) x Q) ->
    forall o o', triple prod_rely prod_guar (pst I [] N sp' gb t [] k)
      (load o (next gb) ≫= fun y => store o' (garbage h) y ≫= fun _ => x) Q).
  { intros A x sp' Q Hne Hx o o'. apply prod_unlinks; [done|]. intros N' gb' _ HN' Hgb. by apply Hx. }
  destruct sd; unfold ds_ck_fifo_spsc_recycle, ds_ck_fifo_spsc_recycle_lkmm, ds_ck_fifo_spsc_recycle_c.
  all: tread ps_snap; tread ps_garb.
  all: eapply (triple_bind _ _ _ _ _ _ (fun none s =>
    exists sp', none = Z.eqb sp' gb /\ pst I [] N sp' gb t [] k s)).
  1,3: destruct (Z.eqb_spec sp gb) as [E|E];
    [|apply triple_ret; [apply _|]; intros s Hs; exists sp; split; [by destruct (Z.eqb_spec sp gb)|done]].
  1,2: taccess; apply prod_snapshots; intros x; tread ps_snap; tread ps_garb; apply triple_ret; [apply _|];
    intros s Hs; by exists x.
  all: intros none; apply triple_exists; intros sp'; apply triple_pure; intros ->;
    destruct (Z.eqb_spec sp' gb) as [E|E];
    [apply triple_ret; [apply _|]; intros s Hs; left; split; [done|by exists N, sp', gb]|].
  all: tread ps_garb; taccess; apply Hend; [done|]; intros N' gb' HN' Hgb; apply triple_ret; [apply _|];
    intros s Hs; right; split; [done|]; exists N', sp', gb'; by rewrite HN'.
Qed.

(** *** Linking *)

(** The entry of a filled draft. *)
Definition filled (a : Z) (e : ds_kv) : list (Z * Z) :=
  [(a + 8, 0); (a + 0, kv a); (a + 24, kv_value e); (a + 16, kv_key e)].

Lemma linked_inv m g a e :
  fifo_inv (m, g) -> 0 < a -> ~ a ∈ (fv_nodes g).*1 ->
  separated (own (fv_nodes g ++ [(a, e)]) ++ rest) ->
  m !! (a + 8) = Some 0 -> m !! value a = Some (kv a) -> m !! (a + 24) = Some (kv_value e) ->
  m !! (a + 16) = Some (kv_key e) ->
  fifo_inv (<[next (List.last ((fv_nodes g).*1) 0):=a]> m,
    mk_fview g.(fv_gs) g.(fv_hd) (g.(fv_ns) ++ [(a, e)]) (g.(fv_hist) ++ [EInsert e DS_SUCCESS])).
Proof.
  intros [E1 (sp & E2 & Hsn) (gb & E3 & Hc) Hv Hm Hs Hh] Ha Hnew Hsep Enx Evl Ev Ek. cbn [fst snd] in *.
  set (N := fv_nodes g) in *. set (t := List.last (N.*1) 0).
  assert (Hne : N.*1 <> []) by (unfold N, fv_nodes; rewrite fmap_app; by destruct (fv_gs g).*1).
  assert (Ht : t ∈ N.*1) by by apply last_elem.
  assert (Hn' : fv_nodes (mk_fview g.(fv_gs) g.(fv_hd) (g.(fv_ns) ++ [(a, e)])
      (g.(fv_hist) ++ [EInsert e DS_SUCCESS])) = N ++ [(a, e)]) by (unfold N, fv_nodes; cbn; by rewrite <- app_assoc).
  assert (Hall : separated (node_blocks 32 ((N ++ [(a, e)]).*1) ++ [])).
  { rewrite app_nil_r. destruct Hsep as [_ Hsep]. by apply separated_app in Hsep as (Hsep & _). }
  assert (Htin : t ∈ (N ++ [(a, e)]).*1) by (rewrite fmap_app; apply elem_of_app; by left).
  assert (Hain : a ∈ (N ++ [(a, e)]).*1) by (rewrite fmap_app; apply elem_of_app; right; left).
  assert (Hat : forall j, 0 <= j < 32 -> j <> 8 -> a + j <> next t)
    by (intros j Hj Hj8; by apply (separated_cells 32 _ [] a t j 8 Hall)).
  assert (Hnt : ~ in_live (node_blocks 32 (N.*1)) (a + 8) /\ ~ in_live (node_blocks 32 (N.*1)) (a + 16) /\
                ~ in_live (node_blocks 32 (N.*1)) (a + 24)).
  { rewrite app_nil_r, fmap_app, node_blocks_app in Hall. apply separated_app in Hall as (_ & _ & Hd).
    split_and!; intros Hl; apply (Hd _ Hl); apply (node_in 32); try left; lia. }
  assert (Hhead : forall c, in_block h 32 c -> c <> next t).
  { intros c Hc' ->. apply (head_off _ _ Hs Hc'). apply (node_in 32); [done|lia]. }
  assert (Hval : forall x, x ∈ (N ++ [(a, e)]).*1 -> value x <> next t)
    by (intros x Hx; by apply (separated_cells 32 _ [] x t 0 8 Hall)).
  split; cbn [fst snd fv_gs fv_hd fv_ns fv_hist]; rewrite ?Hn'; try done.
  - rewrite lookup_insert_ne; [done|]. apply not_eq_sym, Hhead. addr.
  - exists sp. rewrite lookup_insert_ne; [done|]. apply not_eq_sym, Hhead. addr.
  - exists gb. rewrite lookup_insert_ne by (apply not_eq_sym, Hhead; addr). split; [done|].
    rewrite !fmap_app. destruct Hnt as (H1 & H2 & H3). destruct Hs as [_ Hs].
    apply separated_app in Hs as (Hs & _).
    by apply (chain_append 8 16 24 32 fifo_layout).
  - intros x Hx. assert (Hxn : x.1 ∈ (N ++ [(a, e)]).*1).
    { apply list_elem_of_fmap_2. apply elem_of_app in Hx as [Hx|Hx]; apply elem_of_app; [left|by right].
      unfold N, fv_nodes. apply elem_of_app. right. by right. }
    rewrite lookup_insert_ne by (apply not_eq_sym; by apply Hval).
    apply elem_of_app in Hx as [Hx| ->%list_elem_of_singleton]; [by apply Hv|done].
  - intros x Hx. apply lookup_ins_is_Some.
    apply elem_of_app in Hx as [Hx| ->%list_elem_of_singleton]; [by apply Hm|by eexists].
  - unfold fv_items. cbn. rewrite fmap_app. eapply abs_steps_snoc; [exact Hh|].
    by apply (abs_insert (unbounded fifo_add)).
Qed.

Lemma in_node a j : 0 <= j < 32 -> in_live (node_blocks 32 [a]) (a + j).
Proof. intros Hj. apply (node_in 32); [left|done]. Qed.

(** The insertion takes effect: the draft is linked to the last entry. *)
Lemma prod_links {A} o a e (f : unit -> prog A) I N sp gb k Q :
  triple prod_rely prod_guar
    (pst (I ++ [EInsert e DS_SUCCESS]) [] (N ++ [(a, e)]) sp gb (List.last (N.*1) 0) [] k) (f tt) Q ->
  triple prod_rely prod_guar (pst I [a] N sp gb (List.last (N.*1) 0) (filled a e) k)
    (store o (next (List.last (N.*1) 0)) a ≫= f) Q.
Proof.
  intros Hf. eapply triple_store; [apply _..| |exact Hf].
  intros [m g] [Hi HI HN E1 E2 E3 Hh Hm Hc Hr]. cbn [fst snd] in *. subst N.
  set (N := fv_nodes g) in *. set (t := List.last (N.*1) 0) in *.
  repeat (apply Forall_cons in Hc as [[_ ?] Hc]). cbn [fst snd] in *.
  destruct (Hm a ltac:(by left)) as [Ha _].
  assert (Hh1 : heap_holds (own (N ++ [(a, e)])) rest m).
  { eapply heap_holds_perm; [|exact Hh]. unfold own. rewrite fmap_app, node_blocks_app.
    rewrite <- (Permutation_middle (node_blocks 32 [a])). apply perm_skip, Permutation_app_comm. }
  destruct Hh1 as [Hh1 Hsep].
  assert (Ht : t ∈ N.*1) by (apply last_elem; unfold N, fv_nodes; rewrite fmap_app; by destruct (fv_gs g).*1).
  assert (Hnew : ~ a ∈ N.*1).
  { pose proof (separated_nodup 8 16 24 32 fifo_layout (N ++ [(a, e)]).*1 rest) as Hnd.
    destruct Hsep as [_ Hs]. specialize (Hnd Hs). rewrite fmap_app in Hnd.
    apply NoDup_app in Hnd as (_ & Hd & _). intros Hin. apply (Hd a Hin). left. }
  assert (Hin : in_live (own N) (next t)).
  { apply in_live_cons. right. apply (node_in 32); [done|lia]. }
  assert (Hin' : in_live (own (N ++ [(a, e)])) (next t)).
  { apply in_live_cons. right. apply (node_in 32); [|lia]. rewrite fmap_app. apply elem_of_app. by left. }
  assert (Hmt : is_Some (m !! next t)).
  { destruct Hi as [_ _ (gb' & _ & Hch) _ _ _ _]. cbn [fst snd] in Hch. by eapply chain_mapped in Hch as (? & _ & _). }
  split; [done|]. eexists.
  pose proof (linked_inv m g a e Hi Ha Hnew Hsep) as Hi'. fold N t in Hi'.
  specialize (Hi' ltac:(done) ltac:(unfold value; done) ltac:(done) ltac:(done)).
  assert (Hhead : forall c, in_block h 32 c -> <[next t:=a]> m !! c = m !! c).
  { intros c Hc'. apply lookup_insert_ne. intros <-. pose proof (fi_sep _ Hi) as Hs.
    apply (head_off _ _ Hs Hc'). apply (node_in 32); [done|lia]. }
  split; [eapply (prod_move m _ g); [exact Hi'|done|by apply prefix_app_r|apply pops_snoc_insert|]|].
  { by apply (rest_kept (N ++ [(a, e)])). }
  split; cbn [fst snd]; try done; try (rewrite Hhead by addr; done).
  - cbn. rewrite inserts_snoc. by f_equal.
  - unfold fv_nodes. cbn. rewrite app_comm_cons, app_assoc. done.
  - apply (heap_holds_write []); [by split|done|done].
  - by intros b []%elem_of_nil.
  - by eapply (room_write [] (N ++ [(a, e)])); [split|..].
Qed.

(** [tail] is no part of what the two sides share. *)
Lemma tail_inv m g x : fifo_inv (m, g) -> fifo_inv (<[tail h:=x]> m, g).
Proof.
  intros Hi. pose proof (fi_sep _ Hi) as Hs. cbn [snd] in Hs.
  assert (Hoff : forall y, y ∈ fv_nodes g -> <[tail h:=x]> m !! value y.1 = m !! value y.1).
  { intros y Hy. apply lookup_insert_ne. intros Heq. apply (head_off _ (tail h) Hs); [addr|].
    rewrite Heq. apply (node_in 32); [|lia]. by apply list_elem_of_fmap_2. }
  destruct Hi as [F1 (sp' & F2 & Hsp) (gb' & F3 & Hch) Hv Hmp _ Hhist]. cbn [fst snd] in *.
  split; cbn [fst snd]; try done; try mlook.
  - exists sp'. split; [mlook|done].
  - exists gb'. split; [mlook|]. eapply chain_frame_ins; [apply fifo_layout| |done].
    apply (head_off _ _ Hs). addr.
  - intros y Hy. rewrite Hoff; [by apply Hv|]. apply elem_of_app. right. by right.
  - intros y Hy. rewrite Hoff by done. by apply Hmp.
Qed.

(** The insertion ends: [tail] catches up. *)
Lemma prod_settles {A} o x (f : unit -> prog A) I N sp gb t k Q :
  triple prod_rely prod_guar (pst I [] N sp gb x [] k) (f tt) Q ->
  triple prod_rely prod_guar (pst I [] N sp gb t [] k) (store o (tail h) x ≫= f) Q.
Proof.
  intros Hf. eapply triple_store; [apply _..| |exact Hf].
  intros [m g] [Hi HI HN E1 E2 E3 Hh Hm Hc Hr]. cbn [fst snd] in *. subst N. split; [by eexists|].
  exists g. pose proof (fi_sep _ Hi) as Hs. cbn [snd] in Hs.
  assert (Hin : in_live (own (fv_nodes g)) (tail h)) by (apply own_head; addr).
  pose proof (tail_inv _ _ x Hi) as Hi'.
  split; [apply prod_move; try done; by apply (rest_kept (fv_nodes g))|].
  split; cbn [fst snd]; try done; try mlook.
  - apply (heap_holds_write []); [exact Hh|exact Hin|by eexists].
  - by intros a []%elem_of_nil.
  - eapply (room_write []); [exact Hh|exact Hin|done].
Qed.

Lemma fill_conc {A} sd a e (f : Z -> prog A) I k Q :
  triple prod_rely prod_guar (idle (I ++ [EInsert e DS_SUCCESS]) k) (f DS_SUCCESS) Q ->
  triple prod_rely prod_guar (drafting I k a)
    (match sd with
     | BPF => WRITE_ONCE (payload_key (kv a)) (kv_key e);;
              WRITE_ONCE (payload_value (kv a)) (kv_value e);;
              ds_ck_fifo_spsc_enqueue_lkmm (fifo_of h) a (kv a);;
              f DS_SUCCESS
     | USER => arena_atomic_store (payload_key (kv a)) (kv_key e) Relaxed;;
               arena_atomic_store (payload_value (kv a)) (kv_value e) Relaxed;;
               ds_ck_fifo_spsc_enqueue_c (fifo_of h) a (kv a);;
               f DS_SUCCESS
     end) Q.
Proof.
  intros Hf. apply triple_exists. intros N. apply triple_exists. intros sp. apply triple_exists. intros gb.
  set (t := List.last (N.*1) 0).
  replace (payload_key (kv a)) with (a + 16) by addr. replace (payload_value (kv a)) with (a + 24) by addr.
  destruct sd; unfold ds_ck_fifo_spsc_enqueue_lkmm, ds_ck_fifo_spsc_enqueue_c.
  all: taccess; apply prod_drafts; [lia|by constructor|]; taccess.
  all: apply prod_drafts; [lia|repeat constructor; cbn; lia|]; taccess.
  all: eapply (triple_bind _ _ _ _ _ _ (fun _ => idle (I ++ [EInsert e DS_SUCCESS]) k)); [|intros _; exact Hf].
  all: apply (prod_drafts _ a 0); [lia|repeat constructor; cbn; lia|]; taccess.
  all: apply (prod_drafts _ a 8); [lia|repeat constructor; cbn; lia|]; taccess.
  all: tread ps_tail; taccess; apply (prod_links _ a e).
  all: change (store Plain (tail (fifo_of h)) a) with (store Plain (tail h) a ≫= fun _ => Ret tt).
  all: apply (prod_settles _ a), triple_ret; [apply _|]; intros s Hs; exists (N ++ [(a, e)]), sp, gb.
  all: rewrite fmap_app; change ([(a, e)].*1) with [a]; by rewrite last_snoc.
Qed.

Lemma c_insert_ok sd I e k :
  triple prod_rely prod_guar (idle I (S k)) (ds_ck_fifo_spsc_insert sd h (kv_key e) (kv_value e))
    (fun r => idle (I ++ [EInsert e r]) k).
Proof.
  assert (Hret : forall r, triple prod_rely prod_guar (idle (I ++ [EInsert e r]) k) (Ret r)
    (fun r => idle (I ++ [EInsert e r]) k)) by (intros r; by apply triple_ret; [apply _|]).
  assert (Hless : forall N sp gb t a s, pst I [a] N sp gb t [] (S k) s -> pst I [a] N sp gb t [] k s)
    by (intros N sp gb t a s []; split; try done; apply sole_less; [lia|done]).
  destruct sd; unfold ds_ck_fifo_spsc_insert, ds_ck_fifo_spsc_insert_lkmm, ds_ck_fifo_spsc_insert_c;
    replace (h =? 0) with false by lia.
  1: eapply triple_bind; [apply _..|apply (c_recycle_ok BPF I (S k))|].
  2: eapply triple_bind; [apply _..|apply (c_recycle_ok USER I (S k))|].
  all: intros r; apply triple_or; apply triple_pure; intros Hr.
  1,3: subst r; rewrite Z.eqb_refl; apply triple_exists; intros N; apply triple_exists; intros sp;
    apply triple_exists; intros gb; apply (prod_allocs _ _ _ _ _ _ _ e);
    [rewrite Z.eqb_refl; eapply triple_pre; [apply Hret|]; intros s Hs; by exists N, sp, gb|];
    intros a Ha; replace (a =? 0) with false by lia.
  3,4: replace (r =? 0) with false by lia;
    lazymatch goal with |- btriple _ _ _ _ (Ret ?x ≫= ?f) _ _ => change (Ret x ≫= f) with (f x) end;
    cbn beta; replace (r =? 0) with false by lia.
  1: eapply triple_pre; [apply (fill_conc BPF a e Ret I k), Hret|intros s Hs; by exists N, sp, gb].
  1: eapply triple_pre; [apply (fill_conc USER a e Ret I k), Hret|intros s Hs; by exists N, sp, gb].
  1: eapply triple_pre; [apply (fill_conc BPF r e Ret I k), Hret|].
  2: eapply triple_pre; [apply (fill_conc USER r e Ret I k), Hret|].
  all: intros s (N & sp & gb & Hs); exists N, sp, gb; by apply Hless.
Qed.

(** ** The consumer *)

(** The pops so far are [O], the consumer's entry is [x]. *)
Definition cst O (x : Z * ds_kv) s : Prop :=
  fifo_inv s /\ pops s.2.(fv_hist) = O /\ s.2.(fv_hd) = x.

(** The next entry is [y]. *)
Definition holding O x y s : Prop := cst O x s /\ List.hd_error s.2.(fv_ns) = Some y.

Definition consuming O s : Prop := exists x, cst O x s.

#[local] Instance cst_stable O x : Stable cons_rely (cst O x).
Proof.
  intros s s' (Hi & HO & Hx) HR. destruct (HR Hi) as (Hi' & B1 & B2 & B3 & _). split_and!; congruence.
Qed.

#[local] Instance holding_stable O x y : Stable cons_rely (holding O x y).
Proof.
  intros s s' (Hc & Hy) HR. split; [by eapply cst_stable|]. destruct Hc as (Hi & _).
  destruct (HR Hi) as (_ & _ & [l ->] & _). by destruct (fv_ns s.2).
Qed.

#[local] Instance consuming_stable O : Stable cons_rely (consuming O).
Proof. apply stable_exists. intros x. apply cst_stable. Qed.

Lemma cst_head O x s : cst O x s -> s.1 !! head h = Some x.1.
Proof. intros (Hi & _ & <-). apply (fi_head _ Hi). Qed.

(** The consumer's entry links to the first of the queue. *)
Lemma head_links s : fifo_inv s ->
  s.1 !! next (s.2.(fv_hd).1) = Some (match s.2.(fv_ns) with [] => 0 | y :: _ => y.1 end) /\
  forall y ns, s.2.(fv_ns) = y :: ns -> 0 < y.1 /\ s.1 !! (y.1 + 16) = Some (kv_key y.2) /\
    s.1 !! (y.1 + 24) = Some (kv_value y.2).
Proof.
  intros [_ _ (gb & _ & Hc) _ _ _ _]. unfold fv_nodes in Hc. rewrite !fmap_app in Hc.
  apply chain_app in Hc as (r & _ & Hc); [|by rewrite !length_fmap].
  cbn [fmap list_fmap] in Hc. destruct Hc as (-> & _ & _ & _ & p & Hp & Hc).
  destruct (fv_ns s.2) as [|y ns]; [by cbn in Hc; subst p|].
  cbn [fmap list_fmap chain] in Hc. destruct Hc as (-> & Hy & Hk & Hv & _).
  split; [done|]. intros y' ns' [= <- <-]. done.
Qed.

(** The link, read: the pop finds the queue empty here, or has an entry from here on. *)
Lemma fifo_consumer_checks {A} o (f : Z -> prog A) O x d Q :
  triple cons_rely cons_guar (cst (O ++ [EPop d DS_ERROR_NOT_FOUND (Some d)]) x) (f 0) Q ->
  (forall y, 0 < y.1 -> triple cons_rely cons_guar (holding O x y) (f y.1) Q) ->
  triple cons_rely cons_guar (cst O x) (load o (next x.1) ≫= f) Q.
Proof.
  intros Hempty Hsome.
  apply (triple_load_lin _ _ _ _ _ _ (fun v s =>
    (v = 0 /\ cst (O ++ [EPop d DS_ERROR_NOT_FOUND (Some d)]) x s) \/
    (exists y : Z * ds_kv, (v = y.1 /\ 0 < y.1) /\ holding O x y s))); [apply _| |].
  - intros [m g] (Hi & HO & Hx). destruct (head_links _ Hi) as [El Hy]. cbn [fst snd] in *. subst x.
    eexists. split; [exact El|]. destruct (fv_ns g) as [|y ns] eqn:En.
    + set (g' := mk_fview g.(fv_gs) g.(fv_hd) g.(fv_ns) (g.(fv_hist) ++ [EPop d DS_ERROR_NOT_FOUND (Some d)])).
      assert (Hi' : fifo_inv (m, g')).
      { destruct Hi as [F1 F2 F3 F4 F5 F6 Hh]. split; try done. unfold fv_items, g' in *. cbn in *.
        rewrite En in *. by eapply abs_steps_snoc. }
      exists g'. split.
      { intros _. split; [|done]. intros _. split_and!; try done; [apply inserts_snoc_pop|by intros a]. }
      left. split; [done|]. split_and!; [done|cbn; by rewrite pops_snoc, HO|done].
    + exists g. split; [done|].
      right. exists y. destruct (Hy y ns eq_refl) as (Hy0 & _). split; [done|]. split; [done|].
      cbn. by rewrite En.
  - intros v. apply triple_or; [by apply triple_pure; intros ->|].
    apply triple_exists. intros y. apply triple_pure. intros [-> Hy]. by apply Hsome.
Qed.

Lemma holding_value O x y s : holding O x y s -> s.1 !! value y.1 = Some (kv y.1).
Proof.
  intros ((Hi & _) & Hy). apply (fi_values _ Hi). destruct (fv_ns s.2); [done|]. injection Hy as ->. left.
Qed.

(** The head moves: the entry is the consumer's until its next pop. *)
Lemma consumer_moves {A} o (f : unit -> prog A) O x y d Q :
  triple cons_rely cons_guar (cst (O ++ [EPop d DS_SUCCESS (Some y.2)]) y) (f tt) Q ->
  triple cons_rely cons_guar (holding O x y) (store o (head h) y.1 ≫= f) Q.
Proof.
  intros Hf. eapply triple_store; [apply _..| |exact Hf].
  intros [m g] ((Hi & HO & Hx) & Hy). cbn [fst snd] in *. destruct g as [gs hd ns H]; cbn in *. subst hd.
  destruct ns as [|y' ns]; [done|]. injection Hy as ->.
  split; [eexists; apply (fi_head _ Hi)|].
  set (g' := mk_fview (gs ++ [x]) y ns (H ++ [EPop d DS_SUCCESS (Some y.2)])). exists g'.
  assert (Hn : fv_nodes g' = fv_nodes (mk_fview gs x (y :: ns) H))
    by (unfold fv_nodes; cbn; by rewrite <- app_assoc).
  pose proof (fi_sep _ Hi) as Hs. cbn [snd] in Hs. rewrite <- Hn in Hs.
  assert (Hi' : fifo_inv (<[head h:=y.1]> m, g')).
  { destruct Hi as [F1 (sp & F2 & Hsp) (gb & F3 & Hc) Hv Hm _ Hh]. cbn [fst snd] in *.
    assert (Hoff : forall z, z ∈ fv_nodes g' -> <[head h:=y.1]> m !! value z.1 = m !! value z.1).
    { intros z Hz. apply lookup_insert_ne. intros Heq. apply (head_off _ (head h) Hs); [addr|].
      rewrite Heq. apply (node_in 32); [|lia]. by apply list_elem_of_fmap_2. }
    split; cbn [fst snd]; try done; try mlook.
    - exists sp. split; [mlook|]. cbn in *. rewrite fmap_app. apply elem_of_app. by left.
    - exists gb. split; [mlook|]. rewrite Hn in *. eapply chain_frame_ins; [apply fifo_layout| |done].
      apply (head_off _ _ Hs). addr.
    - intros z Hz. rewrite Hoff; [apply Hv; by right|]. apply elem_of_app. right. by right.
    - intros z Hz. rewrite Hoff by done. apply Hm. by rewrite <- Hn.
    - cbn. eapply abs_steps_snoc; [exact Hh|]. cbn. constructor. }
  split; [|split_and!; [done|cbn; by rewrite pops_snoc, HO|done]].
  intros _. split.
  2:{ intros a Ha. apply lookup_insert_ne. intros <-. apply (cells_off _ (head h) Hs); [by right|].
      apply own_head. addr. }
  intros _. split_and!; try done.
  - cbn. apply inserts_snoc_pop.
  - intros z Hz. cbn in *. rewrite !fmap_app in *. apply elem_of_app. by left.
  - apply unchanged_insert. by left.
  - intros a Ha. by apply lookup_ins_is_Some.
Qed.

Lemma cst_pair O x s : cst O x s -> s.1 !! (x.1 + 16) = Some (kv_key x.2) /\ s.1 !! (x.1 + 24) = Some (kv_value x.2).
Proof.
  intros (Hi & _ & <-). destruct Hi as [_ _ (gb & _ & Hc) _ _ _ _]. unfold fv_nodes in Hc. rewrite !fmap_app in Hc.
  apply chain_app in Hc as (r & _ & Hc); [|by rewrite !length_fmap].
  cbn [fmap list_fmap] in Hc. by destruct Hc as (-> & _ & Hk & Hv & _).
Qed.

Lemma fifo_c_pop_ok sd O d :
  triple cons_rely cons_guar (consuming O) (ds_ck_fifo_spsc_pop sd h (Some d))
    (fun r => consuming (O ++ [EPop d r.1 r.2])).
Proof.
  apply triple_exists. intros x. unfold ds_ck_fifo_spsc_pop.
  set (M := fun (r : bool * option Z) s => (r = (false, Some 0) /\ cst (O ++ [EPop d DS_ERROR_NOT_FOUND (Some d)]) x s) \/
    (exists y : Z * ds_kv, (r = (true, Some (kv y.1)) /\ 0 < y.1) /\ cst (O ++ [EPop d DS_SUCCESS (Some y.2)]) y s)).
  destruct sd; unfold ds_ck_fifo_spsc_delete, ds_ck_fifo_spsc_delete_lkmm, ds_ck_fifo_spsc_delete_c;
    replace (h =? 0) with false by lia.
  all: apply (triple_bind (n' := 0) _ _ _ _ _ _ M).
  1,3: unfold ds_ck_fifo_spsc_dequeue_lkmm, ds_ck_fifo_spsc_dequeue_c; tread cst_head; taccess;
    apply (fifo_consumer_checks _ _ _ _ d); [apply triple_ret; [apply _|]; intros s Hs; by left|];
    intros y Hy; replace (y.1 =? 0) with false by lia;
    eapply (triple_bind _ _ _ _ _ _ (fun v s => v = Some (kv y.1) /\ holding O x y s));
    [tread holding_value; apply triple_ret; [apply _|done]|];
    intros v; apply triple_pure; intros ->; taccess; apply (consumer_moves _ _ _ _ _ d), triple_ret; [apply _|];
    intros s Hs; right; by exists y.
  all: intros r; apply triple_or; [apply triple_pure; intros ->; apply triple_ret; [apply _|]; intros s Hs; by exists x|].
  all: apply triple_exists; intros y; apply triple_pure; intros [-> Hy]; cbn beta iota;
    replace (negb true) with false by done; replace (kv y.1 =? 0) with false by addr.
  all: replace (payload_key (kv y.1)) with (y.1 + 16) by addr; replace (payload_value (kv y.1)) with (y.1 + 24) by addr.
  all: tread cst_pair; tread cst_pair; apply triple_ret; [apply _|]; intros s Hs; exists y; by destruct y as [? []].
Qed.

(** ** The FIFO is a duet *)

#[local] Instance fifo_duet : Duet := {|
  du_ghost := fview;
  du_inv := fifo_inv;
  du_prely := prod_rely;
  du_crely := cons_rely;
  du_pguar := prod_guar;
  du_cguar := cons_guar;
  du_hist := fv_hist;
  du_items := fv_items;
  du_producing I := idle I (lim - length I);
  du_consuming := consuming;
  du_pcells := pcells;
  du_ccells := ccells
|}.

(** Once [tail] is right, memory is that of a queue at rest. *)
Lemma inv_repr m g : fifo_inv (m, g) -> m !! tail h = Some (List.last ((fv_nodes g).*1) 0) ->
  fifo_repr h (g.(fv_gs).*1) (g.(fv_hd).1) (g.(fv_ns).*1) (fv_items g) m.
Proof.
  intros [E1 (sp & E2 & Hsp) (gb & E3 & Hc) Hv Hm Hs _] Et. cbn [fst snd] in *.
  assert (Hn : (fv_nodes g).*1 = g.(fv_gs).*1 ++ g.(fv_hd).1 :: g.(fv_ns).*1)
    by (unfold fv_nodes; by rewrite fmap_app).
  rewrite Hn in *. split; try done.
  - by rewrite last_app_ne in Et by done.
  - exists sp. by rewrite fmap_app in Hsp.
  - exists gb, (g.(fv_gs).*2), (g.(fv_hd).2). split; [done|]. split; [by rewrite !length_fmap|].
    unfold fv_nodes in Hc. by rewrite !fmap_app in Hc.
  - intros a (x & -> & Hx)%list_elem_of_fmap. by apply Hv.
  - intros a Ha. assert (Hin : a ∈ (fv_nodes g).*1) by by rewrite Hn.
    apply list_elem_of_fmap in Hin as (x & -> & Hx). by apply Hm.
  - apply separated_app in Hs as (Hs & _). unfold own in Hs. by rewrite Hn in Hs.
Qed.

Lemma inv_shared m g : fifo_inv (m, g) -> fifo_shared h (fv_items g) m.
Proof.
  intros Hi. exists (g.(fv_gs).*1), (g.(fv_hd).1), (g.(fv_ns).*1).
  replace (List.last (g.(fv_hd).1 :: g.(fv_ns).*1) 0) with (List.last ((fv_nodes g).*1) 0).
  - apply inv_repr; [by apply tail_inv|apply lookup_insert_eq].
  - unfold fv_nodes. rewrite fmap_app. by apply last_app_ne.
Qed.

(** A write to a cell of one of the threads. *)
Lemma cell_write m g a v : pcells a \/ ccells a -> fifo_inv (m, g) -> fifo_inv (<[a:=v]> m, g).
Proof.
  intros Ha Hi. eapply fifo_inv_frame; [exact Hi|]. intros c Hc. apply lookup_insert_ne. intros ->.
  by apply (cells_off _ c (fi_sep _ Hi)).
Qed.

Lemma fifo_duet_laws sp sc : DuetLaws fifo_duet (fifo_shared h) (fifo_quiet h) (unbounded fifo_add) l0 lim
  (fifo_container sp h) (fifo_container sc h).
Proof.
  split; cbn [du_inv du_prely du_crely du_pguar du_cguar du_hist du_items du_producing du_consuming du_pcells du_ccells fifo_duet].
  - apply _.
  - apply _.
  - intros s s' Hi HR. by apply HR.
  - intros s s' Hi HR. by apply HR.
  - apply _.
  - apply _.
  - intros s s' Hi HG. by apply HG.
  - intros s s' Hi HG. by apply HG.
  - intros I. apply idle_stable.
  - apply _.
  - intros m g Hi. split; [by apply inv_shared|apply (fi_hist _ Hi)].
  - intros I m g (N & sn & gb & [Hi HI HN _ _ E3 _ _ _ _]). cbn [fst snd] in *. split; [done|]. split; [done|].
    subst N. eexists _, _, _. by apply inv_repr.
  - intros O m g (x & Hi & HO & _). done.
  - intros I e HI. replace (lim - length I)%nat with (S (lim - S (length I))) by lia.
    eapply triple_weaken; [apply c_insert_ok|done|done|]. intros r s.
    by rewrite length_app, Nat.add_1_r.
  - intros O d. apply fifo_c_pop_ok.
  - intros s s' a Hi HR Ha. destruct (HR Hi) as (_ & _ & _ & _ & Hu & _). apply Hu.
    intros [-> |Hc]; [|by eapply cells_apart].
    apply (cells_off _ (head h) (fi_sep _ Hi)); [by left|apply own_head; addr].
  - intros s s' a Hi HR Ha. destruct (HR Hi) as (_ & _ & _ & _ & Hk). by apply Hk.
  - intros I m g a v Ha Hmp (N & sn & gb & [Hi HI HN E1 E2 E3 Hh Hm Hc Hr]). cbn [fst snd] in *.
    pose proof (cell_write _ _ a v (or_introl Ha) Hi) as Hi'.
    pose proof (fi_sep _ Hi) as Hs. cbn [snd] in Hs. rewrite HN in Hs.
    assert (Hne : forall c, in_block h 32 c -> <[a:=v]> m !! c = m !! c).
    { intros c Hc'. apply lookup_insert_ne. intros <-. apply (cells_off N a Hs); [by left|by apply own_head]. }
    assert (Hw : owners_write ((node_blocks 32 [] ++ own N) ++ rest) m (<[a:=v]> m)).
    { split; [|auto with arena]. apply unchanged_insert, in_live_app. right. apply cells_rest. by left. }
    split.
    + intros _. split_and!; try done. intros c Hc'. apply lookup_insert_ne. intros <-. by eapply cells_apart.
    + exists N, sn, gb. split; cbn [fst snd]; try done; try (rewrite Hne by addr; done).
      * destruct Hh as [Hh Hsep]. split; [|done]. eapply heap_ok_frame; [exact Hh|apply Hw..].
      * by intros b []%elem_of_nil.
      * destruct Hh as [Hh Hsep]. eapply sole_room; [exact Hh|apply Hw|done].
  - intros O m g a v Ha Hmp (x & Hi & HO & Hx).
    pose proof (cell_write _ _ a v (or_intror Ha) Hi) as Hi'. split; [|by exists x].
    intros _. split_and!; try done; [apply unchanged_insert; by right|].
    intros c Hc. by apply lookup_ins_is_Some.
Qed.

(** The state in which both sides start. *)
Lemma fifo_start gs hd ns m :
  fifo_repr h gs hd ns l0 m -> heap_holds (fifo_own h gs hd ns) rest m -> room 32 lim m ->
  exists g, idle [] lim (m, g) /\ consuming [] (m, g).
Proof.
  intros [E1 E2 (sp & E3 & Hsp) (gb & ks & k0 & E4 & Hlen & Hc) Hv Hm _] Hh Hr.
  pose proof (chain_length _ _ _ _ _ _ _ _ Hc) as Hlen'. rewrite !length_app in Hlen'. cbn [length] in Hlen'.
  assert (Hz : forall (xs : list Z) (ys : list ds_kv), length xs = length ys ->
    (zip xs ys).*1 = xs /\ (zip xs ys).*2 = ys)
    by (intros xs ys Hl; split; [apply fst_zip|apply snd_zip]; lia).
  destruct (Hz gs ks Hlen) as [G1 G2]. destruct (Hz ns l0 ltac:(lia)) as [N1 N2].
  set (g := mk_fview (zip gs ks) (hd, k0) (zip ns l0) []). exists g.
  assert (Hn1 : (fv_nodes g).*1 = gs ++ hd :: ns) by (unfold fv_nodes; by rewrite fmap_app; cbn; rewrite G1, N1).
  assert (Hn2 : (fv_nodes g).*2 = ks ++ k0 :: l0) by (unfold fv_nodes; by rewrite fmap_app; cbn; rewrite G2, N2).
  assert (Hown : own (fv_nodes g) = fifo_own h gs hd ns) by (unfold own, fifo_own; by rewrite Hn1).
  assert (Hi : fifo_inv (m, g)).
  { split; cbn [fst snd]; rewrite ?Hown; try done.
    - exists sp. cbn. rewrite fmap_app, G1. done.
    - exists gb. by rewrite Hn1, Hn2.
    - intros x Hx. apply Hv. cbn in Hx. rewrite <- N1. by apply list_elem_of_fmap_2.
    - intros x Hx. apply Hm. rewrite <- Hn1. by apply list_elem_of_fmap_2.
    - apply Hh.
    - unfold fv_items. cbn. rewrite N2. constructor. }
  split; [|by exists (hd, k0)]. exists (fv_nodes g), sp, gb. split; cbn [fst snd]; try done.
  - rewrite Hn1. by rewrite last_app_ne.
  - by rewrite Hown.
  - by intros a []%elem_of_nil.
Qed.
End fifo.

(** The initialisation, with [k] requests left for later. *)
Lemma fifo_init_leaves `{K : Kernel} `{Al : Allocator} `{!AllocLaws Al} room `{!SoleAllocLaws Al room}
    h s rest k m b :
  0 < h -> heap_holds [(h, 32)] rest m -> mapped_words h 32 m -> alloc_pre 32 m -> room 32 (S k) m ->
  wpr (ds_ck_fifo_spsc_init s h) m b (fun r m' b' => b' = b /\
    (forall c, in_live rest c -> m' !! c = m !! c) /\
    (r = DS_ERROR_NOMEM \/
     (r = DS_SUCCESS /\ exists stub,
        heap_holds (fifo_own h [] stub []) rest m' /\ fifo_repr h [] stub [] [] m' /\ room 32 k m'))).
Proof.
  intros Hh [Hheap Hsep] Hm Hpre Hroom.
  pose proof (reserving_laws room 32 k) as HL.
  assert (Hh' : @heap_holds (reserving Al room 32 k) [(h, 32)] rest m)
    by (split; [split; [done|apply sole_less; [lia|done]]|done]).
  eapply wpr_mono; [exact (@fifo_init_ok _ (reserving Al room 32 k) _ h Hh s rest m b Hh' Hm ltac:(done))|].
  intros r m' b' (-> & Hrest & [(-> & _)|(-> & stub & [[H1 H2] H3] & Hr)]); (split; [done|split; [done|]]).
  - by left.
  - right. split; [done|]. by exists stub.
Qed.

(** C15. A producer and a consumer that share the linked FIFO, each in either build, in every
    interleaving of their accesses, recycled and newly allocated entries alike: every schedule
    ends, no access faults, and at every moment memory holds the queue (its [tail] apart, while
    an insertion is in progress) reached by one legal sequential history whose insertions and
    pops are, in order, what the two threads saw. *)
Theorem ck_fifo_linearizable `{K : Kernel} `{Al : Allocator} `{!AllocLaws Al} room `{!SoleAllocLaws Al room}
    h sp sc gs hd ns l rest es ds m :
  0 < h -> fifo_repr h gs hd ns l m -> heap_holds (fifo_own h gs hd ns) rest m -> room 32 (length es) m ->
  spsc_linearizable (fifo_shared h) (fifo_quiet h) (unbounded fifo_add) l es ds
    (perform (fifo_container sp h) (map OInsert es))
    (perform (fifo_container sc h) (map OPop ds)) m.
Proof.
  intros Hh Hr Hheap Hroom. pose (no_cells := fun _ : Z => False).
  assert (Hrest : forall a, no_cells a \/ no_cells a -> in_live rest a) by (intros a [[]|[]]).
  assert (Hapart : forall a, no_cells a -> ~ no_cells a) by (intros a []).
  pose proof (fifo_duet_laws h rest l (length es) no_cells no_cells Hh Hrest Hapart sp sc) as HL.
  destruct (fifo_start h rest l (length es) gs hd ns m Hr Hheap Hroom) as (g & Hp & Hc).
  eapply (duet_linearizable (L := HL) es ds m g); [done| |exact Hc].
  cbn. by rewrite Nat.sub_0_r.
Qed.
