(* ===== verification/Usertest.v ===== *)
(** * The userspace concurrency tests ([usertest/usertest_*.c]): drivers.

    Every test has the same shape: [main] initialises a structure in a [struct ctx], starts
    producers that insert numbered pairs and consumers that pop until the shared counter
    [consumed] reaches [expected], joins them and turns the counters into an exit code. The
    threads poll: a model thread is given a number of attempts and answers [None] when it has used
    them up, so what holds for every number of attempts holds of the polling threads. Sleeping and
    printing leave memory alone; the pairs that are printed are the threads' events. *)
From stdpp Require Import base numbers gmap list fin_maps option relations.
From S2P Require Import Prelude Machine Logic Api Container Conc Duet.

(** ** [struct ctx]: the counters behind the structure *)

Record test_ctx := mk_ctx {
  cx_produced : Z;
  cx_consumed : Z;
  cx_ordering_failures : option Z;
  cx_expected : Z
}.

(** The pointer a thread returned ([NULL] or [(void * )1]); [None] while it is polling. *)
Notation status := (option Z).

Definition usertest_now_ns : prog Z := call ClockNs.

Section threads.
Context `{C : Container}.
Variable cx : test_ctx.

(** [for (;;) { rc = insert(...); if (rc == DS_SUCCESS) break; if (!again(rc)) return 1; sleep; }] *)
Fixpoint insert_until (again : Z -> bool) (polls : nat) (key value : Z) : prog (status * list event) :=
  match polls with
  | O => Ret (None, [])
  | S polls' =>
      rc ← c_insert key value;
      let ev := EInsert (mk_kv key value) rc in
      if rc =? DS_SUCCESS then Ret (Some 0, [ev]) else
      if negb (again rc) then Ret (Some 1, [ev]) else
      '(r, evs) ← insert_until again polls' key value;
      Ret (r, ev :: evs)
  end.

(** The producer from its item [i] on, [n] items before the end; [key] numbers them. *)
Fixpoint producer_from (again : Z -> bool) (key : Z -> Z) (polls n : nat) (i : Z) : prog (status * list event) :=
  match n with
  | O => Ret (Some 0, [])
  | S n' =>
      value ← usertest_now_ns;
      '(r, evs) ← insert_until again polls (key i) value;
      match r with
      | Some 0 =>
          _ ← rmw Relaxed (FetchAdd 64) (cx_produced cx) 1;
          '(r', evs') ← producer_from again key polls n' (i + 1);
          Ret (r', evs ++ evs')
      | _ => Ret (r, evs)
      end
  end.

Definition producer_thread (again : Z -> bool) (key : Z -> Z) (items polls : nat) : prog (status * list event) :=
  producer_from again key polls items 0.

(** The check the ring's and the FIFO's consumers make. *)
Definition check_order (expected_key : Z) (out : option ds_kv) : prog unit :=
  match cx_ordering_failures cx, out with
  | Some cell, Some e =>
      if negb (kv_key e =? expected_key) then _ ← rmw Relaxed (FetchAdd 64) cell 1; Ret tt else Ret tt
  | _, _ => Ret tt
  end.

(** [while (consumed < expected) { rc = pop(...); ... }]; [out] is the thread's output pair. *)
Fixpoint consumer_loop (again : Z -> bool) (turns : nat) (out : ds_kv) (expected_key : Z)
    : prog (status * list event) :=
  match turns with
  | O => Ret (None, [])
  | S turns' =>
      done ← load Relaxed (cx_consumed cx);
      limit ← load Plain (cx_expected cx);
      if negb (done <? limit) then Ret (Some 0, []) else
      '(rc, out') ← c_pop (Some out);
      let ev := EPop out rc out' in
      let out := default out out' in
      if rc =? DS_SUCCESS then
        _ ← rmw Relaxed (FetchAdd 64) (cx_consumed cx) 1;
        check_order expected_key (Some out);;
        '(r, evs) ← consumer_loop again turns' out (u64 (expected_key + 1));
        Ret (r, ev :: evs)
      else if negb (again rc) then Ret (Some 1, [ev])
      else
        '(r, evs) ← consumer_loop again turns' out expected_key;
        Ret (r, ev :: evs)
  end.

(** [struct ds_kv out;] starts with an arbitrary content. *)
Definition consumer_thread (again : Z -> bool) (turns : nat) (junk : ds_kv) : prog (status * list event) :=
  consumer_loop again turns junk 1.

(** ** [main] *)

(** Up to the creation of the threads: 0 to go on, else the exit code. *)
Definition main_setup (expected : Z) : prog Z :=
  r ← c_init;
  if negb (r =? DS_SUCCESS) then Ret 1 else
  store Plain (cx_expected cx) expected;;
  Ret 0.

(** After the threads are joined, in the tests that look at [consumed] only. *)
Definition main_exit : prog Z :=
  _ ← load SeqCst (cx_produced cx);
  _ ← load SeqCst (cx_consumed cx);
  consumed ← load SeqCst (cx_consumed cx);
  expected ← load Plain (cx_expected cx);
  Ret (if consumed =? expected then 0 else 1).

(** The same in the tests that check the order as well. *)
Definition main_exit_ordered (cell : Z) : prog Z :=
  produced ← load Relaxed (cx_produced cx);
  consumed ← load Relaxed (cx_consumed cx);
  ordering_failures ← load Relaxed cell;
  if negb (ordering_failures =? 0) then Ret 1 else
  expected ← load Plain (cx_expected cx);
  if negb (consumed =? expected) then Ret 1 else
  expected ← load Plain (cx_expected cx);
  if negb (produced =? expected) then Ret 1 else
  Ret 0.
End threads.

Definition main_exit_of (cx : test_ctx) : prog Z :=
  match cx_ordering_failures cx with Some cell => main_exit_ordered cx cell | None => main_exit cx end.

(** A thread that [pthread_join] waits for no longer. *)
Definition joined {A} (t : thread (status * A)) : Prop := exists r evs b, t = (Ret (Some r, evs), b).

(** The keys a producer numbers its items with, from the [i]-th on. *)
Fixpoint keys_from (key : Z -> Z) (i : Z) (n : nat) : list Z :=
  match n with O => [] | S n' => key i :: keys_from key (i + 1) n' end.

(** A test: [main] up to the creation of its threads, the threads (the producer as a function of
    the attempts it has for an item, the consumer of those it has in all and of the content of its
    output pair), and [main] from their join on. *)
Record user_test := mk_test {
  ut_setup : prog Z;
  ut_producer : nat -> prog (status * list event);
  ut_consumer : nat -> ds_kv -> prog (status * list event);
  ut_exit : prog Z
}.

(** [main] of a test from memory [m]: the initialisation fails, and so does the test; or, however
    the two threads interleave, no access faults and, once both are joined, both returned [NULL],
    the consumer took the pairs the producer inserted, each once and in their order, the keys are
    those of the items in turn, memory is as [quiet] says, and the exit code is 0. *)
Definition test_passes `{K : Kernel} (T : user_test) (key : Z -> Z) (items polls turns : nat) (junk : ds_kv)
    (quiet : mem -> Prop) (m : mem) : Prop :=
  wpr (ut_setup T) m 0 (fun r m1 _ =>
    r = 1 \/
    (r = 0 /\ forall b0 b1 ts m2,
       rtc pool_step ([(ut_producer T polls, b0); (ut_consumer T turns junk, b1)], m1) (ts, m2) ->
       (forall i t, ts !! i = Some t -> ~ thread_faults t m2 /\ t.1 <> NoFuel) /\
       (Forall joined ts -> exists evs0 evs1,
          map thread_done ts = [Some (Some 0, evs0); Some (Some 0, evs1)] /\
          popped evs1 = accepted evs0 /\ map kv_key (accepted evs0) = keys_from key 0 items /\
          quiet m2 /\ wpr (ut_exit T) m2 0 (fun code _ _ => code = 0)))).

(** ** What the events of a thread amount to *)

(** How many pairs do not carry the key they are expected to carry. *)
Fixpoint out_of_order (expected_key : Z) (l : list ds_kv) : Z :=
  match l with
  | [] => 0
  | e :: l' => (if kv_key e =? expected_key then 0 else 1) + out_of_order (u64 (expected_key + 1)) l'
  end.

Lemma out_of_order_snoc k l e :
  out_of_order (u64 k) (l ++ [e]) =
  out_of_order (u64 k) l + (if kv_key e =? u64 (k + Zlen l) then 0 else 1).
Proof.
  revert k. induction l as [|x l IH]; intros k; cbn [app out_of_order].
  { change (Zlen (A := ds_kv) []) with 0. replace (k + 0) with k by lia. lia. }
  rewrite u64_add_l, IH, Zlen_cons. by rewrite Z.add_assoc, Z.add_assoc.
Qed.

(** Pairs with the keys [k + 1], [k + 2], ... are in order. *)
Lemma in_order k n l :
  map kv_key l = keys_from (fun i => u64 (i + 1)) k n -> out_of_order (u64 (k + 1)) l = 0.
Proof.
  revert k l. induction n as [|n IH]; intros k [|e l] H; try done.
  cbn [map keys_from] in H. injection H as He H. cbn [out_of_order]. rewrite He, Z.eqb_refl, u64_add_l.
  by rewrite (IH (k + 1) l H).
Qed.

Lemma keys_from_length key i n : length (keys_from key i n) = n.
Proof. revert i. induction n as [|n IH]; intros i; cbn; [done|]. by rewrite IH. Qed.

Lemma pops_sub ev H : ev ∈ pops H -> ev ∈ H.
Proof. rewrite !list_elem_of_In. by intros [H1 _]%List.filter_In. Qed.

Lemma inserts_sub ev H : ev ∈ inserts H -> ev ∈ H.
Proof. rewrite !list_elem_of_In. by intros [H1 _]%List.filter_In. Qed.

(** A legal insertion is accepted, or refused the way the container refuses. *)
Lemma legal_insert d l H l' e r :
  abs_steps d l H l' -> EInsert e r ∈ H -> r = DS_SUCCESS \/ exists l1, d_refuses d l1 r.
Proof.
  induction 1 as [l|l1 ev l2 evs l3 Hs _ IH]; [by intros ?%elem_of_nil|].
  intros [<-|Hin]%elem_of_cons; [|by apply IH]. inversion Hs; subst; eauto.
Qed.

(** A thread returns 1 only over an answer it does not expect. *)
Definition gave_up (again : Z -> bool) (r : status) (evs : list event) : Prop :=
  r = Some 1 -> exists ev, ev ∈ evs /\
    match ev with EInsert _ rc | EPop _ rc _ => rc <> DS_SUCCESS /\ again rc = false end.

Lemma gave_up_app again r evs evs' : gave_up again r evs' -> gave_up again r (evs ++ evs').
Proof. intros H Hr. destruct (H Hr) as (ev & Hev & Hrc). exists ev. split; [apply elem_of_app; by right|done]. Qed.

Lemma triple_clock `{K : Kernel} {G A} (R Gu : mem * G -> mem * G -> Prop) `{!PreOrder R} `{!Reflexive Gu}
    (f : Z -> prog A) P (Q : A -> mem * G -> Prop) :
  (forall m, snd (kcall ClockNs m) = m) -> Stable R P -> (forall v, triple R Gu P (f v) Q) ->
  triple R Gu P (usertest_now_ns ≫= f) Q.
Proof.
  intros Hclock HP Hf. apply (triple_do _ _ _ _ P (fun _ => P)); [done| |done].
  intros [m g] b Hs. cbn. pose proof (Hclock m) as Hm. destruct (kcall ClockNs m) as [v m']. cbn in Hm. subst m'.
  exists v, m. split; [done|]. by exists g.
Qed.

(** The counters at the end, and the exit code they give. *)
Lemma exit_code `{K : Kernel} cx m n :
  m !! cx_produced cx = Some n -> m !! cx_consumed cx = Some n -> m !! cx_expected cx = Some n ->
  match cx_ordering_failures cx with Some cell => m !! cell = Some 0 | None => True end ->
  wpr (main_exit_of cx) m 0 (fun code _ _ => code = 0).
Proof.
  intros E1 E2 E3 E4. unfold main_exit_of. destruct (cx_ordering_failures cx) as [cell|].
  - unfold main_exit_ordered, wpr. cbn. rewrite E1. cbn. rewrite E2. cbn. rewrite E4. cbn. rewrite E3. cbn.
    rewrite Z.eqb_refl. cbn. rewrite E3. cbn. by rewrite Z.eqb_refl.
  - unfold main_exit, wpr. cbn. rewrite E1. cbn. rewrite E2. cbn. rewrite E2. cbn. rewrite E3. cbn.
    by rewrite Z.eqb_refl.
Qed.

(** ** The producer, wherever its insertions and its counter are understood

    [counted I n]: the thread has made the events [I], of at most [lim], and counted [n] items. *)
Section supply.
Context `{K : Kernel} {G : Type} {C : Container}.
Variables (R Gu : mem * G -> mem * G -> Prop) (cx : test_ctx) (lim : nat) (counted : list event -> Z -> mem * G -> Prop).
Context `{!PreOrder R} `{!Reflexive Gu} `{!forall I n, Stable R (counted I n)}.
Hypothesis clock_pure : forall m, snd (kcall ClockNs m) = m.
Hypothesis producer_inserts : forall I e n, (length I < lim)%nat ->
  triple R Gu (counted I n) (c_insert (kv_key e) (kv_value e)) (fun rc => counted (I ++ [EInsert e rc]) n).
Hypothesis producer_counts : forall A o I n (f : Z -> prog A) Q,
  (forall v, triple R Gu (counted I (n + 1)) (f v) Q) ->
  triple R Gu (counted I n) (rmw o (FetchAdd 64) (cx_produced cx) 1 ≫= f) Q.

Lemma insert_until_ok again polls key value I n : (length I + polls <= lim)%nat ->
  triple R Gu (counted I n) (insert_until again polls key value) (fun x s =>
    ((length x.2 <= polls)%nat /\ (gave_up again x.1 x.2 /\ popped x.2 = []) /\
     accepted x.2 = match x.1 with Some 0 => [mk_kv key value] | _ => [] end) /\
    counted (I ++ x.2) n s).
Proof.
  revert I. induction polls as [|polls IH]; intros I HI; cbn [insert_until].
  { apply triple_ret; [apply _|]. intros s Hs. cbn. by rewrite app_nil_r. }
  eapply (triple_bind _ _ _ _ _ _ (fun rc => counted (I ++ [EInsert (mk_kv key value) rc]) n)).
  { apply (producer_inserts I (mk_kv key value) n). lia. }
  intros rc. destruct (Z.eqb_spec rc DS_SUCCESS) as [->|Hrc].
  { apply triple_ret; [apply _|]. intros s Hs. split; [|done]. cbn. split; [lia|by split_and!]. }
  assert (Hno : accepted [EInsert (mk_kv key value) rc] = []) by by apply refused_not_accepted.
  destruct (again rc) eqn:Ea; cbn [negb].
  - eapply triple_bind; [apply _..|apply (IH (I ++ [EInsert (mk_kv key value) rc])); rewrite length_app; cbn; lia|].
    intros [r evs]. apply triple_pure. cbn [fst snd]. intros (Hlen & [Hg Hp] & Ha). apply triple_ret; [apply _|].
    intros s Hs. cbn [fst snd]. rewrite <- app_assoc in Hs. split; [|done]. cbn [length]. split; [lia|].
    split; [split; [by apply (gave_up_app again r [_])|exact Hp]|]. change (_ :: evs) with ([EInsert (mk_kv key value) rc] ++ evs).
    by rewrite accepted_app, Hno.
  - apply triple_ret; [apply _|]. intros s Hs. split; [|done]. cbn [fst snd length]. split; [lia|].
    split; [|done]. split; [|done]. intros _. eexists. split; [left|done].
Qed.

(** What the producer did from its [i]-th item on, [n] items before the end: [k] of them were
    accepted, in order, and counted; all of them if it returned [NULL]. *)
Definition supplied again key polls n i I (x : status * list event) s : Prop :=
  exists k, ((length x.2 <= n * polls)%nat /\ (gave_up again x.1 x.2 /\ popped x.2 = []) /\
    map kv_key (accepted x.2) = keys_from key i k /\ (k <= n)%nat /\ (x.1 = Some 0 \/ (k < n)%nat)) /\
  counted (I ++ x.2) (i + Z.of_nat k) s.

Lemma producer_from_ok again key polls n i I : (length I + n * polls <= lim)%nat ->
  triple R Gu (counted I i) (producer_from cx again key polls n i)
    (supplied again key polls n i I).
Proof.
  revert i I. induction n as [|n IH]; intros i I HI; cbn [producer_from].
  { apply triple_ret; [apply _|]. intros s Hs. exists 0%nat. cbn [fst snd length accepted omap list_omap map keys_from].
    rewrite app_nil_r, Z.add_0_r. split; [|done]. split_and!; try done. by left. }
  apply triple_clock; [apply _|apply _|done|apply _|]. intros value.
  eapply triple_bind; [apply _..|apply (insert_until_ok again polls (key i) value I i); lia|].
  intros [r evs]. apply triple_pure. cbn [fst snd]. intros (Hlen & [Hg Hp] & Ha).
  assert (Hstop : r <> Some 0 -> triple R Gu (counted (I ++ evs) i) (Ret (r, evs)) (supplied again key polls (S n) i I)).
  { intros Hr. apply triple_ret; [apply _|]. intros s Hs. exists 0%nat. cbn [fst snd]. rewrite Z.add_0_r.
    split; [|done]. split_and!; try done; [lia| |lia|lia]. rewrite Ha. destruct r as [[]|]; done. }
  destruct r as [[|r|r]|]; [|by apply Hstop..].
  apply producer_counts. intros v.
  eapply triple_bind; [apply _..|apply (IH (i + 1) (I ++ evs)); rewrite length_app; lia|].
  intros [r' evs']. apply triple_exists. intros k. apply triple_pure. cbn [fst snd].
  intros (Hlen' & [Hg' Hp'] & Hk & Hkn & Hend). apply triple_ret; [apply _|]. intros s Hs. exists (S k). cbn [fst snd].
  rewrite <- app_assoc in Hs. split; [|by replace (i + Z.of_nat (S k)) with (i + 1 + Z.of_nat k) by lia].
  split_and!; [rewrite length_app; lia|by apply gave_up_app|by rewrite popped_app, Hp, Hp'| |lia|
    destruct Hend; [by left|right; lia]].
  by rewrite accepted_app, Ha, map_app, Hk.
Qed.

Lemma producer_thread_ok again key items polls : (items * polls <= lim)%nat ->
  triple R Gu (counted [] 0) (producer_thread cx again key items polls) (supplied again key polls items 0 []).
Proof. intros Hlim. by apply producer_from_ok. Qed.
End supply.

(** ** The consumer

    [draining O]: between two turns, after the events [O]; [uncounted O x e]: the pop into [x] that
    followed them took [e], which is not counted yet; [enough O]: the counter had reached its limit
    when it was read. *)
Section drain.
Context `{K : Kernel} {G : Type} {C : Container}.
Variables (R Gu : mem * G -> mem * G -> Prop) (cx : test_ctx) (again : Z -> bool) (lim : nat)
  (draining enough : list event -> mem * G -> Prop) (uncounted : list event -> ds_kv -> ds_kv -> mem * G -> Prop).
Context `{!PreOrder R} `{!Reflexive Gu} `{!forall O, Stable R (draining O)} `{!forall O, Stable R (enough O)}.
Hypothesis consumer_looks : forall A O (f : bool -> prog A) Q,
  triple R Gu (draining O) (f true) Q ->
  triple R Gu (fun s => draining O s /\ enough O s) (f false) Q ->
  triple R Gu (draining O) (done ← load Relaxed (cx_consumed cx); limit ← load Plain (cx_expected cx); f (done <? limit)) Q.
Hypothesis consumer_pops : forall O x, (length O < lim)%nat ->
  triple R Gu (draining O) (c_pop (Some x)) (fun r s =>
    (exists e, r = (DS_SUCCESS, Some e) /\ uncounted O x e s) \/
    ((r.1 <> DS_SUCCESS /\ again r.1 = true) /\ draining (O ++ [EPop x r.1 r.2]) s)).
Hypothesis consumer_counts : forall A O x e (p : prog A) Q,
  triple R Gu (draining (O ++ [EPop x DS_SUCCESS (Some e)])) p Q ->
  triple R Gu (uncounted O x e) (_ ← rmw Relaxed (FetchAdd 64) (cx_consumed cx) 1;
    check_order cx (u64 (1 + Zlen (popped O))) (Some e);; p) Q.

(** What the consumer did in its turns; it returns [NULL] only when [expected] was reached, and
    otherwise not at all. *)
Definition drained turns O (x : status * list event) s : Prop :=
  ((length x.2 <= turns)%nat /\ accepted x.2 = [] /\ (x.1 = None \/ x.1 = Some 0)) /\
  draining (O ++ x.2) s /\ (x.1 = Some 0 -> enough (O ++ x.2) s).

#[local] Instance drained_stable turns O x : Stable R (drained turns O x).
Proof.
  intros s s' (H1 & H2 & H3) HR. split; [done|]. split; [eapply H; [exact H2|done]|].
  intros Hx. eapply H0; [by apply H3|done].
Qed.

Lemma drained_more turns O ev r evs s : accepted [ev] = [] ->
  drained turns (O ++ [ev]) (r, evs) s -> drained (S turns) O (r, ev :: evs) s.
Proof.
  unfold drained. cbn [fst snd length]. rewrite <- app_assoc. intros Hev ((Hlen & Ha & Hr) & Hdr). split; [|done].
  split; [lia|]. split; [|done]. change (ev :: evs) with ([ev] ++ evs). by rewrite accepted_app, Hev, Ha.
Qed.

Lemma consumer_loop_ok turns out O : (length O + turns <= lim)%nat ->
  triple R Gu (draining O) (consumer_loop cx again turns out (u64 (1 + Zlen (popped O)))) (drained turns O).
Proof.
  revert out O. induction turns as [|turns IH]; intros out O Hlim; cbn [consumer_loop].
  { apply triple_ret; [apply _|]. intros s Hs. unfold drained. cbn [fst snd length]. rewrite app_nil_r. split_and!; auto. done. }
  apply (consumer_looks _ O (fun b : bool => if negb b then Ret (Some 0, []) else _)); cbn [negb].
  2:{ apply triple_ret; [apply _|]. intros s [Hs He]. unfold drained. cbn [fst snd length]. rewrite app_nil_r.
      split; [|done]. split; [lia|]. split; [done|by right]. }
  eapply triple_bind; [apply _..|apply consumer_pops; lia|]. intros [rc out']. cbn [fst snd].
  assert (Hnext : forall ev ek' out2, accepted [ev] = [] -> ek' = u64 (1 + Zlen (popped (O ++ [ev]))) ->
    triple R Gu (draining (O ++ [ev])) ('(r, evs) ← consumer_loop cx again turns out2 ek'; Ret (r, ev :: evs)) (drained (S turns) O)).
  { intros ev ek' out2 Hev ->. eapply triple_bind; [apply _..|apply IH; rewrite length_app; cbn; lia|]. intros [r evs].
    apply triple_ret; [apply _|]. intros s. by apply drained_more. }
  apply triple_or.
  - apply triple_exists. intros e. apply triple_pure. intros [= -> ->]. rewrite Z.eqb_refl. cbn [default].
    apply consumer_counts, Hnext; [done|]. rewrite u64_add_l, popped_app, Zlen_app. f_equal.
    change (Zlen (popped [EPop out DS_SUCCESS (Some e)])) with 1. lia.
  - apply triple_pure. intros [Hrc Ha]. rewrite (proj2 (Z.eqb_neq _ _) Hrc), Ha. cbn [negb]. apply Hnext; [done|].
    by rewrite popped_app, (refused_not_popped _ _ _ Hrc), app_nil_r.
Qed.

Lemma consumer_thread_ok turns junk : (turns <= lim)%nat ->
  triple R Gu (draining []) (consumer_thread cx again turns junk) (drained turns []).
Proof. intros Hlim. by apply (consumer_loop_ok turns junk []). Qed.
End drain.

Section duet.
Context `{K : Kernel} {U : Duet} {repr quiet : list ds_kv -> mem -> Prop} {d : discipline}
  {l0 : list ds_kv} {lim : nat} {CP CC : Container}.
Context `{L : !DuetLaws U repr quiet d l0 lim CP CC}.
Variables (cx : test_ctx) (limit : Z).
Hypothesis clock_pure : forall m, snd (kcall ClockNs m) = m.
Hypothesis produced_cell : du_pcells (cx_produced cx).
Hypothesis consumer_cells : du_ccells (cx_consumed cx) /\ du_ccells (cx_expected cx) /\
  cx_consumed cx <> cx_expected cx /\
  match cx_ordering_failures cx with
  | Some cell => du_ccells cell /\ cell <> cx_consumed cx /\ cell <> cx_expected cx
  | None => True
  end.
Implicit Types (s : mem * du_ghost) (I O : list event).

(** *** The producer *)

Definition counted I (n : Z) s : Prop := du_producing I s /\ s.1 !! cx_produced cx = Some (u64 n).

#[local] Instance counted_stable I n : Stable du_prely (counted I n).
Proof.
  intros [m g] s' [Hp Hc] HR. split; [by eapply du_producing_stable|].
  rewrite (du_pcells_kept _ _ _ (proj1 (du_producing_ok _ _ _ Hp)) HR produced_cell). done.
Qed.

Lemma producer_counts {A} o I n (f : Z -> prog A) Q :
  (forall v, triple du_prely du_crely (counted I (n + 1)) (f v) Q) ->
  triple du_prely du_crely (counted I n) (rmw o (FetchAdd 64) (cx_produced cx) 1 ≫= f) Q.
Proof.
  intros Hf. eapply triple_rmw; [apply _..| |exact Hf].
  intros [m g] [Hp Hc]. cbn [fst] in *. exists (u64 n). split; [done|]. exists g.
  change (rmw_eval (FetchAdd 64) (u64 n) 1) with (u64 (u64 n + 1)). rewrite u64_add_l.
  destruct (du_pcells_write I m g (cx_produced cx) (u64 (n + 1)) produced_cell ltac:(by eexists) Hp) as [HG Hp'].
  split; [done|]. split; [done|apply lookup_insert_eq].
Qed.

Lemma producer_inserts I e n : (length I < lim)%nat ->
  triple du_prely du_crely (counted I n) (c_insert (Container := CP) (kv_key e) (kv_value e))
    (fun rc => counted (I ++ [EInsert e rc]) n).
Proof.
  intros HI. eapply triple_weaken; [|done|done|].
  - eapply triple_pre; [apply (producer_calls I e [(cx_produced cx, u64 n)] HI)|].
    + by apply Forall_singleton.
    + intros s [Hp Hc]. split; [done|by apply Forall_singleton].
  - intros rc s [Hp Hk]. split; [done|]. by apply Forall_cons in Hk as [Hk _].
Qed.

(** *** The consumer *)

Definition tally (c f : Z) : list (Z * Z) :=
  (cx_consumed cx, c) :: (cx_expected cx, limit) ::
  match cx_ordering_failures cx with Some cell => [(cell, f)] | None => [] end.

Definition tallied O (c f : Z) s : Prop := du_consuming O s /\ keeps (tally c f) s.

(** Between two turns. *)
Definition draining O s : Prop :=
  tallied O (u64 (Zlen (popped O))) (u64 (out_of_order 1 (popped O))) s.

Lemma tally_cells c f : Forall (fun av => du_ccells av.1) (tally c f).
Proof.
  destruct consumer_cells as (H1 & H2 & _ & H3). unfold tally.
  constructor; [done|]. constructor; [done|].
  destruct (cx_ordering_failures cx); [apply Forall_singleton, H3|constructor].
Qed.

#[local] Instance tallied_stable O c f : Stable du_crely (tallied O c f).
Proof.
  intros [m g] s' [Hp Hk] HR. split; [by eapply du_consuming_stable|].
  pose proof (tally_cells c f) as Hc. unfold keeps in *. rewrite Forall_forall in *. intros av Hav.
  rewrite (du_ccells_kept _ _ _ (proj1 (du_consuming_ok _ _ _ Hp)) HR); auto.
Qed.

#[local] Instance draining_stable O : Stable du_crely (draining O).
Proof. unfold draining. apply _. Qed.

Lemma consumer_pops O c f x :
  triple du_crely du_prely (tallied O c f) (c_pop (Container := CC) (Some x))
    (fun r => tallied (O ++ [EPop x r.1 r.2]) c f).
Proof. apply (consumer_calls O x), tally_cells. Qed.

Lemma tallied_event O c f x r o s : tallied (O ++ [EPop x r o]) c f s ->
  (r = DS_SUCCESS /\ is_Some o) \/ (r = DS_ERROR_NOT_FOUND /\ o = Some x).
Proof.
  destruct s as [m g]. intros [(Hi & HO)%du_consuming_ok _]. destruct (du_legal _ _ Hi) as [_ Hs].
  destruct (legal_pop d l0 _ _ x r o Hs) as [(e & -> & ->)|[-> ->]]; [|left; split; [done|by eexists]|by right].
  apply pops_sub. rewrite HO. apply elem_of_app. right. left.
Qed.

Lemma tally_consumed c f w m g :
  keeps (tally c f) (m, g) -> keeps (tally w f) (<[cx_consumed cx:=w]> m, g).
Proof.
  destruct consumer_cells as (_ & _ & Hne & H3). unfold keeps, tally.
  intros [_ [E Hk]%Forall_cons]%Forall_cons. cbn [fst snd] in *.
  constructor; [apply lookup_insert_eq|]. constructor; [cbn; by rewrite lookup_insert_ne|].
  destruct (cx_ordering_failures cx); [|done]. pose proof (proj1 (Forall_singleton _ _) Hk) as Ek. apply Forall_singleton. cbn in *.
  rewrite lookup_insert_ne; [done|]. intros <-. by destruct H3 as (_ & H3 & _).
Qed.

Lemma tally_failures cell c f w m g : cx_ordering_failures cx = Some cell ->
  keeps (tally c f) (m, g) -> keeps (tally c w) (<[cell:=w]> m, g).
Proof.
  intros Hc. destruct consumer_cells as (_ & _ & _ & H3). unfold keeps, tally. rewrite Hc in *.
  destruct H3 as (_ & H1 & H2).
  intros [E1 [E2 _]%Forall_cons]%Forall_cons. cbn [fst snd] in *.
  constructor; [cbn; by rewrite lookup_insert_ne|]. constructor; [cbn; by rewrite lookup_insert_ne|].
  apply Forall_singleton, lookup_insert_eq.
Qed.

Lemma consumer_counts {A} o O c f (k : Z -> prog A) Q :
  (forall v, triple du_crely du_prely (tallied O (u64 (c + 1)) f) (k v) Q) ->
  triple du_crely du_prely (tallied O (u64 c) f) (rmw o (FetchAdd 64) (cx_consumed cx) 1 ≫= k) Q.
Proof.
  intros Hf. eapply triple_rmw; [apply _..| |exact Hf].
  intros [m g] [Hp Hk]. pose proof Hk as [E _]%Forall_cons. cbn [fst snd] in *.
  eexists. split; [exact E|]. exists g.
  change (rmw_eval (FetchAdd 64) (u64 c) 1) with (u64 (u64 c + 1)). rewrite u64_add_l.
  destruct (du_ccells_write O m g (cx_consumed cx) (u64 (c + 1)) (proj1 consumer_cells) ltac:(by eexists) Hp) as [HG Hp'].
  split; [done|]. split; [done|]. by eapply tally_consumed.
Qed.

Lemma consumer_checks_order O c f ek e :
  triple du_crely du_prely (tallied O c (u64 f)) (check_order cx ek (Some e))
    (fun _ => tallied O c (u64 (f + if kv_key e =? ek then 0 else 1))).
Proof.
  pose proof (fun f => tallied_stable O c f) as Hst. pose proof consumer_cells as (_ & _ & _ & H3).
  pose proof (fun cell w m g => tally_failures cell c (u64 f) w m g) as Hfail.
  unfold check_order. case_eq (cx_ordering_failures cx); [intros cell Ecell|intros Ecell]; rewrite Ecell in H3.
  - destruct (kv_key e =? ek); cbn [negb]; [apply triple_ret; [apply _|]; intros s; by rewrite Z.add_0_r|].
    eapply (triple_rmw _ _ _ _ _ _ _ _ (fun _ => tallied O c (u64 (f + 1)))); [apply _..| |].
    + intros [m g] [Hp Hk]. pose proof Hk as [_ [_ E]%Forall_cons]%Forall_cons. rewrite Ecell in E.
      apply (proj1 (Forall_singleton _ _)) in E. cbn [fst snd] in *. eexists. split; [exact E|]. exists g.
      change (rmw_eval (FetchAdd 64) (u64 f) 1) with (u64 (u64 f + 1)). rewrite u64_add_l.
      destruct (du_ccells_write O m g cell (u64 (f + 1)) (proj1 H3) ltac:(by eexists) Hp) as [HG Hp'].
      split; [done|]. split; [done|]. by eapply tally_failures.
    + intros old. by apply triple_ret; [apply _|].
  - apply triple_ret; [apply _|]. intros s [Hp Hk]. split; [done|].
    unfold keeps, tally in *. by rewrite Ecell in *.
Qed.

(** A pop that is not counted yet, and a counter that has reached its limit. *)
Definition uncounted O x e : mem * du_ghost -> Prop :=
  tallied (O ++ [EPop x DS_SUCCESS (Some e)]) (u64 (Zlen (popped O))) (u64 (out_of_order 1 (popped O))).

Definition reached O s : Prop := limit <= u64 (Zlen (popped O)).

Lemma duet_looks {A} O (f : bool -> prog A) Q :
  triple du_crely du_prely (draining O) (f true) Q ->
  triple du_crely du_prely (fun s => draining O s /\ reached O s) (f false) Q ->
  triple du_crely du_prely (draining O) (done ← load Relaxed (cx_consumed cx); n ← load Plain (cx_expected cx); f (done <? n)) Q.
Proof.
  intros Ht Hf.
  eapply (triple_load _ _ _ _ (u64 (Zlen (popped O)))); [apply _|by intros s [_ [E _]%Forall_cons]|].
  eapply (triple_load _ _ _ _ limit); [apply _|by intros s [_ [_ [E _]%Forall_cons]%Forall_cons]|].
  destruct (Z.ltb_spec (u64 (Zlen (popped O))) limit) as [Hlt|Hge]; [done|]. by eapply triple_pre.
Qed.

Lemma duet_pops again O x : again DS_ERROR_NOT_FOUND = true ->
  triple du_crely du_prely (draining O) (c_pop (Container := CC) (Some x)) (fun r s =>
    (exists e, r = (DS_SUCCESS, Some e) /\ uncounted O x e s) \/
    ((r.1 <> DS_SUCCESS /\ again r.1 = true) /\ draining (O ++ [EPop x r.1 r.2]) s)).
Proof.
  intros Hagain. eapply triple_weaken; [apply consumer_pops|lia|lia|]. intros [r o] s Hs. cbn [fst snd] in *.
  destruct (tallied_event _ _ _ _ _ _ _ Hs) as [[-> [e ->]]|[-> ->]]; [left; by exists e|right].
  split; [done|]. unfold draining. by rewrite popped_app, app_nil_r.
Qed.

Lemma duet_counts {A} O x e (p : prog A) Q :
  triple du_crely du_prely (draining (O ++ [EPop x DS_SUCCESS (Some e)])) p Q ->
  triple du_crely du_prely (uncounted O x e) (_ ← rmw Relaxed (FetchAdd 64) (cx_consumed cx) 1;
    check_order cx (u64 (1 + Zlen (popped O))) (Some e);; p) Q.
Proof.
  intros Hp. apply consumer_counts. intros v. eapply triple_bind; [apply _..|apply consumer_checks_order|]. intros [].
  eapply triple_pre; [exact Hp|]. intros s Hs. unfold draining. rewrite popped_app.
  change (popped [EPop x DS_SUCCESS (Some e)]) with [e]. rewrite Zlen_snoc. change 1 with (u64 1) at 2.
  by rewrite out_of_order_snoc.
Qed.

#[local] Instance reached_stable O : Stable du_crely (reached O).
Proof. by intros s s'. Qed.

(** *** The two threads together *)

Lemma duet_producer_ok again key items polls : (items * polls <= lim)%nat ->
  triple du_prely du_crely (counted [] 0) (producer_thread (C := CP) cx again key items polls)
    (supplied counted again key polls items 0 []).
Proof. intros Hlim. apply (producer_thread_ok _ _ cx lim counted clock_pure producer_inserts (@producer_counts)); done. Qed.

Lemma duet_consumer_ok again turns junk : again DS_ERROR_NOT_FOUND = true ->
  triple du_crely du_prely (draining []) (consumer_thread (C := CC) cx again turns junk)
    (drained draining reached turns []).
Proof.
  intros Ha. apply (consumer_thread_ok _ _ cx again turns draining reached uncounted (@duet_looks)
    (fun O x _ => duet_pops again O x Ha) (@duet_counts)). done.
Qed.

Lemma test_threads_ok insert_again pop_again items polls turns junk m g b0 b1 ts m2 :
  d_add d = fifo_add -> l0 = [] -> (items * polls <= lim)%nat -> pop_again DS_ERROR_NOT_FOUND = true ->
  limit = Z.of_nat items -> limit < 2 ^ 64 ->
  counted [] 0 (m, g) -> draining [] (m, g) ->
  let key i := u64 (i + 1) in
  rtc pool_step ([(producer_thread (C := CP) cx insert_again key items polls, b0);
                  (consumer_thread (C := CC) cx pop_again turns junk, b1)], m) (ts, m2) ->
  (forall i t, ts !! i = Some t -> ~ thread_faults t m2 /\ t.1 <> NoFuel) /\
  (Forall joined ts -> exists evs0 evs1,
     map thread_done ts = [Some (Some 0, evs0); Some (Some 0, evs1)] /\
     popped evs1 = accepted evs0 /\ map kv_key (accepted evs0) = keys_from key 0 items /\
     quiet [] m2 /\ wpr (main_exit_of cx) m2 0 (fun code _ _ => code = 0)).
Proof.
  intros Hadd Hl0 Hlim Hagain Hl Hl64 Hp Hc key Hs.
  assert (Hi0 : du_inv (m, g)) by by eapply (du_producing_ok [] m g), Hp.
  destruct (duet_pool _ _ _ _ _ _ _ _ _ _ _ _ (duet_producer_ok insert_again key items polls Hlim)
    (duet_consumer_ok pop_again turns junk Hagain) Hi0 Hp Hc Hs) as (Hok & g' & Hi & H0 & H1).
  split; [done|]. intros Hj. pose proof (pool_steps_length _ _ Hs) as Hlen.
  destruct ts as [|t0 [|t1 [|]]]; [done..| |done].
  apply Forall_cons in Hj as [(r0 & evs0 & c0 & ->) [(r1 & evs1 & c1 & ->) _]%Forall_cons].
  destruct (H0 _ _ eq_refl) as (k & (_ & _ & Hkeys & Hk & Hend) & Hp' & Eprod).
  destruct (H1 _ _ eq_refl) as ((_ & _ & Hr1) & [Hc' Hkeep] & Hgot). cbn [fst snd app] in *.
  destruct Hr1 as [?|Hr1]; [done|]. injection Hr1 as ->. specialize (Hgot eq_refl). unfold reached in Hgot.
  destruct (du_producing_ok _ _ _ Hp') as (_ & HI & Hq). destruct (du_consuming_ok _ _ _ Hc') as (_ & HO).
  destruct (du_legal _ _ Hi) as [_ Ha]. pose proof (fifo_history _ _ _ _ Hadd Ha) as Hf. rewrite Hl0 in Hf. cbn [app] in Hf.
  rewrite <- popped_pops, <- accepted_inserts, HI, HO in Hf.
  assert (Hn : Zlen (accepted evs0) = Z.of_nat k).
  { unfold Zlen. rewrite <- (length_map kv_key), Hkeys, keys_from_length. done. }
  pose proof (Zlen_app (popped evs1) (du_items g')) as Happ. rewrite Hf, Hn in Happ.
  pose proof (Zlen_nonneg (popped evs1)). pose proof (Zlen_nonneg (du_items g')).
  rewrite u64_id in Hgot by lia. assert (k = items) as -> by lia.
  assert (Hnil : du_items g' = []).
  { destruct (du_items g') as [|e l]; [done|]. rewrite Zlen_cons in Happ. pose proof (Zlen_nonneg l). lia. }
  rewrite Hnil, app_nil_r in Hf. rewrite Hnil in Hq.
  destruct Hend as [[= ->]|]; [|lia].
  exists evs0, evs1. split; [done|]. split; [done|]. split; [done|]. split; [done|].
  rewrite Hf, Hn in Hkeep. replace (out_of_order 1 (accepted evs0)) with 0 in Hkeep.
  2:{ symmetry. by apply (in_order 0 items). }
  unfold keeps, tally in Hkeep. rewrite Z.add_0_l, u64_id in Eprod by lia. rewrite u64_id in Hkeep by lia.
  apply Forall_cons in Hkeep as [Econs [Eexp Hfail]%Forall_cons]. cbn [fst snd] in *.
  apply (exit_code cx _ (Z.of_nat items)); [done|done|by rewrite <- Hl|].
  destruct (cx_ordering_failures cx); [|done]. by apply (proj1 (Forall_singleton _ _)) in Hfail.
Qed.
End duet.

(** ** From the initialisation on *)

(** Pairwise different counters. *)
Definition ctx_apart (cx : test_ctx) : Prop :=
  cx_produced cx <> cx_expected cx /\ cx_consumed cx <> cx_expected cx /\
  match cx_ordering_failures cx with
  | Some cell => cell <> cx_consumed cx /\ cell <> cx_expected cx
  | None => True
  end.

(** [struct ctx c = {0}], as far as the counters go. *)
Definition ctx_zero (cx : test_ctx) (m : mem) : Prop :=
  m !! cx_produced cx = Some 0 /\ m !! cx_consumed cx = Some 0 /\ m !! cx_expected cx = Some 0 /\
  match cx_ordering_failures cx with Some cell => m !! cell = Some 0 | None => True end.

(** Some duet is ready to start empty in memory [m], with the counters in cells of its threads. *)
Definition test_ready `{K : Kernel} (C : Container) (cx : test_ctx) (lim : nat) (quiet : mem -> Prop)
    (m : mem) : Prop :=
  exists U repr quiet0 d g, exists L : DuetLaws U repr quiet0 d [] lim C C,
    d_add d = fifo_add /\ du_producing [] (m, g) /\ du_consuming [] (m, g) /\
    du_pcells (cx_produced cx) /\ du_ccells (cx_consumed cx) /\ du_ccells (cx_expected cx) /\
    match cx_ordering_failures cx with Some cell => du_ccells cell | None => True end /\
    forall m', quiet0 [] m' -> quiet m'.

Lemma test_from_setup `{K : Kernel} {C : Container} T cx insert_again pop_again items polls tries turns junk quiet m :
  let key i := u64 (i + 1) in
  (forall m, snd (kcall ClockNs m) = m) -> ctx_apart cx -> Z.of_nat items < 2 ^ 64 ->
  pop_again DS_ERROR_NOT_FOUND = true ->
  ut_setup T = main_setup cx (Z.of_nat items) -> ut_producer T polls = producer_thread cx insert_again key items tries ->
  ut_consumer T turns junk = consumer_thread cx pop_again turns junk -> ut_exit T = main_exit_of cx ->
  wpr c_init m 0 (fun r m1 _ => ctx_zero cx m1 /\
    (r <> DS_SUCCESS \/ (r = DS_SUCCESS /\ test_ready C cx (items * tries) quiet m1))) ->
  test_passes T key items polls turns junk quiet m.
Proof.
  intros key Hclock (A1 & A2 & A3) H64 Hagain ES EP EC EX Hinit. unfold test_passes, main_setup. rewrite ES, EP, EC, EX.
  apply wpr_bind. eapply wpr_mono; [exact Hinit|]. clear Hinit.
  intros r m1 b ((Z1 & Z2 & Z3 & Z4) & [Hr|[-> (U & repr & quiet0 & d & g & L & Hadd & Hp & Hc & C1 & C2 & C3 & C4 & Hq)]]).
  { destruct (Z.eqb_spec r DS_SUCCESS) as [|_]; [done|]. cbn [negb]. apply wpr_ret. by left. }
  rewrite Z.eqb_refl. cbn [negb]. eapply wpr_bind, wpr_store; [by eexists|]. apply wpr_ret. right. split; [done|].
  set (m2 := <[cx_expected cx:=Z.of_nat items]> m1).
  destruct (du_ccells_write [] m1 g (cx_expected cx) (Z.of_nat items) C3 ltac:(by eexists) Hc) as [HR Hc2].
  pose proof (du_producing_stable [] _ _ Hp HR) as Hp2. fold m2 in HR, Hc2, Hp2.
  intros b0 b1 ts m3 Hs.
  assert (Hcells : du_ccells (cx_consumed cx) /\ du_ccells (cx_expected cx) /\ cx_consumed cx <> cx_expected cx /\
    match cx_ordering_failures cx with
    | Some cell => du_ccells cell /\ cell <> cx_consumed cx /\ cell <> cx_expected cx
    | None => True
    end) by (split_and!; try done; by destruct (cx_ordering_failures cx)).
  assert (Hp3 : counted cx [] 0 (m2, g)) by (split; [done|]; unfold m2; cbn; by rewrite lookup_insert_ne).
  assert (Hc3 : draining cx (Z.of_nat items) [] (m2, g)).
  { split; [done|]. unfold keeps, tally, m2. constructor; [cbn; by rewrite lookup_insert_ne|].
    constructor; [apply lookup_insert_eq|]. destruct (cx_ordering_failures cx); [|constructor].
    apply Forall_singleton. cbn. rewrite lookup_insert_ne; [done|]. intros E. by destruct A3. }
  destruct (test_threads_ok cx (Z.of_nat items) Hclock C1 Hcells insert_again pop_again items tries turns junk
    m2 g b0 b1 ts m3 Hadd eq_refl ltac:(done) Hagain eq_refl H64 Hp3 Hc3 Hs) as [Hok Hend].
  split; [done|]. intros Hj. destruct (Hend Hj) as (evs0 & evs1 & H1 & H2 & H3 & H4 & H5).
  exists evs0, evs1. split_and!; auto.
Qed.
