(* ===== verification/UsertestCrowd.v ===== *)
(** * The tests with several producers and consumers: drivers.

    The same threads as in [Usertest], over a structure that any number of threads share
    ([Crowd]), which count in two shared cells. A ledger in the ghost state says what each thread
    has counted; the cells hold the sums. *)
From stdpp Require Import base numbers gmap list fin_maps option relations.
From S2P Require Import Prelude Machine Logic Api Container Conc Threads Crowd Usertest.

(** ** The counters *)

(** What each thread has counted as produced, and as consumed: the cells hold the sums. *)
Definition counters (cx : test_ctx) (limit : Z) (N : nat) : ledger := {|
  le_state := list Z * list Z;
  le_view := option Z * option Z;
  le_of i x := (x.1 !! i, x.2 !! i);
  le_inv m x :=
    m !! cx_produced cx = Some (u64 (zsum x.1)) /\ m !! cx_consumed cx = Some (u64 (zsum x.2)) /\
    m !! cx_expected cx = Some limit /\ (length x.1 = N /\ length x.2 = N) /\ 0 <= zsum x.2;
  le_cells a := a = cx_produced cx \/ a = cx_consumed cx \/ a = cx_expected cx;
  le_grows x x' := zsum x.2 <= zsum x'.2
|}.

(** Pairwise different counters, left to the clients of the structure. *)
Definition counters_apart (cx : test_ctx) : Prop :=
  cx_produced cx <> cx_consumed cx /\ cx_produced cx <> cx_expected cx /\ cx_consumed cx <> cx_expected cx.

Lemma counters_laws cells cx limit N :
  cells (cx_produced cx) /\ cells (cx_consumed cx) /\ cells (cx_expected cx) -> LedgerLaws cells (counters cx limit N).
Proof.
  intros (F1 & F2 & F3). split.
  - split; [intros x; cbn; lia|]. intros x y z. cbn. lia.
  - by intros a [->|[->| ->]].
  - intros m m' x Hs (I1 & I2 & I3 & I4). cbn in *. rewrite !Hs by auto. done.
Qed.

Section counters.
Context `{K : Kernel} {W : Crowd} {N : nat} {l0 : list ds_kv} {answers : event -> Prop}
  {quiet : list ds_kv -> mem -> Prop}.
Context `{L : !CrowdLaws W N l0 answers quiet}.
Variables (cx : test_ctx) (limit : Z).
Notation E := (counters cx limit N).
Context `{LE : !LedgerLaws cr_cells E}.
Hypothesis cells_apart : counters_apart cx.
Notation state := (mem * (cr_ghost * le_state E))%type.
Notation rely := (l_rely E).
Notation guar := (l_guar E).
Implicit Types (s : state) (P : mem * cr_ghost -> Prop).

(** Thread [i] has counted [p] and [c]. *)
Definition x_at (i : nat) P (p c : Z) : state -> Prop := l_at E i P (Some p, Some c) (fun _ => True).

(** The counter of the consumed pairs has reached the limit. *)
Definition x_enough s : Prop := l_inv E s /\ limit <= zsum s.2.2.2.

#[export] Instance x_enough_stable i : Stable (rely i) x_enough.
Proof. intros s s' (Hi & A) HR. destruct (HR Hi) as (Hi' & _ & _ & B). cbn in B. split; [done|]. unfold x_enough in *. cbn in *. lia. Qed.

(** A thread counts. *)
Lemma x_counts {A} o i P p c (cell : Z) dp dc (f : Z -> prog A) Q : Stable (cr_rely i) P ->
  (cell = cx_produced cx /\ dp = 1 /\ dc = 0) \/ (cell = cx_consumed cx /\ dp = 0 /\ dc = 1) ->
  (forall v, triple (rely i) (guar i) (x_at i P (p + dp) (c + dc)) (f v) Q) ->
  triple (rely i) (guar i) (x_at i P p c) (rmw o (FetchAdd 64) cell 1 ≫= f) Q.
Proof.
  intros HP Hcell Hf. apply (l_rmw E _ _ _ _ _ _ _ (Some (p + dp), Some (c + dc)) _ (fun _ _ => True)); [done|apply _..| | |exact Hf].
  { destruct Hcell as [(-> & _)|(-> & _)]; cbn; auto. }
  intros m g [X D] _ (I2 & I3 & I4 & [I5 I6] & I7) [= Hp Hc] _. cbn [fst snd] in *.
  destruct cells_apart as (N1 & N2 & N3).
  assert (Hsum : m !! cell = Some (u64 (dp * zsum X + dc * zsum D)) /\ 0 <= dp /\ 0 <= dc).
  { destruct Hcell as [(-> & -> & ->)|(-> & -> & ->)]; (split; [|done]); [rewrite I2|rewrite I3]; do 2 f_equal; lia. }
  destruct Hsum as (Ecell & Hdp & Hdc). eexists. exists (<[i:=p + dp]> X, <[i:=c + dc]> D). split; [exact Ecell|].
  rewrite (u64_add_l _ 1 : rmw_eval (FetchAdd 64) (u64 _) 1 = _).
  assert (HX : zsum (<[i:=p + dp]> X) = zsum X + dp) by (rewrite (zsum_insert _ _ _ _ Hp); lia).
  assert (HD : zsum (<[i:=c + dc]> D) = zsum D + dc) by (rewrite (zsum_insert _ _ _ _ Hc); lia).
  cbn. rewrite HX, HD, !length_insert, !list_lookup_insert_eq by (by eapply lookup_lt_Some).
  split; [|split; [done|split; [intros j Hne; by rewrite !list_lookup_insert_ne|split; [lia|done]]]].
  split_and!; try done; try lia.
  all: destruct Hcell as [(-> & -> & ->)|(-> & -> & ->)];
    rewrite ?lookup_insert_eq, ?lookup_insert_ne by done; rewrite ?I2, ?I3, ?I4; try done; do 2 f_equal; lia.
Qed.

(** A consumer compares the counter with the limit. *)
Lemma x_looks {A} i P p c (f : bool -> prog A) Q : Stable (cr_rely i) P ->
  triple (rely i) (guar i) (x_at i P p c) (f true) Q ->
  triple (rely i) (guar i) (fun s => x_at i P p c s /\ x_enough s) (f false) Q ->
  triple (rely i) (guar i) (x_at i P p c)
    (done ← load Relaxed (cx_consumed cx); l ← load Plain (cx_expected cx); f (done <? l)) Q.
Proof.
  intros HP Ht Hf. apply (l_load E _ _ _ _ _ _ (fun v x => v < limit \/ limit <= zsum x.2)); [done|apply _| | |].
  - intros v x x' Hg. cbn in Hg. intros [?|?]; [by left|right; lia].
  - intros m x (_ & I3 & _ & _ & I6) _ _. eexists. split; [exact I3|].
    destruct (Z.lt_ge_cases (u64 (zsum x.2)) limit) as [|Hge]; [by left|right]. unfold u64 in Hge.
    pose proof (Z.mod_le (zsum x.2) (2 ^ 64) I6 ltac:(lia)). lia.
  - intros v. destruct (Z.ltb_spec v limit) as [Hlt|Hge].
    + eapply (triple_pre _ _ _ _ (x_at i P p c)); [|by intros s (H1 & H2 & H3 & _)].
      eapply triple_load; [apply _..|by intros s ([_ (_ & _ & H & _)] & _)|]. by replace (v <? limit) with true by lia.
    + eapply (triple_pre _ _ _ _ (fun s => x_at i P p c s /\ x_enough s)).
      * eapply triple_load; [apply _..|by intros s [([_ (_ & _ & H & _)] & _) _]|]. by replace (v <? limit) with false by lia.
      * intros s (H1 & H2 & H3 & H4). split; [by split_and!|]. split; [done|lia].
Qed.

(** ** The threads, over a container *)

Section container.
Context {C : Container} `{CO : !CrowdOps W C}.

(** A producer with room for [lim] events, and a consumer. *)
Definition x_supplying lim i I (k : Z) s : Prop := exists n, (lim <= length I + n)%nat /\ x_at i (cr_at i n 0%nat I) k 0 s.

Definition x_draining lim i O s : Prop :=
  exists n, (lim <= length O + n)%nat /\ x_at i (cr_at i 0%nat n O) 0 (Zlen (popped O)) s.

Definition x_uncounted lim i O x e s : Prop :=
  exists n, (lim <= length O + 1 + n)%nat /\
    x_at i (cr_at i 0%nat n (O ++ [EPop x DS_SUCCESS (Some e)])) 0 (Zlen (popped O)) s.

Lemma x_inserts lim i I e k : (length I < lim)%nat ->
  triple (rely i) (guar i) (x_supplying lim i I k) (c_insert (kv_key e) (kv_value e))
    (fun rc => x_supplying lim i (I ++ [EInsert e rc]) k).
Proof.
  intros HI. apply triple_exists. intros n. apply triple_pure. intros Hn. destruct n as [|n]; [lia|].
  eapply triple_weaken; [apply (l_op E i (cr_at i (S n) 0%nat I)); [apply _|apply cr_insert]|lia|lia|].
  intros r s Hs. exists n. rewrite length_app. cbn. split; [lia|done].
Qed.

Lemma x_supplies lim i again key items polls :
  (forall m, snd (kcall ClockNs m) = m) -> (items * polls <= lim)%nat ->
  triple (rely i) (guar i) (x_supplying lim i [] 0) (producer_thread cx again key items polls)
    (supplied (x_supplying lim i) again key polls items 0 []).
Proof.
  intros Hclock Hlim. apply (producer_thread_ok _ _ cx lim (x_supplying lim i) Hclock (x_inserts lim i)); [|done].
  intros A o I k f Q Hf. apply triple_exists. intros n. apply triple_pure. intros Hn.
  apply (x_counts o i _ k 0 _ 1 0); [apply _|by left|]. intros v. eapply triple_pre; [apply Hf|].
  intros s Hs. by exists n.
Qed.

Section consumer.
Variables (again : Z -> bool) (lim i : nat).
Hypothesis no_check : cx_ordering_failures cx = None.
Hypothesis pops_answered : forall x r o, answers (EPop x r o) ->
  (r = DS_SUCCESS /\ is_Some o) \/ (r <> DS_SUCCESS /\ again r = true).

Lemma x_pops O x : (length O < lim)%nat ->
  triple (rely i) (guar i) (x_draining lim i O) (c_pop (Some x)) (fun r s =>
    (exists e, r = (DS_SUCCESS, Some e) /\ x_uncounted lim i O x e s) \/
    ((r.1 <> DS_SUCCESS /\ again r.1 = true) /\ x_draining lim i (O ++ [EPop x r.1 r.2]) s)).
Proof.
  intros HO. apply triple_exists. intros n. apply triple_pure. intros Hn. destruct n as [|n]; [lia|].
  eapply triple_weaken; [apply (l_op E i (cr_at i 0%nat (S n) O)); [apply _|apply cr_pop]|lia|lia|].
  intros [r o] [m [g x']] Hs. cbn [fst snd] in *. pose proof Hs as (_ & Hat & _).
  destruct (cr_at_ok _ _ _ _ _ _ Hat) as (_ & _ & _ & Hans). apply Forall_app in Hans as [_ Hans].
  apply (proj1 (Forall_singleton answers _)) in Hans. destruct (pops_answered _ _ _ Hans) as [[-> [e ->]]|[Hr Ha]]; [left|right].
  - exists e. split; [done|]. exists n. split; [lia|done].
  - split; [done|]. exists n. rewrite length_app, popped_app, (refused_not_popped _ _ _ Hr), app_nil_r. cbn.
    split; [lia|done].
Qed.

Lemma x_drains turns junk : (turns <= lim)%nat ->
  triple (rely i) (guar i) (x_draining lim i []) (consumer_thread cx again turns junk)
    (drained (x_draining lim i) (fun _ => x_enough) turns []).
Proof.
  intros Hlim. apply (consumer_thread_ok _ _ cx again lim _ _ (x_uncounted lim i)); [..|done].
  - intros A O' f Q Ht Hf. apply triple_exists. intros n. apply triple_pure. intros Hn.
    apply x_looks; [apply _|..]; (eapply triple_pre; [eassumption|]); [intros s Hs; by exists n|].
    intros s [Hs He]. split; [by exists n|done].
  - apply x_pops.
  - intros A O' x e p Q Hp. apply triple_exists. intros n. apply triple_pure. intros Hn.
    apply (x_counts _ i _ 0 _ _ 0 1); [apply _|by right|]. intros v. unfold check_order. rewrite no_check.
    eapply triple_pre; [exact Hp|]. intros s Hs. exists n. rewrite length_app, popped_app, Zlen_app.
    change (Zlen (popped [EPop x DS_SUCCESS (Some e)])) with 1. cbn [length]. split; [lia|done].
Qed.
End consumer.
End container.
End counters.

(** ** Sums over the threads *)

Lemma zsum_app l l' : zsum (l ++ l') = zsum l + zsum l'.
Proof. unfold zsum. induction l as [|x l IH]; cbn; [done|]. rewrite IH. lia. Qed.

(** Numbers of at most [b] that add up to as much as they could are all [b]. *)
Lemma zsum_bound l b : Forall (fun x => x <= b) l ->
  zsum l <= Zlen l * b /\ (zsum l = Zlen l * b -> Forall (fun x => x = b) l).
Proof.
  induction 1 as [|x l Hx _ [IH1 IH2]]; [done|]. rewrite Zlen_cons. change (zsum (x :: l)) with (x + zsum l).
  split; [lia|]. intros E. constructor; [lia|]. apply IH2. lia.
Qed.

Lemma zsum_lengths {A} (f : nat -> list A) (ns : list nat) :
  zsum (map (fun i => Zlen (f i)) ns) = Zlen (concat (map f ns)).
Proof. induction ns as [|i ns IH]; cbn; [done|]. by rewrite Zlen_app, <- IH. Qed.

(** ** Tests *)

(** A test with [ct_consumers] and [ct_producers] threads: [main] up to their creation, the
    threads, by their number, and [main] from their join on. *)
Record crowd_test := mk_ctest {
  ct_setup : prog Z;
  ct_consumers : nat;
  ct_consumer : nat -> ds_kv -> prog (status * list event);
  ct_producers : nat;
  ct_producer : nat -> nat -> prog (status * list event);
  ct_exit : prog Z
}.

(** How often each thread polls, what its output pair holds first, its loop budget. *)
Record patience := mk_patience {
  pa_attempts : nat -> nat;
  pa_junk : nat -> ds_kv;
  pa_budget : nat -> nat
}.

(** The threads, consumers first. *)
Definition ct_thread (T : crowd_test) (pa : patience) (i : nat) : prog (status * list event) :=
  if decide (i < ct_consumers T)%nat then ct_consumer T (pa_attempts pa i) (pa_junk pa i)
  else ct_producer T (i - ct_consumers T) (pa_attempts pa i).

Definition ct_pool (T : crowd_test) (pa : patience) : list (thread (status * list event)) :=
  map (fun i => (ct_thread T pa i, pa_budget pa i)) (seq 0 (ct_consumers T + ct_producers T)).

(** The keys of the items of all producers. *)
Definition crowd_keys (key : nat -> Z -> Z) (items producers : nat) : list Z :=
  concat (map (fun tid => keys_from (key tid) 0 items) (seq 0 producers)).

(** [main] of a test from memory [m]: the initialisation fails, and so does the test; or, however
    the threads interleave, no access faults and, once all are joined, all returned [NULL], the
    consumers took the pairs the producers inserted, each once, the keys are those of all items,
    memory is as [quiet] says, and the exit code is 0. [few]: how many attempts are considered. *)
Definition crowd_passes `{K : Kernel} (T : crowd_test) (key : nat -> Z -> Z) (items : nat) (few : patience -> Prop)
    (quiet : mem -> Prop) (m : mem) : Prop :=
  wpr (ct_setup T) m 0 (fun r m1 _ =>
    r = 1 \/
    (r = 0 /\ forall pa ts m2, few pa -> rtc pool_step (ct_pool T pa, m1) (ts, m2) ->
       (forall i t, ts !! i = Some t -> ~ thread_faults t m2 /\ t.1 <> NoFuel) /\
       (Forall joined ts -> exists evs : list (list event),
          map thread_done ts = map (fun ev => Some (Some 0, ev)) evs /\
          popped (concat evs) ≡ₚ accepted (concat evs) /\
          map kv_key (accepted (concat evs)) = crowd_keys key items (ct_producers T) /\
          quiet m2 /\ wpr (ct_exit T) m2 0 (fun code _ _ => code = 0)))).

(** ** All items were consumed *)

Lemma accepted_concat (evs : nat -> list event) ns :
  accepted (concat (map evs ns)) = concat (map (fun i => accepted (evs i)) ns).
Proof. induction ns as [|i ns IH]; cbn; [done|]. by rewrite accepted_app, IH. Qed.

Lemma popped_concat (evs : nat -> list event) ns :
  popped (concat (map evs ns)) = concat (map (fun i => popped (evs i)) ns).
Proof. induction ns as [|i ns IH]; cbn; [done|]. by rewrite popped_app, IH. Qed.

Lemma concat_idle {A} (f : nat -> list A) ns : (forall i, i ∈ ns -> f i = []) -> concat (map f ns) = [].
Proof.
  induction ns as [|i ns IH]; intros H; cbn; [done|]. rewrite (H i) by left. cbn. apply IH.
  intros j Hj. apply H. by right.
Qed.

Lemma keys_concat (f : nat -> list ds_kv) key items ns :
  (forall i, i ∈ ns -> map kv_key (f i) = keys_from (key i) 0 items) ->
  map kv_key (concat (map f ns)) = concat (map (fun i => keys_from (key i) 0 items) ns).
Proof.
  induction ns as [|i ns IH]; intros H; cbn; [done|]. rewrite map_app, (H i) by left. f_equal. apply IH.
  intros j Hj. apply H. by right.
Qed.

(** [NC] consumers and [NP] producers, by what they did: consumers accept nothing, a producer has
    numbered its accepted items and made at most [items]; as many were popped as there can be. *)
Lemma crowd_counts NC NP items (key : nat -> Z -> Z) (evs : nat -> list event) left :
  (forall i, (i < NC)%nat -> accepted (evs i) = []) ->
  (forall i, (i < NP)%nat -> exists k, (k <= items)%nat /\ map kv_key (accepted (evs (NC + i)%nat)) = keys_from (key i) 0 k) ->
  popped (concat (map evs (seq 0 (NC + NP)))) ++ left ≡ₚ accepted (concat (map evs (seq 0 (NC + NP)))) ->
  Z.of_nat (NP * items) <= Zlen (popped (concat (map evs (seq 0 (NC + NP))))) ->
  left = [] /\ map kv_key (accepted (concat (map evs (seq 0 (NC + NP))))) = crowd_keys key items NP /\
  Zlen (popped (concat (map evs (seq 0 (NC + NP))))) = Z.of_nat (NP * items) /\
  Zlen (accepted (concat (map evs (seq 0 (NC + NP))))) = Z.of_nat (NP * items) /\
  forall i, (i < NP)%nat -> Zlen (accepted (evs (NC + i)%nat)) = Z.of_nat items.
Proof.
  intros HC HP Hperm Hge. set (f := fun i => accepted (evs (NC + i)%nat)).
  assert (Hall : accepted (concat (map evs (seq 0 (NC + NP)))) = concat (map f (seq 0 NP))).
  { rewrite accepted_concat, seq_app, map_app, concat_app, concat_idle.
    - rewrite <- (Nat.add_0_r (0 + NC)), <- fmap_add_seq. cbn [app]. by rewrite (List.map_map _ _ (seq 0 NP)).
    - intros i [_ Hi]%elem_of_seq. by apply HC. }
  rewrite Hall in *. apply Permutation_length in Hperm. rewrite length_app in Hperm.
  destruct (zsum_bound (map (fun i => Zlen (f i)) (seq 0 NP)) (Z.of_nat items)) as [Hle Heq].
  { apply Forall_forall. intros x (i & -> & [_ Hi]%elem_of_seq)%list_elem_of_fmap. destruct (HP i Hi) as (k & Hk & Hkeys).
    unfold f, Zlen. rewrite <- (length_map kv_key), Hkeys, keys_from_length. lia. }
  rewrite zsum_lengths in Hle, Heq. unfold Zlen in Hle, Heq, Hge at 1. rewrite length_map, length_seq in Hle, Heq.
  unfold Zlen in *. specialize (Heq ltac:(lia)). rewrite Forall_forall in Heq.
  assert (Hn : forall i, (i < NP)%nat -> Z.of_nat (length (f i)) = Z.of_nat items).
  { intros i Hi. apply Heq, list_elem_of_fmap. exists i. split; [done|]. apply elem_of_seq. lia. }
  split; [apply length_zero_iff_nil; lia|]. split; [|split; [lia|split; [lia|done]]].
  apply keys_concat. intros i [_ Hi]%elem_of_seq. destruct (HP i Hi) as (k & Hk & Hkeys).
  fold (f i) in Hkeys. rewrite Hkeys. specialize (Hn i Hi). rewrite <- (length_map kv_key), Hkeys, keys_from_length in Hn.
  f_equal. lia.
Qed.

(** ** The threads together *)

(** A thread that returned, in terms of the structure and of the ledgers. *)
Definition accounted `{W : Crowd} (T : crowd_test) (key : nat -> Z -> Z) (items : nat) (i : nat) (r : Z)
    (evs : list event) (m : mem) (g : cr_ghost) (P D : list Z) : Prop :=
  ((exists n k, cr_at i n k evs (m, g)) /\ cr_seen g i = evs) /\
  (P !! i = Some (Zlen (accepted evs)) /\ D !! i = Some (Zlen (popped evs))) /\
  if decide (i < ct_consumers T)%nat then
    accepted evs = [] /\ r = 0 /\ Z.of_nat (ct_producers T * items) <= zsum D
  else exists k, (k <= items)%nat /\ map kv_key (accepted evs) = keys_from (key (i - ct_consumers T)%nat) 0 k /\
    (r = 0 \/ (k < items)%nat).

Section together.
Context `{K : Kernel} {W : Crowd} {answers : event -> Prop} {quiet : list ds_kv -> mem -> Prop}.
Variables (T : crowd_test) (cx : test_ctx) (key : nat -> Z -> Z) (items : nat) (pa : patience).
Notation NC := (ct_consumers T).
Notation NP := (ct_producers T).
Notation N := (NC + NP)%nat.
Notation limit := (Z.of_nat (NP * items)).
Notation E := (counters cx limit N).
Context `{L : !CrowdLaws W N [] answers quiet} `{LE : !LedgerLaws cr_cells E}.
Hypothesis limit_fits : limit < 2 ^ 64.
Hypothesis some_consumer : (0 < NC)%nat.
(** The insertions and pops each thread may begin, and what it leaves. *)
Variables (inserts pops : nat -> nat) (left : nat -> status * list event -> mem * (cr_ghost * le_state E) -> Prop).
Hypothesis threads_ok : forall i s, (i < N)%nat ->
  x_at (W := W) cx limit i (cr_at i (inserts i) (pops i) []) 0 0 s ->
  rg (l_rely E i) (l_guar E i) (ct_thread T pa i) (pa_budget pa i) s (fun x _ => left i x).
Hypothesis threads_left : forall i r evs m g P D,
  left i (Some r, evs) (m, (g, (P, D))) -> accounted T key items i r evs m g P D.
(** What holds when the threads are joined, and makes the exit code 0. *)
Definition all_counted m g : Prop :=
  cr_inv (m, g) /\ (forall i, (i < N)%nat -> exists n k, cr_at i n k (cr_seen g i) (m, g)) /\
  popped (all_seen g N) ≡ₚ accepted (all_seen g N) /\
  map kv_key (accepted (all_seen g N)) = crowd_keys key items NP /\
  m !! cx_produced cx = Some limit /\ m !! cx_consumed cx = Some limit /\ m !! cx_expected cx = Some limit.
Hypothesis exit_ok : forall m g, all_counted m g -> wpr (ct_exit T) m 0 (fun code _ _ => code = 0).

Lemma ledger_lengths (h : list event -> list ds_kv) (l : list Z) (evs : nat -> list event) : length l = N ->
  (forall i, (i < N)%nat -> l !! i = Some (Zlen (h (evs i)))) -> l = map (fun i => Zlen (h (evs i))) (seq 0 N).
Proof.
  intros Hlen H. apply list_eq. intros i. destruct (decide (i < N)%nat) as [Hi|Hi].
  - rewrite H by done. rewrite list_lookup_fmap, lookup_seq_lt by done. done.
  - rewrite !lookup_ge_None_2; [done|rewrite length_map, length_seq; lia|lia].
Qed.

(** All threads have returned. *)
Lemma crowd_done (rs : nat -> Z) m g P D : l_inv E (m, (g, (P, D))) ->
  (forall i, (i < N)%nat -> accounted T key items i (rs i) (cr_seen g i) m g P D) ->
  (forall i, (i < N)%nat -> rs i = 0) /\ all_counted m g /\ quiet [] m.
Proof.
  intros [I1 (I2 & I3 & I4 & [I5 I6] & _)] Hacc. cbn [fst snd] in *.
  pose proof (cr_conserves (CrowdLaws := L) m g I1) as Hperm. cbn [app] in Hperm.
  pose proof (ledger_lengths accepted P (cr_seen g) I5 (fun i Hi => proj1 (proj1 (proj2 (Hacc i Hi))))) as EP.
  pose proof (ledger_lengths popped D (cr_seen g) I6 (fun i Hi => proj2 (proj1 (proj2 (Hacc i Hi))))) as ED.
  apply (f_equal zsum) in EP, ED. rewrite zsum_lengths, <- accepted_concat in EP. rewrite zsum_lengths, <- popped_concat in ED.
  destruct (crowd_counts NC NP items key (cr_seen g) (cr_items g)) as (Hnil & Hkeys & Hpop & Hins & Hall).
  - intros i Hi. destruct (Hacc i ltac:(lia)) as (_ & _ & H). rewrite decide_True in H by done. apply H.
  - intros i Hi. destruct (Hacc (NC + i)%nat ltac:(lia)) as (_ & _ & H). rewrite decide_False in H by lia.
    replace (NC + i - NC)%nat with i in H by lia. destruct H as (k & Hk & Hkeys & _). by exists k.
  - done.
  - destruct (Hacc 0%nat ltac:(lia)) as (_ & _ & H). rewrite decide_True in H by done. rewrite <- ED. apply H.
  - fold (all_seen g N) in *. rewrite Hnil, app_nil_r in Hperm. split; [|split].
    + intros i Hi. destruct (Hacc i Hi) as (_ & _ & H). destruct (decide (i < NC)%nat); [apply H|].
      destruct H as (k & Hk & Hkeys' & [Hr|Hlt]); [done|]. specialize (Hall (i - NC)%nat ltac:(lia)).
      replace (NC + (i - NC))%nat with i in Hall by lia. unfold Zlen in Hall.
      rewrite <- (length_map kv_key), Hkeys', keys_from_length in Hall. lia.
    + rewrite EP, Hins, u64_id in I2 by lia. rewrite ED, Hpop, u64_id in I3 by lia.
      split; [done|]. split; [|done]. intros i Hi. by destruct (Hacc i Hi) as ((H & _) & _).
    + rewrite <- Hnil. apply (cr_settled (CrowdLaws := L) m g I1). intros i Hi.
      destruct (Hacc i Hi) as (((n & k & Hat) & _) & _). by eexists _, _, _.
Qed.

Lemma crowd_pool m g ts m2 :
  l_inv E (m, (g, (replicate N 0, replicate N 0))) ->
  (forall i, (i < N)%nat -> cr_at i (inserts i) (pops i) [] (m, g)) ->
  rtc pool_step (ct_pool T pa, m) (ts, m2) ->
  (forall i t, ts !! i = Some t -> ~ thread_faults t m2 /\ t.1 <> NoFuel) /\
  exists g' P D, l_inv E (m2, (g', (P, D))) /\
    forall i x b, ts !! i = Some (Ret x, b) -> left i x (m2, (g', (P, D))).
Proof.
  intros Hi Hat Hs. pose proof (l_rely_preorder (L := L) E) as Hpre.
  assert (Hstart : pool_ok (l_rely E) (l_guar E) left (ct_pool T pa) (m, (g, (replicate N 0, replicate N 0)))).
  { intros i p b Hp. unfold ct_pool in Hp. apply list_lookup_fmap_Some in Hp as (j & [= -> ->] & Hj).
    apply lookup_seq in Hj as [-> Hlt]. cbn [Nat.add] in *. apply threads_ok; [done|]. split; [done|].
    split; [by apply Hat|]. cbn. by rewrite lookup_replicate_2. }
  destruct (pool_safe (l_rely E) (l_guar E) left Hpre (fun i j s s' Hne HG => proj1 HG j Hne) _
    (fun i s s' => l_guar_inv E i s s') _ _ _ _ _ Hstart Hi Hs) as ([g' [P D]] & Hok & Hi').
  split.
  - intros i [p b] Hp. destruct (pool_ok_thread (l_rely E) (l_guar E) left Hpre _ _ _ _ _ _ Hok Hp) as (H1 & H2 & _). done.
  - exists g', P, D. split; [done|]. intros i x b Hp.
    by apply (pool_ok_thread (l_rely E) (l_guar E) left Hpre _ _ _ _ _ _ Hok Hp).
Qed.

Lemma crowd_threads_ok m g ts m2 :
  l_inv E (m, (g, (replicate N 0, replicate N 0))) ->
  (forall i, (i < N)%nat -> cr_at i (inserts i) (pops i) [] (m, g)) ->
  rtc pool_step (ct_pool T pa, m) (ts, m2) ->
  (forall i t, ts !! i = Some t -> ~ thread_faults t m2 /\ t.1 <> NoFuel) /\
  (Forall joined ts -> exists evs : list (list event),
     map thread_done ts = map (fun ev => Some (Some 0, ev)) evs /\
     popped (concat evs) ≡ₚ accepted (concat evs) /\
     map kv_key (accepted (concat evs)) = crowd_keys key items NP /\
     quiet [] m2 /\ wpr (ct_exit T) m2 0 (fun code _ _ => code = 0)).
Proof.
  intros Hi Hat Hs. destruct (crowd_pool m g ts m2 Hi Hat Hs) as (Hok & g' & P & D & Hi' & Hleft).
  split; [done|]. intros Hj. pose proof (pool_steps_length _ _ Hs) as Hlen. cbn [fst] in Hlen.
  unfold ct_pool in Hlen. rewrite length_map, length_seq in Hlen.
  set (rs := fun i => match ts !! i with Some (Ret (Some r, _), _) => r | _ => 0 end).
  assert (Hacc : forall i, (i < N)%nat -> (exists b, ts !! i = Some (Ret (Some (rs i), cr_seen g' i), b)) /\
    accounted T key items i (rs i) (cr_seen g' i) m2 g' P D).
  { intros i Hlt. destruct (lookup_lt_is_Some_2 ts i) as [t Ht]; [lia|].
    destruct (Forall_lookup_1 _ _ _ _ Hj Ht) as (r & evs & b & ->). pose proof (Hleft i _ _ Ht) as Hl.
    apply threads_left in Hl. pose proof (proj2 (proj1 Hl)) as Hseen. unfold rs. rewrite Ht, Hseen.
    split; [by exists b|done]. }
  destruct (crowd_done rs m2 g' P D Hi' (fun i Hlt => proj2 (Hacc i Hlt))) as (Hrs & Hall & Hq).
  pose proof Hall as (_ & _ & Hperm & Hkeys & _).
  exists (map (cr_seen g') (seq 0 N)). split; [|split; [done|split; [done|split; [done|by eapply exit_ok]]]].
  apply list_eq. intros i. destruct (decide (i < N)%nat) as [Hlt|Hge].
  - destruct (Hacc i Hlt) as [[b Ht] _]. rewrite !list_lookup_fmap, Ht, lookup_seq_lt by done. cbn. by rewrite (Hrs i Hlt).
  - rewrite !lookup_ge_None_2; [done|rewrite ?length_map, ?length_seq; lia..].
Qed.
End together.

(** Some crowd of the threads of [T] is ready to start in memory [m], the counters left to it. *)
Definition crowd_ready `{K : Kernel} (T : crowd_test) cx (key : nat -> Z -> Z) items pa (quiet : mem -> Prop) (m : mem) : Prop :=
  let N := (ct_consumers T + ct_producers T)%nat in
  let E := counters cx (Z.of_nat (ct_producers T * items)) N in
  exists W answers quiet0 g inserts pops left, exists L : CrowdLaws W N [] answers quiet0,
    (cr_inv (m, g) /\ (forall i, (i < N)%nat -> cr_at i (inserts i) (pops i) [] (m, g)) /\
     cr_cells (cx_produced cx) /\ cr_cells (cx_consumed cx) /\ cr_cells (cx_expected cx)) /\
    (forall i s, (i < N)%nat ->
       x_at (W := W) cx (Z.of_nat (ct_producers T * items)) i (cr_at i (inserts i) (pops i) []) 0 0 s ->
       rg (l_rely E i) (l_guar E i) (ct_thread T pa i) (pa_budget pa i) s (fun x _ => left i x)) /\
    (forall i r evs m g P D, left i (Some r, evs) (m, (g, (P, D))) -> accounted T key items i r evs m g P D) /\
    (forall m g, all_counted T cx key items m g -> wpr (ct_exit T) m 0 (fun code _ _ => code = 0)) /\
    (forall m', quiet0 [] m' -> quiet m').

Lemma zsum_replicate n : zsum (replicate n 0) = 0.
Proof. by apply zsum_zero; intros i x [-> _]%lookup_replicate. Qed.

(** ** From the initialisation on *)

Lemma crowd_from_setup `{K : Kernel} T cx key items few quiet m :
  Z.of_nat (ct_producers T * items) < 2 ^ 64 -> (0 < ct_consumers T)%nat ->
  wpr (ct_setup T) m 0 (fun r m1 _ => r = 1 \/
    (r = 0 /\ (m1 !! cx_produced cx = Some 0 /\ m1 !! cx_consumed cx = Some 0 /\
       m1 !! cx_expected cx = Some (Z.of_nat (ct_producers T * items))) /\
     forall pa, few pa -> crowd_ready T cx key items pa quiet m1)) ->
  crowd_passes T key items few quiet m.
Proof.
  intros H64 HNC Hsetup. unfold crowd_passes. eapply wpr_mono; [exact Hsetup|]. clear Hsetup.
  intros r m1 b [->|(-> & (Z1 & Z2 & Z3) & Hready)]; [by left|right]. split; [done|].
  intros pa ts m3 Hfew Hs.
  destruct (Hready pa Hfew) as (W & answers & quiet0 & g & inserts & pops & left & L & (Hi & Hat & Hcells) & Hth & Hleft & Hexit & Hq).
  pose proof (counters_laws cr_cells cx (Z.of_nat (ct_producers T * items)) (ct_consumers T + ct_producers T) Hcells) as LE.
  assert (Hx : l_inv (counters cx (Z.of_nat (ct_producers T * items)) (ct_consumers T + ct_producers T))
    (m1, (g, (replicate (ct_consumers T + ct_producers T) 0, replicate (ct_consumers T + ct_producers T) 0)))).
  { split; [done|]. cbn. rewrite !zsum_replicate, !length_replicate. by split_and!. }
  destruct (crowd_threads_ok (L := L) T cx key items pa H64 HNC inserts pops left Hth Hleft Hexit m1 g ts m3 Hx Hat Hs) as [Hok Hend].
  split; [done|]. intros Hj. destruct (Hend Hj) as (evs & H1 & H2 & H3 & H4 & H5). exists evs. split_and!; auto.
Qed.

(** ** Tests of a container

    Their threads are those of [Usertest]. *)

(** Insertions and pops thread [i] may begin. *)
Definition inserts_of (T : crowd_test) (items : nat) (tries : nat -> nat) (pa : patience) (i : nat) : nat :=
  if decide (i < ct_consumers T)%nat then 0 else items * tries (pa_attempts pa i).
Definition pops_of (T : crowd_test) (pa : patience) (i : nat) : nat :=
  if decide (i < ct_consumers T)%nat then pa_attempts pa i else 0.

Section containers.
Context `{K : Kernel} {W : Crowd} {answers : event -> Prop} {quiet : list ds_kv -> mem -> Prop} {C : Container}.
Variables (T : crowd_test) (cx : test_ctx) (insert_again pop_again : Z -> bool) (key : nat -> Z -> Z) (items : nat)
  (tries : nat -> nat) (pa : patience).
Notation NC := (ct_consumers T).
Notation NP := (ct_producers T).
Notation N := (NC + NP)%nat.
Notation limit := (Z.of_nat (NP * items)).
Notation E := (counters cx limit N).
Context `{L : !CrowdLaws W N [] answers quiet} `{CO : !CrowdOps W C} `{LE : !LedgerLaws cr_cells E}.
Hypothesis clock_pure : forall m, snd (kcall ClockNs m) = m.
Hypothesis cells_apart : counters_apart cx.
Hypothesis no_check : cx_ordering_failures cx = None.
Hypothesis pops_answered : forall x r o, answers (EPop x r o) ->
  (r = DS_SUCCESS /\ is_Some o) \/ (r <> DS_SUCCESS /\ pop_again r = true).
Hypothesis consumers : forall turns junk, ct_consumer T turns junk = consumer_thread cx pop_again turns junk.
Hypothesis producers : forall tid polls, ct_producer T tid polls = producer_thread cx insert_again (key tid) items (tries polls).

Notation inserts := (inserts_of T items tries pa).
Notation pops := (pops_of T pa).

(** What thread [i] leaves. *)
Definition thread_left (i : nat) (x : status * list event) : mem * (cr_ghost * le_state E) -> Prop :=
  if decide (i < NC)%nat then
    drained (x_draining (W := W) cx limit (pops i) i) (fun _ => x_enough (W := W) cx limit) (pops i) [] x
  else supplied (x_supplying (W := W) cx limit (inserts i) i) insert_again (key (i - NC)) (tries (pa_attempts pa i)) items 0 [] x.

Lemma ct_thread_ok i s : x_at (W := W) cx limit i (cr_at i (inserts i) (pops i) []) 0 0 s ->
  rg (l_rely E i) (l_guar E i) (ct_thread T pa i) (pa_budget pa i) s (fun x _ => thread_left i x).
Proof.
  unfold ct_thread, thread_left, inserts_of, pops_of. intros Hs. destruct (decide (i < NC)%nat).
  - rewrite consumers. eapply rg_mono; [apply (x_drains cx limit cells_apart pop_again (pa_attempts pa i) i no_check
      pops_answered (pa_attempts pa i) (pa_junk pa i)); [done|lia|]|]; [|by intros x b s' [_ H]].
    exists (pa_attempts pa i). split; [done|exact Hs].
  - rewrite producers. eapply rg_mono; [apply (x_supplies cx limit cells_apart (items * tries (pa_attempts pa i)) i insert_again (key (i - NC)) items
      (tries (pa_attempts pa i)) clock_pure); [done|lia|]|]; [|by intros x b s' [_ H]].
    exists (items * tries (pa_attempts pa i))%nat. split; [done|exact Hs].
Qed.

Lemma thread_accounted i r evs m g P D :
  thread_left i (Some r, evs) (m, (g, (P, D))) -> accounted T key items i r evs m g P D.
Proof.
  unfold thread_left, accounted. destruct (decide (i < NC)%nat).
  - intros ((_ & Ha & Hr) & (n & _ & _ & Hat & Hv & _) & Hend). injection Hv as HP HD. cbn [fst snd app] in *.
    destruct Hr as [?|[= ->]]; [done|]. destruct (Hend eq_refl) as [_ Hge]. rewrite Ha.
    destruct (cr_at_ok _ _ _ _ _ _ Hat) as (_ & _ & Hseen & _). split; [split; [by eexists _, _|done]|].
    by split_and!.
  - intros (k & (_ & [_ Hp] & Hkeys & Hk & Hend) & n' & _ & _ & Hat & Hv & _). injection Hv as HP HD. cbn [fst snd app] in *.
    destruct (cr_at_ok _ _ _ _ _ _ Hat) as (_ & _ & Hseen & _). split; [split; [by eexists _, _|done]|].
    rewrite Hp. split.
    + split; [|done]. rewrite HP. unfold Zlen. by rewrite <- (length_map kv_key), Hkeys, keys_from_length.
    + exists k. split; [done|]. split; [done|]. destruct Hend as [[= ->]|]; auto.
Qed.
End containers.

Lemma container_ready `{K : Kernel} {C : Container} T cx insert_again pop_again key items tries pa quiet m
    W answers quiet0 g `{L : !CrowdLaws W (ct_consumers T + ct_producers T) [] answers quiet0} `{CO : !CrowdOps W C} :
  (forall m, snd (kcall ClockNs m) = m) -> counters_apart cx -> cx_ordering_failures cx = None ->
  (forall x r o, answers (EPop x r o) ->
     (r = DS_SUCCESS /\ is_Some o) \/ (r <> DS_SUCCESS /\ pop_again r = true)) ->
  (forall turns junk, ct_consumer T turns junk = consumer_thread cx pop_again turns junk) ->
  (forall tid polls, ct_producer T tid polls = producer_thread cx insert_again (key tid) items (tries polls)) ->
  ct_exit T = main_exit_of cx ->
  cr_inv (m, g) ->
  (forall i, (i < ct_consumers T + ct_producers T)%nat -> cr_at i (inserts_of T items tries pa i) (pops_of T pa i) [] (m, g)) ->
  cr_cells (cx_produced cx) /\ cr_cells (cx_consumed cx) /\ cr_cells (cx_expected cx) ->
  (forall m', quiet0 [] m' -> quiet m') ->
  crowd_ready T cx key items pa quiet m.
Proof.
  intros Hclock Hapart Hno Hans EC EP EX Hi Hat Hcells Hq.
  pose proof (counters_laws cr_cells cx (Z.of_nat (ct_producers T * items)) (ct_consumers T + ct_producers T) Hcells) as LE.
  exists W, answers, quiet0, g, (inserts_of T items tries pa), (pops_of T pa), (thread_left T cx insert_again key items tries pa), L.
  split; [done|]. split; [|split; [|split; [|done]]].
  - intros i s _. by apply (ct_thread_ok (answers := answers) (quiet := quiet0) T cx insert_again pop_again key items tries pa).
  - by apply (thread_accounted (answers := answers) (quiet := quiet0) T cx insert_again key items tries pa).
  - intros m' g' (_ & _ & _ & _ & E1 & E2 & E3). rewrite EX. by apply (exit_code cx _ _ E1 E2 E3); rewrite Hno.
Qed.

(** [expected] may be written before the threads start. *)
Lemma crowd_ready_write `{K : Kernel} T cx key items pa quiet v m :
  is_Some (m !! cx_expected cx) -> crowd_ready T cx key items pa quiet m ->
  crowd_ready T cx key items pa quiet (<[cx_expected cx:=v]> m).
Proof.
  intros Hsome (W & answers & quiet0 & g & inserts & pops & left & L & (Hi & Hat & Hcells) & Hth & Hleft & Hexit & Hq).
  pose proof (fun i => cr_write (CrowdLaws := L) i m g _ v Hi (proj2 (proj2 Hcells)) Hsome) as HR.
  exists W, answers, quiet0, g, inserts, pops, left, L. split; [|done]. split; [by eapply cr_rely_inv, (HR 0%nat)|].
  split; [|done]. intros i Hlt. eapply cr_at_stable; [by apply Hat|apply HR].
Qed.

(** [main] of such a test, up to the creation of the threads. *)
Lemma container_from_setup `{K : Kernel} {C : Container} T cx key items few quiet m :
  counters_apart cx -> Z.of_nat (ct_producers T * items) < 2 ^ 64 -> (0 < ct_consumers T)%nat ->
  ct_setup T = main_setup cx (Z.of_nat (ct_producers T * items)) ->
  wpr c_init m 0 (fun r m1 _ => ctx_zero cx m1 /\
    (r <> DS_SUCCESS \/ (r = DS_SUCCESS /\ forall pa, few pa -> crowd_ready T cx key items pa quiet m1))) ->
  crowd_passes T key items few quiet m.
Proof.
  intros (A1 & A2 & A3) H64 HNC ES Hinit. apply (crowd_from_setup T cx); [done|done|].
  unfold main_setup in ES. rewrite ES. apply wpr_bind. eapply wpr_mono; [exact Hinit|]. clear Hinit.
  intros r m1 b ((Z1 & Z2 & Z3 & _) & [Hr|[-> Hready]]).
  { destruct (Z.eqb_spec r DS_SUCCESS) as [|_]; [done|]. cbn [negb]. apply wpr_ret. by left. }
  rewrite Z.eqb_refl. cbn [negb]. eapply wpr_bind, wpr_store; [by eexists|]. apply wpr_ret. right. split; [done|].
  split; [by rewrite !lookup_insert_ne, lookup_insert_eq by done|].
  intros pa Hfew. apply crowd_ready_write; [by eexists|by apply Hready].
Qed.
