(* ===== verification/UsertestSpsc.v ===== *)
(** * The single-producer single-consumer tests of the userspace build.

    [usertest_folly_spsc.c], [usertest_ck_ring_spsc.c] and [usertest_ck_fifo_spsc.c] instantiate
    the drivers of [Usertest] with their structure, their [struct ctx] and their constants. The
    structure allocates from the test arena ([UsertestArena]). Whatever the interleaving, a test
    whose threads can be joined exits with 0 once it got through its initialisation; the FIFO's
    test cannot be joined if an allocation fails, since its consumer then waits forever. *)
From stdpp Require Import base numbers gmap list fin_maps option relations.
From S2P Require Import Prelude Machine Logic Api Owned Conc Container SoleAlloc UsertestArena Duet Spsc.
From S2P Require Import Ring FollySpsc CkRing SpscRings Linked CkFifo FifoConc Usertest.

Inductive spsc_test := TestFolly | TestCkRing | TestCkFifo.

Definition USERTEST_SPSC_SIZE : Z := 64.
Definition USERTEST_CK_RING_CAPACITY : Z := 2 ^ 6.

Section tests.
Context `{K : Kernel}.
(** The statics and the memory of the arena, and the address of [struct ctx c]. *)
Variables sym base bytes c : Z.

#[local] Instance test_arena : Allocator := usertest_allocator sym base bytes.

(** The structure [q] at the start of [struct ctx], its size and the counters behind it. *)
Definition test_container (t : spsc_test) : Container :=
  match t with
  | TestFolly => spsc_container USER c USERTEST_SPSC_SIZE
  | TestCkRing => ck_ring_container USER c 6
  | TestCkFifo => fifo_container USER c
  end.

Definition test_q_size (t : spsc_test) : Z := match t with TestFolly => 128 | TestCkRing => 24 | TestCkFifo => 32 end.

(** [struct ctx]. *)
Definition folly_ctx : test_ctx := mk_ctx (c + 128) (c + 136) None (c + 144).
Definition ck_ring_ctx : test_ctx := mk_ctx (c + 24) (c + 32) (Some (c + 40)) (c + 48).
Definition ck_fifo_ctx : test_ctx := mk_ctx (c + 32) (c + 40) (Some (c + 48)) (c + 56).

Definition test_ctx_of (t : spsc_test) : test_ctx :=
  match t with TestFolly => folly_ctx | TestCkRing => ck_ring_ctx | TestCkFifo => ck_fifo_ctx end.

(** *** The programs

    The refusals over which a producer tries again are a full ring, and none in the FIFO's test. *)

Definition spsc_key (i : Z) : Z := u64 (i + 1).

Definition folly_producer_thread (polls : nat) : prog (status * list event) :=
  producer_thread (C := spsc_container USER c USERTEST_SPSC_SIZE) folly_ctx (fun rc => rc =? DS_ERROR_FULL) spsc_key 2 polls.

Definition folly_consumer_thread (turns : nat) (junk : ds_kv) : prog (status * list event) :=
  consumer_thread (C := spsc_container USER c USERTEST_SPSC_SIZE) folly_ctx (fun rc => rc =? DS_ERROR_NOT_FOUND) turns junk.

Definition folly_main : user_test := {|
  ut_setup := main_setup (C := spsc_container USER c USERTEST_SPSC_SIZE) folly_ctx 2;
  ut_producer := folly_producer_thread;
  ut_consumer := folly_consumer_thread;
  ut_exit := main_exit_of folly_ctx
|}.

Definition ck_ring_producer_thread (polls : nat) : prog (status * list event) :=
  producer_thread (C := ck_ring_container USER c 6) ck_ring_ctx (fun rc => rc =? DS_ERROR_FULL) spsc_key 2 polls.

Definition ck_ring_consumer_thread (turns : nat) (junk : ds_kv) : prog (status * list event) :=
  consumer_thread (C := ck_ring_container USER c 6) ck_ring_ctx (fun rc => rc =? DS_ERROR_NOT_FOUND) turns junk.

Definition ck_ring_main : user_test := {|
  ut_setup := main_setup (C := ck_ring_container USER c 6) ck_ring_ctx 2;
  ut_producer := ck_ring_producer_thread;
  ut_consumer := ck_ring_consumer_thread;
  ut_exit := main_exit_of ck_ring_ctx
|}.

Definition ck_fifo_producer_thread (polls : nat) : prog (status * list event) :=
  producer_thread (C := fifo_container USER c) ck_fifo_ctx (fun _ => false) spsc_key 8 1.

Definition ck_fifo_consumer_thread (turns : nat) (junk : ds_kv) : prog (status * list event) :=
  consumer_thread (C := fifo_container USER c) ck_fifo_ctx (fun rc => rc =? DS_ERROR_NOT_FOUND) turns junk.

Definition ck_fifo_main : user_test := {|
  ut_setup := main_setup (C := fifo_container USER c) ck_fifo_ctx 8;
  ut_producer := ck_fifo_producer_thread;
  ut_consumer := ck_fifo_consumer_thread;
  ut_exit := main_exit_of ck_fifo_ctx
|}.

Definition test_main (t : spsc_test) : user_test :=
  match t with TestFolly => folly_main | TestCkRing => ck_ring_main | TestCkFifo => ck_fifo_main end.

(** [USERTEST_ITEMS_PER_PRODUCER], with the one producer all of them have. *)
Definition test_items (t : spsc_test) : nat := match t with TestFolly | TestCkRing => 2 | TestCkFifo => 8 end.

(** How often the producer of a test can try to insert an item, when it polls [polls] times. *)
Definition test_polls (t : spsc_test) (polls : nat) : nat :=
  match t with TestFolly | TestCkRing => polls | TestCkFifo => 1 end.

(** The drained structure. *)
Definition test_quiet (t : spsc_test) (m : mem) : Prop :=
  match t with
  | TestFolly => exists recs, ring_holds (spsc_repr c recs USERTEST_SPSC_SIZE) [] m
  | TestCkRing => exists sl, ring_holds (ck_ring_repr c sl 6) [] m
  | TestCkFifo => fifo_quiet c [] m
  end.

Definition test_block (t : spsc_test) : block := (c + test_q_size t, 32).

(** A zeroed [struct ctx] beside an arena from which nothing was taken yet. *)
Record test_start (t : spsc_test) (m : mem) : Prop := {
  ts_heap : heap_holds [(c, test_q_size t)] [test_block t] m;
  ts_ready : c_ready (Container := test_container t) m;
  ts_zero : ctx_zero (test_ctx_of t) m;
  ts_off : m !! usertest_arena_off sym = Some 0
}.

Hypothesis c_pos : 0 < c.
Hypothesis base_ok : 0 < base /\ base mod 8 = 0 /\ 0 <= bytes < 2 ^ 63.
Hypothesis sym_apart : sym + 24 <= base \/ base + bytes <= sym.

#[local] Instance test_arena_laws : AllocLaws test_arena := usertest_alloc_laws sym base bytes base_ok sym_apart.
#[local] Instance test_arena_sole : SoleAllocLaws test_arena (arena_room sym) := usertest_sole_laws sym base bytes base_ok sym_apart.

(** The counters, by the thread that writes them. *)
Definition producer_cell (t : spsc_test) (a : Z) : Prop := a = cx_produced (test_ctx_of t).

Definition consumer_cell (t : spsc_test) (a : Z) : Prop :=
  a = cx_consumed (test_ctx_of t) \/ a = cx_expected (test_ctx_of t) \/
  Some a = cx_ordering_failures (test_ctx_of t).

Lemma test_cells_apart t a : producer_cell t a -> ~ consumer_cell t a.
Proof.
  unfold producer_cell, consumer_cell. destruct t; cbn; intros -> [?|[?|?]]; try lia; try done;
    match goal with H : Some _ = Some _ |- _ => injection H; lia end.
Qed.

Lemma test_cells_in t a : producer_cell t a \/ consumer_cell t a -> in_live [test_block t] a.
Proof.
  intros H. apply in_live_cons. left. unfold producer_cell, consumer_cell, test_q_size in *.
  destruct t; cbn in *; destruct H as [->|[->|[->|H]]]; try addr; try done; injection H as ->; addr.
Qed.

Lemma test_apart t : ctx_apart (test_ctx_of t).
Proof. unfold ctx_apart. destruct t; cbn; lia. Qed.

(** Whoever leaves the counters' block alone leaves them at zero. *)
Lemma ctx_zero_frame t m m' :
  (forall a, in_live [test_block t] a -> m' !! a = m !! a) -> ctx_zero (test_ctx_of t) m ->
  ctx_zero (test_ctx_of t) m'.
Proof.
  intros Hs (Z1 & Z2 & Z3 & Z4). pose proof (fun a H => Hs a (test_cells_in t a H)) as Hc.
  unfold producer_cell, consumer_cell in Hc. unfold ctx_zero. rewrite !Hc by auto. split_and!; try done.
  destruct (cx_ordering_failures (test_ctx_of t)) as [cell|] eqn:E; [|done]. rewrite Hc; auto.
Qed.

(** Cells of the counters are no part of what the structure owns. *)
Lemma test_cells_outside t own m a :
  heap_holds own [test_block t] m -> producer_cell t a \/ consumer_cell t a -> ~ in_live own a.
Proof.
  intros [_ (_ & _ & Hd)%separated_app] Ha%test_cells_in Hl. by apply (Hd a).
Qed.

(** A duet with these cells, to start the test with. *)
Lemma test_ready_duet C t lim m (U : Duet) repr quiet0 d g quiet `{L : !DuetLaws U repr quiet0 d [] lim C C} :
  d_add d = fifo_add -> @du_pcells U = producer_cell t -> @du_ccells U = consumer_cell t ->
  du_producing [] (m, g) -> du_consuming [] (m, g) -> (forall m', quiet0 [] m' -> quiet m') ->
  test_ready C (test_ctx_of t) lim quiet m.
Proof.
  intros Hadd Hpc Hcc Hp Hc Hq. exists U, repr, quiet0, d, g, L. rewrite Hpc, Hcc.
  unfold producer_cell, consumer_cell. split_and!; auto.
  destruct (cx_ordering_failures (test_ctx_of t)); auto.
Qed.

Lemma folly_ready lim recs m :
  spsc_placed c recs USERTEST_SPSC_SIZE -> spsc_repr c recs USERTEST_SPSC_SIZE 0 [] m ->
  heap_holds (spsc_own c USERTEST_SPSC_SIZE recs) [test_block TestFolly] m ->
  test_ready (test_container TestFolly) (test_ctx_of TestFolly) lim (test_quiet TestFolly) m.
Proof.
  intros Hp Hr Hh. pose proof (fun a => test_cells_outside TestFolly _ _ a Hh) as Hout.
  pose (R := folly_ring c recs USERTEST_SPSC_SIZE (producer_cell TestFolly) (consumer_cell TestFolly)).
  assert (HL : DuetLaws (ring_duet (R := R) []) _ _ _ [] lim _ _)
    by (apply (folly_duet_laws c recs USERTEST_SPSC_SIZE Hp _ _ (test_cells_apart TestFolly) Hout USER USER)).
  destruct (ring_start (R := R) [] 0 m Hr) as [H1 H2].
  apply (test_ready_duet _ TestFolly lim m (ring_duet (R := R) []) _ _ _ (mk_view 0 [] []) _ (L := HL)); try done.
  intros m' Hq. by exists recs.
Qed.

Lemma ck_ring_ready lim sl m :
  ck_ring_placed c sl 6 -> ck_ring_repr c sl 6 0 [] m ->
  heap_holds (ck_ring_own c 6 sl) [test_block TestCkRing] m ->
  test_ready (test_container TestCkRing) (test_ctx_of TestCkRing) lim (test_quiet TestCkRing) m.
Proof.
  intros Hp Hr Hh. pose proof (fun a => test_cells_outside TestCkRing _ _ a Hh) as Hout.
  pose (R := ck_ring c sl 6 (producer_cell TestCkRing) (consumer_cell TestCkRing)).
  assert (HL : DuetLaws (ring_duet (R := R) []) _ _ _ [] lim _ _)
    by (apply (ck_duet_laws c sl 6 Hp _ _ (test_cells_apart TestCkRing) Hout USER USER)).
  destruct (ring_start (R := R) [] 0 m Hr) as [H1 H2].
  apply (test_ready_duet _ TestCkRing lim m (ring_duet (R := R) []) _ _ _ (mk_view 0 [] []) _ (L := HL)); try done.
  intros m' Hq. by exists sl.
Qed.

Lemma fifo_ready lim stub m :
  fifo_repr c [] stub [] [] m -> heap_holds (fifo_own c [] stub []) [test_block TestCkFifo] m ->
  arena_room sym 32 lim m ->
  test_ready (test_container TestCkFifo) (test_ctx_of TestCkFifo) lim (test_quiet TestCkFifo) m.
Proof.
  intros Hr Hh Hroom.
  destruct (fifo_start c [test_block TestCkFifo] [] lim [] stub [] m Hr Hh Hroom) as (g & H1 & H2).
  pose proof (fifo_duet_laws c [test_block TestCkFifo] [] lim (producer_cell TestCkFifo) (consumer_cell TestCkFifo)
    c_pos (test_cells_in TestCkFifo) (test_cells_apart TestCkFifo) USER USER) as HL.
  apply (test_ready_duet _ TestCkFifo lim m (fifo_duet c _ [] lim (producer_cell _) (consumer_cell _)) _ _ _ g _ (L := HL));
    try done.
  cbn. by rewrite Nat.sub_0_r.
Qed.

(** After the initialisation: it failed, or the threads can start; the counters are still zero. *)
Lemma test_init t polls m : test_start t m ->
  wpr (c_init (Container := test_container t)) m 0 (fun r m1 _ => ctx_zero (test_ctx_of t) m1 /\
    (r <> DS_SUCCESS \/ (r = DS_SUCCESS /\
       test_ready (test_container t) (test_ctx_of t) (test_items t * test_polls t polls) (test_quiet t) m1))).
Proof.
  intros [Hh Hr Hz Ho].
  assert (Hroom : forall sz n, sz * Z.of_nat n < 2 ^ 64 -> arena_room sym sz n m)
    by (intros sz n Hn; exists 0; split; [done|lia]).
  destruct t; cbn [test_container c_init spsc_container ck_ring_container fifo_container] in *.
  - eapply wpr_mono; [apply (spsc_init_ok c USERTEST_SPSC_SIZE USER _ _ _ Hh Hr); [done|by apply Hroom]|].
    intros r m1 b (_ & Hs & [(-> & _)|(-> & recs & Hp & Hrepr & Hh1)]);
      (split; [by eapply ctx_zero_frame|]); [by left|right]. split; [done|]. by eapply folly_ready.
  - eapply wpr_mono; [apply (ck_ring_init_ok c 6 c_pos USER _ _ _ Hh Hr); [done|by apply Hroom]|].
    intros r m1 b (_ & Hs & [(-> & _)|(-> & sl & Hp & Hrepr & Hh1)]);
      (split; [by eapply ctx_zero_frame|]); [by left|right]. split; [done|]. by eapply ck_ring_ready.
  - eapply wpr_mono; [apply (fifo_init_leaves (arena_room sym) c USER _ 8 _ _ c_pos Hh Hr); by apply Hroom|].
    intros r m1 b (_ & Hs & [-> |(-> & stub & Hh1 & Hrepr & Hroom1)]);
      (split; [by eapply ctx_zero_frame|]); [by left|right]. split; [done|]. by eapply fifo_ready.
Qed.

(** C26. The three tests pass: from a zeroed [struct ctx], for every number of attempts the
    polling threads are given, in every interleaving, no access faults, and once both threads
    can be joined the consumer took exactly the pairs the producer inserted, in order, and the
    exit code is 0; only a refused initialisation makes it 1. *)
Theorem spsc_tests_pass t polls turns junk m :
  (forall m, snd (kcall ClockNs m) = m) -> test_start t m ->
  test_passes (test_main t) spsc_key (test_items t) polls turns junk (test_quiet t) m.
Proof.
  intros Hclock Hs.
  apply (test_from_setup (C := test_container t) _ (test_ctx_of t)
    (match t with TestFolly | TestCkRing => fun rc => rc =? DS_ERROR_FULL | TestCkFifo => fun _ => false end)
    (fun rc => rc =? DS_ERROR_NOT_FOUND) _ polls (test_polls t polls));
    [done|apply test_apart|by destruct t|done|by destruct t..|by apply test_init].
Qed.
End tests.
