(* ===== verification/MsQueue.v ===== *)
(** * The Michael-Scott queue ([include/ds_msqueue.h]). *)
From stdpp Require Import base numbers gmap list fin_maps option strings.
From S2P Require Import Prelude Machine Logic Api Arena Owned Container Ring Linked.

(** ** Layout of [struct ds_msqueue] and [struct ds_msqueue_elem] (a [struct ds_msqueue_node]
    followed by the pair) *)

Module Msqueue.
Definition head (queue : Z) : Z := queue + 0.
Definition tail (queue : Z) : Z := queue + 8.
Definition count (queue : Z) : Z := queue + 16.
Definition sizeof : Z := 24.
End Msqueue.

Module MsqueueElem.
Definition node_next (elem : Z) : Z := elem + 0.
Definition data_key (elem : Z) : Z := elem + 8.
Definition data_value (elem : Z) : Z := elem + 16.
Definition sizeof : Z := 24.
Definition node_sizeof : Z := 8.
End MsqueueElem.

#[export] Hint Unfold Msqueue.head Msqueue.tail Msqueue.count Msqueue.sizeof
  MsqueueElem.node_next MsqueueElem.data_key MsqueueElem.data_value MsqueueElem.sizeof : layout.

Import Msqueue MsqueueElem.

(** [__msqueue_list_entry(ptr, struct ds_msqueue_elem, node)] and [&elem->node] *)
Definition msqueue_list_entry (ptr : Z) : Z := arena_container_of ptr 0.
Definition elem_node (elem : Z) : Z := elem + 0.

Definition MSQUEUE_MAX_RETRIES : nat := 10.
Definition MSQUEUE_MAX_ITERATIONS : Z := 100000.
Definition MSQUEUE_ITERATE_MAX : Z := 10.

Section operations.
Context `{Al : Allocator}.

Definition ds_msqueue_init_lkmm (queue : Z) : prog Z :=
  if queue =? 0 then Ret DS_ERROR_INVALID else
  dummy ← bpf_arena_alloc MsqueueElem.sizeof;
  if dummy =? 0 then Ret DS_ERROR_NOMEM else
  WRITE_ONCE (node_next dummy) 0;;
  WRITE_ONCE (data_key dummy) 420;;
  WRITE_ONCE (data_value dummy) 69;;
  store Plain (head queue) dummy;;
  store Plain (tail queue) dummy;;
  store Plain (count queue) 0;;
  Ret DS_SUCCESS.

Definition ds_msqueue_init_c (queue : Z) : prog Z :=
  if queue =? 0 then Ret DS_ERROR_INVALID else
  dummy ← bpf_arena_alloc MsqueueElem.sizeof;
  if dummy =? 0 then Ret DS_ERROR_NOMEM else
  arena_atomic_store (node_next dummy) 0 Relaxed;;
  arena_atomic_store (data_key dummy) 420 Relaxed;;
  arena_atomic_store (data_value dummy) 69 Relaxed;;
  store Plain (head queue) dummy;;
  store Plain (tail queue) dummy;;
  store Plain (count queue) 0;;
  Ret DS_SUCCESS.

Definition ds_msqueue_init (s : side) (queue : Z) : prog Z :=
  match s with
  | BPF => ds_msqueue_init_lkmm queue
  | USER => ds_msqueue_init_c queue
  end.

(** [junk] is the content of the local [tail], which the code leaves uninitialised until the
    loop's first turn. The loop answers its [retry_count] and [tail]. *)
Definition __msqueue_add_node_lkmm (junk new_node queue : Z) : prog Z :=
  r ← loop (S MSQUEUE_MAX_RETRIES) (fun '(retry_count, t) =>
    if (retry_count <? MSQUEUE_MAX_RETRIES)%nat then
      c ← can_loop;
      if (c : bool) then
        t ← READ_ONCE (tail queue);
        nxt ← READ_ONCE (node_next t);
        if negb (nxt =? 0) then
          let next_elem := msqueue_list_entry nxt in
          _ ← arena_atomic_cmpxchg (tail queue) t next_elem Release Relaxed;
          continue (S retry_count, t)
        else
          observed ← arena_atomic_cmpxchg (node_next t) nxt (elem_node new_node) Release Relaxed;
          if observed =? nxt then break (retry_count, t) else continue (S retry_count, t)
      else break (retry_count, t)
    else break (retry_count, t)) (0%nat, junk);
  let '(retry_count, t) := r in
  if (MSQUEUE_MAX_RETRIES <=? retry_count)%nat then Ret DS_ERROR_INVALID else
  _ ← arena_atomic_inc (count queue);
  observed ← arena_atomic_cmpxchg (tail queue) t new_node Release Relaxed;
  if negb (observed =? t) then Ret DS_SUCCESS else Ret DS_SUCCESS.

Definition __msqueue_add_node_c (junk new_node queue : Z) : prog Z :=
  r ← loop (S MSQUEUE_MAX_RETRIES) (fun '(retry_count, t) =>
    if (retry_count <? MSQUEUE_MAX_RETRIES)%nat then
      t ← arena_atomic_load (tail queue) Acquire;
      nxt ← arena_atomic_load (node_next t) Acquire;
      if negb (nxt =? 0) then
        let next_elem := msqueue_list_entry nxt in
        _ ← arena_atomic_cmpxchg (tail queue) t next_elem Release Relaxed;
        continue (S retry_count, t)
      else
        observed ← arena_atomic_cmpxchg (node_next t) nxt (elem_node new_node) Release Relaxed;
        if observed =? nxt then break (retry_count, t) else continue (S retry_count, t)
    else break (retry_count, t)) (0%nat, junk);
  let '(retry_count, t) := r in
  if (MSQUEUE_MAX_RETRIES <=? retry_count)%nat then Ret DS_ERROR_INVALID else
  _ ← arena_atomic_inc (count queue);
  observed ← arena_atomic_cmpxchg (tail queue) t new_node Release Relaxed;
  if negb (observed =? t) then Ret DS_SUCCESS else Ret DS_SUCCESS.

Definition ds_msqueue_insert_lkmm (junk queue key value : Z) : prog Z :=
  if queue =? 0 then Ret DS_ERROR_INVALID else
  new_node ← bpf_arena_alloc MsqueueElem.sizeof;
  if new_node =? 0 then Ret DS_ERROR_NOMEM else
  store Plain (data_key new_node) key;;
  store Plain (data_value new_node) value;;
  store Plain (node_next new_node) 0;;
  r ← __msqueue_add_node_lkmm junk new_node queue;
  if r =? DS_SUCCESS then Ret DS_SUCCESS
  else bpf_arena_free new_node;; Ret DS_ERROR_INVALID.

Definition ds_msqueue_insert_c (junk queue key value : Z) : prog Z :=
  if queue =? 0 then Ret DS_ERROR_INVALID else
  new_node ← bpf_arena_alloc MsqueueElem.sizeof;
  if new_node =? 0 then Ret DS_ERROR_NOMEM else
  store Plain (data_key new_node) key;;
  store Plain (data_value new_node) value;;
  store Plain (node_next new_node) 0;;
  r ← __msqueue_add_node_c junk new_node queue;
  if r =? DS_SUCCESS then Ret DS_SUCCESS
  else bpf_arena_free new_node;; Ret DS_ERROR_INVALID.

Definition ds_msqueue_insert (s : side) (junk queue key value : Z) : prog Z :=
  match s with
  | BPF => ds_msqueue_insert_lkmm junk queue key value
  | USER => ds_msqueue_insert_c junk queue key value
  end.

(** [data] is the caller's output pair, [None] for the null pointer. It is overwritten before
    the head is swung, so a failed attempt leaves its trace in it. *)
Definition ds_msqueue_pop_lkmm (queue : Z) (data : option ds_kv) : prog (Z * option ds_kv) :=
  match data with
  | None => Ret (DS_ERROR_INVALID, data)
  | Some _ =>
      if queue =? 0 then Ret (DS_ERROR_INVALID, data) else
      loop (S MSQUEUE_MAX_RETRIES) (fun '(retry_count, data) =>
        if (retry_count <? MSQUEUE_MAX_RETRIES)%nat then
          c ← can_loop;
          if (c : bool) then
            hd ← READ_ONCE (head queue);
            t ← READ_ONCE (tail queue);
            nxt ← READ_ONCE (node_next hd);
            hd' ← READ_ONCE (head queue);
            if negb (hd' =? hd) then continue (S retry_count, data)
            else if nxt =? 0 then break (DS_ERROR_NOT_FOUND, data)
            else if hd =? t then
              let next_elem_tail := msqueue_list_entry nxt in
              _ ← arena_atomic_cmpxchg (tail queue) t next_elem_tail Release Relaxed;
              continue (S retry_count, data)
            else
              let next_elem := msqueue_list_entry nxt in
              k ← load Plain (data_key next_elem);
              v ← load Plain (data_value next_elem);
              let data := Some (mk_kv k v) in
              observed ← arena_atomic_cmpxchg (head queue) hd next_elem Relaxed Relaxed;
              if observed =? hd then
                bpf_arena_free hd;;
                _ ← arena_atomic_dec (count queue);
                break (DS_SUCCESS, data)
              else continue (S retry_count, data)
          else break (DS_ERROR_INVALID, data)
        else break (DS_ERROR_INVALID, data)) (0%nat, data)
  end.

Definition ds_msqueue_pop_c (queue : Z) (data : option ds_kv) : prog (Z * option ds_kv) :=
  match data with
  | None => Ret (DS_ERROR_INVALID, data)
  | Some _ =>
      if queue =? 0 then Ret (DS_ERROR_INVALID, data) else
      loop (S MSQUEUE_MAX_RETRIES) (fun '(retry_count, data) =>
        if (retry_count <? MSQUEUE_MAX_RETRIES)%nat then
          hd ← arena_atomic_load (head queue) Acquire;
          t ← arena_atomic_load (tail queue) Acquire;
          if (hd =? 0) || (t =? 0) then break (DS_ERROR_INVALID, data) else
          nxt ← arena_atomic_load (node_next hd) Acquire;
          hd' ← arena_atomic_load (head queue) Acquire;
          if negb (hd' =? hd) then continue (S retry_count, data)
          else if nxt =? 0 then break (DS_ERROR_NOT_FOUND, data)
          else if hd =? t then
            let next_elem_tail := msqueue_list_entry nxt in
            if next_elem_tail =? 0 then break (DS_ERROR_INVALID, data) else
            _ ← arena_atomic_cmpxchg (tail queue) t next_elem_tail Release Relaxed;
            continue (S retry_count, data)
          else
            let next_elem := msqueue_list_entry nxt in
            if next_elem =? 0 then break (DS_ERROR_INVALID, data) else
            k ← load Plain (data_key next_elem);
            v ← load Plain (data_value next_elem);
            let data := Some (mk_kv k v) in
            observed ← arena_atomic_cmpxchg (head queue) hd next_elem Acquire Relaxed;
            if observed =? hd then
              bpf_arena_free hd;;
              _ ← arena_atomic_dec (count queue);
              break (DS_SUCCESS, data)
            else continue (S retry_count, data)
        else break (DS_ERROR_INVALID, data)) (0%nat, data)
  end.

Definition ds_msqueue_pop (s : side) (queue : Z) (data : option ds_kv) : prog (Z * option ds_kv) :=
  match s with
  | BPF => ds_msqueue_pop_lkmm queue data
  | USER => ds_msqueue_pop_c queue data
  end.
End operations.

Definition ds_msqueue_search_lkmm (queue key : Z) : prog Z :=
  if queue =? 0 then Ret DS_ERROR_INVALID else
  hd ← load Plain (head queue);
  nxt ← load Plain (node_next hd);
  loop (S (Z.to_nat MSQUEUE_MAX_ITERATIONS)) (fun '(nxt, n) =>
    if negb (nxt =? 0) && (n <? MSQUEUE_MAX_ITERATIONS) then
      c ← can_loop;
      if (c : bool) then
        let node := msqueue_list_entry nxt in
        k ← load Plain (data_key node);
        if k =? key then break DS_SUCCESS else
        nxt ← READ_ONCE (node_next node);
        continue (nxt, n + 1)
      else break DS_ERROR_NOT_FOUND
    else break DS_ERROR_NOT_FOUND) (nxt, 0).

Definition ds_msqueue_search_c (queue key : Z) : prog Z :=
  if queue =? 0 then Ret DS_ERROR_INVALID else
  hd ← load Plain (head queue);
  nxt ← load Plain (node_next hd);
  loop (S (Z.to_nat MSQUEUE_MAX_ITERATIONS)) (fun '(nxt, n) =>
    if negb (nxt =? 0) && (n <? MSQUEUE_MAX_ITERATIONS) then
      let node := msqueue_list_entry nxt in
      k ← load Plain (data_key node);
      if k =? key then break DS_SUCCESS else
      nxt ← arena_atomic_load (node_next node) Acquire;
      continue (nxt, n + 1)
    else break DS_ERROR_NOT_FOUND) (nxt, 0).

Definition ds_msqueue_search (s : side) (queue key : Z) : prog Z :=
  match s with
  | BPF => ds_msqueue_search_lkmm queue key
  | USER => ds_msqueue_search_c queue key
  end.

(** The verdict after the walk: [count] nodes were counted and [found_tail] says whether the tail
    was among them. *)
Definition msqueue_verdict (found_tail : bool) (count recorded : Z) : Z :=
  let count := if count >? 0 then count - 1 else count in
  if negb found_tail then DS_ERROR_CORRUPT * 2 else
  if (count >? u64 (recorded + 100)) || (recorded >? u64 (count + 100)) then DS_ERROR_CORRUPT * 3 else
  if count >=? MSQUEUE_MAX_ITERATIONS then DS_ERROR_CORRUPT * 4 else DS_SUCCESS.

Definition ds_msqueue_verify_lkmm (queue : Z) : prog Z :=
  if queue =? 0 then Ret DS_ERROR_INVALID else
  hd ← load Plain (head queue);
  t ← load Plain (tail queue);
  if (hd =? 0) || (t =? 0) then Ret (DS_ERROR_CORRUPT * 5) else
  node_ptr ← READ_ONCE (node_next hd);
  if (hd =? t) && (node_ptr =? 0) then Ret DS_SUCCESS else
  r ← loop (S (S (Z.to_nat MSQUEUE_MAX_ITERATIONS))) (fun '(node, n, found_tail) =>
    if negb (node =? 0) && (n <? MSQUEUE_MAX_ITERATIONS) then
      c ← can_loop;
      if (c : bool) then
        let found_tail := found_tail || (node =? t) in
        node_ptr ← READ_ONCE (node_next node);
        let node := if negb (node_ptr =? 0) then msqueue_list_entry node_ptr else 0 in
        let n := if (n >? 0) || negb (node =? 0) then n + 1 else n in
        continue (node, n, found_tail)
      else break (found_tail, n)
    else break (found_tail, n)) (msqueue_list_entry node_ptr, 0, false);
  let '(found_tail, n) := r in
  if negb (found_tail : bool) then Ret (msqueue_verdict found_tail n 0) else
  recorded ← load Plain (count queue);
  Ret (msqueue_verdict found_tail n recorded).

Definition ds_msqueue_verify_c (queue : Z) : prog Z :=
  if queue =? 0 then Ret DS_ERROR_INVALID else
  hd ← load Plain (head queue);
  t ← load Plain (tail queue);
  if (hd =? 0) || (t =? 0) then Ret (DS_ERROR_CORRUPT * 5) else
  node_ptr ← arena_atomic_load (node_next hd) Acquire;
  if (hd =? t) && (node_ptr =? 0) then Ret DS_SUCCESS else
  r ← loop (S (S (Z.to_nat MSQUEUE_MAX_ITERATIONS))) (fun '(node, n, found_tail) =>
    if negb (node =? 0) && (n <? MSQUEUE_MAX_ITERATIONS) then
      let found_tail := found_tail || (node =? t) in
      node_ptr ← arena_atomic_load (node_next node) Acquire;
      let node := if negb (node_ptr =? 0) then msqueue_list_entry node_ptr else 0 in
      let n := if (n >? 0) || negb (node =? 0) then n + 1 else n in
      continue (node, n, found_tail)
    else break (found_tail, n)) (msqueue_list_entry node_ptr, 0, false);
  let '(found_tail, n) := r in
  if negb (found_tail : bool) then Ret (msqueue_verdict found_tail n 0) else
  recorded ← load Plain (count queue);
  Ret (msqueue_verdict found_tail n recorded).

Definition ds_msqueue_verify (s : side) (queue : Z) : prog Z :=
  match s with
  | BPF => ds_msqueue_verify_lkmm queue
  | USER => ds_msqueue_verify_c queue
  end.

Definition ds_msqueue_get_metadata : ds_metadata := {|
  md_name := "msqueue";
  md_description := "Michael-Scott Non-Blocking FIFO Queue";
  md_node_size := MsqueueElem.node_sizeof;
  md_requires_locking := 0
|}.

(** The callback and its context: [fn key value ctx] answers its result and the new context.
    [None] is the null function pointer. *)
Section iterate.
Context {Ctx : Type}.

Definition ds_msqueue_iter_fn : Type := Z -> Z -> Ctx -> Z * Ctx.

Definition ds_msqueue_iterate_lkmm (queue : Z) (fn : option ds_msqueue_iter_fn) (ctx : Ctx)
  : prog (Z * Ctx) :=
  match fn with
  | None => Ret (0, ctx)
  | Some fn =>
      if queue =? 0 then Ret (0, ctx) else
      hd ← load Plain (head queue);
      node_ptr ← load Plain (node_next hd);
      if node_ptr =? 0 then Ret (0, ctx) else
      loop (S (Z.to_nat MSQUEUE_ITERATE_MAX)) (fun '(node, visited, ctx) =>
        if negb (node =? 0) && (visited <? MSQUEUE_ITERATE_MAX) then
          c ← can_loop;
          if (c : bool) then
            k ← load Plain (data_key node);
            v ← load Plain (data_value node);
            let '(result, ctx) := fn k v ctx in
            if negb (result =? 0) then break (visited, ctx) else
            nxt ← READ_ONCE (node_next node);
            let node := if negb (nxt =? 0) then msqueue_list_entry nxt else 0 in
            continue (node, visited + 1, ctx)
          else break (visited, ctx)
        else break (visited, ctx)) (msqueue_list_entry node_ptr, 0, ctx)
  end.

Definition ds_msqueue_iterate_c (queue : Z) (fn : option ds_msqueue_iter_fn) (ctx : Ctx)
  : prog (Z * Ctx) :=
  match fn with
  | None => Ret (0, ctx)
  | Some fn =>
      if queue =? 0 then Ret (0, ctx) else
      hd ← load Plain (head queue);
      node_ptr ← load Plain (node_next hd);
      if node_ptr =? 0 then Ret (0, ctx) else
      loop (S (Z.to_nat MSQUEUE_ITERATE_MAX)) (fun '(node, visited, ctx) =>
        if negb (node =? 0) && (visited <? MSQUEUE_ITERATE_MAX) then
          k ← load Plain (data_key node);
          v ← load Plain (data_value node);
          let '(result, ctx) := fn k v ctx in
          if negb (result =? 0) then break (visited, ctx) else
          nxt ← arena_atomic_load (node_next node) Acquire;
          let node := if negb (nxt =? 0) then msqueue_list_entry nxt else 0 in
          continue (node, visited + 1, ctx)
        else break (visited, ctx)) (msqueue_list_entry node_ptr, 0, ctx)
  end.

Definition ds_msqueue_iterate (s : side) (queue : Z) (fn : option ds_msqueue_iter_fn) (ctx : Ctx)
  : prog (Z * Ctx) :=
  match s with
  | BPF => ds_msqueue_iterate_lkmm queue fn ctx
  | USER => ds_msqueue_iterate_c queue fn ctx
  end.
End iterate.

#[export] Hint Unfold msqueue_list_entry elem_node arena_container_of : layout.

Lemma msq_layout : layout_ok 0 8 16 24.
Proof. unfold layout_ok. lia. Qed.

Lemma list_entry_id p : msqueue_list_entry p = p.
Proof. addr. Qed.

Lemma elem_node_id p : elem_node p = p.
Proof. addr. Qed.

(** ** Representation: a chain of elements from [head], the first one a dummy whose pair is no
    longer (or never was) queued. [tail] points to the last element, or to the one before it
    when [lag] holds: an insertion that has linked its element but not yet swung the tail. *)
Section spec.
Context `{K : Kernel} `{Al : Allocator} `{!AllocLaws Al} `{!FreeLaws Al}.
Variable q : Z.
Hypothesis q_pos : 0 < q.
Hypothesis free_ready : forall p m, in_arena p -> free_pre p m.

Notation elems m p ns l := (chain 0 8 16 m p ns l 0).

Definition msq_own (ns : list Z) : list block := (q, 24) :: node_blocks 24 ns.

Record msq_repr (ns : list Z) (l : list ds_kv) (lag : bool) (m : mem) : Prop := {
  mq_head : m !! head q = Some (List.hd 0 ns);
  mq_tail : exists pre t suf, ns = pre ++ t :: suf /\ m !! tail q = Some t /\
              length suf = if lag then 1%nat else 0%nat;
  mq_count : m !! count q = Some (u64 (Zlen l));
  mq_chain : exists k0, elems m (List.hd 0 ns) ns (k0 :: l);
  mq_arena : Forall in_arena ns;
  mq_sep : separated (msq_own ns)
}.

Lemma msq_apart ns a : separated (msq_own ns) -> in_block q 24 a ->
  ~ in_live (node_blocks 24 ns) a.
Proof. intros [Hd _] Ha. by apply Hd. Qed.

Lemma msq_chain_frame ns p l r m a v :
  separated (msq_own ns) -> in_block q 24 a -> chain 0 8 16 m p ns l r ->
  chain 0 8 16 (<[a:=v]> m) p ns l r.
Proof. intros Hs Ha. eapply chain_frame_ins; [apply msq_layout|by apply msq_apart]. Qed.

Lemma msq_repr_frame ns l lag m m' :
  (forall a, in_live (msq_own ns) a -> m' !! a = m !! a) ->
  msq_repr ns l lag m -> msq_repr ns l lag m'.
Proof.
  intros Hf [E1 (pre & t & suf & Ens & E2 & Hlag) E3 [k0 Hc] Har Hs].
  assert (Hh : forall a, in_block q 24 a -> m' !! a = m !! a)
    by (intros a Ha; apply Hf, in_live_cons; by left).
  split; try (rewrite Hh by addr; done); try done.
  - exists pre, t, suf. by rewrite Hh by addr.
  - exists k0. eapply chain_frame; [apply msq_layout| |exact Hc].
    intros a Ha. apply Hf, in_live_cons. by right.
Qed.

(** The links around the tail: it is the last element, or it links to the last one. *)
Lemma msq_tail_links ns l lag m :
  msq_repr ns l lag m -> exists t nxt, m !! tail q = Some t /\ m !! node_next t = Some nxt /\
    t ∈ ns /\ 0 < t /\
    if lag then nxt = List.last ns 0 /\ 0 < nxt /\ nxt <> t
    else nxt = 0 /\ t = List.last ns 0.
Proof.
  intros [E1 (pre & t & suf & Ens & E2 & Hlag) E3 [k0 Hc] Har Hs].
  assert (Hnd : NoDup ns).
  { destruct Hs as [_ Hs]. rewrite <- (app_nil_r (node_blocks _ _)) in Hs.
    by apply (separated_nodup _ _ _ _ msq_layout) in Hs. }
  pose proof (chain_length _ _ _ _ _ _ _ _ Hc) as Hlen. subst ns.
  rewrite length_app in Hlen. rewrite <- (take_drop (length pre) (k0 :: l)) in Hc.
  apply chain_app in Hc as (r & _ & Hc); [|rewrite length_take; cbn [length] in *; lia].
  destruct (drop (length pre) (k0 :: l)) as [|e l'] eqn:Ed; [done|].
  destruct Hc as (-> & Ht & _ & _ & nxt & Hnx & Hc). exists t, nxt.
  split; [done|]. split; [done|]. split; [apply elem_of_app; right; left|]. split; [done|].
  destruct lag.
  - destruct suf as [|z [|]]; try done. destruct l' as [|ez l']; [done|].
    destruct Hc as (-> & Hz & _). rewrite last_app_ne by done. cbn. split; [done|]. split; [done|].
    intros ->. apply NoDup_app in Hnd as (_ & _ & Hnd). apply NoDup_cons in Hnd as [Hnd _].
    apply Hnd. left.
  - destruct suf; [|done]. destruct l'; [|done]. cbn in Hc. subst nxt.
    by rewrite last_app_ne by done.
Qed.

Lemma msq_nonempty ns l lag m : msq_repr ns l lag m -> ns <> [].
Proof. intros [_ (pre & t & suf & -> & _) _ _ _ _]. by destruct pre. Qed.

(** Helping: swinging a lagging tail. *)
Lemma msq_repr_swing ns l m lag :
  msq_repr ns l lag m -> msq_repr ns l false (<[tail q:=List.last ns 0]> m).
Proof.
  intros Hr. pose proof (msq_nonempty _ _ _ _ Hr) as Hne.
  destruct Hr as [E1 _ E3 [k0 Hc] Har Hs]. split; try mlook; try done.
  - exists (removelast ns), (List.last ns 0), []. split; [by apply app_removelast_last|].
    split; [mlook|done].
  - exists k0. apply msq_chain_frame; [done|addr|done].
Qed.

(** Linking the element [a] behind the last one and counting it; the tail still lags. *)
Definition after_link (a t n : Z) (m : mem) : mem :=
  <[tail q:=a]> (<[count q:=u64 (n + 1)]> (<[node_next t:=a]> m)).

Lemma msq_own_snoc ns a : msq_own (ns ++ [a]) ≡ₚ (a, 24) :: msq_own ns.
Proof.
  unfold msq_own. rewrite node_blocks_app.
  rewrite (Permutation_app_comm _ (node_blocks 24 [a])). apply perm_swap.
Qed.

Lemma msq_repr_link ns l a e m :
  msq_repr ns l false m -> 0 < a -> in_arena a -> disjoint_block a 24 (msq_own ns) ->
  m !! data_key a = Some (kv_key e) -> m !! data_value a = Some (kv_value e) ->
  m !! node_next a = Some 0 ->
  msq_repr (ns ++ [a]) (l ++ [e]) false (after_link a (List.last ns 0) (u64 (Zlen l)) m).
Proof.
  intros Hr Ha Hin Hd Hk Hv Hn. pose proof (msq_nonempty _ _ _ _ Hr) as Hne.
  pose proof Hr as [E1 _ E3 [k0 Hc] Har Hs].
  set (t := List.last ns 0) in *. assert (Ht : t ∈ ns) by (by apply last_elem).
  assert (Hsep : q + 24 <= a \/ a + 24 <= q)
    by (eapply (disjoint_block_sep a 24 q 24); [exact Hd|left|lia|lia]).
  assert (Hblk : forall c, in_block a 24 c -> ~ in_live (node_blocks 24 ns) c).
  { intros c Hcb Hl. apply (Hd c Hcb), in_live_cons. by right. }
  assert (Htq : ~ in_block q 24 (node_next t)).
  { intros Hb. eapply msq_apart; [exact Hs|exact Hb|]. by apply (node_in 24); [|addr]. }
  assert (Hs' : separated (msq_own (ns ++ [a])))
    by (eapply separated_perm; [symmetry; apply msq_own_snoc|]; by split).
  assert (Hhd : List.hd 0 (ns ++ [a]) = List.hd 0 ns) by (by destruct ns).
  unfold after_link, in_block in *. split; try (rewrite Hhd; mlook); try done.
  - exists ns, a, []. split; [done|]. split; [mlook|done].
  - rewrite u64_add_l, Zlen_snoc. mlook.
  - exists k0. rewrite Hhd, app_comm_cons. apply msq_chain_frame; [done|addr|].
    apply msq_chain_frame; [done|addr|]. unfold node_next at 1.
    apply (chain_append 0 8 16 24 msq_layout); try done.
    + by destruct Hs as [_ Hs].
    + apply Hblk. addr.
    + apply Hblk. addr.
    + apply Hblk. addr.
  - apply Forall_app. by split; [|apply Forall_singleton].
Qed.

Lemma msq_node_apart ns l lag m t x :
  msq_repr ns l lag m -> t ∈ ns -> 0 <= x < 24 -> ~ in_block q 24 (t + x).
Proof.
  intros [_ _ _ _ _ Hs] Ht Hx Hb. eapply msq_apart; [exact Hs|exact Hb|]. by apply (node_in 24).
Qed.

Lemma add_node_ok s junk ns l lag a e m b :
  msq_repr ns l lag m -> budget s (if lag then 2 else 1) b ->
  0 < a -> in_arena a -> disjoint_block a 24 (msq_own ns) ->
  m !! data_key a = Some (kv_key e) -> m !! data_value a = Some (kv_value e) ->
  m !! node_next a = Some 0 ->
  wpr (match s with
       | BPF => __msqueue_add_node_lkmm junk a q
       | USER => __msqueue_add_node_c junk a q
       end) m b (fun r m' _ =>
    r = DS_SUCCESS /\ msq_repr (ns ++ [a]) (l ++ [e]) false m' /\
    unchanged_outside (in_live ((a, 24) :: msq_own ns)) m m' /\ grows m m').
Proof.
  intros Hr Hb Ha Hin Hd Hk Hv Hn.
  assert (Hfinal : forall m0, msq_repr ns l false m0 ->
    m0 !! data_key a = Some (kv_key e) -> m0 !! data_value a = Some (kv_value e) ->
    m0 !! node_next a = Some 0 -> unchanged_outside (in_live (msq_own ns)) m m0 -> grows m m0 ->
    let m' := after_link a (List.last ns 0) (u64 (Zlen l)) m0 in
    msq_repr (ns ++ [a]) (l ++ [e]) false m' /\
    unchanged_outside (in_live ((a, 24) :: msq_own ns)) m m' /\ grows m m').
  { intros m0 Hr0 Hk0 Hv0 Hn0 Hu0 Hg0. split; [by apply msq_repr_link|].
    pose proof (last_elem ns 0 (msq_nonempty _ _ _ _ Hr0)) as Hlast. split.
    - unfold after_link. repeat (apply unchanged_insert_trans; [apply in_live_cons; right; apply in_live_cons|]).
      1,2: left; addr. { right. by apply (node_in 24); [|addr]. }
      eapply unchanged_mono; [exact Hu0|]. intros c Hc. apply in_live_cons. by right.
    - unfold after_link. auto 8 with arena. }
  assert (Hsep : q + 24 <= a \/ a + 24 <= q)
    by (eapply (disjoint_block_sep a 24 q 24); [exact Hd|left|lia|lia]).
  destruct (msq_tail_links _ _ _ _ Hr) as (t & nxt & Et & Enx & Hin' & Hpos & Hlink).
  pose proof (msq_node_apart _ _ _ _ t 0 Hr Hin' ltac:(lia)) as Htq. unfold in_block in Htq.
  pose proof (msq_nonempty _ _ _ _ Hr) as Hne. pose proof (last_elem ns 0 Hne) as Hlast.
  destruct lag.
  - destruct Hlink as (-> & Hlpos & Hltne).
    pose proof (msq_repr_swing _ _ _ _ Hr) as Hr1.
    set (m1 := <[tail q:=List.last ns 0]> m) in *.
    destruct (msq_tail_links _ _ _ _ Hr1) as (t1 & nxt1 & Et1 & Enx1 & _ & _ & -> & Et1').
    subst t1.
    pose proof (msq_node_apart _ _ _ _ _ 0 Hr Hlast ltac:(lia)) as Hlq. unfold in_block in Hlq.
    pose proof (mq_count _ _ _ _ Hr1) as Ec1.
    destruct (Hfinal m1 Hr1) as (F1 & F2 & F3); [unfold m1; mlook..|frame|unfold m1; auto with arena|].
    { unfold m1. apply unchanged_insert, in_live_cons. left. addr. }
    destruct s; unfold __msqueue_add_node_lkmm, __msqueue_add_node_c;
      try specialize (Hb eq_refl); apply wpr_bind; ploop; pif_true; prun; pif_true;
      rewrite list_entry_id; prun; fold m1; ploop; pif_true; prun; pif_false;
      rewrite (elem_node_id a); prun; pif_true; prun; pif_false; prun; rewrite Z.eqb_refl; pif_false;
      prun; done.
  - destruct Hlink as (-> & ->). pose proof (mq_count _ _ _ _ Hr) as Ec.
    destruct (Hfinal m Hr) as (F1 & F2 & F3); [done..|auto with arena|auto with arena|].
    destruct s; unfold __msqueue_add_node_lkmm, __msqueue_add_node_c;
      try specialize (Hb eq_refl); apply wpr_bind; ploop; pif_true; prun; pif_false;
      rewrite (elem_node_id a); prun; pif_true; prun; pif_false; prun; rewrite Z.eqb_refl; pif_false;
      prun; done.
Qed.

Definition msq_insert_post (ns : list Z) (l : list ds_kv) (lag : bool) (e : ds_kv)
    (rest : list block) (r : Z) (m' : mem) : Prop :=
  (r = DS_ERROR_NOMEM /\ heap_holds (msq_own ns) rest m' /\ msq_repr ns l lag m') \/
  (r = DS_SUCCESS /\ exists a,
     heap_holds (msq_own (ns ++ [a])) rest m' /\ msq_repr (ns ++ [a]) (l ++ [e]) false m').

Lemma msq_insert_ok s junk ns l lag rest m b e :
  heap_holds (msq_own ns) rest m -> msq_repr ns l lag m -> alloc_pre 24 m ->
  budget s (if lag then 2 else 1) b ->
  wpr (ds_msqueue_insert s junk q (kv_key e) (kv_value e)) m b (fun r m' _ =>
    (forall c, in_live rest c -> m' !! c = m !! c) /\ msq_insert_post ns l lag e rest r m').
Proof.
  intros Hh Hr Hpre Hb.
  destruct s; unfold ds_msqueue_insert, ds_msqueue_insert_lkmm, ds_msqueue_insert_c; pif;
    (eapply wpr_call; [by apply (alloc_owned (msq_own ns) rest)|]);
    intros a m1 b1 (-> & Hsame & Ha); change MsqueueElem.sizeof with 24 in *.
  all: assert (Hr1 : msq_repr ns l lag m1)
    by (eapply msq_repr_frame; [|exact Hr]; intros c Hcr; apply Hsame, in_live_app; by left).
  all: destruct Ha as [[-> Hh1]|(Ha & Hin & Hd & Hma & Hh1)];
    [pif_true; prun; split; [intros c Hcr; apply Hsame, in_live_app; by right|by left]|pif_false].
  all: pose proof (Hma 0 ltac:(lia) ltac:(lia)) as M0; pose proof (Hma 1 ltac:(lia) ltac:(lia)) as M1;
       pose proof (Hma 2 ltac:(lia) ltac:(lia)) as M2; cbn in M0, M1, M2.
  all: apply disjoint_block_app in Hd as [Hd _].
  all: set (m2 := <[node_next a:=0]> (<[data_value a:=kv_value e]> (<[data_key a:=kv_key e]> m1))).
  all: assert (Hu2 : unchanged_outside (in_live ((a, 24) :: msq_own ns)) m1 m2)
    by (unfold m2; repeat (apply unchanged_insert_trans; [apply in_live_cons; left; addr|]); apply unchanged_refl).
  all: assert (Hg2 : grows m1 m2) by (unfold m2; auto with arena).
  all: assert (Hr2 : msq_repr ns l lag m2)
    by (eapply msq_repr_frame; [|exact Hr1]; intros c Hcr; unfold m2;
        rewrite !lookup_insert_ne; [done|..]; intros <-; (eapply Hd; [|exact Hcr]; addr)).
  all: prun; fold m2.
  1: eapply wpr_mono; [apply (add_node_ok BPF junk ns l lag a e m2 b); try done; unfold m2; mlook|].
  2: eapply wpr_mono; [apply (add_node_ok USER junk ns l lag a e m2 b); try done; unfold m2; mlook|].
  all: intros r m3 b3 (-> & Hr3 & Hu3 & Hg3); pif_true; prun.
  all: destruct (heap_holds_update _ _ m1 m3 Hh1) as [Hh3 Hrest3];
    [by eapply unchanged_trans|intros x Hx; by apply Hg3, Hg2|].
  all: split; [intros c Hcr; rewrite Hrest3 by done; apply Hsame, in_live_app; by right|].
  all: right; split; [done|]; exists a; split; [|done].
  all: eapply heap_holds_perm; [symmetry; apply msq_own_snoc|done].
Qed.
(** *** Popping: the head moves to the next element, which becomes the dummy; the old dummy is
    freed and the count adjusted. *)

Lemma msq_own_tail hd ns : msq_own (hd :: ns) ≡ₚ (hd, 24) :: msq_own ns.
Proof. apply perm_swap. Qed.

Lemma msq_repr_pop hd ns e l lag m m2 :
  msq_repr (hd :: ns) (e :: l) lag m -> m !! tail q <> Some hd ->
  (forall a, in_live (msq_own ns) a -> m2 !! a = <[head q:=List.hd 0 ns]> m !! a) ->
  msq_repr ns l lag (<[count q:=u64 (Zlen l)]> m2).
Proof.
  intros [E1 (pre & t & suf & Ens & E2 & Hlag) E3 [k0 Hc] Har Hs] Hne Hf.
  assert (Hs' : separated (msq_own ns))
    by (eapply separated_perm in Hs; [|apply msq_own_tail]; by destruct Hs).
  assert (Hh : forall a, in_block q 24 a -> m2 !! a = <[head q:=List.hd 0 ns]> m !! a)
    by (intros a Ha; apply Hf, in_live_cons; by left).
  destruct Hc as (_ & _ & _ & _ & nxt & Hnx & Hc).
  assert (Hhd : nxt = List.hd 0 ns) by (destruct ns, l; try done; by destruct Hc as [-> _]).
  split; try mlook; try done.
  - rewrite lookup_insert_ne by addr. rewrite Hh by addr. mlook.
  - destruct pre as [|x pre]; [injection Ens as -> ->; congruence|].
    injection Ens as -> ->. exists pre, t, suf. split; [done|]. split; [|done].
    rewrite lookup_insert_ne by addr. rewrite Hh by addr. mlook.
  - exists e. rewrite <- Hhd. apply msq_chain_frame; [done|addr|].
    eapply chain_frame; [apply msq_layout| |].
    + intros a Ha. apply Hf, in_live_cons. by right.
    + apply msq_chain_frame; [done|addr|]. destruct ns, l; try done.
  - by apply Forall_cons in Har as [_ Har].
Qed.

Definition msq_pop_post (ns : list Z) (l : list ds_kv) (lag : bool) (d : ds_kv) (rest : list block)
    (m : mem) (r : Z * option ds_kv) (m' : mem) : Prop :=
  (forall c, in_live rest c -> m' !! c = m !! c) /\
  match l with
  | [] => r = (DS_ERROR_NOT_FOUND, Some d) /\ m' = m
  | e :: l' =>
      r = (DS_SUCCESS, Some e) /\ exists hd ns' lag', ns = hd :: ns' /\
        heap_holds (msq_own ns') rest m' /\ msq_repr ns' l' lag' m'
  end.
Lemma pop_finish {A} hd ns e l lag rest m b (x : A) (Q : A -> mem -> nat -> Prop) :
  heap_holds (msq_own (hd :: ns)) rest m -> msq_repr (hd :: ns) (e :: l) lag m ->
  m !! tail q <> Some hd ->
  (forall m' b', (forall c, in_live rest c -> m' !! c = m !! c) ->
     heap_holds (msq_own ns) rest m' -> msq_repr ns l lag m' -> Q x m' b') ->
  wpr (bpf_arena_free hd) (<[head q:=List.hd 0 ns]> m) b
    (fun _ m' b' => wpr (_ ← rmw Relaxed (FetchSub 64) (count q) 1; Ret x) m' b' Q).
Proof.
  intros Hh Hr Hne HQ. set (m1 := <[head q:=List.hd 0 ns]> m).
  assert (Hin : in_arena hd) by (by apply mq_arena, Forall_cons in Hr as [Hin _]).
  destruct (heap_holds_update _ _ m m1 Hh) as [Hh1 Hrest1];
    [apply unchanged_insert, in_live_cons; left; addr|unfold m1; auto with arena|].
  assert (Hh1' : heap_holds (msq_own ns) rest m1)
    by (eapply heap_holds_drop, heap_holds_perm; [apply msq_own_tail|exact Hh1]).
  eapply wpr_mono; [apply (free_law (msq_own ns ++ rest)); [by destruct Hh1'|done|by apply free_ready]|].
  intros _ m2 b2 (-> & Hsame & Hok2).
  assert (Hh2 : heap_holds (msq_own ns) rest m2) by (by destruct Hh1' as [_ Hs]).
  pose proof (mq_count _ _ _ _ Hr) as Ec.
  assert (Hc2 : m2 !! count q = Some (u64 (Zlen (e :: l)))).
  { rewrite Hsame by (apply in_live_app; left; apply in_live_cons; left; addr). unfold m1. mlook. }
  assert (Edec : (u64 (Zlen (e :: l)) - 1) mod 2 ^ 64 = u64 (Zlen l)).
  { fold (u64 (u64 (Zlen (e :: l)) - 1)). rewrite u64_sub_l, Zlen_cons. f_equal. lia. }
  prun. cbn [rmw_eval]. rewrite Edec.
  destruct (heap_holds_update _ _ m2 (<[count q:=u64 (Zlen l)]> m2) Hh2) as [Hh3 Hrest3];
    [apply unchanged_insert, in_live_cons; left; addr|auto with arena|].
  apply HQ; [|done|].
  - intros c Hc. rewrite Hrest3 by done. rewrite Hsame by (apply in_live_app; by right).
    by apply Hrest1.
  - eapply msq_repr_pop; [exact Hr|done|]. intros c Hc. apply Hsame, in_live_app. by left.
Qed.

Lemma msq_pop_ok s ns l lag rest m b d :
  heap_holds (msq_own ns) rest m -> msq_repr ns l lag m -> budget s (if lag then 2 else 1) b ->
  wpr (ds_msqueue_pop s q (Some d)) m b (fun r m' _ => msq_pop_post ns l lag d rest m r m').
Proof.
  intros Hh Hr Hb. destruct (msq_tail_links _ _ _ _ Hr) as (t & lnk & Et & Elk & Hin' & Hpos & Hlink).
  pose proof (msq_nonempty _ _ _ _ Hr) as Hnonempty.
  pose proof Hr as [E1 _ E3 [k0 Hc] Har Hs].
  destruct ns as [|hd ns]; [done|]. cbn [List.hd] in *.
  pose proof (msq_node_apart _ _ _ _ hd 0 Hr ltac:(left) ltac:(lia)) as Hhq. unfold in_block in Hhq.
  destruct Hc as (_ & Hhd & _ & _ & nxt & Hnx & Hc).
  destruct l as [|e l].
  { destruct ns; [|done]. cbn in Hc. subst nxt. unfold msq_pop_post.
    destruct s; unfold ds_msqueue_pop, ds_msqueue_pop_lkmm, ds_msqueue_pop_c;
      try specialize (Hb ltac:(reflexivity)); pif; ploop; pif_true.
    - apply wpr_bind, wpr_can_loop; [destruct lag; lia|]. prun. rewrite Z.eqb_refl. pif_false. prun. done.
    - prun. pif_false. prun. rewrite Z.eqb_refl. pif_false. prun. done. }
  destruct ns as [|x ns]; [done|]. destruct Hc as (-> & Hx & Hk & Hv & Hc).
  assert (Hhx : hd <> x).
  { intros ->. destruct Hs as [_ Hs]. rewrite <- (app_nil_r (node_blocks _ _)) in Hs.
    apply (separated_nodup _ _ _ _ msq_layout) in Hs. apply NoDup_cons in Hs as [Hs _]. apply Hs. left. }
  destruct (decide (t = hd)) as [->|Hth].
  - (* the tail lags on the dummy: help first *)
    unfold node_next in Elk; rewrite Hnx in Elk. injection Elk as Elk.
    destruct lag; [|lia]. destruct Hlink as (-> & Hl & Hl').
    pose proof (msq_repr_swing _ _ _ _ Hr) as Hr1.
    rewrite <- Elk in Hr1. set (m1 := <[tail q:=x]> m) in *.
    destruct (heap_holds_update _ _ m m1 Hh) as [Hh1 Hrest1];
      [apply unchanged_insert, in_live_cons; left; addr|unfold m1; auto with arena|].
    assert (Et1 : m1 !! tail q = Some x) by (unfold m1; mlook).
    assert (Hne1 : m1 !! tail q <> Some hd) by congruence.
    pose proof (msq_node_apart _ _ _ _ x 0 Hr ltac:(right; left) ltac:(lia)) as Hxq.
    pose proof (msq_node_apart _ _ _ _ x 23 Hr ltac:(right; left) ltac:(lia)) as Hxq'.
    unfold in_block in Hxq, Hxq'.
    destruct s; unfold ds_msqueue_pop, ds_msqueue_pop_lkmm, ds_msqueue_pop_c;
      try specialize (Hb ltac:(reflexivity)); pif; ploop; pgo; rewrite ?(list_entry_id x); pgo;
      ploop; pgo; rewrite ?(list_entry_id x); pgo.
    all: apply (pop_finish hd (x :: ns) e l false rest m1); try done.
    all: intros m' b' Hrest Hh' Hr'; split; [intros c Hcr; rewrite Hrest by done; by apply Hrest1|].
    all: split; [by destruct e|]; by exists hd, (x :: ns), false.
  - assert (Hne : m !! tail q <> Some hd) by congruence.
    pose proof (msq_node_apart _ _ _ _ x 0 Hr ltac:(right; left) ltac:(lia)) as Hxq.
    pose proof (msq_node_apart _ _ _ _ x 23 Hr ltac:(right; left) ltac:(lia)) as Hxq'.
    unfold in_block in Hxq, Hxq'. assert (1 <= if lag then 2 else 1)%nat by (destruct lag; lia).
    destruct s; unfold ds_msqueue_pop, ds_msqueue_pop_lkmm, ds_msqueue_pop_c;
      try specialize (Hb ltac:(reflexivity)); pif; ploop; pgo; rewrite ?(list_entry_id x); pgo.
    all: apply (pop_finish hd (x :: ns) e l lag rest m); try done.
    all: intros m' b' Hrest Hh' Hr'; split; [done|].
    all: split; [by destruct e|]; by exists hd, (x :: ns), lag.
Qed.
(** *** The walks *)

(** The elements behind the dummy. *)
Lemma msq_after_dummy ns l lag m :
  msq_repr ns l lag m -> exists hd ns' nxt, ns = hd :: ns' /\ 0 < hd /\ m !! head q = Some hd /\
    m !! node_next hd = Some nxt /\ elems m nxt ns' l.
Proof.
  intros Hr. pose proof (msq_nonempty _ _ _ _ Hr) as Hne.
  destruct Hr as [E1 _ _ [k0 Hc] _ _]. destruct ns as [|hd ns']; [done|].
  destruct Hc as (_ & Hhd & _ & _ & nxt & Hnx & Hc). by exists hd, ns', nxt.
Qed.

(** Searching finds a key exactly when one of the first [MSQUEUE_MAX_ITERATIONS] queued
    pairs carries it. *)
Lemma msq_search_ok s ns l lag m b key :
  msq_repr ns l lag m -> budget s (length l) b ->
  wpr (ds_msqueue_search s q key) m b (fun r m' _ =>
    r = search_result key (take (Z.to_nat MSQUEUE_MAX_ITERATIONS) l) /\ m' = m).
Proof.
  intros Hr Hb. destruct (msq_after_dummy _ _ _ _ Hr) as (hd & ns0 & nxt & _ & _ & E1 & Hnx & Hc).
  assert (Hmax : 0 <= MSQUEUE_MAX_ITERATIONS) by done.
  destruct s; unfold ds_msqueue_search, ds_msqueue_search_lkmm, ds_msqueue_search_c; pif; prun.
  1: pose (sd := BPF). 2: pose (sd := USER).
  all: apply (wpr_loop _ (fun n '(cursor, it) m' b' => m' = m /\ exists ns' rest,
         elems m cursor ns' rest /\ n = Z.to_nat (MSQUEUE_MAX_ITERATIONS - it) /\
         0 <= it <= MSQUEUE_MAX_ITERATIONS /\ budget sd (length rest) b' /\
         search_result key (take n rest) =
           search_result key (take (Z.to_nat MSQUEUE_MAX_ITERATIONS) l)) _
         (Z.to_nat MSQUEUE_MAX_ITERATIONS));
    [|split; [done|]; exists ns0, l; rewrite Z.sub_0_r; split_and!; (done || lia)|lia].
  all: intros n [cursor it] m' b' (-> & ns' & rest & Hch & -> & Hit & Hbn & Hres).
  all: rewrite (chain_null _ _ _ _ _ _ _ Hch); destruct (it <? MSQUEUE_MAX_ITERATIONS) eqn:Elt;
    rewrite ?andb_true_r, ?andb_false_r;
    [|replace (MSQUEUE_MAX_ITERATIONS - it) with 0 in Hres by lia; prun; by rewrite <- Hres].
  all: replace (Z.to_nat (MSQUEUE_MAX_ITERATIONS - it))
      with (S (Z.to_nat (MSQUEUE_MAX_ITERATIONS - (it + 1)))) in * by lia.
  all: destruct ns' as [|a ns'], rest as [|e rest]; cbn [chain negb] in *; try done.
  all: destruct Hch as (-> & Ha & Hk & Hv & p' & Hnx' & Hch); try specialize (Hbn eq_refl);
    rewrite (list_entry_id a); cbn [length take] in *; prun.
  all: unfold search_result, has_key in *; cbn [existsb] in Hres;
    destruct (kv_key e =? key); prun; [done|].
  all: eexists; split; [apply Nat.lt_succ_diag_r|]; split; [done|]; exists ns', rest;
    split_and!; try (done || lia); intros ?; (done || lia).
Qed.

(** An iteration stops after ten pairs. *)
(** Iterating visits the oldest pairs in order, but only the first [MSQUEUE_ITERATE_MAX]. *)
Lemma msq_iterate_ok {Ctx} s ns l lag m b (fn : ds_msqueue_iter_fn) (ctx : Ctx) :
  msq_repr ns l lag m -> budget s (length l) b ->
  wpr (ds_msqueue_iterate s q (Some fn) ctx) m b (fun r m' _ =>
    r = visit fn (take (Z.to_nat MSQUEUE_ITERATE_MAX) l) 0 ctx /\ m' = m).
Proof.
  intros Hr Hb. destruct (msq_after_dummy _ _ _ _ Hr) as (hd & ns0 & nxt & _ & _ & E1 & Hnx & Hc).
  assert (Hmax : 0 <= MSQUEUE_ITERATE_MAX) by done.
  destruct s; unfold ds_msqueue_iterate, ds_msqueue_iterate_lkmm, ds_msqueue_iterate_c; pif; prun;
    rewrite (chain_null _ _ _ _ _ _ _ Hc);
    (destruct l as [|e0 l0]; [prun; by rewrite take_nil|]); rewrite (list_entry_id nxt).
  1: pose (sd := BPF). 2: pose (sd := USER).
  all: apply (wpr_loop _ (fun n '(cursor, it, c) m' b' => m' = m /\ exists ns' rest,
         elems m cursor ns' rest /\ n = Z.to_nat (MSQUEUE_ITERATE_MAX - it) /\
         0 <= it <= MSQUEUE_ITERATE_MAX /\ budget sd (length rest) b' /\
         visit fn (take n rest) it c =
           visit fn (take (Z.to_nat MSQUEUE_ITERATE_MAX) (e0 :: l0)) 0 ctx) _
         (Z.to_nat MSQUEUE_ITERATE_MAX));
    [|split; [done|]; exists ns0, (e0 :: l0); rewrite Z.sub_0_r; split_and!; (done || lia)|lia].
  all: intros n [[cursor it] c] m' b' (-> & ns' & rest & Hch & -> & Hit & Hbn & Hres).
  all: rewrite (chain_null _ _ _ _ _ _ _ Hch); destruct (it <? MSQUEUE_ITERATE_MAX) eqn:Elt;
    rewrite ?andb_true_r, ?andb_false_r;
    [|replace (MSQUEUE_ITERATE_MAX - it) with 0 in Hres by lia; prun; by rewrite <- Hres].
  all: replace (Z.to_nat (MSQUEUE_ITERATE_MAX - it))
      with (S (Z.to_nat (MSQUEUE_ITERATE_MAX - (it + 1)))) in * by lia.
  all: destruct ns' as [|a ns'], rest as [|e rest]; cbn [chain negb] in *; try done.
  all: destruct Hch as (-> & Ha & Hk & Hv & p' & Hnx' & Hch); try specialize (Hbn eq_refl);
    cbn [length take visit] in *; prun.
  all: destruct (fn (kv_key e) (kv_value e) c) as [ret c']; destruct (negb (ret =? 0)); prun; [done|].
  all: eexists; split; [apply Nat.lt_succ_diag_r|]; split; [done|]; exists ns', rest;
    split_and!; try (done || lia); try (intros ?; (done || lia)).
  all: destruct (Z.eqb_spec p' 0) as [->|]; cbn [negb]; by rewrite ?(list_entry_id p').
Qed.

(** The verifier accepts every sound queue, except one whose only element the tail does not
    reach yet. *)
Lemma msq_verdict_ok found len :
  1 <= len <= MSQUEUE_MAX_ITERATIONS ->
  msqueue_verdict found (if len =? 1 then 0 else len) len =
    if found then DS_SUCCESS else DS_ERROR_CORRUPT * 2.
Proof.
  intros Hlen. assert (Hm : MSQUEUE_MAX_ITERATIONS = 100000) by done. unfold msqueue_verdict.
  set (n := if len =? 1 then 0 else len).
  assert (Hn : 0 <= n <= len) by (subst n; destruct (len =? 1); lia).
  assert (Hn1 : (if n >? 0 then n - 1 else n) = len - 1)
    by (subst n; destruct (Z.eqb_spec len 1) as [->|]; [done|]; destruct (Z.gtb_spec len 0); lia).
  rewrite Hn1, !u64_id by lia. destruct found; [cbn [negb]|done].
  destruct (Z.gtb_spec (len - 1) (len + 100)); [lia|].
  destruct (Z.gtb_spec len (len - 1 + 100)); [lia|]. cbn [orb].
  destruct (Z.geb_spec (len - 1) MSQUEUE_MAX_ITERATIONS); [lia|done].
Qed.
(** The verifier accepts every well-formed queue, except for one false alarm: a single
    element whose insertion has not swung the tail yet. *)
Lemma msq_verify_ok s ns l lag m b :
  msq_repr ns l lag m -> Zlen l <= MSQUEUE_MAX_ITERATIONS -> budget s (length l) b ->
  wpr (ds_msqueue_verify s q) m b (fun r m' _ => m' = m /\
    r = if lag && (Zlen l =? 1) then DS_ERROR_CORRUPT * 2 else DS_SUCCESS).
Proof.
  intros Hr Hmax Hb. assert (HM : MSQUEUE_MAX_ITERATIONS = 100000) by done.
  destruct (msq_after_dummy _ _ _ _ Hr) as (hd & ns0 & nxt & -> & Hhd & E1 & Hnx & Hc).
  destruct (msq_tail_links _ _ _ _ Hr) as (t & lnk & Et & Elk & Hin & Hpos & Hlink).
  pose proof (mq_count _ _ _ _ Hr) as Ec. pose proof (Zlen_nonneg l). rewrite u64_id in Ec by lia.
  assert (Hnd : NoDup (hd :: ns0)).
  { destruct (mq_sep _ _ _ _ Hr) as [_ Hs]. rewrite <- (app_nil_r (node_blocks _ _)) in Hs.
    by apply (separated_nodup _ _ _ _ msq_layout) in Hs. }
  pose proof (chain_length _ _ _ _ _ _ _ _ Hc) as Hlen.
  (* the tail is behind the dummy, except while the only element is not reached *)
  assert (Hfound : l <> [] -> bool_decide (t ∈ ns0) = negb (lag && (Zlen l =? 1))).
  { intros Hl. destruct (mq_tail _ _ _ _ Hr) as (pre & t' & suf & Ens & Et' & Hlag).
    assert (t' = t) as -> by congruence. destruct l as [|e l']; [done|].
    destruct pre as [|x pre]; injection Ens as -> ->; cbn [length] in Hlen.
    - assert (Zlen (e :: l') = Z.of_nat (length suf)) as -> by (unfold Zlen; cbn [length]; lia).
      destruct lag; [|lia]. rewrite Hlag. cbn. apply bool_decide_eq_false.
      by apply NoDup_cons in Hnd as [? _].
    - rewrite bool_decide_eq_true_2 by (apply elem_of_app; right; left).
      destruct lag; [|done]. destruct suf as [|z [|]]; try done. rewrite length_app in Hlen.
      cbn in Hlen. unfold Zlen. cbn [length]. destruct (Z.eqb_spec (Z.of_nat (S (length l'))) 1); [lia|done]. }
  assert (Hdone : forall m0 n found, n = (if Zlen l =? 1 then 0 else Zlen l) ->
    l <> [] -> found = bool_decide (t ∈ ns0) -> m0 = m -> forall b0,
    wpr (if negb found then Ret (msqueue_verdict found n 0)
         else (recorded ← load Plain (count q); Ret (msqueue_verdict found n recorded))) m0 b0
      (fun r m' _ => m' = m /\
        r = if lag && (Zlen l =? 1) then DS_ERROR_CORRUPT * 2 else DS_SUCCESS)).
  { intros m0 n found -> Hl -> -> b0. rewrite Hfound by done.
    destruct (lag && (Zlen l =? 1)); cbn [negb]; prun; (split; [done|]); [done|].
    apply (msq_verdict_ok true). destruct l; [done|]. rewrite Zlen_cons in *.
    pose proof (Zlen_nonneg l). lia. }
  assert (Hq : ~ in_block q 24 hd) by (rewrite <- (Z.add_0_r hd); by eapply msq_node_apart; [|left|]).
  destruct s; unfold ds_msqueue_verify, ds_msqueue_verify_lkmm, ds_msqueue_verify_c; pif; pgo.
  1: pose (sd := BPF). 2: pose (sd := USER).
  all: pose proof (chain_null _ _ _ _ _ _ _ Hc) as Hnull; rewrite Hnull.
  all: destruct l as [|e0 l0];
    [destruct ns0; [|done]; apply list_elem_of_singleton in Hin as ->; rewrite Z.eqb_refl;
     prun; by rewrite andb_false_r|].
  all: rewrite andb_false_r; rewrite (list_entry_id nxt); apply wpr_bind.
  all: apply (wpr_loop _ (fun n '(node, c, found) m' b' => m' = m /\ exists ns' rest,
         elems m node ns' rest /\ n = length rest /\ (length rest <= length (e0 :: l0))%nat /\
         budget sd n b' /\ found || bool_decide (t ∈ ns') = bool_decide (t ∈ ns0) /\
         c = (if Zlen (e0 :: l0) =? 1 then 0 else Zlen (e0 :: l0) - Zlen rest)) _ (length (e0 :: l0)));
    [|split; [done|]; exists ns0, (e0 :: l0); split_and!; try (done || lia);
      destruct (_ =? 1); lia|unfold Zlen in *; lia].
  all: intros n [[node c] found] m' b' (-> & ns' & rest & Hch & -> & Hle & Hbn & Hf & ->).
  all: rewrite (chain_null _ _ _ _ _ _ _ Hch).
  all: destruct ns' as [|a ns'], rest as [|e rest]; cbn [chain negb andb] in *; try done.
  1,3: prun; apply Hdone; rewrite ?Zlen_nil, ?Z.sub_0_r; try done; by rewrite orb_false_r in Hf.
  all: destruct Hch as (-> & Ha & Hk & Hv & p' & Hnx' & Hch).
  all: pose proof (Zlen_nonneg rest); rewrite (Zlen_cons e) in *; unfold Zlen in Hle.
  all: assert (Hcur : (if Zlen (e0 :: l0) =? 1 then 0 else Zlen (e0 :: l0) - (1 + Zlen rest)) <
                      MSQUEUE_MAX_ITERATIONS)
    by (unfold Zlen in *; cbn [length] in *; destruct (_ =? 1); lia).
  all: pif_true; try specialize (Hbn eq_refl); cbn [length] in *; prun; exists (length rest);
    (split; [lia|]); split; [done|]; exists ns', rest.
  all: assert (Hp' : (if negb (p' =? 0) then msqueue_list_entry p' else 0) = p')
    by (destruct (Z.eqb_spec p' 0); cbn [negb]; [done|apply list_entry_id]).
  all: rewrite Hp'; split_and!; try (done || lia); try (intros ?; (done || lia)).
  1,3: rewrite <- Hf; destruct (bool_decide_reflect (t ∈ a :: ns')) as [Ht|Ht];
    destruct found, (Z.eqb_spec a t) as [->|Hne]; cbn [orb]; try done;
    first [apply bool_decide_eq_true; by apply elem_of_cons in Ht as [?|?]
          |apply bool_decide_eq_false; intros Ht'; apply Ht; by right|exfalso; apply Ht; left].
  all: rewrite (chain_null _ _ _ _ _ _ _ Hch); unfold Zlen in *; cbn [length] in *;
    destruct rest; cbn [length negb] in *; destruct (Z.eqb_spec (Z.of_nat (S (length l0))) 1);
    rewrite ?orb_false_r, ?orb_true_r; try lia.
  all: match goal with |- context [?x >? 0] => destruct (Z.gtb_spec x 0) end; lia.
Qed.

Lemma msq_init_ok s rest m b :
  heap_holds [(q, 24)] rest m -> mapped_words q 24 m -> alloc_pre 24 m ->
  wpr (ds_msqueue_init s q) m b (fun r m' b' => b' = b /\
    (forall c, in_live rest c -> m' !! c = m !! c) /\
    ((r = DS_ERROR_NOMEM /\ heap_holds [(q, 24)] rest m' /\
      forall a, in_block q 24 a -> m' !! a = m !! a) \/
     (r = DS_SUCCESS /\ exists dummy,
        heap_holds (msq_own [dummy]) rest m' /\ msq_repr [dummy] [] false m'))).
Proof.
  intros Hh Hmq Hpre.
  destruct s; unfold ds_msqueue_init, ds_msqueue_init_lkmm, ds_msqueue_init_c; pif;
    (eapply wpr_call; [by apply (alloc_owned [(q, 24)] rest)|]);
    intros a m1 b1 (-> & Hsame & [[-> Hh1]|(Ha & Hin & Hd & Hma & Hh1)]).
  1,3: pif_true; prun; split; [done|]; split; [intros c Hcr; apply Hsame, in_live_app; by right|left].
  1,2: split_and!; [done|done|]; intros c Hcr; apply Hsame, in_live_app; left; by apply in_own_head.
  all: pif_false; change MsqueueElem.sizeof with 24 in *.
  all: assert (Hmq1 : forall x, 0 <= x < 24 -> is_Some (m !! (q + x)) -> is_Some (m1 !! (q + x)))
    by (intros x Hx; rewrite Hsame; [done|]; apply in_live_app; left; apply in_live_cons; left; addr).
  all: pose proof (Hmq1 0 ltac:(lia) (Hmq 0 ltac:(lia) ltac:(lia)));
       pose proof (Hmq1 8 ltac:(lia) (Hmq 1 ltac:(lia) ltac:(lia)));
       pose proof (Hmq1 16 ltac:(lia) (Hmq 2 ltac:(lia) ltac:(lia))).
  all: pose proof (Hma 0 ltac:(lia) ltac:(lia)) as M0; pose proof (Hma 1 ltac:(lia) ltac:(lia)) as M1;
       pose proof (Hma 2 ltac:(lia) ltac:(lia)) as M2; cbn in M0, M1, M2.
  all: apply disjoint_block_app in Hd as [Hd _].
  all: assert (Hsep : q + 24 <= a \/ a + 24 <= q)
    by (eapply (disjoint_block_sep a 24 q 24); [exact Hd|left|lia|lia]).
  all: prun; split; [done|].
  all: match goal with |- _ /\ (_ \/ (_ = _ /\ exists stub, heap_holds _ _ ?m' /\ _)) => set (m2 := m') end.
  all: destruct (heap_holds_update _ _ m1 m2 Hh1) as [Hh2 Hrest];
    [unfold m2; repeat (apply unchanged_insert_trans; [apply in_live_cons; first [left; addr|right; apply in_live_cons; left; addr]|]); apply unchanged_refl
    |unfold m2; auto 10 with arena|].
  all: split; [intros c Hcr; rewrite Hrest by done; apply Hsame, in_live_app; by right|].
  all: right; split; [done|]; exists a.
  all: assert (Hh3 : heap_holds (msq_own [a]) rest m2)
    by (eapply heap_holds_perm; [apply perm_swap|exact Hh2]).
  all: split; [done|]; unfold m2; split; cbn [List.hd]; try mlook; try (by apply Forall_singleton).
  1,4: exists [], a, []; split; [done|]; split; [mlook|done].
  1,3: exists (mk_kv 420 69); apply chain_single; [done|mlook..].
  all: destruct Hh3 as [_ Hs]; by apply separated_app in Hs as [Hs _].
Qed.

(** When the loop budget of a BPF program is used up, the insertion stores its pair in a new
    element, counts it and answers success, but links it nowhere: the queue is unchanged. *)
(** C38. An insertion on the BPF side whose loop budget is used up before its first turn still
    answers success and counts the element, although the element is not in the queue. *)
Theorem msq_insert_exhausted junk ns l lag rest m e :
  heap_holds (msq_own ns) rest m -> msq_repr ns l lag m -> alloc_pre 24 m ->
  m !! tail q <> Some junk ->
  wpr (ds_msqueue_insert_lkmm junk q (kv_key e) (kv_value e)) m 0 (fun r m' _ =>
    r = DS_ERROR_NOMEM \/
    (r = DS_SUCCESS /\ m' !! count q = Some (u64 (Zlen l + 1)) /\
     heap_holds (msq_own ns) rest m' /\
     msq_repr ns l lag (<[count q:=u64 (Zlen l)]> m'))).
Proof.
  intros Hh Hr Hpre Hjunk. unfold ds_msqueue_insert_lkmm. pif.
  eapply wpr_call; [by apply (alloc_owned (msq_own ns) rest)|].
  intros a m1 b1 (-> & Hsame & Ha). change MsqueueElem.sizeof with 24 in *.
  destruct Ha as [[-> Hh1]|(Ha & Hin & Hd & Hma & Hh1)]; [pif_true; prun; by left|pif_false].
  pose proof (Hma 0 ltac:(lia) ltac:(lia)) as M0. pose proof (Hma 1 ltac:(lia) ltac:(lia)) as M1.
  pose proof (Hma 2 ltac:(lia) ltac:(lia)) as M2. cbn in M0, M1, M2.
  apply disjoint_block_app in Hd as [Hd _].
  assert (Hsep : q + 24 <= a \/ a + 24 <= q)
    by (eapply (disjoint_block_sep a 24 q 24); [exact Hd|left|lia|lia]).
  assert (Hsame' : forall c, in_live (msq_own ns) c -> m1 !! c = m !! c)
    by (intros c Hcr; apply Hsame, in_live_app; by left).
  destruct (mq_tail _ _ _ _ Hr) as (pre & t & suf & _ & Et & _).
  pose proof (mq_count _ _ _ _ Hr) as Ec.
  assert (Et1 : m1 !! tail q = Some t) by (rewrite Hsame' by (apply in_live_cons; left; addr); done).
  assert (Ec1 : m1 !! count q = Some (u64 (Zlen l)))
    by (rewrite Hsame' by (apply in_live_cons; left; addr); done).
  prun. unfold __msqueue_add_node_lkmm. apply wpr_bind, wpr_loop_unfold. cbn beta iota. pif_true.
  apply wpr_bind, wpr_can_loop_exhausted. prun. pif_false. prun.
  assert (t <> junk) by congruence. destruct (Z.eqb_spec t junk); [done|]. pif_true. prun. pif_true.
  prun. right. split; [done|]. cbn [rmw_eval].
  match goal with |- ?m' !! _ = _ /\ _ => set (m2 := m') end.
  destruct (heap_holds_update _ _ m1 m2 Hh1) as [Hh2 _].
  { unfold m2. repeat (apply unchanged_insert_trans;
      [apply in_live_cons; first [left; addr|right; apply in_live_cons; left; addr]|]).
    apply unchanged_refl. }
  { unfold m2. auto 10 with arena. }
  split; [|split; [by eapply heap_holds_drop|]].
  - unfold m2. rewrite lookup_insert_eq. f_equal. fold (u64 (u64 (Zlen l) + 1)). by rewrite u64_add_l.
  - eapply msq_repr_frame; [|exact Hr]. intros c Hcr. unfold m2.
    destruct (decide (c = count q)) as [->|Hne]; [by rewrite lookup_insert_eq|].
    rewrite !(lookup_insert_ne _ (count q)) by done.
    rewrite !lookup_insert_ne; [by apply Hsame'|..]; intros <-; (eapply Hd; [|exact Hcr]; addr).
Qed.
End spec.

(** ** The queue as a container *)

Section container.
Context `{K : Kernel} `{Al : Allocator} `{!AllocLaws Al} `{!FreeLaws Al}.
Variables (s : side) (junk q : Z).
Hypothesis q_pos : 0 < q.
Hypothesis free_ready : forall p m, in_arena p -> free_pre p m.
Hypothesis alloc_ready : forall live sz m, heap_ok live m -> alloc_pre sz m.

Lemma msq_home_frame m m' :
  (forall a, in_block q 24 a -> m' !! a = m !! a) ->
  (mapped_words q 24 m -> mapped_words q 24 m') /\
  (m !! head q = Some 0 /\ m !! tail q = Some 0 -> m' !! head q = Some 0 /\ m' !! tail q = Some 0).
Proof.
  intros Hf. split; [|rewrite !Hf by addr; done].
  intros Hm i Hi1 Hi2. rewrite Hf by addr. by apply Hm.
Qed.

Definition msq_container : Container := {|
  c_init := ds_msqueue_init s q;
  c_insert := ds_msqueue_insert s junk q;
  c_pop := ds_msqueue_pop s q;
  c_home := (q, 24);
  c_ready := mapped_words q 24;
  c_blank m := m !! head q = Some 0 /\ m !! tail q = Some 0;
  c_inv own l m := exists ns lag, own = msq_own q ns /\ msq_repr q ns l lag m;
  c_spec := unbounded fifo_add;
  c_init_budget := 0;
  c_budget := 2
|}.

Lemma lag_budget b (lag : bool) : budget s 2 b -> budget s (if lag then 2 else 1) b.
Proof. intros H Hs. specialize (H Hs). destruct lag; lia. Qed.

#[export] Instance msq_container_laws : ContainerLaws s msq_container.
Proof.
  split.
  - intros own l m m' Hf (ns & lag & -> & Hr). exists ns, lag. split; [done|].
    by eapply msq_repr_frame.
  - intros m m' Hf. apply msq_home_frame. intros a Ha. by apply Hf, in_own_head.
  - intros rest m b j Hh Hm Hb.
    eapply wpr_mono; [apply (msq_init_ok q q_pos s rest); try done;
      by destruct Hh; eapply alloc_ready|].
    intros r m' b' (-> & Hrest & [(-> & Hh' & Hhd)|(-> & dummy & Hh' & Hr)]);
      (split; [exact Hb|split; [done|]]);
      [left; split; [done|]; split; [exact Hh'|]; destruct (msq_home_frame m m' Hhd) as [Hr1 Hr2]; split; [exact (Hr1 Hm)|exact Hr2]|right].
    split; [done|]. exists (msq_own q [dummy]). split; [done|]. by exists [dummy], false.
  - intros own rest l m b e Hh (ns & lag & -> & Hr) Hb.
    eapply wpr_mono; [apply (msq_insert_ok q q_pos s junk ns l lag rest); try done;
      [by destruct Hh; eapply alloc_ready|by apply lag_budget]|].
    intros r m' b' (Hrest & [(-> & Hh' & Hr')|(-> & a & Hh' & Hr')]); (split; [done|]).
    + exists (msq_own q ns), l. split; [done|]. split; [by exists ns, lag|by right].
    + exists (msq_own q (ns ++ [a])), (l ++ [e]). split; [done|].
      split; [by exists (ns ++ [a]), false|by left].
  - intros own rest l m b d Hh (ns & lag & -> & Hr) Hb.
    eapply wpr_mono; [apply (msq_pop_ok q q_pos free_ready s ns l lag rest); try done;
      by apply lag_budget|].
    intros r m' b' (Hrest & Hpost). split; [done|]. destruct l as [|e l'].
    + destruct Hpost as [-> ->]. exists (msq_own q ns). split; [done|]. split; [done|].
      by exists ns, lag.
    + destruct Hpost as (-> & hd & ns' & lag' & -> & Hh' & Hr').
      exists (msq_own q ns'). split; [done|]. split; [done|]. by exists ns', lag'.
Qed.
End container.
