(* ===== verification/MsQueueConc.v ===== *)
(** * The Michael-Scott queue, shared by any number of threads.

    For an allocator that never takes memory back ([FreshAllocLaws], the test arena): then all
    nodes ever linked form one growing chain, the dummy [head] and the lagging [tail] only move
    forward in it, and [tail] is its last node or the one before. An insertion takes effect when
    it links its node, a successful pop when it swings [head]. A pop that finds the queue empty
    took effect when it read the null link, if it later reads [head] unchanged: the history then
    gets its event at the place it had marked ([resolve]). An operation gives up after ten
    attempts; each of them failed because another operation had moved on, and at least five
    operations of others took effect in the meantime ([busy]). *)
From stdpp Require Import base numbers gmap list fin_maps option relations.
From S2P Require Import Prelude Machine Logic Api Owned Container Conc SoleAlloc Duet Threads Ring Linked MsQueue.
Import Msqueue MsqueueElem.

(** ** Histories *)

(** What thread [p.1] did: an operation took effect, or a pop looked at an empty queue. *)
Notation labels := (list (nat * option event)).

Definition succeeded (ev : event) : bool :=
  match ev with EInsert _ r | EPop _ r _ => r =? DS_SUCCESS end.

(** How many operations of others succeeded since the last event of thread [i]. *)
Definition busy (i : nat) (H : labels) : nat :=
  foldl (fun n p => match p.2 with
                    | Some ev => if decide (p.1 = i) then O else if succeeded ev then S n else n
                    | None => n
                    end) O H.

(** A step of the queue; [n] operations of others succeeded during it. What a pop leaves in the
    output when it fails may stem from an attempt that came to nothing. *)
Inductive mq_step (n : nat) : list ds_kv -> option event -> list ds_kv -> Prop :=
  | mq_insert l e : mq_step n l (Some (EInsert e DS_SUCCESS)) (l ++ [e])
  | mq_pop l e d : mq_step n (e :: l) (Some (EPop d DS_SUCCESS (Some e))) l
  | mq_empty d o : mq_step n [] (Some (EPop d DS_ERROR_NOT_FOUND o)) []
  | mq_looked : mq_step n [] None []
  | mq_nomem l e : mq_step n l (Some (EInsert e DS_ERROR_NOMEM)) l
  | mq_insert_gives_up l e : (5 <= n)%nat -> mq_step n l (Some (EInsert e DS_ERROR_INVALID)) l
  | mq_pop_gives_up l d o : (5 <= n)%nat -> mq_step n l (Some (EPop d DS_ERROR_INVALID o)) l.

Inductive mq_run (l0 : list ds_kv) : labels -> list ds_kv -> Prop :=
  | mq_start : mq_run l0 [] l0
  | mq_more H l i lb l' : mq_run l0 H l -> mq_step (busy i H) l lb l' -> mq_run l0 (H ++ [(i, lb)]) l'.

#[export] Hint Constructors mq_step mq_run : core.

(** The events, without the marks. *)
Definition events (H : labels) : history :=
  omap (fun p => match p.2 with Some ev => Some (p.1, ev) | None => None end) H.

(** Thread [i]'s labels and events. *)
Definition mine_of (i : nat) (H : labels) : list (option event) :=
  omap (fun p => if decide (p.1 = i) then Some p.2 else None) H.

Definition seen (lbs : list (option event)) : list event := omap id lbs.

#[global] Arguments events : simpl never.
#[global] Arguments mine_of : simpl never.
#[global] Arguments seen : simpl never.
#[global] Arguments busy : simpl never.

Lemma mine_of_snoc i H lb : mine_of i (H ++ [(i, lb)]) = mine_of i H ++ [lb].
Proof. unfold mine_of. rewrite omap_app. cbn. by rewrite decide_True. Qed.

Lemma mine_of_snoc_ne i j H lb : i <> j -> mine_of j (H ++ [(i, lb)]) = mine_of j H.
Proof. intros Hne. unfold mine_of. rewrite omap_app. cbn. by rewrite decide_False, app_nil_r. Qed.

Lemma seen_snoc lbs ev : seen (lbs ++ [Some ev]) = seen lbs ++ [ev].
Proof. unfold seen. by rewrite omap_app. Qed.

Lemma seen_mark lbs : seen (lbs ++ [None]) = seen lbs.
Proof. unfold seen. rewrite omap_app. apply app_nil_r. Qed.

Lemma mine_events i H : mine i (events H) = seen (mine_of i H).
Proof.
  induction H as [|[j [ev|]] H IH] using rev_ind; [done| |];
    unfold events; rewrite omap_app; cbn; fold (events H).
  - destruct (decide (j = i)) as [->|Hne].
    + by rewrite mine_snoc, mine_of_snoc, seen_snoc, IH.
    + by rewrite mine_snoc_ne, mine_of_snoc_ne.
  - rewrite app_nil_r. destruct (decide (j = i)) as [->|Hne].
    + by rewrite mine_of_snoc, seen_mark.
    + by rewrite mine_of_snoc_ne.
Qed.

Lemma busy_snoc i j H ev : i <> j ->
  busy j (H ++ [(i, Some ev)]) = if succeeded ev then S (busy j H) else busy j H.
Proof. intros Hne. unfold busy. rewrite foldl_app. cbn. by rewrite decide_False. Qed.

Lemma busy_mark i j H : busy j (H ++ [(i, None)]) = busy j H.
Proof. unfold busy. by rewrite foldl_app. Qed.

(** Elements leave in the order in which they entered, none lost, none twice. *)
Lemma mq_run_fifo l0 H l : mq_run l0 H l -> popped ((events H).*2) ++ l = l0 ++ accepted ((events H).*2).
Proof.
  assert (Happ : forall H j lb, (events (H ++ [(j, lb)])).*2 = (events H).*2 ++ seen [lb]).
  { intros H' j lb. unfold events. rewrite omap_app, fmap_app. by destruct lb. }
  induction 1 as [|H l i lb l' _ IH Hs]; [by rewrite app_nil_r|]. rewrite Happ.
  unfold popped, accepted in *. rewrite !omap_app. destruct Hs; cbn; rewrite ?app_nil_r, ?IH; try done.
  - rewrite app_assoc, IH. by rewrite app_assoc.
  - by rewrite <- app_assoc.
  - by rewrite app_nil_r in IH.
  - by rewrite app_nil_r in IH.
Qed.

(** *** Events that take effect at a mark *)

(** [H'] is [H] with the last label of thread [i], a mark, turned into [ev]. *)
Definition resolve (i : nat) (ev : event) (H H' : labels) : Prop :=
  exists H1 H2, H = H1 ++ (i, None) :: H2 /\ H' = H1 ++ (i, Some ev) :: H2 /\ mine_of i H2 = [].

Lemma resolve_exists i ev H lbs : mine_of i H = lbs ++ [None] -> exists H', resolve i ev H H'.
Proof.
  induction H as [|[j lb] H IH] using rev_ind; intros E; [by destruct lbs|].
  destruct (decide (j = i)) as [->|Hne].
  - rewrite mine_of_snoc in E. apply app_inj_tail in E as [_ ->]. exists (H ++ [(i, Some ev)]), H, []. done.
  - rewrite mine_of_snoc_ne in E by done. destruct (IH E) as (H' & H1 & H2 & -> & -> & Hn).
    exists ((H1 ++ (i, Some ev) :: H2) ++ [(j, lb)]), H1, (H2 ++ [(j, lb)]).
    rewrite <- !app_assoc. split; [done|]. split; [done|]. by rewrite mine_of_snoc_ne.
Qed.

Lemma mine_of_app i H H' : mine_of i (H ++ H') = mine_of i H ++ mine_of i H'.
Proof. apply omap_app. Qed.

Lemma resolve_mine i ev H H' lbs :
  resolve i ev H H' -> mine_of i H = lbs ++ [None] -> mine_of i H' = lbs ++ [Some ev].
Proof.
  intros (H1 & H2 & -> & -> & Hn). change (?x :: H2) with ([x] ++ H2). rewrite !mine_of_app, Hn, app_nil_r.
  unfold mine_of at 2 4. cbn. rewrite !decide_True by done. intros E.
  apply app_inj_tail in E as [-> _]. by rewrite app_nil_r.
Qed.

Lemma resolve_mine_ne i j ev H H' : i <> j -> resolve i ev H H' -> mine_of j H' = mine_of j H.
Proof.
  intros Hne (H1 & H2 & -> & -> & _). change ((i, ?x) :: H2) with ([(i, x)] ++ H2). rewrite !mine_of_app.
  unfold mine_of at 2 5. cbn. by rewrite !decide_False.
Qed.

Lemma busy_app i H H' n : busy i H = busy i H' -> busy i (H ++ n) = busy i (H' ++ n).
Proof. unfold busy. rewrite !foldl_app. by intros ->. Qed.

Lemma resolve_busy i j d o H H' : i <> j -> resolve i (EPop d DS_ERROR_NOT_FOUND o) H H' -> busy j H' = busy j H.
Proof.
  intros Hne (H1 & H2 & -> & -> & _).
  change ((i, ?x) :: H2) with ([(i, x)] ++ H2). rewrite !app_assoc. apply busy_app.
  by rewrite busy_mark, busy_snoc.
Qed.

Lemma resolve_who N i ev H H' : resolve i ev H H' ->
  Forall (fun p => (p.1 < N)%nat) H -> Forall (fun p => (p.1 < N)%nat) H'.
Proof.
  intros (H1 & H2 & -> & -> & _) [A1 [Ai A2]%Forall_cons]%Forall_app. apply Forall_app. split; [done|].
  by constructor.
Qed.

(** The empty pop is legal where the queue was seen empty. *)
Lemma resolve_run l0 i d o H H' l :
  resolve i (EPop d DS_ERROR_NOT_FOUND o) H H' -> mq_run l0 H l -> mq_run l0 H' l.
Proof.
  intros (H1 & H2 & -> & -> & Hn). revert l.
  induction H2 as [|[j lb] H2 IH] using rev_ind; intros l Hr.
  - inversion Hr as [E|H0 l1 i0 lb l2 Hr1 Hs E]; [by destruct H1|]. apply app_inj_tail in E as [-> [= -> ->]].
    inversion Hs; subst. econstructor; [done|]. constructor.
  - destruct (decide (j = i)) as [->|Hne]; [by rewrite mine_of_snoc in Hn; destruct (mine_of i H2)|].
    rewrite mine_of_snoc_ne in Hn by done. rewrite app_comm_cons, app_assoc in Hr. rewrite app_comm_cons, app_assoc.
    inversion Hr as [E|H0 l1 i0 lb0 l2 Hr1 Hs E].
    { symmetry in E. by apply app_nil in E as [_ ?]. }
    apply app_inj_tail in E as [-> [= -> ->]].
    econstructor; [by apply IH|].
    replace (busy j (H1 ++ (i, Some (EPop d DS_ERROR_NOT_FOUND o)) :: H2)) with (busy j (H1 ++ (i, None) :: H2)); [done|].
    symmetry. eapply resolve_busy; [|by exists H1, H2]. done.
Qed.

(** ** The ghost state *)

(** The nodes that have been the dummy, the present dummy, the queued ones, whether [tail] lags,
    the history, the requests for memory each thread may still make, what each owes to the
    counter, and the nodes each has allocated but not linked. *)
Record mview := mk_mview {
  mv_gs : list (Z * ds_kv);
  mv_hd : Z * ds_kv;
  mv_ns : list (Z * ds_kv);
  mv_lag : bool;
  mv_hist : labels;
  mv_asks : list nat;
  mv_owed : list Z;
  mv_priv : list (list Z)
}.

Definition mv_fronts (g : mview) : list (Z * ds_kv) := mv_gs g ++ [mv_hd g].
Definition mv_nodes (g : mview) : list (Z * ds_kv) := mv_fronts g ++ mv_ns g.

(** The nodes up to [tail]. *)
Definition mv_reached (g : mview) : list (Z * ds_kv) :=
  if mv_lag g then removelast (mv_nodes g) else mv_nodes g.

Definition last_node (N : list (Z * ds_kv)) : Z := List.last (N.*1) 0.

(** How far things have come. *)
Definition mv_effects (g : mview) : nat := length (mv_gs g) + length (mv_nodes g).
Definition mv_moves (g : mview) : nat := length (mv_gs g) + length (mv_nodes g) + length (mv_reached g).

Lemma concat_owner (P : list (list Z)) i F : P !! i = Some F -> forall F',
  exists R, concat P ≡ₚ F ++ R /\ concat (<[i:=F']> P) ≡ₚ F' ++ R.
Proof.
  revert i. induction P as [|X P IH]; intros [|i] Hi F'; try done; cbn in *.
  - injection Hi as ->. by exists (concat P).
  - destruct (IH i Hi F') as (R & H1 & H2). exists (X ++ R).
    rewrite H1, H2. split; rewrite !app_assoc; f_equiv; apply Permutation_app_comm.
Qed.

Lemma concat_in (P : list (list Z)) i F a : P !! i = Some F -> a ∈ F -> a ∈ concat P.
Proof.
  intros Hi Ha. destruct (concat_owner P i F Hi []) as (R & HR & _). rewrite HR. apply elem_of_app. by left.
Qed.

Lemma last_node_snoc l x : last_node (l ++ [x]) = x.1.
Proof. unfold last_node. rewrite fmap_app. apply last_snoc. Qed.

(** Where [tail] points, in the terms of [msq_repr]. *)
Lemma tail_spot (X : list (Z * ds_kv)) pre t suf (lag : bool) :
  X.*1 = pre ++ t :: suf -> length suf = (if lag then 1%nat else 0%nat) ->
  last_node (if lag then removelast X else X) = t.
Proof.
  intros E Hlag. unfold last_node. destruct lag.
  - destruct suf as [|z [|]]; try done. destruct (exists_last (l := X)) as (X' & x & ->); [by intros ->; destruct pre|].
    rewrite removelast_last. rewrite fmap_app in E. change (t :: [z]) with ([t] ++ [z]) in E.
    rewrite app_assoc in E. apply app_inj_tail in E as [-> _]. apply last_snoc.
  - destruct suf; [|done]. rewrite E. apply last_snoc.
Qed.

Lemma spot_tail (Y X : list (Z * ds_kv)) (lag : bool) :
  X <> [] -> (lag = true -> removelast X <> []) ->
  exists pre t suf, X.*1 = pre ++ t :: suf /\ last_node (if lag then removelast (Y ++ X) else Y ++ X) = t /\
    length suf = if lag then 1%nat else 0%nat.
Proof.
  intros HX Hlag. destruct (exists_last HX) as (X' & x & ->). rewrite app_assoc, !removelast_last in *. destruct lag.
  - destruct (exists_last (Hlag eq_refl)) as (X2 & z & ->). exists (X2.*1), z.1, [x.1].
    rewrite app_assoc, last_node_snoc, !fmap_app, <- app_assoc. done.
  - exists (X'.*1), x.1, []. by rewrite last_node_snoc, fmap_app.
Qed.

Lemma concat_nils n : concat (replicate n ([] : list Z)) = [].
Proof. by induction n. Qed.

Section queue.
Context `{K : Kernel} `{Al : Allocator} `{!AllocLaws Al} {room : Z -> nat -> mem -> Prop}
  `{!FreshAllocLaws Al room}.
Variables (q : Z) (rest : list block) (l0 : list ds_kv) (N : nat).
Hypothesis q_pos : 0 < q.
Implicit Types (s : mem * mview) (g : mview) (evs : list event) (F : list Z) (e d : ds_kv).

Notation elems m p ns l := (chain 0 8 16 m p ns l 0).

Definition mq_own (ns F : list Z) : list block := (q, 24) :: node_blocks 24 (ns ++ F).

(** The part of the state that only grows: the chain of nodes and the private ones. *)
Record mq_body (ns : list (Z * ds_kv)) (F : list Z) (k : nat) (m : mem) : Prop := {
  mb_chain : exists p, elems m p ns.*1 ns.*2;
  mb_priv : forall a, a ∈ F -> 0 < a /\ mapped_words a 24 m;
  mb_heap : heap_holds (mq_own ns.*1 F) rest m;
  mb_arena : Forall in_arena (ns.*1 ++ F);
  mb_room : room 24 k m
}.

Record mq_inv s : Prop := {
  mi_head : s.1 !! head q = Some (mv_hd s.2).1;
  mi_tail : s.1 !! tail q = Some (last_node (mv_reached s.2));
  mi_count : s.1 !! count q = Some (u64 (Zlen (mv_ns s.2) - zsum (mv_owed s.2)));
  mi_body : mq_body (mv_nodes s.2) (concat (mv_priv s.2)) (sum_list (mv_asks s.2)) s.1;
  mi_lag : mv_lag s.2 = true -> mv_ns s.2 <> [];
  mi_run : mq_run l0 (mv_hist s.2) (mv_ns s.2).*2;
  mi_owed : length (mv_owed s.2) = N;
  mi_who : Forall (fun p => (p.1 < N)%nat) (mv_hist s.2)
}.

(** What thread [i] has in the books. *)
Definition same_books i g g' : Prop :=
  mine_of i (mv_hist g') = mine_of i (mv_hist g) /\ mv_asks g' !! i = mv_asks g !! i /\
  mv_owed g' !! i = mv_owed g !! i /\ mv_priv g' !! i = mv_priv g !! i.

(** The chain grows, and both ends move forward. *)
Definition forward g g' : Prop :=
  mv_nodes g `prefix_of` mv_nodes g' /\ mv_reached g `prefix_of` mv_reached g' /\
  mv_fronts g `prefix_of` mv_fronts g'.

Definition mq_rely i s s' : Prop :=
  mq_inv s -> mq_inv s' /\ same_books i s.2 s'.2 /\ forward s.2 s'.2 /\
    (mv_effects s'.2 + busy i (mv_hist s.2) <= mv_effects s.2 + busy i (mv_hist s'.2))%nat /\
    (forall F c, mv_priv s.2 !! i = Some F -> in_live (node_blocks 24 F) c -> s'.1 !! c = s.1 !! c).

(** A thread's moves are within the relies of all others, and leave the rest of the program
    alone. *)
Definition mq_guar i s s' : Prop :=
  (forall j, i <> j -> mq_rely j s s') /\ (mq_inv s -> forall a, in_live rest a -> s'.1 !! a = s.1 !! a).

Lemma forward_refl g : forward g g.
Proof. by split_and!. Qed.

Lemma forward_trans g1 g2 g3 : forward g1 g2 -> forward g2 g3 -> forward g1 g3.
Proof. intros (A1 & A2 & A3) (B1 & B2 & B3). split_and!; by etrans. Qed.

#[local] Instance mq_rely_preorder i : PreOrder (mq_rely i).
Proof.
  split.
  - intros s Hi. split; [done|]. split; [done|]. split; [apply forward_refl|]. split; [lia|done].
  - intros s1 s2 s3 H12 H23 Hi. destruct (H12 Hi) as (Hi2 & (A1 & A2 & A3 & A4) & A5 & A6 & A7).
    destruct (H23 Hi2) as (Hi3 & (B1 & B2 & B3 & B4) & B5 & B6 & B7).
    split; [done|]. split; [split_and!; congruence|]. split; [by eapply forward_trans|]. split; [lia|].
    intros F c HF Hc. rewrite (B7 F), (A7 F); [done|done|done|congruence|done].
Qed.

#[local] Instance mq_guar_refl i : Reflexive (mq_guar i).
Proof. intros s. split; [intros j _; reflexivity|done]. Qed.

Lemma mq_guar_compatible i j s s' : i <> j -> mq_guar i s s' -> mq_rely j s s'.
Proof. intros Hne [HG _]. by apply HG. Qed.

Lemma mq_guar_inv i s s' : mq_inv s -> mq_guar i s s' -> mq_inv s'.
Proof. intros Hi [HG _]. by apply (HG (S i)); [lia|]. Qed.

(** ** Facts about the chain *)

Lemma body_sep ns F k m : mq_body ns F k m ->
  separated (node_blocks 24 (ns.*1 ++ F) ++ rest) /\
  (forall c, in_block q 24 c -> ~ in_live (node_blocks 24 (ns.*1 ++ F)) c).
Proof.
  intros [_ _ [_ [Hd Hs]] _ _]. split; [done|]. intros c Hc Hl. apply (Hd c Hc), in_live_app. by left.
Qed.

Lemma body_nodup ns F k m : mq_body ns F k m -> NoDup (ns.*1 ++ F).
Proof. intros [Hs _]%body_sep. by eapply separated_nodup; [apply msq_layout|]. Qed.

(** A node, its pair and its link. *)
Lemma body_node ns F k m A x B : mq_body ns F k m -> ns = A ++ x :: B ->
  0 < x.1 /\ m !! data_key x.1 = Some (kv_key x.2) /\ m !! data_value x.1 = Some (kv_value x.2) /\
  m !! node_next x.1 = Some (match B with [] => 0 | y :: _ => y.1 end).
Proof.
  intros [(p & Hc) _ _ _ _] ->. rewrite !fmap_app in Hc.
  apply chain_app in Hc as (r & _ & Hc); [|by rewrite !length_fmap].
  cbn [fmap list_fmap] in Hc. destruct Hc as (_ & Hx & Hk & Hv & p' & Hn & Hc).
  split; [done|]. split; [done|]. split; [done|]. unfold node_next. rewrite Hn. f_equal.
  destruct B; [done|]. by destruct Hc as (-> & _).
Qed.

Lemma body_node_in ns F k m a : mq_body ns F k m -> a ∈ ns.*1 -> exists A e B, ns = A ++ (a, e) :: B.
Proof.
  intros _ ([a' e] & -> & Hx)%list_elem_of_fmap. apply list_elem_of_split in Hx as (A & B & ->). by exists A, e, B.
Qed.

(** Writes to the header. *)
Lemma body_header ns F k m c v : mq_body ns F k m -> in_block q 24 c -> mq_body ns F k (<[c:=v]> m).
Proof.
  intros Hb Hc. pose proof (body_sep _ _ _ _ Hb) as [_ Hoff]. destruct Hb as [(p & Hch) Hp Hh Har Hr].
  assert (Hin : in_live (mq_own ns.*1 F) c) by (apply in_live_cons; by left). split.
  - exists p. eapply chain_frame_ins; [apply msq_layout| |exact Hch].
    intros Hl. apply (Hoff c Hc). rewrite node_blocks_app. apply in_live_app. by left.
  - intros a Ha. destruct (Hp a Ha) as [Ha0 Hm]. split; [done|]. intros j Hj1 Hj2. by apply lookup_ins_is_Some, Hm.
  - apply (heap_holds_update _ _ m); [done|by apply unchanged_insert|auto with arena].
  - done.
  - destruct Hh as [Hh _]. eapply fresh_room; [exact Hh| |done]. apply unchanged_insert, in_live_app. by left.
Qed.

(** Writes to a private node. *)
Lemma body_private ns F k m a j v : mq_body ns F k m -> a ∈ F -> 0 <= j < 24 -> mq_body ns F k (<[a + j:=v]> m).
Proof.
  intros Hb Ha Hj. pose proof (body_sep _ _ _ _ Hb) as [Hs _]. destruct Hb as [(p & Hch) Hp Hh Har Hr].
  assert (Hin : in_live (mq_own ns.*1 F) (a + j)).
  { apply in_live_cons. right. apply (node_in 24); [|done]. apply elem_of_app. by right. }
  split.
  - exists p. eapply chain_frame_ins; [apply msq_layout| |exact Hch]. intros Hl.
    rewrite node_blocks_app, <- app_assoc in Hs. apply separated_app in Hs as (_ & _ & Hd).
    apply (Hd _ Hl), in_live_app. left. by apply (node_in 24).
  - intros b Hb. destruct (Hp b Hb) as [Hb0 Hm]. split; [done|]. intros i Hi1 Hi2. by apply lookup_ins_is_Some, Hm.
  - apply (heap_holds_update _ _ m); [done|by apply unchanged_insert|auto with arena].
  - done.
  - destruct Hh as [Hh _]. eapply fresh_room; [exact Hh| |done]. apply unchanged_insert, in_live_app. by left.
Qed.

Lemma own_cons ns a F : mq_own ns (a :: F) ≡ₚ (a, 24) :: mq_own ns F.
Proof.
  unfold mq_own, node_blocks. rewrite <- (Permutation_middle ns F a). cbn. apply perm_swap.
Qed.

(** The private nodes in another order. *)
Lemma body_perm ns F F' k m : F ≡ₚ F' -> mq_body ns F k m -> mq_body ns F' k m.
Proof.
  intros HF [Hc Hp Hh Har Hr]. split; [done| | | |done].
  - intros a Ha. apply Hp. by rewrite HF.
  - eapply heap_holds_perm; [|exact Hh]. unfold mq_own, node_blocks. by rewrite HF.
  - by rewrite <- HF.
Qed.

(** A private node is linked to the last node of the chain. *)
Lemma body_link ns F k m a e :
  ns <> [] -> mq_body ns (a :: F) k m -> m !! data_key a = Some (kv_key e) ->
  m !! data_value a = Some (kv_value e) -> m !! node_next a = Some 0 ->
  mq_body (ns ++ [(a, e)]) F k (<[node_next (last_node ns):=a]> m).
Proof.
  intros Hne Hb Hk Hv Hn. pose proof (body_sep _ _ _ _ Hb) as [Hs Hoff].
  destruct Hb as [(p & Hch) Hp Hh Har Hr]. unfold last_node.
  assert (Hne' : ns.*1 <> []) by by destruct ns.
  assert (Ht : List.last (ns.*1) 0 ∈ ns.*1) by by apply last_elem.
  assert (Hperm : mq_own ns.*1 (a :: F) ≡ₚ mq_own (ns ++ [(a, e)]).*1 F).
  { unfold mq_own. by rewrite fmap_app, <- app_assoc. }
  assert (Hin : in_live (mq_own ns.*1 (a :: F)) (node_next (List.last (ns.*1) 0))).
  { apply in_live_cons. right. apply (node_in 24); [apply elem_of_app; by left|lia]. }
  assert (Hapart : forall c, in_block a 24 c -> ~ in_live (node_blocks 24 ns.*1) c).
  { intros c Hc Hl. rewrite node_blocks_app, <- app_assoc in Hs. apply separated_app in Hs as (_ & _ & Hd).
    apply (Hd _ Hl), in_live_app. left. apply in_live_cons. by left. }
  destruct (Hp a ltac:(left)) as [Ha _]. split.
  - exists p. rewrite !fmap_app. cbn. unfold node_next at 1.
    apply (chain_append 0 8 16 24 msq_layout); try done.
    + rewrite node_blocks_app, <- app_assoc in Hs. by apply separated_app in Hs as (Hs & _).
    + apply Hapart. addr.
    + apply Hapart. addr.
    + apply Hapart. addr.
  - intros b Hb. destruct (Hp b ltac:(by right)) as [Hb0 Hm]. split; [done|].
    intros i Hi1 Hi2. by apply lookup_ins_is_Some, Hm.
  - eapply heap_holds_perm; [exact Hperm|].
    apply (heap_holds_update _ _ m); [done|by apply unchanged_insert|auto with arena].
  - by rewrite fmap_app, <- app_assoc.
  - destruct Hh as [Hh _]. eapply fresh_room; [exact Hh| |done]. apply unchanged_insert, in_live_app. by left.
Qed.
(** ** What a thread knows *)

(** Thread [i] may ask for memory [k] more times, owes [o] to the counter, has made the events
    [evs], and has the private nodes [F]. *)
Definition at_ i (k : nat) (o : Z) evs F s : Prop :=
  mq_inv s /\ mv_asks s.2 !! i = Some k /\ mv_owed s.2 !! i = Some o /\
  seen (mine_of i (mv_hist s.2)) = evs /\ mv_priv s.2 !! i = Some F.

(** [tail], or [head], has been at the node [a]. *)
Definition passed_by_tail (a : Z) s : Prop := mq_inv s /\ a ∈ (mv_reached s.2).*1.
Definition passed_by_head (a : Z) s : Prop := mq_inv s /\ a ∈ (mv_fronts s.2).*1.

(** [tail] is beyond the node [a]. *)
Definition behind_tail (a : Z) s : Prop :=
  mq_inv s /\ exists A k B, mv_reached s.2 = A ++ (a, k) :: B /\ B <> [].

(** The node [a] links to [y]. *)
Definition links (a : Z) (y : Z * ds_kv) s : Prop :=
  mq_inv s /\ exists A k B, mv_nodes s.2 = A ++ (a, k) :: y :: B.

(** What thread [i] has written to its private nodes. *)
Definition drafted i (c : list (Z * Z)) s : Prop :=
  mq_inv s /\ exists F, mv_priv s.2 !! i = Some F /\
    Forall (fun av => in_live (node_blocks 24 F) av.1 /\ s.1 !! av.1 = Some av.2) c.

(** Thread [i] saw the queue empty, and has made no event since. *)
Definition looked i s : Prop := mq_inv s /\ exists lbs, mine_of i (mv_hist s.2) = lbs ++ [None].

(** Positions that last until something moves. *)
Definition tail_is (a : Z) g : Prop := last_node (mv_reached g) = a.
Definition end_is (a : Z) g : Prop := last_node (mv_nodes g) = a.
Definition head_is (a : Z) g : Prop := (mv_hd g).1 = a.
Definition anywhere g : Prop := True.

(** The operation of thread [i] has made [r] attempts in vain, and something moved in each of
    them; the present attempt saw [phi], or something has moved since. *)
Definition tried i (r : nat) (phi : mview -> Prop) s : Prop :=
  mq_inv s /\ exists a b, (a <= length (mv_gs s.2))%nat /\ (b <= length (mv_nodes s.2))%nat /\
    (mv_effects s.2 <= a + b + busy i (mv_hist s.2))%nat /\ (a + 2 * b + r <= mv_moves s.2 + 1)%nat /\
    (phi s.2 \/ (a + 2 * b + r < mv_moves s.2 + 1)%nat).

#[local] Instance at_stable i k o evs F : Stable (mq_rely i) (at_ i k o evs F).
Proof.
  intros s s' (Hi & A1 & A2 & A3 & A4) HR. destruct (HR Hi) as (Hi' & (B1 & B2 & B3 & B4) & _).
  split_and!; congruence.
Qed.

Lemma fmap_prefix_in {A B} (f : A -> B) l l' x : l `prefix_of` l' -> x ∈ f <$> l -> x ∈ f <$> l'.
Proof. intros [r ->] Hx. rewrite fmap_app. apply elem_of_app. by left. Qed.

#[local] Instance passed_by_tail_stable i a : Stable (mq_rely i) (passed_by_tail a).
Proof.
  intros s s' (Hi & Ha) HR. destruct (HR Hi) as (Hi' & _ & (_ & Hp & _) & _). split; [done|].
  by eapply fmap_prefix_in.
Qed.

#[local] Instance passed_by_head_stable i a : Stable (mq_rely i) (passed_by_head a).
Proof.
  intros s s' (Hi & Ha) HR. destruct (HR Hi) as (Hi' & _ & (_ & _ & Hp) & _). split; [done|].
  by eapply fmap_prefix_in.
Qed.

#[local] Instance behind_tail_stable i a : Stable (mq_rely i) (behind_tail a).
Proof.
  intros s s' (Hi & A & k & B & E & Hne) HR. destruct (HR Hi) as (Hi' & _ & (_ & [r Hp] & _) & _).
  split; [done|]. exists A, k, (B ++ r). rewrite Hp, E, <- app_assoc. split; [done|]. by destruct B.
Qed.

#[local] Instance links_stable i a y : Stable (mq_rely i) (links a y).
Proof.
  intros s s' (Hi & A & k & B & E) HR. destruct (HR Hi) as (Hi' & _ & ([r Hp] & _) & _).
  split; [done|]. exists A, k, (B ++ r). by rewrite Hp, E, <- app_assoc.
Qed.

#[local] Instance drafted_stable i c : Stable (mq_rely i) (drafted i c).
Proof.
  intros s s' (Hi & F & HF & Hc) HR. destruct (HR Hi) as (Hi' & (_ & _ & _ & B4) & _ & _ & Hk).
  split; [done|]. exists F. split; [congruence|]. eapply Forall_impl; [exact Hc|].
  intros av [Hav E]. split; [done|]. by rewrite (Hk F).
Qed.

#[local] Instance looked_stable i : Stable (mq_rely i) (looked i).
Proof.
  intros s s' (Hi & lbs & E) HR. destruct (HR Hi) as (Hi' & (B1 & _) & _). split; [done|].
  exists lbs. congruence.
Qed.

Lemma forward_moves g g' : forward g g' ->
  (length (mv_gs g) <= length (mv_gs g'))%nat /\ (length (mv_nodes g) <= length (mv_nodes g'))%nat /\
  (length (mv_reached g) <= length (mv_reached g'))%nat.
Proof.
  intros (A%prefix_length & B%prefix_length & C%prefix_length). unfold mv_fronts in C.
  rewrite !length_app in C. cbn in C. lia.
Qed.

(** Lists that only grow keep their last element as long as they do not grow. *)
Lemma prefix_last (l l' : list (Z * ds_kv)) :
  l `prefix_of` l' -> last_node l' = last_node l \/ (length l < length l')%nat.
Proof.
  intros [[|x r] ->]; [rewrite app_nil_r; by left|right]. rewrite length_app. cbn. lia.
Qed.

Lemma prefix_front (g g' : mview) : mv_fronts g `prefix_of` mv_fronts g' ->
  (mv_hd g').1 = (mv_hd g).1 \/ (length (mv_gs g) < length (mv_gs g'))%nat.
Proof.
  unfold mv_fronts. intros [r Hr]. destruct r as [|x r].
  - rewrite app_nil_r in Hr. apply app_inj_tail in Hr as [_ ->]. by left.
  - right. apply (f_equal length) in Hr. rewrite !length_app in Hr. cbn in Hr. lia.
Qed.

Class Sticky (phi : mview -> Prop) :=
  sticky g g' : forward g g' -> phi g -> phi g' \/ (mv_moves g < mv_moves g')%nat.

#[local] Instance tail_is_sticky a : Sticky (tail_is a).
Proof.
  intros g g' Hf Ha. pose proof (forward_moves _ _ Hf) as (H1 & H2 & H3). destruct Hf as (_ & Hr & _).
  unfold tail_is, mv_moves in *. destruct (prefix_last _ _ Hr); [left; congruence|right; lia].
Qed.

#[local] Instance end_is_sticky a : Sticky (end_is a).
Proof.
  intros g g' Hf Ha. pose proof (forward_moves _ _ Hf) as (H1 & H2 & H3). destruct Hf as (Hr & _).
  unfold end_is, mv_moves in *. destruct (prefix_last _ _ Hr); [left; congruence|right; lia].
Qed.

#[local] Instance head_is_sticky a : Sticky (head_is a).
Proof.
  intros g g' Hf Ha. pose proof (forward_moves _ _ Hf) as (H1 & H2 & H3). destruct Hf as (_ & _ & Hr).
  unfold head_is, mv_moves in *. destruct (prefix_front _ _ Hr); [left; congruence|right; lia].
Qed.

#[local] Instance anywhere_sticky : Sticky anywhere.
Proof. by left. Qed.

#[local] Instance and_sticky phi psi : Sticky phi -> Sticky psi -> Sticky (fun g => phi g /\ psi g).
Proof.
  intros H1 H2 g g' Hf [A B]. destruct (H1 g g' Hf A), (H2 g g' Hf B); auto.
Qed.

#[local] Instance tried_stable i r phi `{!Sticky phi} : Stable (mq_rely i) (tried i r phi).
Proof.
  intros s s' (Hi & a & b & H1 & H2 & H3 & H4 & H5) HR.
  destruct (HR Hi) as (Hi' & _ & Hf & He & _). split; [done|]. exists a, b.
  pose proof (forward_moves _ _ Hf) as (L1 & L2 & L3).
  assert (Hm : (mv_moves s.2 <= mv_moves s'.2)%nat) by (unfold mv_moves; lia).
  split; [lia|]. split; [lia|]. split; [lia|]. split; [lia|].
  destruct H5 as [H5|H5]; [|right; lia]. destruct (sticky _ _ Hf H5) as [|]; [by left|right; lia].
Qed.

(** An attempt begins, sees something, or fails. *)
Lemma tried_sees i r phi (psi : mview -> Prop) s : psi s.2 -> tried i r phi s -> tried i r psi s.
Proof. intros Hp (Hi & a & b & H1 & H2 & H3 & H4 & _). split; [done|]. exists a, b. auto 10. Qed.

Lemma tried_and i r (phi psi : mview -> Prop) s :
  psi s.2 -> tried i r phi s -> tried i r (fun g => phi g /\ psi g) s.
Proof.
  intros Hp (Hi & a & b & H1 & H2 & H3 & H4 & H5). split; [done|]. exists a, b.
  split_and!; try done. destruct H5; auto.
Qed.

Lemma tried_fails i r phi s : ~ phi s.2 -> tried i r phi s -> tried i (S r) anywhere s.
Proof.
  intros Hp (Hi & a & b & H1 & H2 & H3 & H4 & [H5|H5]); [done|]. split; [done|]. exists a, b.
  split_and!; try lia. by left.
Qed.

(** The lengths in play. *)
Lemma reached_length g : (length (mv_nodes g) <= length (mv_reached g) + 1)%nat /\
  (length (mv_reached g) <= length (mv_nodes g))%nat.
Proof.
  unfold mv_reached. destruct (mv_lag g); [|lia]. rewrite removelast_firstn_len, length_take. lia.
Qed.

Lemma tried_none i s : mq_inv s -> tried i 0 anywhere s.
Proof.
  intros Hi. split; [done|]. exists (length (mv_gs s.2)), (length (mv_nodes s.2)).
  pose proof (reached_length s.2). unfold mv_effects, mv_moves. split_and!; try lia. by left.
Qed.

Lemma tried_busy i phi s : tried i MSQUEUE_MAX_RETRIES phi s -> (5 <= busy i (mv_hist s.2))%nat.
Proof.
  intros (Hi & a & b & H1 & H2 & H3 & H4 & _). pose proof (reached_length s.2).
  unfold mv_effects, mv_moves, MSQUEUE_MAX_RETRIES in *. lia.
Qed.
(** ** Moves *)

(** The cells thread [i] may change: those of the header, of linked nodes and of its own. *)
Definition mq_writable i g (c : Z) : Prop :=
  in_block q 24 c \/ in_live (node_blocks 24 (mv_nodes g).*1) c \/
  exists F, mv_priv g !! i = Some F /\ in_live (node_blocks 24 F) c.

Lemma private_apart i j g m F F' c : mq_inv (m, g) -> i <> j ->
  mv_priv g !! i = Some F -> mv_priv g !! j = Some F' ->
  in_live (node_blocks 24 F) c -> ~ in_live (node_blocks 24 F') c.
Proof.
  intros Hi Hne HF HF' Hc Hc'. pose proof (body_sep _ _ _ _ (mi_body _ Hi)) as [Hs _]. cbn in Hs.
  destruct (concat_owner _ _ _ HF []) as (R & HR & HR0).
  destruct (concat_owner (<[i:=[]]> (mv_priv g)) j F' ltac:(by rewrite list_lookup_insert_ne) []) as (R' & HR' & _).
  rewrite HR0, app_nil_l in HR'.
  rewrite node_blocks_app, <- app_assoc in Hs. apply separated_app in Hs as (_ & Hs & _).
  eapply (separated_perm _ ((node_blocks 24 F ++ node_blocks 24 F') ++ node_blocks 24 R' ++ rest)) in Hs.
  - apply separated_app in Hs as (Hs & _ & _). apply separated_app in Hs as (_ & _ & Hd). by apply (Hd c).
  - unfold node_blocks. by rewrite HR, HR', !map_app, <- !app_assoc.
Qed.

Lemma writable_apart i j g m F c : mq_inv (m, g) -> i <> j -> mv_priv g !! j = Some F ->
  mq_writable i g c -> ~ in_live (node_blocks 24 F) c /\ ~ in_live rest c.
Proof.
  intros Hi Hne HF Hw. pose proof (mi_body _ Hi) as Hb. pose proof (body_sep _ _ _ _ Hb) as [Hs Hoff]. cbn in *.
  assert (Hsub : forall F, F ⊆ concat (mv_priv g) -> in_live (node_blocks 24 F) c ->
    in_live (node_blocks 24 (concat (mv_priv g))) c).
  { intros F0 H0. apply in_live_sub. intros x (y & <- & Hy)%list_elem_of_In%in_map_iff.
    apply list_elem_of_In, in_map_iff. exists y. split; [done|]. apply list_elem_of_In, H0. by apply list_elem_of_In. }
  assert (HFs : F ⊆ concat (mv_priv g)) by (intros x; by apply (concat_in _ j)).
  assert (Hown : in_live (mq_own (mv_nodes g).*1 (concat (mv_priv g))) c).
  { apply in_live_cons. destruct Hw as [Hw|[Hw|(F' & HF' & Hw)]]; [by left|right|right];
      rewrite node_blocks_app; apply in_live_app; [by left|right].
    apply (Hsub F'); [intros x; by apply (concat_in _ i)|done]. }
  split.
  - intros Hl. destruct Hw as [Hw|[Hw|(F' & HF' & Hw)]].
    + apply (Hoff c Hw). rewrite node_blocks_app. apply in_live_app. right. by apply (Hsub F).
    + rewrite node_blocks_app, <- app_assoc in Hs. apply separated_app in Hs as (_ & _ & Hd).
      apply (Hd c Hw), in_live_app. left. by apply (Hsub F).
    + by apply (private_apart i j g m F' F c).
  - destruct Hb as [_ _ [_ Hsep] _ _]. apply separated_app in Hsep as (_ & _ & Hd). by apply Hd.
Qed.

Lemma writable_rest i g m c : mq_inv (m, g) -> mq_writable i g c -> ~ in_live rest c.
Proof.
  intros Hi Hw. pose proof (mi_body _ Hi) as [_ _ [_ Hsep] _ _]. apply separated_app in Hsep as (_ & _ & Hd).
  apply Hd, in_live_cons. rewrite node_blocks_app. destruct Hw as [Hw|[Hw|(F' & HF' & Hw)]];
    [by left|right; apply in_live_app; by left|right; apply in_live_app; right].
  revert Hw. apply in_live_sub. intros x (y & <- & Hy)%list_elem_of_In%in_map_iff.
  apply list_elem_of_In, in_map_iff. exists y. split; [done|]. apply list_elem_of_In, (concat_in _ i F'); [done|].
  by apply list_elem_of_In.
Qed.

(** A move of thread [i] that writes one cell, or none. *)
Lemma guar_intro i m g m' g' :
  mq_inv (m', g') -> (forall j, i <> j -> same_books j g g') -> forward g g' ->
  (forall j, i <> j -> (mv_effects g' + busy j (mv_hist g) <= mv_effects g + busy j (mv_hist g'))%nat) ->
  unchanged_outside (mq_writable i g) m m' -> mq_guar i (m, g) (m', g').
Proof.
  intros Hi' Hb Hf He Hu. split.
  - intros j Hne Hi. split; [done|]. split; [by apply Hb|]. split; [done|]. split; [by apply He|].
    intros F c HF Hc. apply Hu. intros Hw. by destruct (writable_apart i j g m F c Hi Hne HF Hw).
  - intros Hi a Ha. apply Hu. intros Hw. by apply (writable_rest i g m a Hi Hw).
Qed.

(** Thread [i] makes a label; it then owes [o] and has the private nodes [F]. *)
Definition log i (lb : option event) o F gs hd ns lag g : mview :=
  mk_mview gs hd ns lag (mv_hist g ++ [(i, lb)]) (mv_asks g) (<[i:=o]> (mv_owed g)) (<[i:=F]> (mv_priv g)).

Lemma log_books i lb o F gs hd ns lag g j : i <> j -> same_books j g (log i lb o F gs hd ns lag g).
Proof. intros Hne. unfold same_books, log; cbn. by rewrite mine_of_snoc_ne, !list_lookup_insert_ne. Qed.

Lemma mq_log_at i ev o F gs hd ns lag g m m' k evs o0 F0 :
  at_ i k o0 evs F0 (m, g) -> mq_inv (m', log i (Some ev) o F gs hd ns lag g) ->
  at_ i k o (evs ++ [ev]) F (m', log i (Some ev) o F gs hd ns lag g).
Proof.
  intros (_ & A1 & A2 & A3 & A4) Hi'. cbn in *. split; [done|]. cbn.
  rewrite mine_of_snoc, seen_snoc, A3, !list_lookup_insert_eq by (by eapply lookup_lt_Some). done.
Qed.

(** A label that moves nothing: an operation that failed, or a mark. *)
Definition stays i lb g : mview :=
  log i lb 0 (default [] (mv_priv g !! i)) (mv_gs g) (mv_hd g) (mv_ns g) (mv_lag g) g.

Lemma stays_ok m g i k evs F lb :
  at_ i k 0 evs F (m, g) -> (forall ev, lb = Some ev -> succeeded ev = false) ->
  mq_step (busy i (mv_hist g)) (mv_ns g).*2 lb (mv_ns g).*2 ->
  mq_guar i (m, g) (m, stays i lb g) /\ at_ i k 0 (evs ++ seen [lb]) F (m, stays i lb g).
Proof.
  intros (Hi & A1 & A2 & A3 & A4) Hev Hs. cbn in *. unfold stays. rewrite A4. cbn [default].
  set (g' := log i lb 0 F (mv_gs g) (mv_hd g) (mv_ns g) (mv_lag g) g).
  assert (Hi' : mq_inv (m, g')).
  { destruct Hi as [E1 E2 E3 Hb Hl Hr Ho Hwho]. cbn in *. split; cbn; try done.
    - by rewrite (zsum_insert _ _ _ _ A2), Z.sub_0_r, Z.add_0_r.
    - by rewrite (list_insert_id _ _ _ A4).
    - by econstructor.
    - by rewrite length_insert.
    - eapply who_snoc; [exact Ho|exact A2|done]. }
  split.
  - apply guar_intro; [done|by apply log_books|by split_and!| |apply unchanged_refl].
    intros j Hne. cbn. destruct lb as [ev|]; [by rewrite busy_snoc, Hev|by rewrite busy_mark].
  - split; [done|]. cbn. rewrite mine_of_snoc. unfold seen at 1. rewrite omap_app. fold (seen (mine_of i (mv_hist g))).
    rewrite A3, !list_lookup_insert_eq by (by eapply lookup_lt_Some). done.
Qed.

(** *** Attempts *)

(** Moves of a thread compose. *)
Lemma mq_guar_trans i s1 s2 s3 : mq_guar i s1 s2 -> mq_guar i s2 s3 -> mq_guar i s1 s3.
Proof.
  intros [A1 A2] [B1 B2]. split.
  - intros j Hne. etrans; [by apply A1|by apply B1].
  - intros Hi a Ha. destruct (A1 (S i) ltac:(lia) Hi) as [Hi2 _]. rewrite B2, A2; done.
Qed.

(** The answer of an operation that lost every attempt. *)
Definition gives_up (ev : event) : Prop :=
  succeeded ev = false /\ forall n l, (5 <= n)%nat -> mq_step n l (Some ev) l.

(** What a thread knows of itself. *)
Definition me i k o evs F c s : Prop := at_ i k o evs F s /\ drafted i c s.

#[local] Instance me_stable i k o evs F c : Stable (mq_rely i) (me i k o evs F c).
Proof. unfold me. apply _. Qed.

(** The operation of thread [i] has made [r] attempts in vain. After the last one it has given
    up, with the event [ev]. *)
Definition attempt i k evs F c ev r s : Prop :=
  if decide (r = MSQUEUE_MAX_RETRIES) then at_ i k 0 (evs ++ [ev]) F s
  else me i k 0 evs F c s /\ tried i r anywhere s.

#[local] Instance attempt_stable i k evs F c ev r : Stable (mq_rely i) (attempt i k evs F c ev r).
Proof. unfold attempt. destruct (decide _); apply _. Qed.

Lemma attempts m g m' g' i k evs F c ev r :
  gives_up ev -> mq_guar i (m, g) (m', g') -> me i k 0 evs F c (m', g') -> tried i r anywhere (m', g') ->
  exists g'', mq_guar i (m, g) (m', g'') /\ attempt i k evs F c ev r (m', g'').
Proof.
  intros [Hev Hs] HG Hme Ht. unfold attempt. destruct (decide _) as [->|]; [|by exists g'].
  destruct (stays_ok m' g' i k evs F (Some ev)) as [HG' Hat]; [apply Hme|by intros ? [= <-]| |].
  - apply Hs. by eapply (tried_busy i _ (m', g')).
  - exists (stays i (Some ev) g'). split; [by eapply mq_guar_trans|done].
Qed.

(** ** The accesses *)

Lemma at_drafted i k o evs F s : at_ i k o evs F s -> drafted i [] s.
Proof. intros (Hi & _ & _ & _ & HF). split; [done|]. by exists F. Qed.

(** What a request leaves alone, and what it adds. *)
Lemma body_spared ns F k k' m m' : mq_body ns F k m -> spares (mq_own ns.*1 F ++ rest) m m' -> room 24 k' m' ->
  (heap_ok (mq_own ns.*1 F ++ rest) m' -> mq_body ns F k' m') /\
  (forall a, 0 < a -> in_arena a -> disjoint_block a 24 (mq_own ns.*1 F ++ rest) -> mapped_words a 24 m' ->
     heap_ok ((a, 24) :: mq_own ns.*1 F ++ rest) m' -> mq_body ns (a :: F) k' m').
Proof.
  intros [(p & Hch) Hp Hh Har _] [Hsame Hg] Hroom.
  assert (Hch' : elems m' p ns.*1 ns.*2).
  { eapply chain_frame; [apply msq_layout| |exact Hch]. intros c Hc. apply Hsame, in_live_app. left.
    apply in_live_cons. right. rewrite node_blocks_app. apply in_live_app. by left. }
  assert (Hp' : forall b, b ∈ F -> 0 < b /\ mapped_words b 24 m').
  { intros b Hb. destruct (Hp b Hb) as [Hb0 Hm]. split; [done|]. intros j Hj1 Hj2. by apply Hg, Hm. }
  split.
  - intros Hheap. split; [by exists p|done| |done|done]. split; [exact Hheap|apply Hh].
  - intros a Ha Hin Hd Hma Hheap. split; [by exists p| | | |done].
    + intros b [->|Hb]%elem_of_cons; [done|by apply Hp'].
    + eapply (heap_holds_perm ((a, 24) :: mq_own ns.*1 F)); [symmetry; apply own_cons|].
      split; [exact Hheap|]. split; [exact Hd|apply Hh].
    + rewrite <- (Permutation_middle ns.*1 F a). by constructor.
Qed.

(** A request of thread [i], and perhaps its answer. *)
Definition asked i k (lbs : labels) F g : mview :=
  mk_mview (mv_gs g) (mv_hd g) (mv_ns g) (mv_lag g) (mv_hist g ++ lbs) (<[i:=k]> (mv_asks g)) (mv_owed g) (<[i:=F]> (mv_priv g)).

Lemma asked_ok m g m' i k evs F F' lbs :
  at_ i (S k) 0 evs F (m, g) -> lbs = [] \/ (exists e, lbs = [(i, Some (EInsert e DS_ERROR_NOMEM))]) ->
  spares (mq_own (mv_nodes g).*1 (concat (mv_priv g)) ++ rest) m m' ->
  mq_body (mv_nodes g) (concat (<[i:=F']> (mv_priv g))) (sum_list (<[i:=k]> (mv_asks g))) m' ->
  mq_guar i (m, g) (m', asked i k lbs F' g) /\ at_ i k 0 (evs ++ seen (mine_of i lbs)) F' (m', asked i k lbs F' g).
Proof.
  intros (Hi & A1 & A2 & A3 & A4) Hlbs [Hsame Hg] Hb'. cbn [fst snd] in *.
  assert (Hown : forall c, in_live (mq_own (mv_nodes g).*1 (concat (mv_priv g))) c -> m' !! c = m !! c)
    by (intros c Hc; apply Hsame, in_live_app; by left).
  assert (Hhd : forall c, in_block q 24 c -> m' !! c = m !! c) by (intros c Hc; apply Hown, in_live_cons; by left).
  assert (Hi' : mq_inv (m', asked i k lbs F' g)).
  { destruct Hi as [E1 E2 E3 _ Hl Hrun Ho Hwho]. cbn in *. split; cbn; try (rewrite Hhd by addr); try done.
    - destruct Hlbs as [-> | (e & ->)]; [by rewrite app_nil_r|]. econstructor; [exact Hrun|]. constructor.
    - destruct Hlbs as [-> | (e & ->)]; [by rewrite app_nil_r|]. eapply who_snoc; [exact Ho|exact A2|done]. }
  split; [split|].
  - intros j Hne _. split; [done|]. split.
    { unfold same_books; cbn. rewrite !list_lookup_insert_ne by done.
      destruct Hlbs as [-> | (e & ->)]; [by rewrite app_nil_r|by rewrite mine_of_snoc_ne]. }
    split; [by split_and!|]. split.
    { cbn. change (mv_effects (asked i k lbs F' g)) with (mv_effects g).
      destruct Hlbs as [-> | (e & ->)]; [by rewrite app_nil_r|by rewrite busy_snoc]. }
    intros F0 c HF0 Hc. apply Hown, in_live_cons. right. rewrite node_blocks_app. apply in_live_app. right.
    revert Hc. apply in_live_sub.
    intros x (y & <- & Hy)%list_elem_of_In%in_map_iff. apply list_elem_of_In, in_map_iff. exists y. split; [done|].
    apply list_elem_of_In, (concat_in _ j F0); [done|]. by apply list_elem_of_In.
  - intros _ c Hc. apply Hsame, in_live_app. by right.
  - split; [done|]. cbn. rewrite mine_of_app. unfold seen at 1. rewrite omap_app.
    fold (seen (mine_of i (mv_hist g))). rewrite A3, !list_lookup_insert_eq by (by eapply lookup_lt_Some). done.
Qed.

(** A new node, or none: then the insertion is refused here. *)
Lemma asks {A n n'} (f : Z -> prog A) i k evs F e Q :
  btriple (mq_rely i) (mq_guar i) n (at_ i k 0 (evs ++ [EInsert e DS_ERROR_NOMEM]) F) (f 0) n' Q ->
  (forall a, 0 < a -> btriple (mq_rely i) (mq_guar i) n (at_ i k 0 evs (a :: F)) (f a) n' Q) ->
  btriple (mq_rely i) (mq_guar i) n (at_ i (S k) 0 evs F) (bpf_arena_alloc 24 ≫= f) n' Q.
Proof.
  intros Hno Hyes.
  apply (fresh_alloc _ _ 24 f _ _ _ (fun a s => (a = 0 /\ at_ i k 0 (evs ++ [EInsert e DS_ERROR_NOMEM]) F s) \/
    (0 < a /\ at_ i k 0 evs (a :: F) s)) Q); [done|done|apply _|apply _| | |].
  2:{ intros a s [[_ (Hi & _)]|[_ (Hi & _)]]; destruct (mi_body _ Hi) as [_ _ [Hh _] _ _]; by eexists. }
  2:{ intros a. apply triple_or; apply triple_pure; [by intros ->|apply Hyes]. }
  intros m g Hat. pose proof Hat as (Hi & A1 & A2 & A3 & A4). pose proof (mi_body _ Hi) as Hb. cbn [fst snd] in *.
  pose proof (sum_list_insert _ _ _ k A1) as Hsum.
  exists (mq_own (mv_nodes g).*1 (concat (mv_priv g)) ++ rest), (sum_list (<[i:=k]> (mv_asks g))).
  split; [apply (mb_heap _ _ _ _ Hb)|].
  split; [replace (S _) with (sum_list (mv_asks g)) by lia; apply (mb_room _ _ _ _ Hb)|].
  intros a m' Hsp Hroom Ha. destruct (body_spared _ _ _ _ _ _ Hb Hsp Hroom) as [Hbno Hbyes].
  destruct Ha as [[-> Hheap]|(Ha & Hin & Hd & Hma & Hheap)].
  - destruct (asked_ok m g m' i k evs F F [(i, Some (EInsert e DS_ERROR_NOMEM))] Hat) as [HG Hat'];
      [right; by exists e|done|by rewrite (list_insert_id _ _ _ A4); apply Hbno|].
    unfold mine_of in Hat'. cbn in Hat'. rewrite decide_True in Hat' by done. eexists. split; [exact HG|]. by left.
  - destruct (asked_ok m g m' i k evs F (a :: F) [] Hat) as [HG Hat']; [by left|done| |].
    { eapply body_perm; [|by apply Hbyes]. destruct (concat_owner _ _ _ A4 (a :: F)) as (R & -> & ->). done. }
    rewrite app_nil_r in Hat'. eexists. split; [exact HG|]. by right.
Qed.

(** Writing a private node. *)
Lemma drafts {A n n'} o a j v (f : unit -> prog A) i k r evs F c Q :
  j = 0 \/ j = 8 \/ j = 16 -> Forall (fun av => av.1 <> a + j) c ->
  btriple (mq_rely i) (mq_guar i) n (fun s => at_ i k r evs (a :: F) s /\ drafted i ((a + j, v) :: c) s) (f tt) n' Q ->
  btriple (mq_rely i) (mq_guar i) n (fun s => at_ i k r evs (a :: F) s /\ drafted i c s)
    (store o (a + j) v ≫= f) n' Q.
Proof.
  intros Hj Hnew Hf. eapply triple_store; [apply _| |exact Hf].
  intros [m g] (Hat & _ & F' & HF' & Hc). pose proof Hat as (Hi & A1 & A2 & A3 & A4). cbn in *.
  rewrite A4 in HF'. injection HF' as <-.
  assert (Hap : a ∈ concat (mv_priv g)) by (eapply concat_in; [exact A4|left]).
  pose proof Hi as [E1 E2 E3 Hb Hl Hr Ho Hwho]. cbn in *. destruct (mb_priv _ _ _ _ Hb a Hap) as [Ha Hma].
  assert (Hin : in_live (node_blocks 24 (a :: F)) (a + j)) by (apply (node_in 24); [left|lia]).
  split; [destruct Hj as [-> | [-> | ->]]; [apply (Hma 0)|apply (Hma 1)|apply (Hma 2)]; lia|].
  assert (Hoff : forall x, in_block q 24 x -> <[a + j:=v]> m !! x = m !! x).
  { intros x Hx. apply lookup_insert_ne. intros <-. destruct (body_sep _ _ _ _ Hb) as [_ Hoff]. apply (Hoff _ Hx).
    apply (node_in 24); [apply elem_of_app; by right|lia]. }
  assert (Hi' : mq_inv (<[a + j:=v]> m, g)).
  { split; cbn; try (rewrite Hoff by addr); try done. apply body_private; [done|done|lia]. }
  exists g. split.
  { apply guar_intro; [done|by intros ? _|apply forward_refl|done|]. apply unchanged_insert. right. right.
    exists (a :: F). by split. }
  split; [by split_and!|]. split; [done|]. exists (a :: F). split; [done|].
  constructor; [split; [done|apply lookup_insert_eq]|]. clear -Hnew Hc.
  induction Hc as [|[b w] c [Hb E] Hc IH]; [done|]. apply Forall_cons in Hnew as [Hne Hnew]. cbn in *.
  constructor; [|by apply IH]. cbn. split; [done|]. by rewrite lookup_insert_ne by congruence.
Qed.

(** *** Reading [tail] and [head] *)

Lemma fronts_nodes g : mv_fronts g `prefix_of` mv_nodes g.
Proof. by eexists. Qed.

Lemma removelast_prefix {A} (l : list A) : removelast l `prefix_of` l.
Proof. destruct l as [|x l]; [done|]. exists [List.last (x :: l) x]. by apply app_removelast_last. Qed.

Lemma reached_nodes g : mv_reached g `prefix_of` mv_nodes g.
Proof. unfold mv_reached. destruct (mv_lag g); [apply removelast_prefix|done]. Qed.

Lemma removelast_app_ne {A} (l : list A) x l' : removelast (l ++ x :: l') = l ++ removelast (x :: l').
Proof. by apply removelast_app. Qed.

(** [tail] is never behind [head]. *)
Lemma fronts_reached s : mq_inv s -> mv_fronts s.2 `prefix_of` mv_reached s.2.
Proof.
  intros Hi. unfold mv_reached, mv_nodes. destruct (mv_lag s.2) eqn:El; [|by eexists].
  pose proof (mi_lag _ Hi El) as Hns. destruct (mv_ns s.2) as [|x ns]; [done|].
  rewrite removelast_app_ne. by eexists.
Qed.

Lemma reached_last s : mq_inv s -> exists A x, mv_reached s.2 = A ++ [x] /\ last_node (mv_reached s.2) = x.1.
Proof.
  intros Hi. destruct (fronts_reached s Hi) as [r Hr].
  assert (Hne : mv_reached s.2 <> []) by (rewrite Hr; unfold mv_fronts; by destruct (mv_gs s.2)).
  destruct (exists_last Hne) as (A & x & ->). exists A, x. split; [done|].
  unfold last_node. rewrite fmap_app. apply last_snoc.
Qed.

Lemma reads_tail {A n n'} o (f : Z -> prog A) i r phi P Q : Stable (mq_rely i) P ->
  (forall t, btriple (mq_rely i) (mq_guar i) n (fun s => P s /\ passed_by_tail t s /\ tried i r (tail_is t) s) (f t) n' Q) ->
  Sticky phi -> btriple (mq_rely i) (mq_guar i) n (fun s => P s /\ tried i r phi s) (load o (tail q) ≫= f) n' Q.
Proof.
  intros HP Hf Hphi. apply (triple_load_lin _ _ _ _ _ _ (fun t s => P s /\ passed_by_tail t s /\ tried i r (tail_is t) s));
    [apply _| |exact Hf].
  intros [m g] (Hs & Ht). pose proof (proj1 Ht) as Hi. destruct (reached_last _ Hi) as (A0 & x & Hx & El). cbn [fst snd] in *.
  exists x.1. split; [rewrite <- El; apply (mi_tail _ Hi)|]. exists g. split; [reflexivity|]. split; [done|]. split.
  - split; [done|]. cbn. rewrite Hx. apply list_elem_of_fmap_2, elem_of_app. right. left.
  - by apply (tried_sees _ _ phi).
Qed.

Lemma reads_head {A n n'} o (f : Z -> prog A) i r phi P Q : Stable (mq_rely i) P ->
  (forall x, 0 < x -> btriple (mq_rely i) (mq_guar i) n
     (fun s => P s /\ passed_by_head x s /\ tried i r (head_is x) s) (f x) n' Q) ->
  Sticky phi -> btriple (mq_rely i) (mq_guar i) n (fun s => P s /\ tried i r phi s) (load o (head q) ≫= f) n' Q.
Proof.
  intros HP Hf Hphi. apply (triple_load_lin _ _ _ _ _ _
    (fun x s => 0 < x /\ P s /\ passed_by_head x s /\ tried i r (head_is x) s)); [apply _| |].
  - intros [m g] (Hs & Ht). pose proof (proj1 Ht) as Hi. cbn [fst snd] in *.
    exists (mv_hd g).1. split; [apply (mi_head _ Hi)|]. exists g. split; [reflexivity|].
    destruct (body_node _ _ _ _ (mv_gs g) (mv_hd g) (mv_ns g) (mi_body _ Hi)) as (Hpos & _).
    { cbn. unfold mv_nodes, mv_fronts. by rewrite <- app_assoc. }
    split; [done|]. split; [done|]. split.
    + split; [done|]. unfold mv_fronts. cbn. rewrite fmap_app. apply elem_of_app. right. left.
    + by apply (tried_sees _ _ phi).
  - intros x. apply triple_pure, Hf.
Qed.

(** [tail], read after [head]: it is at the node [x] or beyond. *)
Lemma reads_tail_after {A n n'} o x (f : Z -> prog A) i r phi P Q : Stable (mq_rely i) P ->
  btriple (mq_rely i) (mq_guar i) n (fun s => P s /\ passed_by_head x s /\ tried i r (fun g => phi g /\ tail_is x g) s) (f x) n' Q ->
  (forall t, t <> x -> 0 < t -> btriple (mq_rely i) (mq_guar i) n
     (fun s => P s /\ passed_by_head x s /\ tried i r phi s /\ behind_tail x s) (f t) n' Q) ->
  Sticky phi -> btriple (mq_rely i) (mq_guar i) n (fun s => P s /\ passed_by_head x s /\ tried i r phi s)
    (load o (tail q) ≫= f) n' Q.
Proof.
  intros HP Hsame Hbeyond Hphi.
  apply (triple_load_lin _ _ _ _ _ _ (fun t s =>
    (t = x /\ P s /\ passed_by_head x s /\ tried i r (fun g => phi g /\ tail_is x g) s) \/
    ((t <> x /\ 0 < t) /\ P s /\ passed_by_head x s /\ tried i r phi s /\ behind_tail x s))); [apply _| |].
  - intros [m g] (Hs & Hx & Ht). pose proof (proj1 Ht) as Hi.
    destruct (reached_last _ Hi) as (A0 & y & Hy & El). cbn [fst snd] in *.
    exists y.1. split; [rewrite <- El; apply (mi_tail _ Hi)|]. exists g. split; [reflexivity|].
    destruct (decide (y.1 = x)) as [Hyx|Hne].
    + left. split; [done|]. split; [done|]. split; [done|]. apply tried_and; [|done]. unfold tail_is; cbn. congruence.
    + right. destruct (reached_nodes g) as [r' Hr']. rewrite Hy, <- app_assoc in Hr'. split.
      { split; [done|]. by destruct (body_node _ _ _ _ _ _ _ (mi_body _ Hi) Hr'). }
      split; [done|]. split; [done|]. split; [done|]. split; [done|]. cbn.
      destruct Hx as [_ Hx]. destruct (fronts_reached _ Hi) as [r0 Hr0]. cbn in *.
      assert (Hin : x ∈ (mv_reached g).*1) by (rewrite Hr0, fmap_app; apply elem_of_app; by left).
      rewrite Hy, fmap_app in Hin. apply elem_of_app in Hin as [Hin|Hin].
      * apply list_elem_of_fmap in Hin as ([x' e] & -> & Hin). apply list_elem_of_split in Hin as (B1 & B2 & ->).
        exists B1, e, (B2 ++ [y]). rewrite Hy, <- app_assoc. split; [done|]. by destruct B2.
      * by apply list_elem_of_singleton in Hin.
  - intros t. apply triple_or; apply triple_pure; [by intros ->|]. intros [H1 H2]. by apply Hbeyond.
Qed.

(** *** Links *)

(** A node and its place are determined by each other. *)
Lemma node_place g m A x B A' x' B' : mq_inv (m, g) ->
  mv_nodes g = A ++ x :: B -> mv_nodes g = A' ++ x' :: B' -> x.1 = x'.1 -> A = A' /\ x = x' /\ B = B'.
Proof.
  intros Hi E E' Hx. pose proof (body_nodup _ _ _ _ (mi_body _ Hi)) as Hnd. cbn in Hnd.
  apply NoDup_app in Hnd as (Hnd & _ & _).
  assert (Hlen : length A = length A').
  { eapply NoDup_lookup; [exact Hnd| |].
    - rewrite E, fmap_app, lookup_app_r by (by rewrite length_fmap). rewrite length_fmap, Nat.sub_diag. done.
    - rewrite E', fmap_app, lookup_app_r by (by rewrite length_fmap). rewrite length_fmap, Nat.sub_diag. cbn. congruence. }
  rewrite E in E'. apply app_inj_1 in E' as [-> E']; [|done]. by injection E' as -> ->.
Qed.

(** A node that links to another one is not the last. *)
Lemma links_end a y m g : links a y (m, g) -> ~ end_is a g.
Proof.
  intros (Hi & A & k & B & E) He. unfold end_is in He. cbn in E.
  destruct (exists_last (l := y :: B) ltac:(done)) as (C & z & Ez).
  assert (E' : mv_nodes g = (A ++ (a, k) :: C) ++ z :: []) by (rewrite E, Ez; by rewrite <- app_assoc).
  rewrite E', last_node_snoc in He.
  destruct (node_place g m _ _ _ _ _ _ Hi E E' ltac:(done)) as (HA & _).
  apply (f_equal length) in HA. rewrite length_app in HA. cbn in HA. lia.
Qed.

(** A lagging tail, and what it links to. *)
Lemma tail_links a y m g : links a y (m, g) -> tail_is a g -> mv_lag g = true /\ last_node (mv_nodes g) = y.1.
Proof.
  intros Hl Ht. pose proof (links_end _ _ _ _ Hl) as Hne. unfold tail_is, end_is, mv_reached in *.
  destruct (mv_lag g) eqn:El; [|done]. split; [done|].
  destruct Hl as (Hi & A & k & B & E). cbn in E.
  destruct (reached_last _ Hi) as (R & x & HR & Hx). cbn in HR, Hx. unfold mv_reached in HR, Hx. rewrite El in HR, Hx.
  assert (Hn : mv_nodes g <> []) by (rewrite E; by destruct A).
  assert (E' : mv_nodes g = R ++ x :: [List.last (mv_nodes g) x]).
  { rewrite (app_removelast_last x Hn) at 1. rewrite HR. by rewrite <- app_assoc. }
  destruct (node_place g m _ _ _ _ _ _ Hi E E' ltac:(cbn; congruence)) as (_ & _ & Hy). injection Hy as Hy _.
  rewrite (app_removelast_last x Hn), last_node_snoc. by rewrite <- Hy.
Qed.

Lemma reads_next {A n n'} o a (f : Z -> prog A) i r phi P Q : Stable (mq_rely i) P ->
  (forall s, P s -> mq_inv s -> a ∈ (mv_nodes s.2).*1) ->
  btriple (mq_rely i) (mq_guar i) n (fun s => P s /\ tried i r (end_is a) s) (f 0) n' Q ->
  (forall y, 0 < y.1 -> btriple (mq_rely i) (mq_guar i) n (fun s => P s /\ tried i r phi s /\ links a y s) (f y.1) n' Q) ->
  Sticky phi -> btriple (mq_rely i) (mq_guar i) n (fun s => P s /\ tried i r phi s) (load o (node_next a) ≫= f) n' Q.
Proof.
  intros HP Hin Hend Hlinks Hphi.
  apply (triple_load_lin _ _ _ _ _ _ (fun v s => (v = 0 /\ P s /\ tried i r (end_is a) s) \/
    (exists y : Z * ds_kv, (v = y.1 /\ 0 < y.1) /\ P s /\ tried i r phi s /\ links a y s))); [apply _| |].
  - intros [m g] (Hs & Ht). pose proof (proj1 Ht) as Hi. pose proof (Hin _ Hs Hi) as Ha.
    destruct (body_node_in _ _ _ _ _ (mi_body _ Hi) Ha) as (A0 & e & B & E). cbn in *.
    destruct (body_node _ _ _ _ _ _ _ (mi_body _ Hi) E) as (_ & _ & _ & En). cbn in En.
    eexists. split; [exact En|]. exists g. split; [reflexivity|]. destruct B as [|y B].
    + left. split; [done|]. split; [done|]. apply (tried_sees _ _ phi); [|done].
      unfold end_is; cbn. by rewrite E, last_node_snoc.
    + right. exists y. assert (E' : mv_nodes g = (A0 ++ [(a, e)]) ++ y :: B) by (by rewrite <- app_assoc).
      destruct (body_node _ _ _ _ _ _ _ (mi_body _ Hi) E') as (Hy & _).
      split; [done|]. split; [done|]. split; [done|]. split; [done|]. by exists A0, e, B.
  - intros v. apply triple_or; [by apply triple_pure; intros ->|]. apply triple_exists. intros y.
    apply triple_pure. intros [-> Hy]. by apply Hlinks.
Qed.

(** *** [tail] swings *)

Definition set_lag (lag : bool) g : mview :=
  mk_mview (mv_gs g) (mv_hd g) (mv_ns g) lag (mv_hist g) (mv_asks g) (mv_owed g) (mv_priv g).

(** Writes to the header leave a thread's drafts alone. *)
Lemma drafted_header i c m g g' x v : drafted i c (m, g) -> mv_priv g' = mv_priv g -> in_block q 24 x ->
  mq_inv (<[x:=v]> m, g') -> drafted i c (<[x:=v]> m, g').
Proof.
  intros (Hi & F & HF & Hc) Hpriv Hx Hi'. split; [done|]. cbn in *. rewrite Hpriv. exists F. split; [done|].
  eapply Forall_impl; [exact Hc|]. intros [b w] [Hb E]; cbn in *. split; [done|].
  rewrite lookup_insert_ne; [done|]. intros <-. destruct (body_sep _ _ _ _ (mi_body _ Hi)) as [_ Hoff]. apply (Hoff _ Hx).
  cbn. rewrite node_blocks_app. apply in_live_app. right. revert Hb. apply in_live_sub.
  intros z (y & <- & Hy)%list_elem_of_In%in_map_iff. apply list_elem_of_In, in_map_iff. exists y. split; [done|].
  apply list_elem_of_In, (concat_in _ i F); [done|]. by apply list_elem_of_In.
Qed.

Lemma swings_ok m g i k o evs F c a y :
  me i k o evs F c (m, g) -> links a y (m, g) -> m !! tail q = Some a ->
  let s' := (<[tail q:=y.1]> m, set_lag false g) in
  mq_guar i (m, g) s' /\ me i k o evs F c s' /\ (mv_moves g < mv_moves (set_lag false g))%nat.
Proof.
  intros [Hat Hd] Hl Ea s'. pose proof Hat as (Hi & A1 & A2 & A3 & A4).
  assert (Ht : tail_is a g) by (pose proof (mi_tail _ Hi) as E; cbn in E; unfold tail_is; congruence).
  destruct (tail_links _ _ _ _ Hl Ht) as [El Ey].
  assert (Hi' : mq_inv s').
  { destruct Hi as [E1 E2 E3 Hb Hlg Hr Ho Hwho]. cbn in *. unfold s'. split; cbn; try done; try mlook.
    - unfold mv_reached; cbn. by rewrite lookup_insert_eq, <- Ey.
    - apply body_header; [done|addr]. }
  assert (Hf : forward g (set_lag false g)).
  { split; [done|]. split; [|done]. unfold mv_reached. rewrite El. cbn. apply removelast_prefix. }
  split; [|split].
  - apply guar_intro; [done|by intros ? _|done|done|]. apply unchanged_insert. left. addr.
  - split; [by split_and!|]. eapply drafted_header; [exact Hd|done|addr|done].
  - assert (Hlen : (1 <= length (mv_nodes g))%nat) by (unfold mv_nodes, mv_fronts; rewrite !length_app; cbn; lia).
    unfold mv_moves. cbn [mv_gs set_lag]. change (mv_nodes (set_lag false g)) with (mv_nodes g).
    change (mv_reached (set_lag false g)) with (mv_nodes g). unfold mv_reached. rewrite El.
    rewrite removelast_firstn_len, length_take. lia.
Qed.

(** Something moved in this attempt. *)
Lemma tried_moved i r phi m g m' g' : tried i r phi (m, g) -> mq_inv (m', g') -> forward g g' ->
  (mv_effects g' + busy i (mv_hist g) <= mv_effects g + busy i (mv_hist g'))%nat ->
  (mv_moves g < mv_moves g')%nat -> tried i (S r) anywhere (m', g').
Proof.
  intros (Hi & a & b & H1 & H2 & H3 & H4 & H5) Hi' Hf He Hm. split; [done|]. exists a, b.
  pose proof (forward_moves _ _ Hf) as (L1 & L2 & L3). cbn in *. split_and!; try lia. by left.
Qed.

(** Helping: whether the swap of [tail] succeeds or not, it has moved. *)
Lemma helps {A n n'} so fo a y (f : Z -> prog A) i k evs F c ev r phi Q :
  (forall g, phi g -> tail_is a g) -> Sticky phi -> gives_up ev ->
  (forall v, btriple (mq_rely i) (mq_guar i) n (attempt i k evs F c ev (S r)) (f v) n' Q) ->
  btriple (mq_rely i) (mq_guar i) n (fun s => me i k 0 evs F c s /\ tried i r phi s /\ links a y s)
    (cas so fo (tail q) a y.1 ≫= f) n' Q.
Proof.
  intros Hphi Hst Hev Hf.
  eapply (triple_cas _ _ _ _ _ _ _ _ _ (attempt i k evs F c ev (S r)) (fun _ => attempt i k evs F c ev (S r)));
    [apply _| |apply Hf|intros v _; apply Hf].
  intros [m g] (Hme & Ht & Hl). pose proof (proj1 Ht) as Hi. eexists. split; [apply (mi_tail _ Hi)|]. cbn. split.
  - intros Ea. destruct (swings_ok m g i k 0 evs F c a y Hme Hl ltac:(rewrite <- Ea; apply (mi_tail _ Hi))) as (HG & Hme' & Hm).
    apply (attempts _ _ _ (set_lag false g)); [done|exact HG|exact Hme'|]. destruct (HG) as [HG' _].
    eapply tried_moved; [exact Ht|by eapply mq_guar_inv| |done|exact Hm].
    by destruct (HG' (S i) ltac:(lia) Hi) as (_ & _ & ? & _).
  - intros Ea. apply (attempts _ _ _ g); [done|reflexivity|done|]. apply (tried_fails _ _ phi); [|done].
    intros Hp%Hphi. by apply Ea.
Qed.

(** The last swap of an insertion. *)
Lemma swings {A n n'} so fo a y (f : Z -> prog A) i k o evs F Q :
  (forall v, btriple (mq_rely i) (mq_guar i) n (at_ i k o evs F) (f v) n' Q) ->
  btriple (mq_rely i) (mq_guar i) n (fun s => at_ i k o evs F s /\ links a y s)
    (cas so fo (tail q) a y.1 ≫= f) n' Q.
Proof.
  intros Hf. eapply (triple_cas _ _ _ _ _ _ _ _ _ (at_ i k o evs F) (fun _ => at_ i k o evs F));
    [apply _| |apply Hf|intros v _; apply Hf].
  intros [m g] (Hat & Hl). pose proof (proj1 Hat) as Hi. eexists. split; [apply (mi_tail _ Hi)|]. cbn. split.
  - intros Ea. destruct (swings_ok m g i k o evs F [] a y) as (HG & [Hat' _] & _); [|done| |].
    + split; [done|by eapply at_drafted].
    + rewrite <- Ea. apply (mi_tail _ Hi).
    + by exists (set_lag false g).
  - intros _. exists g. split; [reflexivity|done].
Qed.
(** *** An insertion takes effect *)

(** What a node that is ready to be linked holds. *)
Definition filled a e : list (Z * Z) := [(a + 0, 0); (a + 16, kv_value e); (a + 8, kv_key e)].

Definition linked i a e F g : mview :=
  log i (Some (EInsert e DS_SUCCESS)) 1 F (mv_gs g) (mv_hd g) (mv_ns g ++ [(a, e)]) true g.

Lemma linked_nodes i a e F g : mv_nodes (linked i a e F g) = mv_nodes g ++ [(a, e)].
Proof. unfold mv_nodes, linked, mv_fronts, log; cbn. by rewrite app_assoc. Qed.

Lemma linked_reached i a e F g : mv_reached (linked i a e F g) = mv_nodes g.
Proof.
  unfold mv_reached. change (mv_lag (linked i a e F g)) with true. by rewrite linked_nodes, removelast_last.
Qed.

(** The node at which [tail] has been is the last one: then [tail] is there. *)
Lemma end_no_lag a m g : passed_by_tail a (m, g) -> end_is a g -> mv_lag g = false.
Proof.
  intros [Hi Ha] He. unfold end_is, mv_reached in *. cbn in *. destruct (mv_lag g) eqn:El; [|done]. exfalso.
  pose proof (body_nodup _ _ _ _ (mi_body _ Hi)) as Hnd. cbn in Hnd. apply NoDup_app in Hnd as (Hnd & _ & _).
  assert (Hne : mv_nodes g <> []) by (unfold mv_nodes, mv_fronts; by destruct (mv_gs g)).
  destruct (exists_last Hne) as (B & x & E). rewrite E, last_node_snoc in He.
  rewrite E, removelast_last in Ha. rewrite E, fmap_app in Hnd.
  apply NoDup_app in Hnd as (_ & Hd & _). apply (Hd a Ha). rewrite <- He. left.
Qed.

Lemma mq_linked_inv m g i k a e F evs c :
  at_ i k 0 evs (a :: F) (m, g) -> drafted i (filled a e ++ c) (m, g) -> mv_lag g = false ->
  mq_inv (<[node_next (last_node (mv_nodes g)):=a]> m, linked i a e F g).
Proof.
  intros (Hi & A1 & A2 & A3 & A4) (_ & F' & HF' & Hc) Hlag. cbn in *.
  apply Forall_cons in Hc as [[_ En] Hc]. apply Forall_cons in Hc as [[_ Ev] Hc].
  apply Forall_cons in Hc as [[_ Ek] _]. cbn in *. clear HF'.
  pose proof Hi as [E1 E2 E3 Hb _ Hr Ho Hwho]. cbn in *. pose proof (body_sep _ _ _ _ Hb) as [_ Hoff].
  assert (Hne : mv_nodes g <> []) by (unfold mv_nodes, mv_fronts; by destruct (mv_gs g)).
  assert (Ht : last_node (mv_nodes g) ∈ (mv_nodes g).*1) by (apply last_elem; by destruct (mv_nodes g)).
  assert (Hhd : forall x, in_block q 24 x -> <[node_next (last_node (mv_nodes g)):=a]> m !! x = m !! x).
  { intros x Hx. apply lookup_insert_ne. intros <-. apply (Hoff _ Hx). apply (node_in 24); [|addr].
    apply elem_of_app. by left. }
  destruct (concat_owner _ _ _ A4 F) as (R & HR & HR').
  split; cbn [fst snd]; rewrite ?linked_nodes, ?linked_reached; cbn;
    try (rewrite Hhd by addr); try done.
  - unfold mv_reached in E2. by rewrite Hlag in E2.
  - rewrite E3, (zsum_insert _ _ _ _ A2), Zlen_snoc. do 2 f_equal. lia.
  - apply body_link; [done| |by unfold data_key|by unfold data_value|by unfold node_next].
    eapply body_perm; [|exact Hb]. by rewrite HR, HR'.
  - intros _. by destruct (mv_ns g).
  - rewrite fmap_app. econstructor; [exact Hr|]. constructor.
  - by rewrite length_insert.
  - eapply who_snoc; [exact Ho|exact A2|done].
Qed.

Lemma link {A n n'} so fo t a e (f : Z -> prog A) i k evs F c ev r Q : gives_up ev ->
  (forall v, v <> 0 -> btriple (mq_rely i) (mq_guar i) n
     (attempt i k evs (a :: F) (filled a e ++ c) ev (S r)) (f v) n' Q) ->
  btriple (mq_rely i) (mq_guar i) n
    (fun s => at_ i k 1 (evs ++ [EInsert e DS_SUCCESS]) F s /\ links t (a, e) s) (f 0) n' Q ->
  btriple (mq_rely i) (mq_guar i) n (fun s => me i k 0 evs (a :: F) (filled a e ++ c) s /\
      passed_by_tail t s /\ tried i r (end_is t) s)
    (cas so fo (node_next t) 0 a ≫= f) n' Q.
Proof.
  intros Hev Hretry Hdone. eapply (triple_cas _ _ _ _ _ _ _ _ _ _
    (fun _ => attempt i k evs (a :: F) (filled a e ++ c) ev (S r))); [apply _| |exact Hdone|exact Hretry].
  intros [m g] ([Hat Hd] & Hpt & Ht). pose proof Hat as (Hi & A1 & A2 & A3 & A4).
  assert (Hin : t ∈ (mv_nodes g).*1) by (destruct Hpt as [_ Hpt]; eapply fmap_prefix_in; [apply reached_nodes|done]).
  destruct (body_node_in _ _ _ _ _ (mi_body _ Hi) Hin) as (B1 & e0 & B2 & E). cbn in E.
  destruct (body_node _ _ _ _ _ _ _ (mi_body _ Hi) E) as (_ & _ & _ & En). cbn in En. cbn [fst].
  eexists. split; [exact En|]. destruct B2 as [|y B2]; split; intros Hv; try done.
  - assert (Hend : end_is t g) by (unfold end_is; by rewrite E, last_node_snoc).
    pose proof (end_no_lag t m g Hpt Hend) as Hlag. unfold end_is in Hend.
    pose proof (mq_linked_inv m g i k a e F evs c Hat Hd Hlag) as Hi'. rewrite Hend in Hi'.
    exists (linked i a e F g). split.
    + apply guar_intro; [done|by apply log_books| | |].
      * split; [rewrite linked_nodes; by eexists|]. split; [|done]. unfold mv_reached at 1. by rewrite Hlag, linked_reached.
      * intros j Hne. unfold mv_effects. rewrite linked_nodes, length_app. cbn. rewrite busy_snoc by done. cbn. lia.
      * apply unchanged_insert. right. left. apply (node_in 24); [done|addr].
    + split; [by eapply mq_log_at|]. split; [done|]. cbn [snd]. rewrite linked_nodes, E. exists B1, e0, [].
      by rewrite <- app_assoc.
  - assert (E' : mv_nodes g = (B1 ++ [(t, e0)]) ++ y :: B2) by (by rewrite <- app_assoc).
    destruct (body_node _ _ _ _ _ _ _ (mi_body _ Hi) E') as (Hy & _). lia.
  - apply (attempts _ _ _ g); [done|reflexivity|done|]. apply (tried_fails _ _ (end_is t)); [|done].
    apply (links_end t y m). split; [done|]. by exists B1, e0, B2.
Qed.

(** The counter follows. *)
Lemma mq_settles {A n n'} o op w (f : Z -> prog A) i k r evs F P Q :
  (forall old, rmw_eval op old w = u64 (old + r)) -> (forall m g m' g', P (m, g) -> forward g g' -> mq_inv (m', g') -> P (m', g')) ->
  Stable (mq_rely i) P ->
  (forall old, btriple (mq_rely i) (mq_guar i) n (fun s => at_ i k 0 evs F s /\ P s) (f old) n' Q) ->
  btriple (mq_rely i) (mq_guar i) n (fun s => at_ i k r evs F s /\ P s) (rmw o op (count q) w ≫= f) n' Q.
Proof.
  intros Hop HP HPs. apply (triple_rmw _ _ _ _ _ _ _ _ (fun _ s => at_ i k 0 evs F s /\ P s)); [apply _|].
  intros [m g] (Hat & Hs). pose proof Hat as (Hi & A1 & A2 & A3 & A4). cbn in *.
  eexists. split; [apply (mi_count _ Hi)|]. cbn. set (old := u64 _). rewrite Hop.
  set (g' := mk_mview (mv_gs g) (mv_hd g) (mv_ns g) (mv_lag g) (mv_hist g) (mv_asks g) (<[i:=0]> (mv_owed g)) (mv_priv g)).
  assert (Hi' : mq_inv (<[count q:=u64 (old + r)]> m, g')).
  { destruct Hi as [E1 E2 E3 Hb Hlg Hr Ho Hwho]. cbn in *. split; cbn; try done; try mlook.
    - rewrite lookup_insert_eq, (zsum_insert _ _ _ _ A2). unfold old. rewrite u64_add_l. do 2 f_equal. lia.
    - apply body_header; [done|addr].
    - by rewrite length_insert. }
  exists g'. split.
  - apply guar_intro; [done| |by split_and!|done|apply unchanged_insert; left; addr].
    intros j Hne. unfold same_books; cbn. by rewrite list_lookup_insert_ne.
  - split; [|by eapply HP]. split; [done|]. cbn. by rewrite list_lookup_insert_eq by (by eapply lookup_lt_Some).
Qed.

#[local] Instance true_stable i : Stable (mq_rely i) (fun _ => True).
Proof. by intros ? ?. Qed.

Lemma links_forward a y m g m' g' : links a y (m, g) -> forward g g' -> mq_inv (m', g') -> links a y (m', g').
Proof.
  intros (_ & A & k & B & E) ([r Hp] & _) Hi'. split; [done|]. exists A, k, (B ++ r). cbn in *.
  by rewrite Hp, E, <- app_assoc.
Qed.

Lemma attempt_lt i k evs F c ev r s : (r < MSQUEUE_MAX_RETRIES)%nat ->
  attempt i k evs F c ev r s -> me i k 0 evs F c s /\ tried i r anywhere s.
Proof. intros Hr. unfold attempt. rewrite decide_False by lia. done. Qed.

Lemma attempt_max i k evs F c ev r s : r = MSQUEUE_MAX_RETRIES ->
  attempt i k evs F c ev r s -> at_ i k 0 (evs ++ [ev]) F s.
Proof. intros Hr. unfold attempt. by rewrite decide_True. Qed.

Lemma attempt_first i k evs F c ev s : me i k 0 evs F c s -> attempt i k evs F c ev 0 s.
Proof. intros Hs. split; [done|]. apply tried_none, Hs. Qed.

Lemma insert_gives_up e : gives_up (EInsert e DS_ERROR_INVALID).
Proof. by split; [|constructor]. Qed.

Lemma pop_gives_up d o : gives_up (EPop d DS_ERROR_INVALID o).
Proof. by split; [|constructor]. Qed.

(** How a loop of attempts ends: with the node linked, or given up. *)
Definition added i k evs F a e (r : nat * Z) s : Prop :=
  (r.1 = MSQUEUE_MAX_RETRIES /\ at_ i k 0 (evs ++ [EInsert e DS_ERROR_INVALID]) (a :: F) s) \/
  ((r.1 < MSQUEUE_MAX_RETRIES)%nat /\ at_ i k 1 (evs ++ [EInsert e DS_SUCCESS]) F s /\ links r.2 (a, e) s).

#[local] Instance added_stable i k evs F a e r : Stable (mq_rely i) (added i k evs F a e r).
Proof. unfold added. apply _. Qed.

(** A loop of attempts, each of which costs a turn of the budget in the kernel build. *)
Lemma tries {A X} sd n i k evs F c (ev : X -> event) (body : nat * X -> prog ((nat * X) + A)) x Q :
  (forall x, btriple (mq_rely i) (mq_guar i) n (at_ i k 0 (evs ++ [ev x]) F) (body (MSQUEUE_MAX_RETRIES, x)) n
     (fun y s => match y with inl _ => False | inr a => Q a s end)) ->
  (forall t r x, (r < MSQUEUE_MAX_RETRIES)%nat ->
     btriple (mq_rely i) (mq_guar i) (cost sd n (S t)) (fun s => me i k 0 evs F c s /\ tried i r anywhere s)
       (body (r, x)) (cost sd n t)
       (fun y s => match y with
                   | inl y => y.1 = S r /\ attempt i k evs F c (ev y.2) (S r) s
                   | inr a => Q a s
                   end)) ->
  (forall a, Stable (mq_rely i) (Q a)) ->
  btriple (mq_rely i) (mq_guar i) (cost sd n MSQUEUE_MAX_RETRIES) (me i k 0 evs F c)
    (loop (S MSQUEUE_MAX_RETRIES) body (0%nat, x)) n Q.
Proof.
  intros Hlast Htry HQ.
  set (I := fun t (y : nat * X) s => (t + y.1 = MSQUEUE_MAX_RETRIES)%nat /\ attempt i k evs F c (ev y.2) y.1 s).
  apply (triple_pre _ _ _ _ (I MSQUEUE_MAX_RETRIES (0%nat, x)));
    [|intros s Hs; split; [done|by apply attempt_first]].
  apply (triple_budget _ _ (cost sd n (pred (S MSQUEUE_MAX_RETRIES))) (cost sd n (pred 0)));
    [|by apply cost_mono|by apply cost_end].
  apply (triple_loop _ _ (fun t => cost sd n (pred t)) _ _ I); [intros; apply cost_mono; lia| |done|lia].
  intros t [r y]. apply triple_pure. cbn [fst snd pred]. intros Ht. destruct t as [|t].
  - rewrite Nat.add_0_l in Ht. subst r.
    apply (triple_budget _ _ n n); [|apply cost_end|by destruct sd].
    eapply triple_pre; [eapply triple_weaken; [apply Hlast|done|done|]|by intros s; apply attempt_max].
    by intros [z|a] s.
  - eapply triple_pre; [eapply triple_weaken; [apply (Htry t r y); lia|done|done|]|].
    + intros [[r' z]|a] s; [|done]. cbn. intros [-> Hs]. exists t. split; [lia|]. split; [cbn; lia|done].
    + intros s. apply attempt_lt. lia.
Qed.

(** One attempt to link a node: what both builds do, but for the memory orders. *)
Lemma add_turn o i k evs F a e c n r :
  (r < MSQUEUE_MAX_RETRIES)%nat ->
  btriple (mq_rely i) (mq_guar i) n (fun s => me i k 0 evs (a :: F) (filled a e ++ c) s /\ tried i r anywhere s)
    (t ← load o (tail q);
     nxt ← load o (node_next t);
     if negb (nxt =? 0) then
       _ ← cas Release Relaxed (tail q) t (msqueue_list_entry nxt);
       Ret (inl (S r, t))
     else
       observed ← cas Release Relaxed (node_next t) nxt (elem_node a);
       if observed =? nxt then Ret (inr (r, t)) else Ret (inl (S r, t))) n
    (fun (y : nat * Z + nat * Z) s =>
       match y with
       | inl y => y.1 = S r /\ attempt i k evs (a :: F) (filled a e ++ c) (EInsert e DS_ERROR_INVALID) (S r) s
       | inr y => added i k evs F a e y s
       end).
Proof.
  intros Hr. pose proof (insert_gives_up e) as Hev.
  apply (reads_tail _ _ _ _ anywhere); [apply _| |apply _]. intros t.
  apply (triple_pre _ _ _ _ (fun s => (me i k 0 evs (a :: F) (filled a e ++ c) s /\ passed_by_tail t s) /\
    tried i r (tail_is t) s)); [|by intros s (? & ? & ?)].
  apply reads_next; [apply _| | | |apply _].
  - intros s [_ [_ Ht]] _. eapply fmap_prefix_in; [apply reached_nodes|done].
  - cbn [negb Z.eqb]. change (0 =? 0) with true. cbn [negb].
    replace (elem_node a) with a by (unfold elem_node; lia).
    eapply triple_pre; [apply (link _ _ t a e _ i k evs F c (EInsert e DS_ERROR_INVALID) r)|intros s [[? ?] ?]; split_and!; try done].
    + exact Hev.
    + intros v Hv. replace (v =? 0) with false by lia. apply triple_ret; [apply _|by intros s].
    + apply triple_ret; [apply _|]. intros s Hs. by right.
  - intros y Hy. replace (y.1 =? 0) with false by lia. cbn [negb].
    unfold msqueue_list_entry, Arena.arena_container_of. replace (y.1 - 0) with y.1 by lia.
    eapply triple_pre; [apply (helps _ _ t y _ i k evs (a :: F) (filled a e ++ c) (EInsert e DS_ERROR_INVALID) r (tail_is t)); [done|apply _|exact Hev|]|].
    + intros v. apply triple_ret; [apply _|by intros s].
    + by intros s ([? ?] & ? & ?).
Qed.

Lemma mq_add_node_ok sd junk i k evs F a e c n : 0 < a ->
  btriple (mq_rely i) (mq_guar i) (cost sd n MSQUEUE_MAX_RETRIES) (me i k 0 evs (a :: F) (filled a e ++ c))
    (match sd with BPF => __msqueue_add_node_lkmm junk a q | USER => __msqueue_add_node_c junk a q end) n
    (fun r s => (r = DS_SUCCESS /\ at_ i k 0 (evs ++ [EInsert e DS_SUCCESS]) F s) \/
       (r = DS_ERROR_INVALID /\ at_ i k 0 (evs ++ [EInsert e DS_ERROR_INVALID]) (a :: F) s)).
Proof.
  intros Ha. destruct sd; unfold __msqueue_add_node_lkmm, __msqueue_add_node_c.
  1: pose (sd := BPF). 2: pose (sd := USER).
  all: eapply triple_bind; [apply _..|apply (tries sd) with (ev := fun _ => EInsert e DS_ERROR_INVALID)
    (Q := added i k evs F a e)| ].
  3,7: apply _.
  1,4: intros t; apply triple_ret; [apply _|]; by left.
  1,3: intros t r x Hr; replace (r <? MSQUEUE_MAX_RETRIES)%nat with true by (symmetry; by apply Nat.ltb_lt).
  1: change (cost sd n (S t)) with (S (cost sd n t)); apply triple_can_loop; [apply _..|].
  1,2: by apply add_turn.
  all: intros [r t]; apply triple_or; cbn [fst snd].
  1,3: apply triple_pure; intros ->; rewrite Nat.leb_refl; apply triple_ret; [apply _|by right].
  all: apply triple_pure; intros Hr; replace (MSQUEUE_MAX_RETRIES <=? r)%nat with false
    by (symmetry; by apply Nat.leb_gt).
  all: unfold arena_atomic_inc; taccess; apply (mq_settles _ _ _ _ _ _ 1 _ _ (links t (a, e)));
    [done|intros m g m' g'; apply links_forward|apply _|]; intros old.
  all: taccess; apply (swings _ _ _ (a, e)); intros v; destruct (negb (v =? t)); (apply triple_ret; [apply _|by left]).
Qed.


(** The whole insertion. *)
Lemma mq_insert_ok sd junk i k evs F e n :
  btriple (mq_rely i) (mq_guar i) (cost sd n MSQUEUE_MAX_RETRIES) (at_ i (S k) 0 evs F)
    (ds_msqueue_insert sd junk q (kv_key e) (kv_value e)) n
    (fun r s => exists F', at_ i k 0 (evs ++ [EInsert e r]) F' s).
Proof.
  destruct sd; unfold ds_msqueue_insert, ds_msqueue_insert_lkmm, ds_msqueue_insert_c;
    replace (q =? 0) with false by lia; change MsqueueElem.sizeof with 24.
  1: pose (sd := BPF). 2: pose (sd := USER).
  all: eapply asks with (e := e).
  1,3: rewrite Z.eqb_refl; apply (triple_budget _ _ n n); [|apply (cost_end sd)|done];
    apply triple_ret; [apply _|]; intros s Hs; by exists F.
  all: intros a Ha; replace (a =? 0) with false by lia.
  all: apply (triple_pre _ _ _ _ (fun s => at_ i k 0 evs (a :: F) s /\ drafted i [] s));
    [|intros s Hs; split; [exact Hs|by eapply at_drafted]].
  all: unfold data_key, data_value, node_next.
  all: apply drafts; [auto|done|]; apply drafts; [auto|constructor; [cbn; lia|done]|].
  all: apply drafts; [auto|constructor; [cbn; lia|constructor; [cbn; lia|done]]|]; cbn beta iota.
  all: eapply triple_bind; [apply _..|apply (mq_add_node_ok sd junk i k evs F a e [])|]; [done|].
  all: intros r; apply triple_or; apply triple_pure; intros ->; cbn beta iota.
  1,3: apply triple_ret; [apply _|]; intros s Hs; by exists F.
  all: rewrite fresh_free; apply triple_ret; [apply _|]; intros s Hs; by exists (a :: F).
Qed.

(** *** A pop *)

Lemma tried_mark i r phi `{!Sticky phi} m g : mq_inv (m, stays i None g) ->
  tried i r phi (m, g) -> tried i r phi (m, stays i None g).
Proof.
  intros Hi' (_ & a & b & H1 & H2 & H3 & H4 & H5). split; [done|]. exists a, b. cbn [snd] in *.
  change (mv_effects (stays i None g)) with (mv_effects g). change (mv_moves (stays i None g)) with (mv_moves g).
  change (mv_hist (stays i None g)) with (mv_hist g ++ [(i, None)]). rewrite busy_mark.
  split_and!; try done. destruct H5 as [H5|H5]; [|by right].
  destruct (sticky g (stays i None g) ltac:(by split_and!) H5) as [|Hm]; [by left|].
  change (mv_moves (stays i None g)) with (mv_moves g) in Hm. lia.
Qed.

(** The dummy links to nothing: the queue is empty at this moment, which leaves a mark. *)
Lemma looks {A n n'} o x (f : Z -> prog A) i k evs F r phi P Q :
  Stable (mq_rely i) P -> Sticky phi -> (forall s, P s -> passed_by_head x s) ->
  btriple (mq_rely i) (mq_guar i) n (fun s => at_ i k 0 evs F s /\ tried i r phi s /\ looked i s) (f 0) n' Q ->
  (forall y, 0 < y.1 -> btriple (mq_rely i) (mq_guar i) n
     (fun s => at_ i k 0 evs F s /\ tried i r phi s /\ P s /\ links x y s) (f y.1) n' Q) ->
  btriple (mq_rely i) (mq_guar i) n (fun s => at_ i k 0 evs F s /\ tried i r phi s /\ P s)
    (load o (node_next x) ≫= f) n' Q.
Proof.
  intros HP Hst Hpass Hnull Hlink.
  apply (triple_load_lin _ _ _ _ _ _ (fun v s =>
    (v = 0 /\ at_ i k 0 evs F s /\ tried i r phi s /\ looked i s) \/
    (exists y : Z * ds_kv, (v = y.1 /\ 0 < y.1) /\ at_ i k 0 evs F s /\ tried i r phi s /\ P s /\ links x y s)));
    [apply _| |].
  - intros [m g] (Hat & Ht & Hs). pose proof Hat as (Hi & A1 & A2 & A3 & A4). destruct (Hpass _ Hs) as [_ Hx].
    apply list_elem_of_fmap in Hx as ([x' e] & -> & Hx). apply list_elem_of_split in Hx as (A0 & B & E0).
    assert (E : mv_nodes g = A0 ++ (x', e) :: (B ++ mv_ns g)).
    { unfold mv_nodes. cbn in E0. by rewrite E0, <- app_assoc. }
    destruct (body_node _ _ _ _ _ _ _ (mi_body _ Hi) E) as (_ & _ & _ & En). cbn in En |- *.
    eexists. split; [exact En|]. destruct (B ++ mv_ns g) as [|y B'] eqn:EB.
    + apply app_nil in EB as [_ Hns].
      destruct (stays_ok m g i k evs F None Hat) as [HG Hat']; [done|rewrite Hns; constructor|].
      exists (stays i None g). split; [exact HG|]. left. split; [done|]. rewrite app_nil_r in Hat'.
      split; [exact Hat'|]. split; [by apply (tried_mark i r phi m g (proj1 Hat'))|]. split; [apply Hat'|].
      exists (mine_of i (mv_hist g)). cbn. apply mine_of_snoc.
    + exists g. split; [reflexivity|]. right. exists y.
      assert (E' : mv_nodes g = (A0 ++ [(x', e)]) ++ y :: B') by (by rewrite <- app_assoc).
      destruct (body_node _ _ _ _ _ _ _ (mi_body _ Hi) E') as (Hy & _).
      split; [done|]. split; [done|]. split; [done|]. split; [done|]. split; [done|]. by exists A0, e, B'.
  - intros v. apply triple_or; [by apply triple_pure; intros ->|]. apply triple_exists. intros y.
    apply triple_pure. intros [-> Hy]. by apply Hlink.
Qed.

(** [head] unchanged after a look at an empty queue: that look was the pop. *)
Definition answers_at_mark (H : labels) g : mview :=
  mk_mview (mv_gs g) (mv_hd g) (mv_ns g) (mv_lag g) H (mv_asks g) (mv_owed g) (mv_priv g).

Lemma confirms_ok m g i k evs F d o :
  at_ i k 0 evs F (m, g) -> looked i (m, g) -> exists g',
  mq_guar i (m, g) (m, g') /\ at_ i k 0 (evs ++ [EPop d DS_ERROR_NOT_FOUND o]) F (m, g').
Proof.
  intros (Hi & A1 & A2 & A3 & A4) (_ & lbs & E). cbn in *. set (ev := EPop d DS_ERROR_NOT_FOUND o).
  destruct (resolve_exists i ev _ _ E) as (H' & HH).
  assert (Hi' : mq_inv (m, answers_at_mark H' g)).
  { destruct Hi as [E1 E2 E3 Hb Hl Hr Ho Hwho]. split; try done; [by eapply resolve_run|by eapply resolve_who]. }
  exists (answers_at_mark H' g). split.
  - apply guar_intro; [done| |by split_and!| |apply unchanged_refl].
    + intros j Hne. unfold same_books; cbn. by rewrite (resolve_mine_ne i j ev _ _ Hne HH).
    + intros j Hne. cbn. rewrite (resolve_busy i j d o _ _ Hne HH). done.
  - split; [done|]. cbn. split; [done|]. split; [done|]. split; [|done].
    rewrite (resolve_mine _ _ _ _ _ HH E), seen_snoc, <- A3, E. by rewrite seen_mark.
Qed.

(** [head] is read again: it has not moved, or the attempt has failed. *)
Lemma checks_head {A n n'} o x (f : Z -> prog A) i k evs F ev r phi P P' Q :
  Stable (mq_rely i) P -> (forall g, phi g -> head_is x g) -> Sticky phi -> gives_up ev ->
  (forall m g, at_ i k 0 evs F (m, g) -> tried i r phi (m, g) -> P (m, g) ->
     exists g', mq_guar i (m, g) (m, g') /\ P' (m, g')) ->
  btriple (mq_rely i) (mq_guar i) n P' (f x) n' Q ->
  (forall v, v <> x -> btriple (mq_rely i) (mq_guar i) n (attempt i k evs F [] ev (S r)) (f v) n' Q) ->
  btriple (mq_rely i) (mq_guar i) n (fun s => at_ i k 0 evs F s /\ tried i r phi s /\ P s)
    (load o (head q) ≫= f) n' Q.
Proof.
  intros HP Hphi Hst Hev Hstep Hsame Hmoved.
  apply (triple_load_lin _ _ _ _ _ _ (fun v s => (v = x /\ P' s) \/ (v <> x /\ attempt i k evs F [] ev (S r) s)));
    [apply _| |].
  - intros [m g] (Hat & Ht & Hs). pose proof (proj1 Hat) as Hi. eexists. split; [apply (mi_head _ Hi)|]. cbn.
    destruct (decide ((mv_hd g).1 = x)) as [E|E].
    + destruct (Hstep m g Hat Ht Hs) as (g' & HG & Hs'). exists g'. split; [done|]. by left.
    + destruct (attempts m g m g i k evs F [] ev (S r)) as (g' & HG & Ha); [done|reflexivity| | |].
      * split; [done|by eapply at_drafted].
      * apply (tried_fails _ _ phi); [|done]. by intros Hp%Hphi.
      * exists g'. split; [done|]. by right.
  - intros v. apply triple_or; apply triple_pure; [by intros ->|apply Hmoved].
Qed.

(** A pop reads the dummy's link and makes sure that the dummy still is the dummy. *)
Lemma sees_next {A n n'} o1 o2 x (f : Z -> Z -> prog A) i k evs F ev r phi P d out Q :
  Stable (mq_rely i) P -> (forall s, P s -> passed_by_head x s) -> (forall g, phi g -> head_is x g) ->
  Sticky phi -> gives_up ev ->
  (forall nxt v, v <> x -> btriple (mq_rely i) (mq_guar i) n (attempt i k evs F [] ev (S r)) (f nxt v) n' Q) ->
  btriple (mq_rely i) (mq_guar i) n (at_ i k 0 (evs ++ [EPop d DS_ERROR_NOT_FOUND out]) F) (f 0 x) n' Q ->
  (forall y, 0 < y.1 -> btriple (mq_rely i) (mq_guar i) n
     (fun s => at_ i k 0 evs F s /\ tried i r phi s /\ P s /\ links x y s) (f y.1 x) n' Q) ->
  btriple (mq_rely i) (mq_guar i) n (fun s => at_ i k 0 evs F s /\ tried i r phi s /\ P s)
    (load o1 (node_next x) ≫= fun nxt => load o2 (head q) ≫= f nxt) n' Q.
Proof.
  intros HP Hpass Hphi Hst Hev Hmoved Hnull Hlink. apply looks; [done|done|done| |].
  - apply (checks_head _ x _ i k evs F ev r phi (looked i) (at_ i k 0 (evs ++ [EPop d DS_ERROR_NOT_FOUND out]) F));
      [apply _|done|done|done| |done|by apply Hmoved].
    intros m g Hat _ Hl. by apply confirms_ok.
  - intros y Hy. apply (checks_head _ x _ i k evs F ev r phi (fun s => P s /\ links x y s)
      (fun s => at_ i k 0 evs F s /\ tried i r phi s /\ P s /\ links x y s));
      [apply _|done|done|done| |by apply Hlink|by apply Hmoved].
    intros m g Hat Ht Hs. by exists g.
Qed.

(** The dummy's successor is the first in the queue. *)
Lemma nodes_hd g : mv_nodes g = mv_gs g ++ mv_hd g :: mv_ns g.
Proof. unfold mv_nodes, mv_fronts. by rewrite <- app_assoc. Qed.

Lemma next_queued x y m g : links x y (m, g) -> head_is x g -> exists ns, mv_ns g = y :: ns.
Proof.
  intros (Hi & A & k & B & E) Hx. destruct (node_place g m _ _ _ _ _ _ Hi E (nodes_hd g) (eq_sym Hx)) as (_ & _ & <-).
  by exists B.
Qed.

(** If [tail] is beyond the dummy and lags, something is queued beyond [tail]. *)
Lemma lag_beyond x y ns m g : behind_tail x (m, g) -> head_is x g -> mv_ns g = y :: ns -> mv_lag g = true -> ns <> [].
Proof.
  intros (Hi & A & k & B & E & HB) Hx Hns Hlag ->. cbn in E. destruct (reached_nodes g) as [r Hr].
  assert (E' : mv_nodes g = A ++ (x, k) :: (B ++ r)) by (by rewrite Hr, E, <- app_assoc).
  destruct (node_place g m _ _ _ _ _ _ Hi E' (nodes_hd g) (eq_sym Hx)) as (-> & _).
  assert (Er : mv_reached g = mv_gs g ++ [mv_hd g]).
  { unfold mv_reached. rewrite Hlag. unfold mv_nodes. by rewrite Hns, removelast_last. }
  rewrite Er in E. apply app_inv_head in E. injection E as _ <-. done.
Qed.

(** The swap of [head] takes the first element out. *)
Definition taken i d (y : Z * ds_kv) F ns g : mview :=
  log i (Some (EPop d DS_SUCCESS (Some y.2))) (-1) F (mv_gs g ++ [mv_hd g]) y ns (mv_lag g) g.

Lemma taken_nodes i d y F ns g : mv_ns g = y :: ns -> mv_nodes (taken i d y F ns g) = mv_nodes g.
Proof. intros E. rewrite !nodes_hd, E. cbn. by rewrite <- app_assoc. Qed.

Lemma taken_reached i d y F ns g : mv_ns g = y :: ns -> mv_reached (taken i d y F ns g) = mv_reached g.
Proof. intros E. unfold mv_reached. by rewrite taken_nodes. Qed.

Lemma taken_ok m g i k evs F d x y :
  at_ i k 0 evs F (m, g) -> links x y (m, g) -> behind_tail x (m, g) -> head_is x g -> exists g',
  mq_guar i (m, g) (<[head q:=y.1]> m, g') /\ at_ i k (-1) (evs ++ [EPop d DS_SUCCESS (Some y.2)]) F (<[head q:=y.1]> m, g').
Proof.
  intros Hat Hl Hbt Hx. pose proof Hat as (Hi & A1 & A2 & A3 & A4). cbn in *.
  destruct (next_queued _ _ _ _ Hl Hx) as (ns & Ens). pose proof (lag_beyond _ _ _ _ _ Hbt Hx Ens) as Hlag.
  assert (Hi' : mq_inv (<[head q:=y.1]> m, taken i d y F ns g)).
  { destruct Hi as [E1 E2 E3 Hb _ Hr Ho Hwho]. cbn in *.
    split; cbn [fst snd]; rewrite ?taken_nodes, ?taken_reached by done; cbn; try done; try mlook.
    - rewrite (zsum_insert _ _ _ _ A2). rewrite lookup_insert_ne by addr. rewrite E3, Ens. unfold Zlen; cbn. do 2 f_equal. lia.
    - rewrite (list_insert_id _ _ _ A4). apply body_header; [done|addr].
    - rewrite Ens in Hr. econstructor; [exact Hr|]. constructor.
    - by rewrite length_insert.
    - eapply who_snoc; [exact Ho|exact A2|done]. }
  exists (taken i d y F ns g). split; [|by eapply mq_log_at].
  apply guar_intro; [done|by apply log_books| | |apply unchanged_insert; left; addr].
  - split; [by rewrite taken_nodes|]. split; [by rewrite taken_reached|]. unfold mv_fronts; cbn. by eexists.
  - intros j Hne. unfold mv_effects. rewrite taken_nodes by done. cbn. rewrite busy_snoc, length_app by done. cbn. lia.
Qed.

Lemma takes {A n n'} so fo x y (f : Z -> prog A) i k evs F ev r d Q : gives_up ev ->
  btriple (mq_rely i) (mq_guar i) n (at_ i k (-1) (evs ++ [EPop d DS_SUCCESS (Some y.2)]) F) (f x) n' Q ->
  (forall v, v <> x -> btriple (mq_rely i) (mq_guar i) n (attempt i k evs F [] ev (S r)) (f v) n' Q) ->
  btriple (mq_rely i) (mq_guar i) n (fun s => at_ i k 0 evs F s /\ tried i r (head_is x) s /\ links x y s /\ behind_tail x s)
    (cas so fo (head q) x y.1 ≫= f) n' Q.
Proof.
  intros Hev Hdone Hretry. eapply (triple_cas _ _ _ _ _ _ _ _ _ _ (fun _ => attempt i k evs F [] ev (S r)));
    [apply _| |exact Hdone|exact Hretry].
  intros [m g] (Hat & Ht & Hl & Hbt). pose proof (proj1 Hat) as Hi. eexists. split; [apply (mi_head _ Hi)|]. cbn.
  split; intros Hv; [by apply taken_ok with (x := x)|]. apply (attempts _ _ _ g); [done|reflexivity| |].
  - split; [done|by eapply at_drafted].
  - by apply (tried_fails _ _ (head_is x)).
Qed.

(** The pair of a node never changes. *)
Lemma links_pair x y s : links x y s ->
  s.1 !! data_key y.1 = Some (kv_key y.2) /\ s.1 !! data_value y.1 = Some (kv_value y.2).
Proof.
  intros (Hi & A & k & B & E). assert (E' : mv_nodes s.2 = (A ++ [(x, k)]) ++ y :: B) by (by rewrite <- app_assoc).
  by destruct (body_node _ _ _ _ _ _ _ (mi_body _ Hi) E') as (_ & ? & ? & _).
Qed.


(** What a turn of the loop of a pop leaves. *)
Definition pop_turn_post i k evs F d r (y : (nat * option ds_kv) + (Z * option ds_kv)) s : Prop :=
  match y with
  | inl y => y.1 = S r /\ attempt i k evs F [] (EPop d DS_ERROR_INVALID y.2) (S r) s
  | inr y => at_ i k 0 (evs ++ [EPop d y.1 y.2]) F s
  end.

#[local] Instance pop_turn_post_stable i k evs F d r y : Stable (mq_rely i) (pop_turn_post i k evs F d r y).
Proof. destruct y; cbn; apply _. Qed.

(** The end of a turn that found an element: what both builds do, but for the memory orders. *)
Lemma take_turn so x y i k evs F d r n :
  btriple (mq_rely i) (mq_guar i) n
    (fun s => at_ i k 0 evs F s /\ tried i r (head_is x) s /\ links x y s /\ behind_tail x s)
    (key ← load Plain (data_key y.1);
     v ← load Plain (data_value y.1);
     let data := Some (mk_kv key v) in
     observed ← cas so Relaxed (head q) x y.1;
     if observed =? x then
       bpf_arena_free x;;
       _ ← arena_atomic_dec (count q);
       Ret (inr (DS_SUCCESS, data))
     else Ret (inl (S r, data))) n (pop_turn_post i k evs F d r).
Proof.
  apply (triple_load _ _ _ _ (kv_key y.2)); [apply _|intros s (_ & _ & Hl & _); by apply (links_pair x y)|].
  apply (triple_load _ _ _ _ (kv_value y.2)); [apply _|intros s (_ & _ & Hl & _); by apply (links_pair x y)|]. cbn zeta.
  replace (mk_kv (kv_key y.2) (kv_value y.2)) with y.2 by (by destruct y as [? []]).
  apply (takes _ _ x y _ i k evs F (EPop d DS_ERROR_INVALID (Some y.2)) r d); [apply pop_gives_up| |].
  - rewrite Z.eqb_refl, fresh_free. unfold arena_atomic_dec. taccess.
    apply (triple_pre _ _ _ _ (fun s => at_ i k (-1) (evs ++ [EPop d DS_SUCCESS (Some y.2)]) F s /\ True));
      [|by intros s].
    apply mq_settles; [done|done|apply _|]. intros old. apply triple_ret; [apply _|]. by intros s [Hs _].
  - intros v Hv. replace (v =? x) with false by lia. apply triple_ret; [apply _|done].
Qed.

(** The whole pop. *)
Lemma mq_pop_ok sd i k evs F d n :
  btriple (mq_rely i) (mq_guar i) (cost sd n MSQUEUE_MAX_RETRIES) (at_ i k 0 evs F)
    (ds_msqueue_pop sd q (Some d)) n (fun y => at_ i k 0 (evs ++ [EPop d y.1 y.2]) F).
Proof.
  destruct sd; unfold ds_msqueue_pop, ds_msqueue_pop_lkmm, ds_msqueue_pop_c; replace (q =? 0) with false by lia.
  1: pose (sd := BPF). 2: pose (sd := USER).
  all: apply (triple_pre _ _ _ _ (me i k 0 evs F [])); [|intros s Hs; split; [done|by eapply at_drafted]].
  all: apply (tries sd) with (ev := fun o => EPop d DS_ERROR_INVALID o); [intros o|intros t r o Hr|apply _].
  1,3: apply triple_ret; [apply _|done].
  all: replace (r <? MSQUEUE_MAX_RETRIES)%nat with true by (symmetry; by apply Nat.ltb_lt).
  1: change (cost sd n (S t)) with (S (cost sd n t)); apply triple_can_loop; [apply _..|].
  all: apply (triple_weaken _ _ (n := cost sd n t) (n' := cost sd n t) (n1 := cost sd n t) (n1' := cost sd n t) _ _
    (pop_turn_post i k evs F d r)); [|done..]; taccess.
  all: apply (triple_pre _ _ _ _ (fun s => at_ i k 0 evs F s /\ tried i r anywhere s)); [|by intros s [[? _] ?]].
  all: apply (reads_head _ _ _ _ anywhere); [apply _| |apply _]; intros x Hx; taccess.
  all: apply reads_tail_after; [apply _| |intros tl Hne Htl|apply _].
  (* [tail] at the dummy or beyond, in the kernel build and in the other one *)
  1,3: apply (triple_pre _ _ _ _ (fun s => at_ i k 0 evs F s /\
    tried i r (fun g => head_is x g /\ tail_is x g) s /\ passed_by_head x s)); [|by intros s (? & ? & ?)].
  3,4: apply (triple_pre _ _ _ _ (fun s => at_ i k 0 evs F s /\
    tried i r (head_is x) s /\ (passed_by_head x s /\ behind_tail x s))); [|by intros s (? & ? & ? & ?)].
  2: replace ((x =? 0) || (x =? 0)) with false by lia.
  4: replace ((x =? 0) || (tl =? 0)) with false by lia.
  all: apply (sees_next _ _ x _ i k evs F (EPop d DS_ERROR_INVALID o) r _ _ d o);
    [apply _|by intros s; first [done|intros []]|by first [done|intros g []]|apply _|apply pop_gives_up| | |].
  all: try (intros nxt v Hv; replace (v =? x) with false by lia; apply triple_ret; [apply _|done]).
  all: try (rewrite Z.eqb_refl; apply triple_ret; [apply _|done]).
  all: intros y Hy; rewrite Z.eqb_refl; replace (y.1 =? 0) with false by lia; cbn [negb].
  all: unfold msqueue_list_entry, Arena.arena_container_of; rewrite Z.sub_0_r.
  1,2: rewrite ?Z.eqb_refl.
  1,2: replace (y.1 =? 0) with false by lia.
  1,2: apply (triple_pre _ _ _ _ (fun s => me i k 0 evs F [] s /\
      tried i r (fun g => head_is x g /\ tail_is x g) s /\ links x y s));
    [|by intros s (Hat & ? & _ & ?); split; [split; [done|by eapply at_drafted]|]].
  1,2: apply (helps _ _ x y _ i k evs F [] (EPop d DS_ERROR_INVALID o) r);
    [by intros g []|apply _|apply pop_gives_up|]; intros v; apply triple_ret; [apply _|done].
  all: replace (x =? tl) with false by lia; replace (y.1 =? 0) with false by lia.
  all: apply (triple_pre _ _ _ _ (fun s => at_ i k 0 evs F s /\ tried i r (head_is x) s /\ links x y s /\ behind_tail x s));
    [apply take_turn|by intros s (? & ? & [_ ?] & ?)].
Qed.

(** *** A thread that performs operations one after the other *)

Definition requests (ops : list op) : nat :=
  length (List.filter (fun o => match o with OInsert _ => true | OPop _ => false end) ops).

Lemma mq_perform_ok sd junk i ops evs :
  btriple (mq_rely i) (mq_guar i) (spend sd MSQUEUE_MAX_RETRIES (length ops))
    (fun s => exists F, at_ i (requests ops) 0 evs F s) (perform (msq_container sd junk q) ops) 0
    (fun evs' s => map event_op evs' = ops /\ exists F, at_ i 0 0 (evs ++ evs') F s).
Proof.
  revert evs. induction ops as [|o ops IH]; intros evs; cbn [perform].
  - apply (triple_budget _ _ 0 0); [|lia|done]. apply triple_exists. intros F. apply triple_ret; [apply _|].
    intros s Hs. rewrite app_nil_r. split; [done|by exists F].
  - cbn [length]. rewrite <- spend_succ. apply triple_exists. intros F.
    eapply (triple_bind _ _ _ _ _ _ (fun ev s => event_op ev = o /\
      exists F, at_ i (requests ops) 0 (evs ++ [ev]) F s)).
    + destruct o as [e|d]; cbn [run_op msq_container c_insert c_pop].
      * eapply triple_bind; [apply _..|apply mq_insert_ok|]. intros r.
        apply triple_ret; [apply _|done].
      * eapply triple_bind; [apply _..|apply mq_pop_ok|]. intros [r out].
        apply triple_ret; [apply _|]. intros s Hs. split; [done|by exists F].
    + intros ev. apply triple_pure. intros Hev. eapply triple_bind; [apply _..|apply IH|].
      intros evs'. apply triple_pure. intros Hevs. apply triple_ret; [apply _|].
      intros s [F' Hs]. cbn [map]. rewrite Hev, Hevs. split; [done|]. exists F'. by rewrite <- app_assoc in Hs.
Qed.
(** ** From the queue to its threads and back *)

(** Before anything happened, with these requests for memory to go. *)
Definition start_mview (ns0 : list Z) (lag0 : bool) (asks : list nat) (k0 : ds_kv) : mview :=
  mk_mview [] (List.hd 0 ns0, k0) (zip (List.tl ns0) l0) lag0 [] asks (replicate N 0) (replicate N []).

Lemma start_m_inv m ns0 lag0 asks :
  msq_repr q ns0 l0 lag0 m -> heap_holds (msq_own q ns0) rest m -> room 24 (sum_list asks) m ->
  exists k0, mq_inv (m, start_mview ns0 lag0 asks k0).
Proof.
  intros [E1 (pre & t & suf & Ens & E2 & Hlag) E3 [k0 Hc] Har Hs] Hheap Hroom. exists k0.
  pose proof (chain_length _ _ _ _ _ _ _ _ Hc) as Hlen. destruct ns0 as [|d0 ns]; [by destruct pre|].
  cbn [List.hd List.tl length] in *. injection Hlen as Hlen.
  assert (Z1 : (zip ns l0).*1 = ns) by (apply fst_zip; lia).
  assert (Z2 : (zip ns l0).*2 = l0) by (apply snd_zip; lia).
  split; cbn.
  - by subst.
  - rewrite E2. symmetry. f_equal. apply (tail_spot _ pre t suf); [|done]. unfold start_mview, mv_nodes, mv_fronts.
    cbn. by rewrite Z1.
  - rewrite E3, zsum_zero by (intros i x Hx; by apply lookup_replicate in Hx as []). cbn.
    do 2 f_equal. unfold Zlen. rewrite <- Z2 at 1. rewrite length_fmap. lia.
  - rewrite concat_nils. split; cbn; rewrite ?Z1, ?Z2, ?app_nil_r; try done.
    + by exists d0.
    + by intros a Ha%elem_of_nil.
    + unfold mq_own. by rewrite app_nil_r.
  - intros ->. destruct ns; [|by destruct l0]. destruct suf as [|z [|]]; try done.
    apply (f_equal length) in Ens. rewrite length_app in Ens. cbn in Ens. lia.
  - rewrite Z2. constructor.
  - apply length_replicate.
  - constructor.
Qed.

Lemma start_m_at m ns0 lag0 asks k0 i n : mq_inv (m, start_mview ns0 lag0 asks k0) -> (i < N)%nat ->
  asks !! i = Some n -> at_ i n 0 [] [] (m, start_mview ns0 lag0 asks k0).
Proof.
  intros Hi HiN Hn. split; [done|]. cbn. split; [done|].
  split; [by apply lookup_replicate|]. split; [done|]. by apply lookup_replicate.
Qed.

(** The chain from [head] on. *)
Lemma front_chain m' g : mq_inv (m', g) ->
  exists k0, chain 0 8 16 m' (mv_hd g).1 (mv_hd g :: mv_ns g).*1 (k0 :: (mv_ns g).*2) 0.
Proof.
  intros Hi. destruct (mi_body _ Hi) as [(p & Hch) _ _ _ _]. cbn [fst snd] in Hch.
  rewrite nodes_hd, !fmap_app in Hch. apply chain_app in Hch as (r & _ & Hch); [|by rewrite !length_fmap].
  exists (mv_hd g).2. cbn in Hch |- *. by destruct Hch as (-> & Hch).
Qed.

(** Once every thread is at rest, memory holds the queue. *)
Lemma m_settled m' g : mq_inv (m', g) -> (forall j x, mv_owed g !! j = Some x -> x = 0) ->
  msq_repr q (mv_hd g :: mv_ns g).*1 (mv_ns g).*2 (mv_lag g) m' /\
  heap_holds (msq_own q (mv_hd g :: mv_ns g).*1) rest m'.
Proof.
  intros Hi Hz. pose proof (front_chain _ _ Hi) as Hch.
  destruct Hi as [E1 E2 E3 [_ _ Hh Har _] Hlag Hr Ho Hwho]. cbn [fst snd] in *.
  assert (Hh' : heap_holds (msq_own q (mv_hd g :: mv_ns g).*1) rest m').
  { eapply (heap_holds_perm _ ((node_blocks 24 (mv_gs g).*1 ++ node_blocks 24 (concat (mv_priv g))) ++ msq_own q (mv_hd g :: mv_ns g).*1)) in Hh.
    - destruct Hh as [Hh Hs]. rewrite <- app_assoc in Hh, Hs. apply separated_app in Hs as (_ & Hs & _).
      split; [|done]. eapply heap_ok_sub; [exact Hh|]. intros x Hx. apply elem_of_app. by right.
    - unfold mq_own, msq_own, node_blocks. rewrite nodes_hd. rewrite fmap_app, !map_app.
      rewrite <- (Permutation_middle (_ ++ _)). f_equiv. rewrite <- !app_assoc. apply Permutation_app_head, Permutation_app_comm. }
  split; [|exact Hh']. split.
  - done.
  - destruct (spot_tail (mv_gs g) (mv_hd g :: mv_ns g) (mv_lag g)) as (pre & t & suf & Es & Et & Hs); [done| |].
    { intros Hl. specialize (Hlag Hl). by destruct (mv_ns g). }
    exists pre, t, suf. split; [done|]. split; [|done]. rewrite E2, <- Et. unfold mv_reached. by rewrite nodes_hd.
  - rewrite E3, zsum_zero by done. unfold Zlen. rewrite length_fmap. do 2 f_equal. lia.
  - exact Hch.
  - rewrite nodes_hd, fmap_app, <- app_assoc in Har. apply Forall_app in Har as [_ Har].
    by apply Forall_app in Har as [Har _].
  - destruct Hh' as [_ Hs]. by apply separated_app in Hs as (Hs & _).
Qed.

End queue.

(** ** Pools of clients *)

Record msqueue_client := mk_mclient {
  mc_side : side;
  mc_junk : Z;
  mc_ops : list op;
  mc_budget : nat
}.

Definition msqueue_pool `{K : Kernel} `{Al : Allocator} (q : Z) (cls : list msqueue_client) : list (thread (list event)) :=
  map (fun c => (perform (msq_container (mc_side c) (mc_junk c) q) (mc_ops c), mc_budget c)) cls.

(** How many nodes the clients ask for. *)
Definition all_requests (cls : list msqueue_client) : nat := sum_list (map (fun c => requests (mc_ops c)) cls).

(** A BPF client may make ten attempts at each of its operations. *)
Definition enough_budget (c : msqueue_client) : Prop :=
  (spend (mc_side c) MSQUEUE_MAX_RETRIES (length (mc_ops c)) <= mc_budget c)%nat.

(** What the threads did together: at every moment memory holds the chain with the contents that
    one history of the queue leads to, in which elements leave in the order in which they entered;
    a thread that has ended saw exactly its events of that history; once all have ended memory
    holds the queue again, its counter included. *)
Definition msqueue_outcome `{Al : Allocator} (q : Z) (rest : list block) (l0 : list ds_kv) (cls : list msqueue_client)
    (ts : list (thread (list event))) (m : mem) : Prop :=
  exists ns l L,
    m !! head q = Some (List.hd 0 ns) /\ (exists k0, chain 0 8 16 m (List.hd 0 ns) ns (k0 :: l) 0) /\
    mq_run l0 L l /\ popped ((events L).*2) ++ l = l0 ++ accepted ((events L).*2) /\
    (forall i evs b, ts !! i = Some (Ret evs, b) -> evs = mine i (events L) /\
       exists c, cls !! i = Some c /\ map event_op evs = mc_ops c) /\
    ((forall t, t ∈ ts -> is_Some (thread_done t)) ->
       exists lag, msq_repr q ns l lag m /\ heap_holds (msq_own q ns) rest m).

Section pool.
Context `{K : Kernel} `{Al : Allocator} `{!AllocLaws Al} {room : Z -> nat -> mem -> Prop}
  `{!FreshAllocLaws Al room}.
Variables (q : Z) (rest : list block) (ns0 : list Z) (l0 : list ds_kv) (lag0 : bool)
  (cls : list msqueue_client) (m : mem).
Hypothesis q_pos : 0 < q.
Hypothesis start : msq_repr q ns0 l0 lag0 m.
Hypothesis holds : heap_holds (msq_own q ns0) rest m.
Hypothesis roomy : room 24 (all_requests cls) m.
Hypothesis budgets : Forall enough_budget cls.

Notation N := (length cls).
Notation inv := (mq_inv (room := room) q rest l0 N).

Notation first_mview := (start_mview l0 N ns0 lag0 (map (fun c => requests (mc_ops c)) cls)).

Lemma first_m_inv : exists k0, inv (m, first_mview k0).
Proof. by apply start_m_inv. Qed.

Lemma first_m_at k0 i c : inv (m, first_mview k0) -> cls !! i = Some c ->
  exists F, at_ (room := room) q rest l0 N i (requests (mc_ops c)) 0 [] F (m, first_mview k0).
Proof.
  intros Hi Hc. eexists. apply start_m_at; [done|by eapply lookup_lt_Some|].
  change (map ?f cls) with (f <$> cls). by rewrite list_lookup_fmap, Hc.
Qed.

Definition m_post (i : nat) (evs : list event) (s : mem * mview) : Prop :=
  exists c, cls !! i = Some c /\ map event_op evs = mc_ops c /\
    exists F, at_ (room := room) q rest l0 N i 0 0 evs F s.

Lemma first_m_pool_ok k0 : inv (m, first_mview k0) ->
  pool_ok (mq_rely (room := room) q rest l0 N) (mq_guar (room := room) q rest l0 N) m_post (msqueue_pool q cls)
    (m, first_mview k0).
Proof.
  intros Hinv i p b Hi. unfold msqueue_pool in Hi. apply list_lookup_fmap_Some in Hi as (c & [= -> ->] & Hc).
  eapply (triple_thread _ _ _ _ _ (fun s => exists F, at_ (room := room) q rest l0 N i (requests (mc_ops c)) 0 [] F s) (m_post i));
    [| |by apply first_m_at].
  - eapply triple_weaken; [by apply mq_perform_ok|done|done|].
    intros evs s [Hm Hs]. exists c. by split.
  - eapply Forall_lookup_1 in budgets; [|exact Hc]. done.
Qed.

(** C14. Any number of threads that insert into and pop from the Michael-Scott queue, each in
    either build, in every interleaving of their accesses, over an allocator that never reuses
    memory (the tests' arena): every schedule ends, no access faults, and at every moment memory
    holds the chain with the contents that one history of a FIFO queue leads to. An insertion
    fails only for want of memory, an operation gives up only if at least five operations of
    others succeeded since the thread's previous one, and a pop finds the queue empty only if it
    was. Elements leave in the order in which they entered, each thread saw its part of the
    history, and once all are done memory holds the queue again. *)
Theorem msqueue_linearizable :
  Acc (flip pool_step) (msqueue_pool q cls, m) /\
  forall ts m', rtc pool_step (msqueue_pool q cls, m) (ts, m') ->
    (forall i t, ts !! i = Some t -> ~ thread_faults t m' /\ t.1 <> NoFuel) /\
    msqueue_outcome q rest l0 cls ts m'.
Proof.
  split; [apply pool_terminates|]. intros ts m' Hs. destruct first_m_inv as [k0 Hinv].
  destruct (pool_safe (mq_rely (room := room) q rest l0 N) (mq_guar (room := room) q rest l0 N) m_post
    (mq_rely_preorder q rest l0 N) (mq_guar_compatible q rest l0 N) inv
    (fun i s s' => mq_guar_inv q rest l0 N i s s') _ _ _ _ _ (first_m_pool_ok k0 Hinv) Hinv Hs) as (g & Hok & Hi).
  pose proof (pool_ok_thread _ (mq_guar (room := room) q rest l0 N) m_post (mq_rely_preorder (room := room) q rest l0 N) ts m' g) as Ht.
  split.
  { intros i [p b] Hi'. by destruct (Ht _ _ _ Hok Hi') as (H1 & H2 & _). }
  assert (Hret : forall i evs b, ts !! i = Some (Ret evs, b) -> m_post i evs (m', g)).
  { intros i evs b E. destruct (Ht _ _ _ Hok E) as (_ & _ & Hq). by apply Hq. }
  exists (mv_hd g :: mv_ns g).*1, (mv_ns g).*2, (mv_hist g).
  pose proof Hi as [E1 _ _ _ _ Hr Ho Hwho]. cbn [fst snd] in *.
  split; [done|]. split; [by eapply front_chain|].
  split; [done|]. split; [by apply (mq_run_fifo l0)|]. split.
  - intros i evs b E. destruct (Hret i evs b E) as (c & Hc & Hev & F & _ & _ & _ & <- & _).
    rewrite mine_events. split; [done|by exists c].
  - intros Hdone. exists (mv_lag g). eapply m_settled; [exact Hi|]. intros i x Hx.
    pose proof (pool_steps_length _ _ Hs) as Hlen. cbn in Hlen. unfold msqueue_pool in Hlen.
    rewrite length_map in Hlen. apply lookup_lt_Some in Hx as Hlt. rewrite Ho, <- Hlen in Hlt.
    apply lookup_lt_is_Some in Hlt as [[[evs|e kk|] b] E];
      try (by destruct (Hdone _ (list_elem_of_lookup_2 _ _ _ E))).
    destruct (Hret i evs b E) as (c & _ & _ & F & _ & _ & Hx' & _). cbn in Hx'. congruence.
Qed.
End pool.
