(* ===== verification/MsQueueCrowd.v ===== *)
(** * The Michael-Scott queue as a structure that any number of threads share.

    The triples of [MsQueueConc] as an instance of the interface [Crowd], in the userspace build:
    what the threads did adds up, and the blocks of the rest of the program are theirs. *)
From stdpp Require Import base numbers gmap list fin_maps option relations.
From S2P Require Import Prelude Machine Logic Api Owned Container Conc SoleAlloc Threads Crowd Linked MsQueue MsQueueConc.
Import Msqueue MsqueueElem.

(** ** The histories of the threads *)

(** What an operation can answer. *)
Definition msqueue_answers (ev : event) : Prop := exists n l l', mq_step n l (Some ev) l'.

Lemma events_snoc H i lb : events (H ++ [(i, lb)]) = events H ++ match lb with Some ev => [(i, ev)] | None => [] end.
Proof. unfold events. rewrite omap_app. by destruct lb. Qed.

Lemma events_who N (H : labels) : Forall (fun p => (p.1 < N)%nat) H -> Forall (fun p => (p.1 < N)%nat) (events H).
Proof.
  induction H as [|[i lb] H IH] using rev_ind; [done|]. intros [HH Hi]%Forall_app.
  rewrite events_snoc. apply Forall_app. split; [by apply IH|]. apply Forall_cons in Hi as [Hi _].
  destruct lb; [by constructor|done].
Qed.

Lemma mq_run_answers l0 H l : mq_run l0 H l -> Forall msqueue_answers ((events H).*2).
Proof.
  induction 1 as [|H l i lb l' _ IH Hs]; [constructor|]. rewrite events_snoc, fmap_app. apply Forall_app.
  split; [done|]. destruct lb as [ev|]; [|constructor]. apply Forall_singleton. by eexists _, _, _.
Qed.

Section crowd.
Context `{K : Kernel} `{Al : Allocator} `{!AllocLaws Al} {room : Z -> nat -> mem -> Prop}
  `{!FreshAllocLaws Al room}.
Variables (q : Z) (rest : list block) (l0 : list ds_kv) (N : nat) (junk : Z).
Hypothesis q_pos : 0 < q.

Notation inv := (mq_inv (room := room) q rest l0 N).
Notation rely := (mq_rely (room := room) q rest l0 N).
Notation guar := (mq_guar (room := room) q rest l0 N).

(** ** Memory that is not the queue's *)

Lemma mq_body_write ns F k m a v : mq_body (room := room) q rest ns F k m -> in_live rest a -> is_Some (m !! a) ->
  mq_body (room := room) q rest ns F k (<[a:=v]> m).
Proof.
  intros [(p & Hch) Hp [Hh Hs] Har Hr] Ha Hsome.
  assert (Hoff : ~ in_live (mq_own q ns.*1 F) a) by (intros Hl; apply separated_app in Hs as (_ & _ & Hd); by apply (Hd a)).
  assert (Hin : in_live (mq_own q ns.*1 F ++ rest) a) by (apply in_live_app; by right).
  split.
  - exists p. eapply chain_frame_ins; [apply msq_layout| |exact Hch]. intros Hl. apply Hoff.
    apply in_live_cons. right. rewrite node_blocks_app. apply in_live_app. by left.
  - intros b Hb. destruct (Hp b Hb) as [Hb0 Hm]. split; [done|]. intros i Hi1 Hi2. by apply lookup_ins_is_Some, Hm.
  - split; [|done]. eapply heap_ok_frame; [exact Hh|by apply unchanged_insert|auto with arena].
  - done.
  - eapply fresh_room; [exact Hh| |done]. by apply unchanged_insert.
Qed.

Lemma mq_foreign_write i m g a v :
  inv (m, g) -> in_live rest a -> is_Some (m !! a) -> rely i (m, g) (<[a:=v]> m, g).
Proof.
  intros Hi Ha Hsome _. destruct Hi as [E1 E2 E3 Hb Hl Hr Ho Hwho]. cbn [fst snd] in *.
  pose proof Hb as [_ _ [_ Hs] _ _]. apply separated_app in Hs as (_ & _ & Hd).
  assert (Hoff : forall c, in_live (mq_own q (mv_nodes g).*1 (concat (mv_priv g))) c -> <[a:=v]> m !! c = m !! c).
  { intros c Hc. apply lookup_insert_ne. intros ->. by apply (Hd c). }
  assert (Hhd : forall c, in_block q 24 c -> <[a:=v]> m !! c = m !! c) by (intros c Hc; apply Hoff, in_live_cons; by left).
  split; [|split; [done|split; [apply forward_refl|split; [done|]]]].
  - split; cbn; rewrite ?Hhd by addr; try done. by apply mq_body_write.
  - intros F c HF Hc. apply Hoff, in_live_cons. right. rewrite node_blocks_app. apply in_live_app. right.
    revert Hc. apply in_live_sub. intros x (y & <- & Hy)%list_elem_of_In%in_map_iff. apply list_elem_of_In, in_map_iff.
    exists y. split; [done|]. apply list_elem_of_In, (concat_in _ i F); [done|]. by apply list_elem_of_In.
Qed.

(** ** The interface *)

#[local] Instance msqueue_crowd : Crowd := {|
  cr_ghost := mview;
  cr_inv := inv;
  cr_rely := rely;
  cr_guar := guar;
  cr_at i n k evs s := exists asks F, (n <= asks)%nat /\ at_ (room := room) q rest l0 N i asks 0 evs F s;
  cr_seen g i := mine i (events (mv_hist g));
  cr_items g := (mv_ns g).*2;
  cr_cells := in_live rest
|}.

Definition msqueue_quiet (l : list ds_kv) (m : mem) : Prop :=
  exists ns lag, msq_repr q ns l lag m /\ heap_holds (msq_own q ns) rest m.

#[local] Instance msqueue_crowd_ops : CrowdOps msqueue_crowd (msq_container USER junk q).
Proof.
  split; cbn [cr_rely cr_guar cr_at msqueue_crowd c_insert c_pop msq_container].
  - intros i n k evs e. apply triple_exists. intros asks. apply triple_exists. intros F. apply triple_pure. intros Hn.
    destruct asks as [|asks]; [lia|]. eapply triple_weaken; [apply (mq_insert_ok q rest l0 N q_pos USER junk i asks evs F e 0)|done|done|].
    intros r s [F' Hs]. exists asks, F'. split; [lia|done].
  - intros i n k evs x. apply triple_exists. intros asks. apply triple_exists. intros F. apply triple_pure. intros Hn.
    eapply triple_weaken; [apply (mq_pop_ok q rest l0 N q_pos USER i asks evs F x 0)|done|done|].
    intros r s Hs. by exists asks, F.
Qed.

#[local] Instance msqueue_crowd_laws : CrowdLaws msqueue_crowd N l0 msqueue_answers msqueue_quiet.
Proof.
  pose proof (fun i k o evs F => at_stable (room := room) q rest l0 N i k o evs F) as Hst.
  split; cbn [cr_rely cr_guar cr_inv cr_at cr_cells cr_items cr_ghost msqueue_crowd].
  - intros i. apply mq_rely_preorder.
  - intros i. apply mq_guar_refl.
  - intros i s s' Hi HR. by apply HR.
  - intros i j s s' _ HG Hne. by apply (mq_guar_compatible _ _ _ _ i j).
  - intros i s s' a Hi [_ HG] Ha. by apply HG.
  - intros i n k evs s s' (asks & F & Hn & Hat) HR. exists asks, F. split; [done|]. by eapply Hst.
  - intros i n k evs m g (asks & F & _ & Hi & _ & Ho & Hm & _). cbn in *. split; [done|].
    split; [rewrite <- (mi_owed _ _ _ _ _ Hi); by eapply lookup_lt_Some|].
    rewrite mine_events. split; [done|]. rewrite <- Hm, <- mine_events.
    pose proof (mq_run_answers _ _ _ (mi_run _ _ _ _ _ Hi)) as Hans. rewrite Forall_forall in *.
    intros ev Hev. apply Hans. by eapply mine_sub.
  - apply mq_foreign_write.
  - intros m g Hi. pose proof (mine_all N _ (events_who N _ (mi_who _ _ _ _ _ Hi))) as Hall. cbn in *.
    unfold all_seen. cbn. rewrite Hall.
    pose proof (mq_run_fifo _ _ _ (mi_run _ _ _ _ _ Hi)) as Hf. cbn in Hf. by rewrite Hf.
  - intros m g Hi Hat. eexists _, _. apply (m_settled q rest l0 N m g Hi).
    intros i x Hx. pose proof (lookup_lt_Some _ _ _ Hx) as Hlt. pose proof (mi_owed _ _ _ _ _ Hi) as Ho.
    cbn in Ho. rewrite Ho in Hlt.
    destruct (Hat i Hlt) as (n & k & evs & asks & F & _ & _ & _ & Hx' & _). cbn in *. congruence.
Qed.
End crowd.

(** The initialisation, with [k] requests left for later. *)
Lemma msq_init_leaves `{K : Kernel} `{Al : Allocator} `{!AllocLaws Al} room `{!SoleAllocLaws Al room} q s rest k m b :
  0 < q -> heap_holds [(q, 24)] rest m -> mapped_words q 24 m -> alloc_pre 24 m -> room 24 (S k) m ->
  wpr (ds_msqueue_init s q) m b (fun r m' b' => b' = b /\
    (forall c, in_live rest c -> m' !! c = m !! c) /\
    (r = DS_ERROR_NOMEM \/
     (r = DS_SUCCESS /\ exists dummy,
        heap_holds (msq_own q [dummy]) rest m' /\ msq_repr q [dummy] [] false m' /\ room 24 k m'))).
Proof.
  intros Hq [Hheap Hsep] Hm Hpre Hroom.
  pose proof (reserving_laws room 24 k) as HL.
  assert (Hh' : @heap_holds (reserving Al room 24 k) [(q, 24)] rest m)
    by (split; [split; [done|apply sole_less; [lia|done]]|done]).
  eapply wpr_mono; [exact (@msq_init_ok _ (reserving Al room 24 k) _ q Hq s rest m b Hh' Hm ltac:(done))|].
  intros r m' b' (-> & Hrest & [(-> & _)|(-> & dummy & [[H1 H2] H3] & Hr)]); (split; [done|split; [done|]]).
  - by left.
  - right. split; [done|]. exists dummy. split; [done|]. split; [|done]. by destruct Hr; split.
Qed.
