(* ===== verification/UsertestMpmc.v ===== *)
(** * The tests with several producers and consumers of the userspace build.

    [usertest_vyukhov.c] and [usertest_msqueue.c] instantiate the drivers of [Usertest] with their
    queue, their [struct ctx] and their constants. Whatever the interleaving, a test whose threads
    can all be joined exits with 0 once it got through its initialisation. The test of the
    Michael-Scott queue cannot be joined if an insertion fails: its producer returns, and its
    consumer waits for the missing pairs forever. *)
From stdpp Require Import base numbers gmap list fin_maps option relations.
From S2P Require Import Prelude Machine Logic Api Owned Conc Container SoleAlloc UsertestArena Threads Crowd.
From S2P Require Import Ring Vyukhov VyukhovConc VyukhovCrowd Linked MsQueue MsQueueConc MsQueueCrowd.
From S2P Require Import Usertest UsertestCrowd.

Inductive mpmc_test := TestVyukhov | TestMsqueue.

Definition USERTEST_VYUKHOV_CAPACITY : Z := 2 ^ 6.

(** [(uint64_t)tid * 1000u + (uint64_t)(i + 1)] *)
Definition mpmc_key (tid : nat) (i : Z) : Z := u64 (u64 (Z.of_nat tid * 1000) + u64 (i + 1)).

Section tests.
Context `{K : Kernel}.
(** The statics and the memory of the arena, the address of [struct ctx c], and what
    [ds_msqueue_insert_c] leaves uninitialised. *)
Variables sym base bytes c junk : Z.

#[local] Instance mpmc_arena : Allocator := usertest_allocator sym base bytes.

Definition mpmc_container (t : mpmc_test) : Container :=
  match t with
  | TestVyukhov => vyukhov_container USER c 6
  | TestMsqueue => msq_container USER junk c
  end.

Definition mpmc_q_size (t : mpmc_test) : Z := match t with TestVyukhov => 152 | TestMsqueue => 24 end.

(** [struct ctx]. *)
Definition vyukhov_ctx : test_ctx := mk_ctx (c + 152) (c + 160) None (c + 168).
Definition msqueue_ctx : test_ctx := mk_ctx (c + 24) (c + 32) None (c + 40).

Definition mpmc_ctx (t : mpmc_test) : test_ctx :=
  match t with TestVyukhov => vyukhov_ctx | TestMsqueue => msqueue_ctx end.

(** *** The programs

    The producers of the ring try again when it is full or contended; those of the linked queue
    never do. *)

Definition vyukhov_producer_thread (tid polls : nat) : prog (status * list event) :=
  producer_thread (C := vyukhov_container USER c 6) vyukhov_ctx
    (fun rc => (rc =? DS_ERROR_NOMEM) || (rc =? DS_ERROR_BUSY)) (mpmc_key tid) 2 polls.

Definition vyukhov_consumer_thread (turns : nat) (out : ds_kv) : prog (status * list event) :=
  consumer_thread (C := vyukhov_container USER c 6) vyukhov_ctx
    (fun rc => (rc =? DS_ERROR_NOT_FOUND) || (rc =? DS_ERROR_BUSY)) turns out.

Definition vyukhov_mpmc_main : crowd_test := {|
  ct_setup := main_setup (C := vyukhov_container USER c 6) vyukhov_ctx 4;
  ct_consumers := 2;
  ct_consumer := vyukhov_consumer_thread;
  ct_producers := 2;
  ct_producer := vyukhov_producer_thread;
  ct_exit := main_exit_of vyukhov_ctx
|}.

Definition msqueue_producer_thread (tid polls : nat) : prog (status * list event) :=
  producer_thread (C := msq_container USER junk c) msqueue_ctx (fun _ => false) (mpmc_key tid) 10 1.

Definition msqueue_consumer_thread (turns : nat) (out : ds_kv) : prog (status * list event) :=
  consumer_thread (C := msq_container USER junk c) msqueue_ctx
    (fun rc => (rc =? DS_ERROR_NOT_FOUND) || (rc =? DS_ERROR_INVALID)) turns out.

Definition msqueue_mpmc_main : crowd_test := {|
  ct_setup := main_setup (C := msq_container USER junk c) msqueue_ctx 20;
  ct_consumers := 1;
  ct_consumer := msqueue_consumer_thread;
  ct_producers := 2;
  ct_producer := msqueue_producer_thread;
  ct_exit := main_exit_of msqueue_ctx
|}.

Definition mpmc_main (t : mpmc_test) : crowd_test :=
  match t with TestVyukhov => vyukhov_mpmc_main | TestMsqueue => msqueue_mpmc_main end.

(** [USERTEST_ITEMS_PER_PRODUCER]. *)
Definition mpmc_items (t : mpmc_test) : nat := match t with TestVyukhov => 2 | TestMsqueue => 10 end.

Definition mpmc_insert_again (t : mpmc_test) (rc : Z) : bool :=
  match t with TestVyukhov => (rc =? DS_ERROR_NOMEM) || (rc =? DS_ERROR_BUSY) | TestMsqueue => false end.

Definition mpmc_pop_again (t : mpmc_test) (rc : Z) : bool :=
  match t with
  | TestVyukhov => (rc =? DS_ERROR_NOT_FOUND) || (rc =? DS_ERROR_BUSY)
  | TestMsqueue => (rc =? DS_ERROR_NOT_FOUND) || (rc =? DS_ERROR_INVALID)
  end.

(** How often a producer can try to insert an item, when it polls [polls] times. *)
Definition mpmc_tries (t : mpmc_test) (polls : nat) : nat := match t with TestVyukhov => polls | TestMsqueue => 1 end.

(** How many operations the threads may begin in all, in the queue whose tickets are numbered. *)
Definition mpmc_todo (t : mpmc_test) (pa : patience) : list nat :=
  map (fun i => (inserts_of (mpmc_main t) (mpmc_items t) (mpmc_tries t) pa i + pops_of (mpmc_main t) pa i)%nat)
    (seq 0 (ct_consumers (mpmc_main t) + ct_producers (mpmc_main t))).

Definition mpmc_few (t : mpmc_test) (pa : patience) : Prop :=
  match t with TestVyukhov => Z.of_nat (sum_list (mpmc_todo t pa)) < 2 ^ 62 | TestMsqueue => True end.

Definition mpmc_block (t : mpmc_test) : block := (c + mpmc_q_size t, 24).

(** The drained queue. *)
Definition mpmc_quiet (t : mpmc_test) (m : mem) : Prop :=
  match t with
  | TestVyukhov => exists buf, vyukhov_quiet c buf 6 [] m
  | TestMsqueue => msqueue_quiet c [mpmc_block TestMsqueue] [] m
  end.

(** A zeroed [struct ctx] beside an arena from which nothing was taken yet. *)
Record mpmc_start (t : mpmc_test) (m : mem) : Prop := {
  ms_heap : heap_holds [(c, mpmc_q_size t)] [mpmc_block t] m;
  ms_ready : c_ready (Container := mpmc_container t) m;
  ms_zero : ctx_zero (mpmc_ctx t) m;
  ms_off : m !! usertest_arena_off sym = Some 0
}.

Hypothesis c_pos : 0 < c.
Hypothesis base_ok : 0 < base /\ base mod 8 = 0 /\ 0 <= bytes < 2 ^ 63.
Hypothesis sym_apart : sym + 24 <= base \/ base + bytes <= sym.

#[local] Instance mpmc_arena_laws : AllocLaws mpmc_arena := usertest_alloc_laws sym base bytes base_ok sym_apart.
#[local] Instance mpmc_arena_sole : SoleAllocLaws mpmc_arena (arena_room sym) := usertest_sole_laws sym base bytes base_ok sym_apart.
#[local] Instance mpmc_arena_fresh : FreshAllocLaws mpmc_arena (arena_room sym) := usertest_fresh_laws sym base bytes base_ok sym_apart.

Lemma mpmc_cells_in t : Forall (in_live [mpmc_block t])
  [cx_produced (mpmc_ctx t); cx_consumed (mpmc_ctx t); cx_expected (mpmc_ctx t)].
Proof. destruct t; repeat constructor; apply in_live_cons; left; unfold mpmc_q_size; cbn; unfold in_block; lia. Qed.

Lemma mpmc_zero_frame t m m' : (forall a, in_live [mpmc_block t] a -> m' !! a = m !! a) ->
  ctx_zero (mpmc_ctx t) m -> ctx_zero (mpmc_ctx t) m'.
Proof.
  intros Hs (Z1 & Z2 & Z3 & Z4). pose proof (mpmc_cells_in t) as [C1 [C2 [C3 _]%Forall_cons]%Forall_cons]%Forall_cons.
  unfold ctx_zero. rewrite !Hs by done. split_and!; try done. by destruct t.
Qed.

(** What an operation can answer is success or a reason to try again. *)
Lemma vyukhov_pops_answered x r o : vyukhov_answers (2 ^ 6) (EPop x r o) ->
  (r = DS_SUCCESS /\ is_Some o) \/ (r <> DS_SUCCESS /\ mpmc_pop_again TestVyukhov r = true).
Proof. intros (s & s' & Hs). inversion Hs; subst; [left; split; [done|by eexists]|by right..]. Qed.

Lemma msqueue_pops_answered x r o : msqueue_answers (EPop x r o) ->
  (r = DS_SUCCESS /\ is_Some o) \/ (r <> DS_SUCCESS /\ mpmc_pop_again TestMsqueue r = true).
Proof. intros (n & l & l' & Hs). inversion Hs; subst; [left; split; [done|by eexists]|by right..]. Qed.

Lemma mpmc_todo_lookup t pa i : (i < ct_consumers (mpmc_main t) + ct_producers (mpmc_main t))%nat ->
  mpmc_todo t pa !! i =
    Some (inserts_of (mpmc_main t) (mpmc_items t) (mpmc_tries t) pa i + pops_of (mpmc_main t) pa i)%nat.
Proof. intros Hi. unfold mpmc_todo. by rewrite list_lookup_fmap, lookup_seq_lt. Qed.

Lemma mpmc_apart t : counters_apart (mpmc_ctx t).
Proof. unfold counters_apart. destruct t; cbn; lia. Qed.

(** What [crowd_ready] says of a test. *)
Notation mpmc_ready t pa m :=
  (crowd_ready (mpmc_main t) (mpmc_ctx t) mpmc_key (mpmc_items t) pa (mpmc_quiet t) m).

Hypothesis clock_pure : forall m, snd (kcall ClockNs m) = m.

Lemma vyukhov_test_ready buf m pa : vyukhov_placed c buf 6 -> vyukhov_repr c buf 6 0 [] m ->
  disjoint_block buf (24 * 2 ^ 6) [(c, 152); mpmc_block TestVyukhov] -> mpmc_few TestVyukhov pa ->
  mpmc_ready TestVyukhov pa m.
Proof.
  intros Hp Hr Hd Hfew. set (T := sum_list (mpmc_todo TestVyukhov pa)). cbn [mpmc_few] in Hfew. fold T in Hfew.
  pose proof (vyukhov_crowd_laws c buf 6 0 [] 4 T Hp) as HL. pose proof (vyukhov_crowd_ops c buf 6 0 [] 4 T Hp Hfew USER) as HO.
  assert (Hi : v_inv c buf 6 0 [] 4 T (m, start_vview 0 [] 4 (mpmc_todo TestVyukhov pa))) by by apply start_v_inv.
  apply (container_ready (C := mpmc_container TestVyukhov) (mpmc_main TestVyukhov) _ (mpmc_insert_again TestVyukhov) (mpmc_pop_again TestVyukhov) _ _
    (mpmc_tries TestVyukhov) pa _ _ (vyukhov_crowd c buf 6 0 [] 4 T) _ _ (start_vview 0 [] 4 (mpmc_todo TestVyukhov pa))
    (L := HL)); [done|apply mpmc_apart|done|apply vyukhov_pops_answered|done..| | |].
  - intros i Hlt. cbn. apply start_v_at; [done|done|]. exact (mpmc_todo_lookup TestVyukhov pa i Hlt).
  - assert (Hfree : forall a, in_live [mpmc_block TestVyukhov] a -> v_foreign c buf 6 a).
    { intros a Ha. split; [|intros Hb; apply (Hd a Hb), in_live_cons; by right].
      apply in_live_cons in Ha as [Ha|Ha]; [|by apply in_live_nil in Ha]. cbn in Ha. unfold in_block in *. lia. }
    pose proof (mpmc_cells_in TestVyukhov) as [C1 [C2 [C3 _]%Forall_cons]%Forall_cons]%Forall_cons.
    split_and!; by apply Hfree.
  - intros m' Hq. by exists buf.
Qed.

Lemma msqueue_test_ready dummy m pa : msq_repr c [dummy] [] false m ->
  heap_holds (msq_own c [dummy]) [mpmc_block TestMsqueue] m -> arena_room sym 24 20 m ->
  mpmc_ready TestMsqueue pa m.
Proof.
  intros Hr Hh Hroom. pose proof (msqueue_crowd_laws (room := arena_room sym) c [mpmc_block TestMsqueue] [] 3) as HL.
  pose proof (msqueue_crowd_ops (room := arena_room sym) c [mpmc_block TestMsqueue] [] 3 junk c_pos) as HO.
  destruct (start_m_inv (room := arena_room sym) c [mpmc_block TestMsqueue] [] 3 m [dummy] false [0; 10; 10]%nat Hr Hh Hroom) as [k0 Hi].
  apply (container_ready (C := mpmc_container TestMsqueue) (mpmc_main TestMsqueue) _ (mpmc_insert_again TestMsqueue) (mpmc_pop_again TestMsqueue) _ _
    (mpmc_tries TestMsqueue) pa _ _ (msqueue_crowd (room := arena_room sym) c [mpmc_block TestMsqueue] [] 3) _ _
    (start_mview [] 3 [dummy] false [0; 10; 10]%nat k0) (L := HL)); [done|apply mpmc_apart|done|apply msqueue_pops_answered|done..| | |done].
  - intros i Hlt. cbn in Hlt. exists (nth i [0; 10; 10]%nat 0%nat), []. split.
    + destruct i as [|[|[|i]]]; [apply Nat.leb_le; reflexivity..|lia].
    + apply start_m_at; [done|done|]. by destruct i as [|[|[|i]]]; [..|lia].
  - pose proof (mpmc_cells_in TestMsqueue) as [C1 [C2 [C3 _]%Forall_cons]%Forall_cons]%Forall_cons. done.
Qed.

(** After the initialisation: it failed, or the threads can start; the counters are still zero. *)
Lemma mpmc_init t m : mpmc_start t m ->
  wpr (c_init (Container := mpmc_container t)) m 0 (fun r m1 _ => ctx_zero (mpmc_ctx t) m1 /\
    (r <> DS_SUCCESS \/ (r = DS_SUCCESS /\ forall pa, mpmc_few t pa -> mpmc_ready t pa m1))).
Proof.
  intros [Hh Hr Hz Ho].
  assert (Hroom : forall sz n, sz * Z.of_nat n < 2 ^ 64 -> arena_room sym sz n m)
    by (intros sz n Hn; exists 0; split; [done|lia]).
  destruct t; cbn [mpmc_container c_init vyukhov_container msq_container] in *.
  - destruct Hh as [Hh Hsep]. cbn [app] in Hh, Hsep.
    eapply wpr_mono; [apply (init_ok c 6 [(c, 152); mpmc_block TestVyukhov] USER m 0 0); try done; [left|by apply Hroom]|].
    assert (Hap : forall a, in_live [mpmc_block TestVyukhov] a -> ~ in_block c 152 a)
      by (intros a Ha Hb; destruct Hsep as [Hd _]; by apply (Hd a)).
    intros r m1 b (_ & Hs & Hpost). split.
    { eapply mpmc_zero_frame; [|exact Hz]. intros a Ha. apply Hs; [apply in_live_cons; by right|by apply Hap]. }
    destruct Hpost as [(-> & _)|(-> & buf & Hp & Hrepr & Hd & _)]; [by left|right]. split; [done|].
    intros pa Hfew. by eapply vyukhov_test_ready.
  - eapply wpr_mono; [apply (msq_init_leaves (arena_room sym) c USER _ 20 _ _ c_pos Hh Hr); by apply Hroom|].
    intros r m1 b (_ & Hs & [-> |(-> & dummy & Hh1 & Hrepr & Hroom1)]);
      (split; [by eapply mpmc_zero_frame|]); [by left|right]. split; [done|]. intros pa _. by eapply msqueue_test_ready.
Qed.

(** C27. The two tests with several producers and consumers pass: from a zeroed [struct ctx], for
    every number of attempts the polling threads are given (of fewer than [2 ^ 62] operations on
    the ring), in every interleaving, no access faults, and once all threads can be joined all
    returned [NULL], the consumers together took exactly the pairs the producers inserted, each
    once, these are all items of all producers, the queue is empty and the exit code is 0; only a
    refused initialisation makes it 1. *)
Theorem mpmc_tests_pass t m : mpmc_start t m ->
  crowd_passes (mpmc_main t) mpmc_key (mpmc_items t) (mpmc_few t) (mpmc_quiet t) m.
Proof.
  intros Hs. apply (container_from_setup (C := mpmc_container t) _ (mpmc_ctx t));
    [apply mpmc_apart|destruct t; cbn; lia|destruct t; cbn; lia|by destruct t|by apply mpmc_init].
Qed.
End tests.

(** The arena such a test starts from: [usertest_arena_init_once], run before the threads, leaves it
    beside the [struct ctx] of the test. *)
Lemma mpmc_start_initialised `{K : Kernel} sym arena_bytes posix_memalign used c junk t m b :
  0 < arena_bytes < 2 ^ 62 ->
  (forall align n m b, wpr (posix_memalign align n) m b (fun p m' b' => b' = b /\
    (forall a, used a -> m' !! a = m !! a) /\
    (p = 0 \/ (0 < p /\ p mod align = 0 /\ mapped_words p n m' /\ forall a, used a -> ~ in_block p n a)))) ->
  mapped_words sym 24 m -> (forall a, in_block sym 24 a -> used a) ->
  (forall a, in_live [(c, mpmc_q_size t); mpmc_block c t] a -> used a /\ ~ in_block sym 24 a) ->
  c_ready (Container := mpmc_container sym 0 0 c junk t) m -> ctx_zero (mpmc_ctx c t) m ->
  wpr (usertest_arena_init_once sym arena_bytes posix_memalign) m b (fun ok m' b' => ok = true ->
    exists base, (0 < base /\ base mod 8 = 0 /\ 0 <= rounded_bytes arena_bytes < 2 ^ 63) /\
      (sym + 24 <= base \/ base + rounded_bytes arena_bytes <= sym) /\
      mpmc_start sym base (rounded_bytes arena_bytes) c junk t m').
Proof.
  intros Hb Hmem Hsym Hused Hlive Hr Hz. pose proof (rounded_bytes_ok arena_bytes Hb) as [Hrb _].
  eapply wpr_mono; [by apply (arena_init_ok sym arena_bytes posix_memalign Hb used Hmem m b [(c, mpmc_q_size t); mpmc_block c t])|].
  intros ok m' b' [_ H] Hok. destruct (H Hok) as (Hs & base & (B1 & B2 & B3) & Hst & Hh).
  assert (Hsame : forall a, in_live [(c, mpmc_q_size t); mpmc_block c t] a -> m' !! a = m !! a)
    by (intros a Ha; destruct (Hlive a Ha); by apply Hs).
  exists base. split; [split; [done|split; [done|lia]]|]. split; [done|]. split.
  - split; [exact Hh|]. unfold mpmc_block. split; [|split; [by intros a _ ?%in_live_nil|done]].
    intros a Ha [Hl|Hl]%in_live_cons; [unfold in_block in *; lia|by apply in_live_nil in Hl].
  - assert (Hq : forall a, in_block c (mpmc_q_size t) a -> m' !! a = m !! a) by (intros a Ha; apply Hsame, in_live_cons; by left).
    destruct t; cbn in *.
    + revert Hr. unfold head_mapped. autounfold with layout. rewrite !Hq by (unfold in_block; lia). done.
    + intros i Hi1 Hi2. rewrite Hq by (unfold in_block; lia). by apply Hr.
  - eapply (mpmc_zero_frame c t m m'); [|done]. intros a Ha. apply Hsame, in_live_cons. by right.
  - apply Hst.
Qed.
