(* ===== verification/UsertestStack.v ===== *)
(** * The test of the Treiber stack ([usertest/usertest_ck_stack_upmc.c]).

    Its threads are its own: the producers push entries of [struct ctx] and try again for as long as
    they are beaten to the head, and the consumers check off the keys they find in the entries they
    took. What they checked off is a ledger ([tally_book]) next to the stack: a key is only taken for
    a duplicate if it was checked off before, and only rejected if no producer has it. *)
From stdpp Require Import base numbers gmap list fin_maps option relations.
From S2P Require Import Prelude Machine Logic Api Owned Conc Container Threads Crowd.
From S2P Require Import Ring Linked CkStack CkStackConc StackCrowd Usertest UsertestCrowd UsertestMpmc.
Import StackHead StackEntry.

(** [producer_id * USERTEST_ITEMS_PER_PRODUCER + (item_id - 1)], unless the key is out of range. *)
Definition linear_key (key : Z) : option Z :=
  let producer_id := u64 key / 1000 in
  let item_id := u64 key mod 1000 in
  if (3 <=? producer_id) || (item_id =? 0) || (8 <? item_id) then None
  else Some (producer_id * 8 + (item_id - 1)).

Section test.
Context `{K : Kernel}.
(** [struct ctx c], and a bound on the turns of the retry loops in the stack. *)
Variables (c : Z) (fuel : nat).

(** ** [struct ctx] *)

Definition stack_ctx : test_ctx := mk_ctx (c + 16) (c + 24) None (c + 648).
Definition duplicate_keys : Z := c + 32.
Definition out_of_range_keys : Z := c + 40.
(** [&c->entries[0][0] + j] and [&c->seen_keys[lk]] *)
Definition ctx_entry (j : nat) : Z := c + 48 + 24 * Z.of_nat j.
Definition seen_keys (lk : Z) : Z := c + 624 + lk.

(** ** The programs *)

(** [while (!trypush(...)) sleep;] *)
Fixpoint push_until (polls : nat) (entry key value : Z) : prog bool :=
  match polls with
  | O => Ret false
  | S polls' =>
      pushed ← ds_ck_stack_upmc_trypush_upmc_c c entry key value;
      if negb (pushed : bool) then push_until polls' entry key value else Ret true
  end.

(** The producer from its item [i] on, [n] items before the end. *)
Fixpoint stack_producer_from (tid polls n i : nat) : prog (status * list event) :=
  match n with
  | O => Ret (Some 0, [])
  | S n' =>
      let key := mpmc_key tid (Z.of_nat i) in
      value ← usertest_now_ns;
      pushed ← push_until polls (ctx_entry (8 * tid + i)) key value;
      if negb (pushed : bool) then Ret (None, []) else
      _ ← rmw Relaxed (FetchAdd 64) (cx_produced stack_ctx) 1;
      '(r, evs) ← stack_producer_from tid polls n' (S i);
      Ret (r, EInsert (mk_kv key value) DS_SUCCESS :: evs)
  end.

Definition stack_producer_thread (tid polls : nat) : prog (status * list event) :=
  stack_producer_from tid polls 8 0.

(** A consumer checks off the key it found. *)
Definition check_off (key : Z) : prog unit :=
  match linear_key key with
  | None => _ ← rmw Relaxed (FetchAdd 64) out_of_range_keys 1; Ret tt
  | Some linear_key =>
      old ← rmw Relaxed (FetchAdd 8) (seen_keys linear_key) 1;
      if negb (old =? 0) then _ ← rmw Relaxed (FetchAdd 64) duplicate_keys 1; Ret tt else Ret tt
  end.

(** The events are the entries it took; what it found empty is not among them. *)
Fixpoint stack_consumer_thread (turns : nat) : prog (status * list event) :=
  match turns with
  | O => Ret (None, [])
  | S turns' =>
      done ← load Relaxed (cx_consumed stack_ctx);
      limit ← load Plain (cx_expected stack_ctx);
      if negb (done <? limit) then Ret (Some 0, []) else
      entry ← ds_ck_stack_upmc_pop_upmc_c fuel c;
      if negb (entry =? 0) then
        _ ← rmw Relaxed (FetchAdd 64) (cx_consumed stack_ctx) 1;
        key ← load Plain (data_key entry);
        value ← load Plain (data_value entry);
        check_off key;;
        '(r, evs) ← stack_consumer_thread turns';
        Ret (r, EPop no_out DS_SUCCESS (Some (mk_kv key value)) :: evs)
      else stack_consumer_thread turns'
  end.

Definition stack_setup : prog Z :=
  ds_ck_stack_upmc_init_c c;;
  store Plain (cx_expected stack_ctx) 24;;
  Ret 0.

Definition stack_exit : prog Z :=
  _ ← load SeqCst (cx_produced stack_ctx);
  _ ← load SeqCst (cx_consumed stack_ctx);
  _ ← load SeqCst duplicate_keys;
  _ ← load SeqCst out_of_range_keys;
  duplicates ← load SeqCst duplicate_keys;
  if negb (duplicates =? 0) then Ret 1 else
  out_of_range ← load SeqCst out_of_range_keys;
  if negb (out_of_range =? 0) then Ret 1 else
  consumed ← load SeqCst (cx_consumed stack_ctx);
  expected ← load Plain (cx_expected stack_ctx);
  Ret (if consumed =? expected then 0 else 1).

Definition stack_main : crowd_test := {|
  ct_setup := stack_setup;
  ct_consumers := 3;
  ct_consumer := fun turns _ => stack_consumer_thread turns;
  ct_producers := 3;
  ct_producer := stack_producer_thread;
  ct_exit := stack_exit
|}.

(** ** The keys checked off *)

(** The times [lk] was checked off among [keys]. *)
Definition checked (lk : Z) (keys : list Z) : list Z := filter (fun key => linear_key key = Some lk) keys.

(** What each thread has checked off, beside the marks in [struct ctx]. *)
Definition tally_book (N : nat) : ledger := {|
  le_state := list (list Z);
  le_view := option (list Z);
  le_of i x := x !! i;
  le_inv m x :=
    (length x = N /\ Forall (fun key => u64 key = key) (concat x)) /\
    (forall lk, 0 <= lk < 24 -> m !! seen_keys lk = Some (Zlen (checked lk (concat x)) mod 2 ^ 8)) /\
    (exists d, m !! duplicate_keys = Some d /\ (d <> 0 -> ~ NoDup (concat x))) /\
    exists o, m !! out_of_range_keys = Some o /\ (o <> 0 -> exists key, key ∈ concat x /\ linear_key key = None);
  le_cells a := in_block duplicate_keys 16 a \/ in_block (seen_keys 0) 24 a;
  le_grows x x' := concat x ⊆+ concat x'
|}.

Lemma linear_key_range key lk : linear_key key = Some lk -> 0 <= lk < 24.
Proof.
  unfold linear_key. pose proof (Z.mod_pos_bound (u64 key) 1000 ltac:(lia)). pose proof (u64_range key).
  pose proof (Z.div_pos (u64 key) 1000 ltac:(lia) ltac:(lia)).
  destruct ((3 <=? _) || _ || _) eqn:E; [done|]. intros [= <-]. lia.
Qed.

Lemma linear_key_inj key key' lk : linear_key key = Some lk -> linear_key key' = Some lk -> u64 key = u64 key'.
Proof.
  unfold linear_key. pose proof (Z.div_mod (u64 key) 1000 ltac:(lia)). pose proof (Z.div_mod (u64 key') 1000 ltac:(lia)).
  pose proof (Z.mod_pos_bound (u64 key) 1000 ltac:(lia)). pose proof (Z.mod_pos_bound (u64 key') 1000 ltac:(lia)).
  destruct ((3 <=? _) || _ || _) eqn:E; [done|]. intros [= <-].
  destruct ((3 <=? u64 key' / 1000) || _ || _) eqn:E'; [done|]. intros [= E2]. lia.
Qed.

(** A thread adds a key to its part of the books. *)
Lemma concat_insert {A} (x : list (list A)) i l a : x !! i = Some l -> concat (<[i:=l ++ [a]]> x) ≡ₚ a :: concat x.
Proof.
  intros Hi. rewrite <- (take_drop_middle x i l Hi) at 2. rewrite insert_take_drop by (by eapply lookup_lt_Some).
  rewrite !concat_app. cbn. rewrite <- app_assoc. cbn. by rewrite <- !Permutation_middle.
Qed.

Lemma checked_insert lk x i l a : x !! i = Some l ->
  Zlen (checked lk (concat (<[i:=l ++ [a]]> x))) = (if decide (linear_key a = Some lk) then 1 else 0) + Zlen (checked lk (concat x)).
Proof.
  intros Hi. unfold Zlen, checked. rewrite (Permutation_length (filter_Permutation _ _ _ (concat_insert x i l a Hi))).
  rewrite filter_cons. destruct (decide _); cbn [length]; lia.
Qed.

Lemma u64_u64 x : u64 (u64 x) = u64 x.
Proof. apply u64_id, u64_range. Qed.

Lemma tally_laws cells N : (forall a, le_cells (tally_book N) a -> cells a) -> LedgerLaws cells (tally_book N).
Proof.
  intros Hfree. split; [|done|].
  - split; [intros x; cbn; reflexivity|]. intros x y z H1 H2. cbn in *. by etrans.
  - intros m m' x Hs (I1 & I2 & I3 & I4). cbn in *.
    rewrite !Hs by (left; unfold in_block, duplicate_keys, out_of_range_keys; lia). split; [done|]. split; [|by split].
    intros lk Hlk. rewrite Hs by (right; unfold in_block, seen_keys; lia). by apply I2.
Qed.

Section tally.
Context {W : Crowd} {N : nat} {l0 : list ds_kv} {answers : event -> Prop} {quiet : list ds_kv -> mem -> Prop}.
Context `{L : !CrowdLaws W N l0 answers quiet}.
Notation B := (tally_book N).
Context `{LE : !LedgerLaws cr_cells B}.
Notation keeps i P l R := (l_at B i P (Some l) R).

Instance dup_lasting old : Lasting B (fun x => old <> 0 -> ~ NoDup (concat x)).
Proof.
  intros x x' Hg Hd Ho Hnd. cbn in Hg. apply (Hd Ho). apply submseteq_Permutation in Hg as [k Hk].
  rewrite Hk in Hnd. by apply NoDup_app in Hnd as (Hnd & _).
Qed.

(** No thread rejects a key that a producer has, *)
Lemma tally_rejects {A} i P key l (f : prog A) Q : Stable (cr_rely i) P -> linear_key key = None ->
  triple (l_rely B i) (l_guar B i) (keeps i P (l ++ [u64 key]) (fun _ => True)) f Q ->
  triple (l_rely B i) (l_guar B i) (keeps i P l (fun _ => True)) (_ ← rmw Relaxed (FetchAdd 64) out_of_range_keys 1; f) Q.
Proof.
  intros HP Hkey Hf. eapply (l_rmw B _ _ _ _ _ _ _ (Some (l ++ [u64 key])) _ (fun _ _ => True)); [done|apply _..| | |done].
  { left. unfold in_block, duplicate_keys, out_of_range_keys. lia. }
  intros m g x _ ([I0 I1] & I2 & (d & Ed & Hd) & (o & Eo & Ho)) Hl _. cbn in Hl.
  pose proof (concat_insert x i l (u64 key) Hl) as Hc. exists o, (<[i:=l ++ [u64 key]]> x). split; [done|].
  assert (Hnone : linear_key (u64 key) = None) by (unfold linear_key in *; by rewrite u64_u64).
  split; [|split; [cbn; by rewrite list_lookup_insert_eq by (by eapply lookup_lt_Some)|split; [|split; [|done]]]].
  - cbn. rewrite length_insert. split; [split; [done|by rewrite Hc, Forall_cons, u64_u64]|]. split; [|split].
    + intros lk Hlk. rewrite lookup_insert_ne by (unfold seen_keys, out_of_range_keys; lia). rewrite I2 by done.
      rewrite (checked_insert _ _ _ _ _ Hl), Hnone. done.
    + exists d. rewrite lookup_insert_ne by (unfold duplicate_keys, out_of_range_keys; lia). split; [done|].
      intros Hd0 Hnd. rewrite Hc in Hnd. apply NoDup_cons in Hnd as [_ Hnd]. by apply Hd.
    + eexists. rewrite lookup_insert_eq. split; [done|]. intros _. exists (u64 key). rewrite Hc. split; [by left|done].
  - intros j Hne. cbn. by rewrite list_lookup_insert_ne.
  - cbn. rewrite Hc. by apply submseteq_cons.
Qed.

(** or marks a key a second time without knowing that it is a duplicate, *)
Lemma tally_marks {A} i P key lk l (f : Z -> prog A) Q : Stable (cr_rely i) P -> linear_key key = Some lk ->
  (forall old, triple (l_rely B i) (l_guar B i)
     (keeps i P (l ++ [u64 key]) (fun x => old <> 0 -> ~ NoDup (concat x))) (f old) Q) ->
  triple (l_rely B i) (l_guar B i) (keeps i P l (fun _ => True)) (rmw Relaxed (FetchAdd 8) (seen_keys lk) 1 ≫= f) Q.
Proof.
  intros HP Hkey Hf. pose proof (linear_key_range _ _ Hkey) as Hlk.
  eapply (l_rmw B _ _ _ _ _ _ _ (Some (l ++ [u64 key])) _ (fun old x => old <> 0 -> ~ NoDup (concat x))); [done|apply _..| | |exact Hf].
  { right. unfold in_block, seen_keys. lia. }
  intros m g x _ ([I0 I1] & I2 & (d & Ed & Hd) & (o & Eo & Ho)) Hl _. cbn in Hl.
  pose proof (concat_insert x i l (u64 key) Hl) as Hc. eexists _, (<[i:=l ++ [u64 key]]> x). split; [by apply I2|].
  assert (Hsome : linear_key (u64 key) = Some lk) by (unfold linear_key in *; by rewrite u64_u64).
  split; [|split; [cbn; by rewrite list_lookup_insert_eq by (by eapply lookup_lt_Some)|split; [|split]]].
  - cbn. rewrite length_insert. split; [split; [done|by rewrite Hc, Forall_cons, u64_u64]|]. split; [|split].
    + intros lk' Hlk'. rewrite (checked_insert _ _ _ _ _ Hl), Hsome. destruct (decide (lk = lk')) as [<-|Hne].
      * rewrite lookup_insert_eq, decide_True by done. unfold rmw_eval. rewrite Zplus_mod_idemp_l. do 2 f_equal. lia.
      * rewrite lookup_insert_ne by (unfold seen_keys; lia). rewrite decide_False by congruence. by apply I2.
    + exists d. rewrite lookup_insert_ne by (unfold duplicate_keys, seen_keys; lia). split; [done|].
      intros Hd0 Hnd. rewrite Hc in Hnd. apply NoDup_cons in Hnd as [_ Hnd]. by apply Hd.
    + exists o. rewrite lookup_insert_ne by (unfold out_of_range_keys, seen_keys; lia). split; [done|].
      intros Ho0. destruct (Ho Ho0) as (k & Hk & Hn). exists k. rewrite Hc. split; [by right|done].
  - intros j Hne. cbn. by rewrite list_lookup_insert_ne.
  - cbn. rewrite Hc. by apply submseteq_cons.
  - intros Hold Hnd. rewrite Hc in Hnd. apply NoDup_cons in Hnd as [Hnew _]. apply Hold.
    unfold checked. destruct (filter _ (concat x)) as [|k ks] eqn:Ef; [done|]. exfalso.
    assert (Hk : k ∈ filter (fun key => linear_key key = Some lk) (concat x)) by (rewrite Ef; by left).
    apply list_elem_of_filter in Hk as [Hk Hin]. apply Hnew.
    rewrite Forall_forall in I1. rewrite <- (linear_key_inj _ _ _ Hk Hkey), (I1 k Hin). done.
Qed.

(** and it only counts the marks that were there before. *)
Lemma tally_duplicates {A} i P old l (f : prog A) Q : Stable (cr_rely i) P -> old <> 0 ->
  triple (l_rely B i) (l_guar B i) (keeps i P l (fun _ => True)) f Q ->
  triple (l_rely B i) (l_guar B i) (keeps i P l (fun x => old <> 0 -> ~ NoDup (concat x)))
    (_ ← rmw Relaxed (FetchAdd 64) duplicate_keys 1; f) Q.
Proof.
  intros HP Hold Hf. eapply (l_rmw B _ _ _ _ _ _ _ (Some l) _ (fun _ _ => True)); [done|apply _..| | |done].
  { left. unfold in_block, duplicate_keys. lia. }
  intros m g x _ (I1 & I2 & (d & Ed & Hd) & (o & Eo & Ho)) Hl Hdup. exists d, x. split; [done|].
  split; [|by split_and!]. cbn. split; [done|]. split; [|split].
  - intros lk Hlk. rewrite lookup_insert_ne by (unfold duplicate_keys, seen_keys; lia). by apply I2.
  - eexists. rewrite lookup_insert_eq. split; [done|]. intros _. by apply Hdup.
  - exists o. by rewrite lookup_insert_ne by (unfold out_of_range_keys, duplicate_keys; lia).
Qed.

Lemma check_off_ok i P key l : Stable (cr_rely i) P ->
  triple (l_rely B i) (l_guar B i) (keeps i P l (fun _ => True)) (check_off key)
    (fun _ => keeps i P (l ++ [u64 key]) (fun _ => True)).
Proof.
  intros HP. pose proof (l_rely_preorder (L := L) B) as Hpre. unfold check_off. destruct (linear_key key) as [lk|] eqn:Ek.
  - eapply tally_marks; [done|exact Ek|]. intros old. destruct (Z.eqb_spec old 0) as [->|Hne]; cbn [negb].
    + apply triple_ret; [apply _|]. intros s (H1 & H2 & H3 & _). by split_and!.
    + eapply tally_duplicates; [done|exact Hne|]. by apply triple_ret; [apply _|].
  - eapply tally_rejects; [done|exact Ek|]. by apply triple_ret; [apply _|].
Qed.
End tally.

(** ** The entries in [struct ctx] *)

Definition ctx_entries : list Z := map ctx_entry (seq 0 24).

(** The entries of thread [i]: the producers come after the three consumers. *)
Definition entries_of (i : nat) : list Z :=
  map ctx_entry (if decide (3 <= i < 6)%nat then seq (8 * (i - 3)) 8 else []).

Lemma ctx_entries_in a s n : a ∈ map ctx_entry (seq s n) <-> exists j, (s <= j < s + n)%nat /\ a = ctx_entry j.
Proof.
  rewrite list_elem_of_fmap. split; intros (j & H1 & H2); exists j; [by rewrite elem_of_seq in H2|by rewrite elem_of_seq].
Qed.

Lemma entries_of_in i a : a ∈ entries_of i <-> exists j, (3 <= i < 6 /\ 8 * (i - 3) <= j < 8 * (i - 3) + 8)%nat /\ a = ctx_entry j.
Proof.
  unfold entries_of. destruct (decide _) as [H|H].
  - rewrite ctx_entries_in. split; intros (j & Hj & ->); exists j; (split; [lia|done]).
  - split; [by intros ?%elem_of_nil|]. intros (j & Hj & _). lia.
Qed.

Lemma ctx_entry_inj i j : ctx_entry i = ctx_entry j -> i = j.
Proof. unfold ctx_entry. lia. Qed.

Lemma entries_of_nodes i a : a ∈ entries_of i -> a ∈ ctx_entries.
Proof. intros (j & Hj & ->)%entries_of_in. apply ctx_entries_in. exists j. split; [lia|done]. Qed.

Lemma entries_of_apart i j a : i <> j -> a ∈ entries_of i -> ~ a ∈ entries_of j.
Proof.
  intros Hne (k & Hk & ->)%entries_of_in (k' & Hk' & E)%entries_of_in. apply ctx_entry_inj in E. lia.
Qed.

Lemma entries_of_nodup i : NoDup (entries_of i).
Proof.
  unfold entries_of. apply (NoDup_fmap_2_strong ctx_entry); [intros x y _ _; apply ctx_entry_inj|].
  destruct (decide _); [apply NoDup_seq|constructor].
Qed.

Lemma entry_blocks_in s n a : in_live (node_blocks 24 (map ctx_entry (seq s n))) a ->
  exists j, (s <= j < s + n)%nat /\ in_block (ctx_entry j) 24 a.
Proof.
  intros (b & z & Hb & Ha). apply list_elem_of_fmap in Hb as (b' & [= -> ->] & (j & Hj & ->)%ctx_entries_in). by exists j.
Qed.

Lemma entry_blocks_separated s n : separated (node_blocks 24 (map ctx_entry (seq s n))).
Proof.
  revert s. induction n as [|n IH]; intros s; cbn; [done|]. split; [|apply IH].
  intros a Ha (j & Hj & Hb)%entry_blocks_in. unfold in_block, ctx_entry in *. lia.
Qed.

Lemma ctx_separated : separated (stack_own c ctx_entries).
Proof.
  split; [|apply entry_blocks_separated]. intros a Ha (j & Hj & Hb)%entry_blocks_in. unfold in_block, ctx_entry in *. lia.
Qed.

(** The counters and the marks are not the stack's. *)
Lemma ctx_foreign a : in_block (c + 16) 32 a \/ in_block (c + 624) 32 a -> s_foreign c ctx_entries a.
Proof.
  intros Ha Hl. apply in_live_cons in Hl as [Hl|(j & Hj & Hl)%entry_blocks_in]; unfold in_block, ctx_entry in *; lia.
Qed.

Lemma book_foreign N a : le_cells (tally_book N) a -> s_foreign c ctx_entries a.
Proof.
  intros Ha. apply ctx_foreign. cbn in Ha. unfold in_block, duplicate_keys, seen_keys in *. lia.
Qed.

Lemma counters_foreign N : let cells a := s_foreign c ctx_entries a /\ ~ le_cells (tally_book N) a in
  cells (cx_produced stack_ctx) /\ cells (cx_consumed stack_ctx) /\ cells (cx_expected stack_ctx).
Proof.
  cbn. unfold duplicate_keys, seen_keys. split_and!; [apply ctx_foreign|..|apply ctx_foreign| |apply ctx_foreign|];
    unfold in_block; lia.
Qed.

(** ** The threads *)

(** The keys of the entries taken, as they are checked off. *)
Definition keys_of (evs : list event) : list Z := map (fun e => u64 (kv_key e)) (popped evs).

Lemma keys_of_app evs evs' : keys_of (evs ++ evs') = keys_of evs ++ keys_of evs'.
Proof. unfold keys_of. by rewrite popped_app, map_app. Qed.

Section threads.
(** The number of operations all threads may begin. *)
Variable T : nat.
Hypothesis c_pos : 0 < c.
Hypothesis fuel_enough : (T < fuel)%nat.

(** The stack with its threads, and with the books. *)
Definition bare_crowd : Crowd := stack_crowd c [] ctx_entries entries_of 6 T.
Definition tally_crowd : Crowd := ledger_crowd (W := bare_crowd) (tally_book 6) (fun _ evs => Some (keys_of evs)).

Definition bare_laws : CrowdLaws bare_crowd 6 [] stack_answers (stack_quiet c) :=
  stack_crowd_laws c [] ctx_entries entries_of 6 T fuel ctx_separated entries_of_nodes entries_of_apart fuel_enough.

Definition book_laws : LedgerLaws (cr_cells (Crowd := bare_crowd)) (tally_book 6) :=
  tally_laws _ 6 (book_foreign 6).

Definition tally_crowd_laws : CrowdLaws tally_crowd 6 [] stack_answers (stack_quiet c) :=
  ledger_crowd_laws (L := bare_laws) (tally_book 6) (LE := book_laws) _.

Definition stack_counters : ledger := counters stack_ctx 24 6.

Definition stack_counters_laws : LedgerLaws (cr_cells (Crowd := tally_crowd)) stack_counters :=
  counters_laws _ stack_ctx 24 6 (counters_foreign 6).

Notation R0 i := (cr_rely (Crowd := tally_crowd) i).
Notation G0 i := (cr_guar (Crowd := tally_crowd) i).
Notation at0 i n k evs := (cr_at (Crowd := tally_crowd) i n%nat k%nat evs).
Notation R1 i := (l_rely (W := tally_crowd) stack_counters i).
Notation G1 i := (l_guar (W := tally_crowd) stack_counters i).
Notation at1 i P p d := (x_at (W := tally_crowd) (N := 6) stack_ctx 24 i P p d).

Lemma entries_pos a : a ∈ ctx_entries -> 0 < a.
Proof. intros (j & _ & ->)%ctx_entries_in. unfold ctx_entry. lia. Qed.

(** A thread pushes an entry; the books stay as they are. *)
Lemma tally_pushes i n evs e :
  triple (R0 i) (G0 i) (at0 i (S n) 0 evs)
    (ds_ck_stack_upmc_trypush_upmc USER c (next_entry entries_of i evs) (kv_key e) (kv_value e)) (fun ok s =>
      (ok = true /\ at0 i n 0 (evs ++ [EInsert e DS_SUCCESS]) s) \/ (ok = false /\ at0 i (S n) 0 evs s)).
Proof.
  eapply triple_weaken; [apply (l_op (L := bare_laws) (tally_book 6) (LE := book_laws) i _ (Some (keys_of evs)) (fun _ => True) _ _ _
    (stack_pushes c [] ctx_entries entries_of 6 T fuel c_pos entries_pos ctx_separated entries_of_nodes entries_of_nodup fuel_enough i n 0 evs e))|lia|lia|].
  intros ok s (Hi & [[-> H]|[-> H]] & Hv & _); [left|right]; (split; [done|]); (split; [done|]); (split; [exact H|]); [|done].
  rewrite keys_of_app. unfold keys_of at 2. cbn. by rewrite app_nil_r.
Qed.

(** The thread took an entry whose key it has not checked off yet. *)
Definition took (i k : nat) (evs : list event) (x : Z) (e : ds_kv) : mem * cr_ghost (Crowd := tally_crowd) -> Prop :=
  l_at (W := bare_crowd) (tally_book 6) i (holds_entry c [] ctx_entries entries_of 6 T i 0 k evs x e)
    (Some (keys_of evs)) (fun _ => True).

Instance took_stable i k evs x e : Stable (R0 i) (took i k evs x e).
Proof.
  apply (l_at_stable (tally_book 6)); [|apply _].
  exact (holds_entry_stable c [] ctx_entries entries_of 6 T fuel ctx_separated entries_of_nodes entries_of_apart fuel_enough i 0 k evs x e).
Qed.

Lemma tally_pops i k evs :
  triple (R0 i) (G0 i) (at0 i 0 (S k) evs) (ds_ck_stack_upmc_pop_upmc fuel USER c) (fun x s =>
    (x = 0 /\ at0 i 0 k evs s) \/ (x <> 0 /\ exists e, took i k evs x e s)).
Proof.
  eapply triple_weaken; [apply (l_op (L := bare_laws) (tally_book 6) (LE := book_laws) i _ (Some (keys_of evs)) (fun _ => True) _ _ _
    (stack_pops c [] ctx_entries entries_of 6 T fuel c_pos ctx_separated entries_of_nodes fuel_enough i 0 k evs))|lia|lia|].
  intros x s (Hi & [[-> H]|(Hx & e & H)] & Hv & _); [left|right]; (split; [done|]); [by split|]. exists e. by split.
Qed.

(** The key it checks off completes what it has to do for the entry. *)
Lemma took_checks i k evs x e :
  triple (R0 i) (G0 i) (took i k evs x e) (check_off (kv_key e))
    (fun _ => at0 i 0 k (evs ++ [EPop no_out DS_SUCCESS (Some e)])).
Proof.
  pose proof (holds_entry_stable c [] ctx_entries entries_of 6 T fuel ctx_separated entries_of_nodes entries_of_apart fuel_enough i 0 k evs x e) as Hst.
  eapply triple_weaken; [apply (check_off_ok (L := bare_laws) (LE := book_laws) i _ (kv_key e) (keys_of evs) Hst)|lia|lia|].
  intros [] s (Hi & [H _] & Hv & _). split; [done|]. split; [exact H|]. split; [|done]. rewrite Hv, keys_of_app. done.
Qed.

(** *** With the counters *)

Lemma stack_apart : counters_apart stack_ctx.
Proof. unfold counters_apart. cbn. lia. Qed.

Instance counted_rely_preorder i : PreOrder (R1 i) :=
  l_rely_preorder (L := tally_crowd_laws) stack_counters (LE := stack_counters_laws) i.

Instance counted_guar_refl i : Reflexive (G1 i) :=
  l_guar_refl (L := tally_crowd_laws) stack_counters (LE := stack_counters_laws) i.

Instance counted_stable i P p d : Stable (R0 i) P -> Stable (R1 i) (at1 i P p d).
Proof. intros HP. apply (l_at_stable (W := tally_crowd) stack_counters i); [done|apply _]. Qed.

Instance at0_stable i n k evs : Stable (R0 i) (at0 i n k evs) := cr_at_stable (CrowdLaws := tally_crowd_laws) i n k evs.

Lemma uncounted {A} i P p d (pr : prog A) P' : triple (R0 i) (G0 i) P pr P' ->
  triple (R1 i) (G1 i) (at1 i P p d) pr (fun a => at1 i (P' a) p d).
Proof. intros H. apply (l_op (L := tally_crowd_laws) stack_counters (LE := stack_counters_laws)); [apply _|done]. Qed.

Lemma push_until_ok i n evs e polls :
  triple (R1 i) (G1 i) (at1 i (at0 i (S n) 0 evs) (Zlen (accepted evs)) 0)
    (push_until polls (next_entry entries_of i evs) (kv_key e) (kv_value e)) (fun ok s =>
      (ok = true /\ at1 i (at0 i n 0 (evs ++ [EInsert e DS_SUCCESS])) (Zlen (accepted evs)) 0 s) \/
      (ok = false /\ at1 i (at0 i (S n) 0 evs) (Zlen (accepted evs)) 0 s)).
Proof.
  induction polls as [|polls IH]; cbn [push_until].
  { apply triple_ret; [apply _|]. intros s Hs. by right. }
  eapply triple_bind; [apply _..|apply (uncounted _ _ _ _ _ _ (tally_pushes i n evs e))|].
  intros ok. eapply triple_pre; [apply (triple_or _ _ _ (fun s => ok = true /\ at1 i (at0 i n 0 (evs ++ [EInsert e DS_SUCCESS])) (Zlen (accepted evs)) 0 s)
    (fun s => ok = false /\ at1 i (at0 i (S n) 0 evs) (Zlen (accepted evs)) 0 s))|].
  - apply triple_pure. intros ->. apply triple_ret; [apply _|]. intros s Hs. by left.
  - apply triple_pure. intros ->. exact IH.
  - intros s (Hi & [[-> H]|[-> H]] & Hv); [left|right]; (split; [done|by split]).
Qed.

(** What a producer has done when it returned: its first items, all of them if it returned [NULL]. *)
Definition stack_produced (tid n : nat) (evs : list event) (x : status * list event) : Prop :=
  (popped x.2 = [] /\ (x.1 = None \/ x.1 = Some 0)) /\
  exists j, (j <= n)%nat /\ map kv_key (accepted x.2) = keys_from (mpmc_key tid) (Zlen (accepted evs)) j.

Lemma next_ctx_entry tid evs : (tid < 3)%nat -> (length (accepted evs) < 8)%nat ->
  next_entry entries_of (3 + tid) evs = ctx_entry (8 * tid + length (accepted evs)).
Proof.
  intros Htid Hlen. unfold next_entry, entries_of. rewrite decide_True by lia.
  replace (3 + tid - 3)%nat with tid by lia. apply nth_lookup_Some. by rewrite list_lookup_fmap, lookup_seq_lt.
Qed.

Lemma stack_producer_ok tid polls n evs : (tid < 3)%nat -> (length (accepted evs) + n = 8)%nat ->
  (forall m, snd (kcall ClockNs m) = m) ->
  triple (R1 (3 + tid)) (G1 (3 + tid)) (at1 (3 + tid) (at0 (3 + tid) n 0 evs) (Zlen (accepted evs)) 0)
    (stack_producer_from tid polls n (length (accepted evs))) (fun x s => stack_produced tid n evs x /\
      exists n', at1 (3 + tid) (at0 (3 + tid) n' 0 (evs ++ x.2)) (Zlen (accepted (evs ++ x.2))) 0 s).
Proof.
  intros Htid Hlen Hclock. revert evs Hlen. induction n as [|n IH]; intros evs Hlen; cbn [stack_producer_from].
  { apply triple_ret; [apply _|]. intros s Hs. split; [split; [by split; [|right]|by exists 0%nat]|].
    exists 0%nat. cbn [snd]. by rewrite app_nil_r. }
  apply triple_clock; [apply _..|done|apply _|]. intros value. set (e := mk_kv (mpmc_key tid (Zlen (accepted evs))) value).
  eapply triple_bind; [apply _..| |].
  { rewrite <- next_ctx_entry by lia. apply (push_until_ok (3 + tid) n evs e polls). }
  intros ok. apply triple_or; apply triple_pure; intros ->; cbn [negb].
  2: { apply triple_ret; [apply _|]. intros s Hs. split; [split; [by split; [|left]|exists 0%nat; by split; [lia|]]|].
    exists (S n). cbn [snd]. by rewrite app_nil_r. }
  eapply (x_counts (L := tally_crowd_laws) stack_ctx 24 (LE := stack_counters_laws)); [apply stack_apart|apply _|by left|]. intros _.
  assert (Ea : accepted (evs ++ [EInsert e DS_SUCCESS]) = accepted evs ++ [e]) by by rewrite accepted_app.
  eapply triple_bind; [apply _..| |].
  { replace (S (length (accepted evs))) with (length (accepted (evs ++ [EInsert e DS_SUCCESS]))) by (rewrite Ea, length_app; cbn; lia).
    eapply triple_pre; [apply IH; rewrite Ea, length_app; cbn; lia|]. intros s Hs. by rewrite Ea, Zlen_app. }
  intros [r evs']. apply triple_pure. intros ([Hp Hr] & j & Hj & Hk). apply triple_exists. intros n'.
  apply triple_ret; [apply _|]. intros s Hs. cbn [fst snd] in *. rewrite <- app_assoc in Hs. split; [|by exists n'].
  split; [by split; [cbn; unfold popped in *|]|]. exists (S j). split; [lia|]. cbn. f_equal. rewrite Ea, Zlen_app in Hk. exact Hk.
Qed.

(** What a consumer has done when it returned; it returns [NULL] when enough was consumed. *)
Definition stack_consumed (i : nat) (evs : list event) (x : status * list event)
    (s : mem * (cr_ghost (Crowd := tally_crowd) * le_state stack_counters)) : Prop :=
  (exists k, at1 i (at0 i 0 k (evs ++ x.2)) 0 (Zlen (popped (evs ++ x.2))) s) /\
  (x.1 = Some 0 -> x_enough (W := tally_crowd) (N := 6) stack_ctx 24 s).

Instance stack_consumed_stable i evs x : Stable (R1 i) (stack_consumed i evs x).
Proof.
  intros s s' [[k Hk] He] HR. split; [exists k; by eapply counted_stable; [apply _|exact Hk|]|]. intros Hx.
  eapply (x_enough_stable (W := tally_crowd) (N := 6) stack_ctx 24 i); [by apply He|done].
Qed.

(** An entry is counted, looked into and checked off, before the next turn. *)
Lemma took_counted i k evs x e (f : prog (status * list event)) Q : (forall y, Stable (R1 i) (Q y)) ->
  triple (R1 i) (G1 i) (at1 i (at0 i 0 k (evs ++ [EPop no_out DS_SUCCESS (Some e)])) 0 (Zlen (popped evs) + 1)) f Q ->
  triple (R1 i) (G1 i) (at1 i (took i k evs x e) 0 (Zlen (popped evs)))
    (_ ← rmw Relaxed (FetchAdd 64) (cx_consumed stack_ctx) 1;
     key ← load Plain (data_key x);
     value ← load Plain (data_value x);
     check_off key;;
     '(r, evs') ← f;
     Ret (r, EPop no_out DS_SUCCESS (Some (mk_kv key value)) :: evs'))
    (fun y s => exists y', y = (y'.1, EPop no_out DS_SUCCESS (Some e) :: y'.2) /\ Q y' s).
Proof.
  intros HQ Hf. apply (x_counts (L := tally_crowd_laws) stack_ctx 24 (LE := stack_counters_laws) stack_apart _ i _ 0 _ _ 0 1);
    [apply _|by right|]. intros _.
  assert (Hreads : forall s, at1 i (took i k evs x e) (0 + 0) (Zlen (popped evs) + 1) s ->
    s.1 !! data_key x = Some (kv_key e) /\ s.1 !! data_value x = Some (kv_value e)).
  { intros s (_ & (_ & Hk & _) & _). exact (holds_entry_reads _ _ _ _ _ _ _ _ _ _ _ _ _ Hk). }
  eapply triple_load; [apply _..|intros s Hs; by apply Hreads|]. eapply triple_load; [apply _..|intros s Hs; by apply Hreads|].
  eapply triple_bind; [apply _..|apply (uncounted _ _ _ _ _ _ (took_checks i k evs x e))|]. intros [].
  eapply triple_bind; [apply _..|exact Hf|]. intros [r evs']. apply triple_ret; [apply HQ|].
  intros s Hs. exists (r, evs'). by destruct e.
Qed.

Lemma stack_consumer_ok i turns evs :
  triple (R1 i) (G1 i) (at1 i (at0 i 0 turns evs) 0 (Zlen (popped evs))) (stack_consumer_thread turns) (fun x s =>
    (accepted x.2 = [] /\ (x.1 = None \/ x.1 = Some 0)) /\ stack_consumed i evs x s).
Proof.
  revert evs. induction turns as [|turns IH]; intros evs; cbn [stack_consumer_thread].
  { apply triple_ret; [apply _|]. intros s Hs. split; [by split; [|left]|]. split; [|done]. exists 0%nat. cbn [snd]. by rewrite app_nil_r. }
  apply (x_looks (L := tally_crowd_laws) stack_ctx 24 (LE := stack_counters_laws) i _ 0 _
    (fun b : bool => if negb b then Ret (Some 0, []) else _)); cbn [negb]; [apply _| |].
  2: { apply triple_ret; [apply _|]. intros s [Hs He]. split; [by split; [|right]|]. split; [|done]. exists (S turns). cbn [snd]. by rewrite app_nil_r. }
  eapply triple_bind; [apply _..|apply (uncounted _ _ _ _ _ _ (tally_pops i turns evs))|]. intros x.
  eapply triple_pre; [apply (triple_or _ _ _ (fun s => x = 0 /\ at1 i (at0 i 0 turns evs) 0 (Zlen (popped evs)) s)
    (fun s => x <> 0 /\ exists e, at1 i (took i turns evs x e) 0 (Zlen (popped evs)) s))|].
  - apply triple_pure. intros ->. apply IH.
  - apply triple_pure. intros Hx. destruct (Z.eqb_spec x 0) as [?|_]; [done|]. cbn [negb]. apply triple_exists. intros e.
    set (ev := EPop no_out DS_SUCCESS (Some e)). specialize (IH (evs ++ [ev])).
    eapply triple_weaken; [apply took_counted with (Q := fun y s => (accepted y.2 = [] /\ (y.1 = None \/ y.1 = Some 0)) /\ stack_consumed i (evs ++ [ev]) y s)|lia|lia|].
    + intros y. apply stable_and; [by intros s s' H _|apply _].
    + eapply triple_pre; [exact IH|]. intros s Hs. by rewrite popped_app, Zlen_app.
    + intros y s (y' & -> & [Ha Hr] & Hk & He). cbn [fst snd]. split; [done|]. split; [|done].
      destruct Hk as [k Hk]. exists k. by rewrite <- app_assoc in Hk.
  - intros s (Hi & [[-> H]|(Hx & e & H)] & Hv); [left|right]; (split; [done|]); [by split|]. exists e. by split.
Qed.

(** *** All threads have returned *)

Lemma book_keys m g x : le_inv (tally_book 6) m x ->
  (forall i, (i < 6)%nat -> x !! i = Some (keys_of (cr_seen (Crowd := bare_crowd) g i))) ->
  concat x = keys_of (all_seen (H := bare_crowd) g 6).
Proof.
  intros ([I1 _] & _) Hx. unfold all_seen.
  assert (Ex : x = map (fun i => keys_of (cr_seen (Crowd := bare_crowd) g i)) (seq 0 6)).
  - apply list_eq. intros i. destruct (decide (i < 6)%nat) as [Hi|Hi].
    + by rewrite Hx, list_lookup_fmap, lookup_seq_lt.
    + rewrite !lookup_ge_None_2; [done|rewrite length_map, length_seq; lia|lia].
  - rewrite Ex. clear. induction (seq 0 6) as [|i ns IH]; [done|]. cbn [map concat]. rewrite keys_of_app. by f_equal.
Qed.

(** The keys of all items are different, and all in range. *)
Lemma item_keys : let keys := map u64 (crowd_keys mpmc_key 8 3) in
  NoDup keys /\ forall key, key ∈ keys -> linear_key key <> None.
Proof.
  split.
  - apply (bool_decide_unpack _). by vm_compute.
  - apply Forall_forall, (bool_decide_unpack _). by vm_compute.
Qed.

Lemma stack_exit_ok m g : all_counted (W := tally_crowd) stack_main stack_ctx mpmc_key 8 m g ->
  wpr stack_exit m 0 (fun code _ _ => code = 0).
Proof.
  destruct g as [g x]. intros ([I1 I2] & Hat & Hperm & Hkeys & E1 & E2 & E3). cbn [fst snd] in *.
  assert (Hx : concat x ≡ₚ map u64 (crowd_keys mpmc_key 8 3)).
  { rewrite (book_keys m g x I2).
    - change (crowd_keys mpmc_key 8 3) with (crowd_keys mpmc_key 8 (ct_producers stack_main)). rewrite <- Hkeys. unfold keys_of. rewrite <- (List.map_map kv_key u64). apply Permutation_map, Permutation_map, Hperm.
    - intros i Hi. destruct (Hat i Hi) as (n & k & _ & _ & Hv & _). exact Hv. }
  destruct item_keys as [Hnd Hrange]. rewrite <- Hx in Hnd. destruct I2 as (_ & _ & (d & Ed & Hd) & (o & Eo & Ho)).
  assert (d = 0) as -> by (destruct (decide (d = 0)) as [|Hne]; [done|by destruct (Hd Hne)]).
  assert (o = 0) as ->.
  { destruct (decide (o = 0)) as [|Hne]; [done|]. destruct (Ho Hne) as (k & Hk & Hn). rewrite Hx in Hk. by destruct (Hrange k Hk). }
  unfold stack_exit. prun; pif; prun; pif; prun. by rewrite Z.eqb_refl.
Qed.

(** What thread [i] leaves. *)
Definition stack_left (i : nat) (x : status * list event)
    (s : mem * (cr_ghost (Crowd := tally_crowd) * le_state stack_counters)) : Prop :=
  if decide (i < 3)%nat then (accepted x.2 = [] /\ (x.1 = None \/ x.1 = Some 0)) /\ stack_consumed i [] x s
  else stack_produced (i - 3) 8 [] x /\ exists n, at1 i (at0 i n 0 x.2) (Zlen (accepted x.2)) 0 s.

Lemma stack_accounted i r evs m g P D : stack_left i (Some r, evs) (m, (g, (P, D))) ->
  accounted (W := tally_crowd) stack_main mpmc_key 8 i r evs m g P D.
Proof.
  unfold stack_left, accounted. change (ct_consumers stack_main) with 3%nat. destruct (decide (i < 3)%nat).
  - intros ([Ha [?|[= ->]]] & [k (_ & Hat & Hv & _)] & He); [done|]. injection Hv as HP HD. cbn [fst snd app] in *.
    destruct (cr_at_ok (CrowdLaws := tally_crowd_laws) _ _ _ _ _ _ Hat) as (_ & _ & Hseen & _). rewrite Ha.
    split; [split; [by eexists _, _|done]|]. split; [done|]. split; [done|]. split; [done|]. by apply He.
  - intros ([[Hp [?|[= ->]]] (j & Hj & Hk)] & n' & _ & Hat & Hv & _); [done|]. injection Hv as HP HD. cbn [fst snd app] in *.
    destruct (cr_at_ok (CrowdLaws := tally_crowd_laws) _ _ _ _ _ _ Hat) as (_ & _ & Hseen & _). rewrite Hp.
    split; [split; [by eexists _, _|done]|]. split; [done|]. exists j. split; [done|]. split; [exact Hk|by left].
Qed.
End threads.

(** ** The test *)

(** The operations each thread may begin: its pops, or its eight items. *)
Definition stack_inserts (i : nat) : nat := if decide (i < 3)%nat then 0 else 8.
Definition stack_turns (pa : patience) (i : nat) : nat := if decide (i < 3)%nat then pa_attempts pa i else 0.
Definition stack_todo (pa : patience) : list nat := map (fun i => (stack_inserts i + stack_turns pa i)%nat) (seq 0 6).

(** A retry loop of the stack turns again only if another operation took effect. *)
Definition stack_few (pa : patience) : Prop := (sum_list (stack_todo pa) < fuel)%nat.

Lemma stack_threads_ok pa i s (few : stack_few pa) : 0 < c -> (forall m, snd (kcall ClockNs m) = m) -> (i < 6)%nat ->
  let W := tally_crowd (sum_list (stack_todo pa)) in
  x_at (W := W) (N := 6) stack_ctx 24 i (cr_at (Crowd := W) i (stack_inserts i) (stack_turns pa i) []) 0 0 s ->
  rg (l_rely (W := W) stack_counters i) (l_guar (W := W) stack_counters i) (ct_thread stack_main pa i) (pa_budget pa i) s
    (fun x _ => stack_left (sum_list (stack_todo pa)) i x).
Proof.
  intros c_pos Hclock Hi W Hs. unfold ct_thread, stack_left, stack_inserts, stack_turns in *.
  change (ct_consumers stack_main) with 3%nat. destruct (decide (i < 3)%nat).
  - eapply rg_mono; [apply (stack_consumer_ok (sum_list (stack_todo pa)) c_pos few i (pa_attempts pa i) [] (pa_budget pa i) s); [lia|exact Hs]|].
    by intros x b s' [_ H].
  - destruct (Nat.le_exists_sub 3 i) as (tid & -> & _); [lia|]. rewrite (Nat.add_comm tid 3) in *.
    replace (3 + tid - 3)%nat with tid by lia.
    eapply rg_mono; [apply (stack_producer_ok (sum_list (stack_todo pa)) c_pos few tid (pa_attempts pa (3 + tid)) 8 []
      ltac:(lia) eq_refl Hclock (pa_budget pa (3 + tid)) s); [lia|exact Hs]|].
    by intros x b s' [_ H].
Qed.

(** [struct ctx c = {0}]. *)
Record stack_start (m : mem) : Prop := {
  ss_head : is_Some (m !! head c) /\ is_Some (m !! count c);
  ss_entries : forall a, a ∈ ctx_entries -> mapped_words a 24 m;
  ss_zero : ctx_zero stack_ctx m;
  ss_checks : m !! duplicate_keys = Some 0 /\ m !! out_of_range_keys = Some 0;
  ss_seen : forall lk, 0 <= lk < 24 -> m !! seen_keys lk = Some 0
}.

Section passes.
Hypothesis c_pos : 0 < c.
Hypothesis clock_pure : forall m, snd (kcall ClockNs m) = m.

Lemma stack_test_ready m pa : stack_repr c [] [] m -> (forall a, a ∈ ctx_entries -> mapped_words a 24 m) ->
  m !! duplicate_keys = Some 0 /\ m !! out_of_range_keys = Some 0 ->
  (forall lk, 0 <= lk < 24 -> m !! seen_keys lk = Some 0) -> stack_few pa ->
  crowd_ready stack_main stack_ctx mpmc_key 8 pa (stack_quiet c []) m.
Proof.
  intros Hr Hm [Hd Ho] Hs few. set (T := sum_list (stack_todo pa)).
  assert (Hi : stack_inv c [] ctx_entries 6 (m, start_sview [] 6 [] (stack_todo pa)))
    by (apply start_s_inv; [done|constructor|by intros a ?%elem_of_nil|done]).
  assert (Hb : le_inv (tally_book 6) m (replicate 6 [])).
  { cbn. split; [done|]. split; [by intros lk Hlk; rewrite Hs|]. split; [by exists 0|by exists 0]. }
  exists (tally_crowd T), stack_answers, (stack_quiet c), (start_sview [] 6 [] (stack_todo pa), replicate 6 []),
    stack_inserts, (stack_turns pa), (stack_left T), (tally_crowd_laws T few).
  split; [|split; [|split; [|split; [|done]]]].
  - split; [by split|]. split; [|apply (counters_foreign 6)]. intros i Hlt. cbn in Hlt. split; [by split|].
    split; [|split; [exact (lookup_replicate_2 6 ([] : list Z) i Hlt)|done]]. exists []. split; [split; [done|]|].
    + change (0 + stack_inserts i <= length (entries_of i))%nat. unfold stack_inserts, entries_of.
      destruct (decide (i < 3)%nat); [lia|]. rewrite decide_True, length_map, length_seq by lia. done.
    + apply start_s_at; [done|done| |done|].
      * unfold stack_todo. by rewrite list_lookup_fmap, lookup_seq_lt.
      * intros a Ha. split; [done|by intros ?%elem_of_nil].
  - intros i s Hlt Hx. by apply stack_threads_ok.
  - by apply stack_accounted.
  - intros m' g' Hall. by eapply stack_exit_ok.
Qed.

(** C28. The test of the stack passes: from a zeroed [struct ctx], for every number of attempts the
    polling threads are given (and a bound on the retry loops above the operations that number
    allows), in every interleaving of the three producers and three consumers, no access faults,
    and once all threads can be joined the consumers took exactly the entries pushed, each once,
    with the keys of all items; no key was found checked off already or out of range, the stack is
    empty and the exit code is 0. *)
Theorem stack_test_passes m : stack_start m ->
  crowd_passes stack_main mpmc_key 8 stack_few (stack_quiet c []) m.
Proof.
  intros [[M1 M2] Hm (Z1 & Z2 & Z3 & _) [Hd Ho] Hs]. apply (crowd_from_setup _ stack_ctx); [done|cbn; lia|].
  apply wpr_bind. eapply wpr_mono; [exact (stack_init_ok c 1 c_pos ltac:(lia) USER m 0 M1 M2)|].
  intros [] m1 b (Hr & Hsame & Hgrow & ->).
  assert (Hout : forall a, c + 16 <= a -> m1 !! a = m !! a) by (intros a Ha; apply Hsame; unfold in_block; lia).
  eapply wpr_bind, wpr_store; [rewrite Hout by (cbn; lia); by eexists|]. apply wpr_ret. right. split; [done|]. cbn in Z1, Z2, Z3. split.
  - rewrite lookup_insert_eq, !lookup_insert_ne by (cbn; lia). rewrite !Hout by (cbn; lia). done.
  - intros pa Hfew. apply crowd_ready_write; [rewrite Hout by (cbn; lia); by eexists|]. apply stack_test_ready; [done|..|done].
    + intros a Ha j Hj1 Hj2. by apply Hgrow, Hm.
    + unfold duplicate_keys, out_of_range_keys in *. rewrite !Hout by lia. done.
    + intros lk Hlk. rewrite Hout by (unfold seen_keys; lia). by apply Hs.
Qed.
End passes.
End test.
