(* ===== verification/Doubles.v ===== *)
(** * C's [double] and how accurate a few operations on it are.

    The columns of the metrics table that are not integers are computed with binary64 numbers,
    rounded to the nearest, ties to even: [spec_float] with a precision of 53 bits and the
    exponents of binary64. An operation on normal numbers is off by a factor of at most
    [1 + 2 ^ -52] ([near 1]), the rounding error model of numerical analysis. *)
From stdpp Require Import base numbers.
From Stdlib Require Import ZArith Lia QArith Qpower Lqa SpecFloat.
From S2P Require Import Prelude.
Open Scope Z_scope.

Notation double := spec_float.

(** [(double)z], [x / y] and [x * y] *)
Definition double_of_Z (z : Z) : double := binary_normalize 53 1024 z 0 false.
Definition double_div : double -> double -> double := SFdiv 53 1024.
Definition double_mul : double -> double -> double := SFmul 53 1024.

(** [(__u64)x], undefined in C if the result does not fit *)
Definition u64_of_double (x : double) : option Z :=
  match x with
  | S754_zero _ => Some 0
  | S754_finite s m e =>
      let z := if 0 <=? e then Z.pos m * 2 ^ e else Z.pos m / 2 ^ (- e) in
      if s then if z =? 0 then Some 0 else None
      else if z <? 2 ^ 64 then Some z else None
  | _ => None
  end.

(** The number a finite double stands for. *)
Definition pow2 (e : Z) : Q := Qpower 2 e.

Definition double_value (x : double) : Q :=
  match x with
  | S754_finite s m e => ((if s then -1 else 1) * inject_Z (Z.pos m) * pow2 e)%Q
  | _ => 0%Q
  end.

(** [v] is [a] up to [k] roundings. *)
Definition near (k : Q) (v a : Q) : Prop := (a * (1 - k * (1 # 4503599627370496)) <= v <= a * (1 + k * (1 # 4503599627370496)))%Q.

#[export] Instance near_proper k : Proper (Qeq ==> Qeq ==> iff) (near k).
Proof. intros v v' Hv a a' Ha. unfold near. by rewrite Hv, Ha. Qed.

(** ** Digits *)

Lemma digits_bounds p : 2 ^ (Z.pos (digits2_pos p) - 1) <= Z.pos p < 2 ^ Z.pos (digits2_pos p).
Proof.
  induction p as [p IH|p IH|]; cbn [digits2_pos]; [| |done];
    rewrite ?Pos2Z.inj_succ, Z.pow_succ_r by lia;
    replace (Z.succ (Z.pos (digits2_pos p)) - 1) with (Z.succ (Z.pos (digits2_pos p) - 1)) by lia;
    rewrite (Z.pow_succ_r 2 (_ - 1)) by lia; lia.
Qed.

Lemma digits_unique z d : 0 < d -> 2 ^ (d - 1) <= z < 2 ^ d -> Zdigits2 z = d.
Proof.
  intros Hd Hz. pose proof (Z.pow_pos_nonneg 2 (d - 1) ltac:(lia) ltac:(lia)). destruct z as [|p|p]; [lia| |lia].
  cbn [Zdigits2]. pose proof (digits_bounds p) as Hp. set (n := Z.pos (digits2_pos p)) in *.
  destruct (Z.lt_trichotomy n d) as [Hn|[?|Hn]]; [|done|].
  - pose proof (Z.pow_le_mono_r 2 n (d - 1) ltac:(lia) ltac:(lia)). lia.
  - pose proof (Z.pow_le_mono_r 2 d (n - 1) ltac:(lia) ltac:(lia)). lia.
Qed.

(** A mantissa of 53 bits. *)
Definition normal (m : Z) : Prop := 2 ^ 52 <= m < 2 ^ 53.

(** ** Rounding *)

Lemma shr_1_half mrs : 0 <= shr_m mrs -> shr_m (shr_1 mrs) = shr_m mrs / 2.
Proof.
  destruct mrs as [[|[p|p|]|p] r s]; cbn [shr_m shr_1]; try done; intros _.
  - change (Z.pos p~1) with (2 * Z.pos p + 1). Z.div_mod_to_equations. lia.
  - change (Z.pos p~0) with (2 * Z.pos p). Z.div_mod_to_equations. lia.
Qed.

Lemma shr_iter n mrs : 0 <= shr_m mrs -> shr_m (iter_pos shr_1 n mrs) = shr_m mrs / 2 ^ Z.pos n.
Proof.
  revert mrs. induction n as [n IH|n IH|]; intros mrs Hm; cbn [iter_pos];
    try pose proof (Z.pow_pos_nonneg 2 (Z.pos n) ltac:(lia) ltac:(lia)) as Hp.
  - assert (H1 : 0 <= shr_m (shr_1 mrs)) by (rewrite shr_1_half by done; apply Z.div_pos; lia).
    assert (H2 : 0 <= shr_m (iter_pos shr_1 n (shr_1 mrs))) by (rewrite IH by done; apply Z.div_pos; lia).
    rewrite (IH _ H2), (IH _ H1), shr_1_half by done. rewrite !Z.div_div by nia.
    replace (Z.pos n~1) with (1 + Z.pos n + Z.pos n) by lia. rewrite !Z.pow_add_r by lia. f_equal. lia.
  - assert (H2 : 0 <= shr_m (iter_pos shr_1 n mrs)) by (rewrite IH by done; apply Z.div_pos; lia).
    rewrite (IH _ H2), (IH _ Hm), Z.div_div by lia.
    replace (Z.pos n~0) with (Z.pos n + Z.pos n) by lia. by rewrite !Z.pow_add_r by lia.
  - by apply shr_1_half.
Qed.

Lemma shr_shift mrs e n : 0 <= shr_m mrs -> 0 <= n ->
  shr_m (shr mrs e n).1 = shr_m mrs / 2 ^ n /\ (shr mrs e n).2 = e + n.
Proof.
  intros Hm Hn. destruct n as [|p|p]; cbn [shr fst snd]; [|by rewrite shr_iter|lia].
  rewrite Z.div_1_r. lia.
Qed.

Lemma shr_m_of_loc m l : shr_m (shr_record_of_loc m l) = m.
Proof. by destruct l as [|[]]. Qed.

(** The first shift leaves 53 bits. *)
Lemma shr_fexp_ok mx ex lx d : 53 <= d -> 2 ^ (d - 1) <= mx < 2 ^ d -> -1000 <= d + ex ->
  shr_m (shr_fexp 53 1024 mx ex lx).1 = mx / 2 ^ (d - 53) /\ (shr_fexp 53 1024 mx ex lx).2 = d + ex - 53.
Proof.
  intros Hd Hm He. unfold shr_fexp. rewrite (digits_unique mx d) by lia.
  replace (fexp 53 1024 (d + ex) - ex) with (d - 53) by (unfold fexp, emin; lia).
  pose proof (Z.pow_pos_nonneg 2 (d - 1) ltac:(lia) ltac:(lia)).
  destruct (shr_shift (shr_record_of_loc mx lx) ex (d - 53)) as [-> ->]; rewrite ?shr_m_of_loc; [lia|lia|]. split; [done|lia].
Qed.

Lemma shifted_normal mx d : 53 <= d -> 2 ^ (d - 1) <= mx < 2 ^ d -> normal (mx / 2 ^ (d - 53)).
Proof.
  intros Hd [H1 H2]. unfold normal. replace (d - 1) with (52 + (d - 53)) in H1 by lia. replace d with (53 + (d - 53)) in H2 at 1 by lia.
  rewrite Z.pow_add_r in H1, H2 by lia. pose proof (Z.pow_pos_nonneg 2 (d - 53) ltac:(lia) ltac:(lia)).
  split; [apply Z.div_le_lower_bound; lia|apply Z.div_lt_upper_bound; lia].
Qed.

(** The second takes back the carry, if there is one. *)
Lemma renormalise m e : -1000 <= e -> 2 ^ 52 <= m <= 2 ^ 53 ->
  exists m' e', shr_m (shr_fexp 53 1024 m e loc_Exact).1 = m' /\ (shr_fexp 53 1024 m e loc_Exact).2 = e' /\
    normal m' /\ e <= e' <= e + 1 /\ m = m' * 2 ^ (e' - e).
Proof.
  intros He Hm. destruct (decide (m = 2 ^ 53)) as [->|Hne].
  - exists (2 ^ 52), (e + 1). destruct (shr_fexp_ok (2 ^ 53) e loc_Exact 54) as [-> ->]; [lia|lia|lia|].
    split; [done|]. split; [lia|]. split; [done|]. split; [lia|]. by replace (e + 1 - e) with 1 by lia.
  - exists m, e. destruct (shr_fexp_ok m e loc_Exact 53) as [-> ->]; [lia|lia|lia|].
    split; [by rewrite Z.div_1_r|]. split; [lia|]. split; [unfold normal; lia|]. split; [lia|]. replace (e - e) with 0 by lia. lia.
Qed.

(** ** Powers of two, in the rationals *)

Lemma pow2_pos e : (0 < pow2 e)%Q.
Proof. by apply Qpower_0_lt. Qed.

Lemma pow2_add e e' : (pow2 (e + e') == pow2 e * pow2 e')%Q.
Proof. by apply Qpower_plus. Qed.

Lemma pow2_Z n : 0 <= n -> (pow2 n == inject_Z (2 ^ n))%Q.
Proof. intros Hn. by rewrite Zpower_Qpower. Qed.

(** The product with an integer is monotonic in it. *)
Lemma scale_le a b e : a <= b -> (inject_Z a * pow2 e <= inject_Z b * pow2 e)%Q.
Proof. intros Hab. apply Qmult_le_compat_r; [by rewrite <- Zle_Qle|]. apply Qlt_le_weak, pow2_pos. Qed.

(** Truncation to the last bit kept: [x] is between the mantissa kept and the next one. *)
Lemma truncated mx ex k x : 0 <= k ->
  (inject_Z mx * pow2 ex <= x < inject_Z (mx + 1) * pow2 ex)%Q ->
  (inject_Z (mx / 2 ^ k) * pow2 (ex + k) <= x < inject_Z (mx / 2 ^ k + 1) * pow2 (ex + k))%Q.
Proof.
  intros Hk [H1 H2]. pose proof (Z.pow_pos_nonneg 2 k ltac:(lia) Hk) as Hp.
  assert (Hs : forall z, (inject_Z z * pow2 (ex + k) == inject_Z (z * 2 ^ k) * pow2 ex)%Q).
  { intros z. rewrite (Z.add_comm ex k), pow2_add, (pow2_Z k) by done. rewrite inject_Z_mult. ring. }
  rewrite !Hs. split.
  - eapply Qle_trans; [apply scale_le|exact H1]. pose proof (Z.mul_div_le mx (2 ^ k) Hp). lia.
  - eapply Qlt_le_trans; [exact H2|apply scale_le]. pose proof (Z.mul_succ_div_gt mx (2 ^ k) Hp). lia.
Qed.

(** The mantissa kept, or the next one, is near. *)
Lemma near_truncated m m1 e x : 2 ^ 52 <= m -> m1 = m \/ m1 = m + 1 ->
  (inject_Z m * pow2 e <= x < inject_Z (m + 1) * pow2 e)%Q -> near 1 (inject_Z m1 * pow2 e) x.
Proof.
  intros Hm Hm1 [H1 H2]. pose proof (pow2_pos e) as Hp. rewrite inject_Z_plus in H2.
  assert (Hbig : (4503599627370496 * pow2 e <= x)%Q).
  { eapply Qle_trans; [|exact H1]. exact (scale_le (2 ^ 52) m e Hm). }
  unfold near. assert (H : (inject_Z m1 * pow2 e == inject_Z m * pow2 e \/ inject_Z m1 * pow2 e == inject_Z m * pow2 e + pow2 e)%Q).
  { destruct Hm1 as [-> | ->]; [by left|right]. rewrite inject_Z_plus. ring. }
  change (inject_Z 1) with 1%Q in H2. set (a := (inject_Z m * pow2 e)%Q) in *. set (p := pow2 e) in *.
  assert (H2' : (x < a + p)%Q) by (eapply Qlt_le_trans; [exact H2|unfold a; apply Qle_lteq; right; ring]). split; destruct H as [-> | ->]; lra.
Qed.

Definition finite (m e : Z) (x : double) : Prop := exists p, m = Z.pos p /\ x = S754_finite false p e.

(** Rounding a number of at least 53 bits. *)
Lemma round_ok mx ex lx d x : 53 <= d -> 2 ^ (d - 1) <= mx < 2 ^ d -> -900 <= d + ex <= 900 ->
  (inject_Z mx * pow2 ex <= x < inject_Z (mx + 1) * pow2 ex)%Q ->
  exists m e, finite m e (binary_round_aux 53 1024 false mx ex lx) /\ normal m /\ d + ex - 53 <= e <= d + ex - 52 /\
    near 1 (inject_Z m * pow2 e) x.
Proof.
  intros Hd Hm He Hx. unfold binary_round_aux. destruct (shr_fexp_ok mx ex lx d Hd Hm ltac:(lia)) as [E1 E2].
  destruct (shr_fexp 53 1024 mx ex lx) as [mrs e1]. cbn [fst snd] in E1, E2. subst e1.
  pose proof (shifted_normal mx d Hd Hm) as Hn. apply (truncated mx ex (d - 53)) in Hx; [|lia].
  rewrite <- E1 in *. replace (ex + (d - 53)) with (d + ex - 53) in Hx by lia.
  set (m1 := round_nearest_even (shr_m mrs) (loc_of_shr_record mrs)).
  assert (Hm1 : m1 = shr_m mrs \/ m1 = shr_m mrs + 1).
  { unfold m1, round_nearest_even. destruct (loc_of_shr_record mrs) as [|[]]; [by left| |by left|by right].
    destruct (Z.even _); [by left|by right]. }
  destruct (renormalise m1 (d + ex - 53)) as (m & e & E1' & E2' & Hm' & He' & Heq); [lia|unfold normal in Hn; lia|].
  destruct (shr_fexp 53 1024 m1 (d + ex - 53) loc_Exact) as [mrs' e']. cbn [fst snd] in E1', E2'. subst e'. rewrite E1'.
  exists m, e. destruct m as [|p|p]; [by destruct Hm'| |by destruct Hm']. split; [|split; [done|split; [lia|]]].
  - exists p. split; [done|]. by replace (e <=? 1024 - 53) with true by lia.
  - pose proof (near_truncated _ m1 _ x (proj1 Hn) Hm1 Hx) as Hnear.
    assert (Hv : (inject_Z m1 * pow2 (d + ex - 53) == inject_Z (Z.pos p) * pow2 e)%Q).
    { rewrite Heq, inject_Z_mult, <- pow2_Z by lia. rewrite <- Qmult_assoc, <- pow2_add. by replace (e - (d + ex - 53) + (d + ex - 53)) with e by lia. }
    by rewrite Hv in Hnear.
Qed.

(** ** Errors add up *)

Lemma scale_l a x y : (0 <= a -> x <= y -> a * x <= a * y)%Q.
Proof. intros Ha Hxy. rewrite !(Qmult_comm a). by apply Qmult_le_compat_r. Qed.

Section near.
Variables j k : Q.
Hypothesis small : (0 <= j <= 8 /\ 0 <= k <= 8)%Q.
Notation u := (1 # 4503599627370496)%Q.

(** [(1 - j u) (1 - k u)], [(1 + j u) (1 + k u)] and [(1 + j u) / (1 - k u)] are within
    [1 - (j + k + 1) u] and [1 + (j + k + 1) u]. *)
Lemma small_factors :
  (1 - (j + k + 1) * u <= (1 - j * u) * (1 - k * u))%Q /\ ((1 + j * u) * (1 + k * u) <= 1 + (j + k + 1) * u)%Q /\
  (1 + j * u <= (1 + (j + k + 1) * u) * (1 - k * u))%Q /\ ((1 - (j + k + 1) * u) * (1 + k * u) <= 1 - j * u)%Q.
Proof.
  destruct small as [[J1 J2] [K1 K2]]. assert (H1 : (0 <= j * k <= 64)%Q) by (split; nra).
  assert (H2 : (0 <= k * (j + k + 1) <= 136)%Q) by (split; nra). split_and!; nra.
Qed.

Lemma near_trans v w a : (0 < a)%Q -> near j v a -> near k w v -> near (j + k + 1) w a.
Proof.
  intros Ha [V1 V2] [W1 W2]. destruct small_factors as (F1 & F2 & _). destruct small as [[J1 J2] [K1 K2]]. split.
  - eapply Qle_trans; [|exact W1]. eapply Qle_trans; [|apply Qmult_le_compat_r; [exact V1|lra]].
    rewrite <- Qmult_assoc. apply scale_l; [lra|done].
  - eapply Qle_trans; [exact W2|]. eapply Qle_trans; [apply Qmult_le_compat_r; [exact V2|lra]|].
    rewrite <- Qmult_assoc. apply scale_l; [lra|done].
Qed.

Lemma near_div v a w b : (0 < a)%Q -> (0 < b)%Q -> near j v a -> near k w b -> near (j + k + 1) (v / w) (a / b).
Proof.
  intros Ha Hb [V1 V2] [W1 W2]. destruct small_factors as (_ & _ & F3 & F4). destruct small as [[J1 J2] [K1 K2]].
  assert (Hw : (0 < w)%Q) by nra. set (q := (a / b)%Q). assert (Hq : (0 < q)%Q) by (apply Qlt_shift_div_l; lra).
  assert (Eq : (a == q * b)%Q) by (unfold q; field; lra). rewrite Eq in V1, V2. split.
  - apply Qle_shift_div_l; [done|]. eapply Qle_trans; [|exact V1]. rewrite <- !Qmult_assoc. apply scale_l; [lra|].
    eapply Qle_trans; [apply scale_l; [lra|exact W2]|]. nra.
  - apply Qle_shift_div_r; [done|]. eapply Qle_trans; [exact V2|]. rewrite <- !Qmult_assoc. apply scale_l; [lra|].
    eapply Qle_trans; [|apply scale_l; [lra|exact W1]]. nra.
Qed.
End near.

Lemma near_scale k v a x : (0 < x)%Q -> near k v a -> near k (v * x) (a * x).
Proof.
  intros Hx [H1 H2]. split; [rewrite <- Qmult_assoc, (Qmult_comm x), Qmult_assoc|rewrite <- Qmult_assoc, (Qmult_comm x), Qmult_assoc];
    (apply Qmult_le_compat_r; [done|lra]).
Qed.

(** ** The operations *)

(** A normal double of value near [a]. *)
Definition doubled (lo hi : Z) (k a : Q) (x : double) : Prop :=
  exists m e, finite m e x /\ normal m /\ lo <= e <= hi /\ near k (inject_Z m * pow2 e) a.

Lemma shl_xO p n : Z.pos (Pos.iter xO p n) = Z.pos p * 2 ^ Z.pos n.
Proof.
  revert p. induction n as [|n IH] using Pos.peano_ind; intros p; [cbn; lia|].
  rewrite Pos.iter_succ. change (Z.pos (Pos.iter xO p n)~0) with (2 * Z.pos (Pos.iter xO p n)).
  rewrite IH, Pos2Z.inj_succ, Z.pow_succ_r by lia. lia.
Qed.

Lemma exactly z e : (inject_Z z * pow2 e <= inject_Z z * pow2 e < inject_Z (z + 1) * pow2 e)%Q.
Proof.
  split; [apply Qle_refl|]. apply Qmult_lt_compat_r; [apply pow2_pos|]. rewrite <- Zlt_Qlt. lia.
Qed.

Lemma double_of_Z_ok z : 0 < z < 2 ^ 64 -> doubled (-52) 12 1 (inject_Z z) (double_of_Z z).
Proof.
  intros Hz. destruct z as [|p|p]; [lia| |lia]. unfold double_of_Z, binary_normalize, binary_round.
  pose proof (digits_bounds p) as Hp. set (d := Z.pos (digits2_pos p)) in *.
  assert (Hd : 1 <= d <= 64) by (split; [lia|]; destruct (Z.le_gt_cases d 64) as [|Hgt]; [done|];
    pose proof (Z.pow_le_mono_r 2 64 (d - 1) ltac:(lia) ltac:(lia)); lia).
  assert (Hex : exists q, Z.pos q = Z.pos p * 2 ^ Z.max 0 (53 - d) /\
    shl_align p 0 (fexp 53 1024 (d + 0)) = (q, - Z.max 0 (53 - d))).
  { unfold shl_align. replace (fexp 53 1024 (d + 0)) with (d - 53) by (unfold fexp, emin; lia).
    destruct (d - 53 - 0) as [|n|n] eqn:En.
    - exists p. replace (Z.max 0 (53 - d)) with 0 by lia. split; [lia|done].
    - exists p. replace (Z.max 0 (53 - d)) with 0 by lia. split; [lia|done].
    - exists (Pos.iter xO p n). rewrite shl_xO. replace (Z.max 0 (53 - d)) with (Z.pos n) by lia. split; [done|]. f_equal. lia. }
  destruct Hex as (q & Eq & ->). set (k := Z.max 0 (53 - d)) in *.
  destruct (round_ok (Z.pos q) (- k) loc_Exact (d + k) (inject_Z (Z.pos q) * pow2 (- k))) as (m & e & Hf & Hn & He & Hnear);
    [lia| |lia|apply exactly|].
  { rewrite Eq. replace (d + k - 1) with (d - 1 + k) by lia. rewrite !Z.pow_add_r by lia.
    pose proof (Z.pow_pos_nonneg 2 k ltac:(lia) ltac:(lia)). nia. }
  exists m, e. split; [done|]. split; [done|]. split; [lia|].
  assert (Hv : (inject_Z (Z.pos q) * pow2 (- k) == inject_Z (Z.pos p))%Q).
  { rewrite Eq, inject_Z_mult, <- pow2_Z by lia. rewrite <- Qmult_assoc, <- pow2_add. replace (k + - k) with 0 by lia. apply Qmult_1_r. }
  by rewrite Hv in Hnear.
Qed.

Lemma value_pos m e : normal m -> (0 < inject_Z m * pow2 e)%Q.
Proof.
  intros [Hm _]. apply Qmult_lt_0_compat; [|apply pow2_pos]. change 0%Q with (inject_Z 0). rewrite <- Zlt_Qlt. lia.
Qed.

(** A number of one or two digits more than [n]. *)
Lemma digits_between n z : 0 <= n -> 2 ^ n <= z < 2 ^ (n + 2) -> exists d, (d = n + 1 \/ d = n + 2) /\ 2 ^ (d - 1) <= z < 2 ^ d.
Proof.
  intros Hn Hz. destruct (Z.lt_ge_cases z (2 ^ (n + 1))).
  - exists (n + 1). split; [by left|]. replace (n + 1 - 1) with n by lia. lia.
  - exists (n + 2). split; [by right|]. replace (n + 2 - 1) with (n + 1) by lia. lia.
Qed.

(** The last rounding. *)
Lemma doubled_round mx ex lx d lo hi k a x : 53 <= d -> 2 ^ (d - 1) <= mx < 2 ^ d -> -900 <= d + ex <= 900 ->
  (inject_Z mx * pow2 ex <= x < inject_Z (mx + 1) * pow2 ex)%Q -> lo <= d + ex - 53 -> d + ex - 52 <= hi ->
  (0 <= k <= 8)%Q -> (0 < a)%Q -> near k x a -> doubled lo hi (k + 1 + 1) a (binary_round_aux 53 1024 false mx ex lx).
Proof.
  intros Hd Hm He Hx Hlo Hhi Hk Ha Hnear. destruct (round_ok mx ex lx d x Hd Hm He Hx) as (m & e & Hf & Hn & He' & Hv).
  exists m, e. split; [done|]. split; [done|]. split; [lia|]. eapply near_trans; [split; [done|lra]|done|exact Hnear|done].
Qed.

(** Multiplication by an exact double, *)
Lemma double_mul_ok k a lo hi x m' e' : (0 <= k <= 8)%Q -> (0 < a)%Q -> -200 <= lo /\ hi <= 200 /\ -200 <= e' <= 200 ->
  normal (Z.pos m') -> doubled lo hi k a x ->
  doubled (lo + e' + 52) (hi + e' + 54) (k + 1 + 1) (a * (inject_Z (Z.pos m') * pow2 e')) (double_mul x (S754_finite false m' e')).
Proof.
  intros Hk Ha Hr Hm' (m & e & (p & -> & ->) & Hm & He & Hx). unfold double_mul, SFmul. cbn [xorb].
  destruct (digits_between 104 (Z.pos (p * m'))) as (d & Hd & Hb); [lia|unfold normal in *; nia|].
  apply (doubled_round _ _ _ d _ _ _ _ (inject_Z (Z.pos (p * m')) * pow2 (e + e'))); try lia; [apply exactly|done| |].
  - apply Qmult_lt_0_compat; [done|by apply value_pos].
  - assert (Hv : (inject_Z (Z.pos (p * m')) * pow2 (e + e') == inject_Z (Z.pos p) * pow2 e * (inject_Z (Z.pos m') * pow2 e'))%Q).
    { rewrite Pos2Z.inj_mul, inject_Z_mult, pow2_add. ring. }
    pose proof (near_scale _ _ _ _ (value_pos _ e' Hm') Hx) as H. by rewrite Hv.
Qed.

Lemma quotient_between p p' q r e e' : 0 < p' -> p * 2 ^ 53 = p' * q + r -> 0 <= r < p' ->
  (inject_Z q * pow2 (e - e' - 53) <= inject_Z p * pow2 e / (inject_Z p' * pow2 e') < inject_Z (q + 1) * pow2 (e - e' - 53))%Q.
Proof.
  intros Hp' Hq Hr. pose proof (pow2_pos e') as He'. pose proof (pow2_pos (e - e' - 53)) as He.
  assert (Hpq : (0 < inject_Z p')%Q) by (change 0%Q with (inject_Z 0); by rewrite <- Zlt_Qlt).
  assert (Hv : (inject_Z p * pow2 e / (inject_Z p' * pow2 e') == inject_Z (p * 2 ^ 53) / inject_Z p' * pow2 (e - e' - 53))%Q).
  { assert (E : (pow2 e == pow2 53 * pow2 e' * pow2 (e - e' - 53))%Q)
      by (rewrite <- !pow2_add; replace (53 + e' + (e - e' - 53)) with e by lia; apply Qeq_refl).
    rewrite E, inject_Z_mult, <- (pow2_Z 53) by lia. field. split; lra. }
  rewrite Hv. split; [apply Qmult_le_compat_r; [|lra]; apply Qle_shift_div_l|apply Qmult_lt_compat_r; [done|]; apply Qlt_shift_div_r]; try done.
  - rewrite <- inject_Z_mult, <- Zle_Qle. lia.
  - rewrite <- inject_Z_mult, <- Zlt_Qlt. lia.
Qed.

(** and division. *)
Lemma double_div_ok j k a b lo hi lo' hi' x y : (0 <= j <= 8 /\ 0 <= k <= 8)%Q -> (j + k + 1 <= 8)%Q ->
  (0 < a)%Q -> (0 < b)%Q -> -200 <= lo /\ hi <= 200 /\ -200 <= lo' /\ hi' <= 200 ->
  doubled lo hi j a x -> doubled lo' hi' k b y -> doubled (lo - hi' - 53) (hi - lo' - 51) (j + k + 1 + 1 + 1) (a / b) (double_div x y).
Proof.
  intros Hjk Hsum Ha Hb Hr (m & e & (p & -> & ->) & Hm & He & Hx) (m' & e' & (p' & -> & ->) & Hm' & He' & Hy).
  unfold double_div, SFdiv. cbn [xorb]. unfold SFdiv_core_binary.
  rewrite !(digits_unique _ 53) by (unfold normal in *; lia).
  replace (Z.min (fexp 53 1024 (53 + e - (53 + e'))) (e - e')) with (e - e' - 53) by (unfold fexp, emin; lia).
  replace (e - e' - (e - e' - 53)) with 53 by lia. cbv beta iota zeta. rewrite Z.shiftl_mul_pow2 by lia.
  pose proof (Z_div_mod (Z.pos p * 2 ^ 53) (Z.pos p') ltac:(lia)) as Hdiv.
  destruct (Z.div_eucl (Z.pos p * 2 ^ 53) (Z.pos p')) as [q r]. destruct Hdiv as [Hq Hr'].
  destruct (digits_between 52 q) as (d & Hd & Hdq); [lia|unfold normal in *; change (52 + 2) with 54; nia|].
  apply (doubled_round _ _ _ d _ _ _ _ (inject_Z (Z.pos p) * pow2 e / (inject_Z (Z.pos p') * pow2 e'))); try lia.
  - apply (quotient_between _ _ _ r); [lia|done|lia].
  - lra.
  - apply Qlt_shift_div_l; lra.
  - by apply near_div.
Qed.

(** ** What the columns of the table are made of *)

Lemma doubled_near lo hi k a x : doubled lo hi k a x -> near k (double_value x) a.
Proof.
  intros (m & e & (p & -> & ->) & _ & _ & H). unfold double_value.
  assert (E : (1 * inject_Z (Z.pos p) * pow2 e == inject_Z (Z.pos p) * pow2 e)%Q) by ring. by rewrite E.
Qed.

Lemma u64_of_double_ok lo hi k a x : doubled lo hi k a x ->
  match u64_of_double x with
  | Some z => 0 <= z < 2 ^ 64 /\ (inject_Z z <= double_value x < inject_Z (z + 1))%Q
  | None => (inject_Z (2 ^ 64) <= double_value x)%Q
  end.
Proof.
  intros (m & e & (p & -> & ->) & Hm & _ & _). unfold u64_of_double, double_value.
  set (z := if 0 <=? e then Z.pos p * 2 ^ e else Z.pos p / 2 ^ (- e)).
  assert (Hz : 0 <= z /\ (inject_Z z <= 1 * inject_Z (Z.pos p) * pow2 e < inject_Z (z + 1))%Q).
  { assert (E : (1 * inject_Z (Z.pos p) * pow2 e == inject_Z (Z.pos p) * pow2 e)%Q) by ring. rewrite E. unfold z.
    destruct (Z.leb_spec 0 e) as [He|He].
    - rewrite pow2_Z, <- inject_Z_mult, <- Zle_Qle, <- Zlt_Qlt by done.
      pose proof (Z.pow_pos_nonneg 2 e ltac:(lia) He). split; [nia|lia].
    - pose proof (Z.pow_pos_nonneg 2 (- e) ltac:(lia) ltac:(lia)).
      destruct (truncated (Z.pos p) e (- e) (inject_Z (Z.pos p) * pow2 e)) as [H1 H2]; [lia|apply exactly|].
      replace (e + - e) with 0 in * by lia. change (pow2 0) with 1%Q in *. rewrite Qmult_1_r in H1, H2.
      split; [apply Z.div_pos; lia|done]. }
  destruct Hz as [Hz0 Hz]. destruct (Z.ltb_spec z (2 ^ 64)) as [Hlt|Hge]; [done|].
  eapply Qle_trans; [|apply Hz]. by rewrite <- Zle_Qle.
Qed.

(** The percentage of [s] in [t], and how many of [s] in a second if they took [l] nanoseconds. *)
Definition percentage (s t : Z) : double := double_mul (double_div (double_of_Z s) (double_of_Z t)) (double_of_Z 100).
Definition per_second (s l : Z) : double := double_div (double_of_Z s) (double_div (double_of_Z l) (double_of_Z 1000000000)).

Lemma inject_pos z : 0 < z -> (0 < inject_Z z)%Q.
Proof. intros Hz. change 0%Q with (inject_Z 0). by rewrite <- Zlt_Qlt. Qed.

Lemma near_weaken j k v a : (0 < a)%Q -> (j <= k)%Q -> near j v a -> near k v a.
Proof.
  intros Ha Hjk [H1 H2]. split; [eapply Qle_trans; [|exact H1]|eapply Qle_trans; [exact H2|]]; (apply scale_l; lra).
Qed.

Lemma percentage_ok s t : 0 < s < 2 ^ 64 -> 0 < t < 2 ^ 64 ->
  near 8 (double_value (percentage s t)) (inject_Z s / inject_Z t * 100).
Proof.
  intros Hs Ht. pose proof (inject_pos s ltac:(lia)) as Ps. pose proof (inject_pos t ltac:(lia)) as Pt.
  assert (Pq : (0 < inject_Z s / inject_Z t)%Q) by (apply Qlt_shift_div_l; lra).
  pose proof (double_div_ok 1 1 _ _ (-52) 12 (-52) 12 _ _ ltac:(lra) ltac:(lra) Ps Pt ltac:(lia) (double_of_Z_ok s Hs) (double_of_Z_ok t Ht)) as Hd.
  pose proof (double_mul_ok (1 + 1 + 1 + 1 + 1) _ (-117) 13 _ 7036874417766400 (-46) ltac:(lra) Pq ltac:(lia) ltac:(by split) Hd) as Hm.
  apply doubled_near in Hm. assert (E : (inject_Z 7036874417766400 * pow2 (-46) == 100)%Q) by done. rewrite E in Hm.
  eapply near_weaken; [lra| |]; [|exact Hm]. lra.
Qed.

Lemma per_second_ok s l : 0 < s < 2 ^ 64 -> 0 < l < 2 ^ 64 ->
  exists lo hi k, (k <= 10)%Q /\ doubled lo hi k (inject_Z s / (inject_Z l / 1000000000)) (per_second s l).
Proof.
  intros Hs Hl. pose proof (inject_pos s ltac:(lia)) as Ps. pose proof (inject_pos l ltac:(lia)) as Pl.
  assert (Pq : (0 < inject_Z l / 1000000000)%Q) by (apply Qlt_shift_div_l; lra).
  pose proof (double_div_ok 1 1 _ _ (-52) 12 (-52) 12 _ _ ltac:(lra) ltac:(lra) Pl (inject_pos 1000000000 ltac:(lia)) ltac:(lia) (double_of_Z_ok l Hl) (double_of_Z_ok 1000000000 ltac:(lia))) as Hd.
  pose proof (double_div_ok 1 (1 + 1 + 1 + 1 + 1) _ _ (-52) 12 (-117) 13 _ _ ltac:(lra) ltac:(lra) Ps Pq ltac:(lia) (double_of_Z_ok s Hs) Hd) as Hq.
  eexists _, _, _. split; [|exact Hq]. lra.
Qed.

(** The columns, as numbers: zero if nothing succeeded, else accurate, up to the truncation of the
    second. *)
Definition is_percentage (x : double) (s t : Z) : Prop :=
  if s =? 0 then x = S754_zero false else near 8 (double_value x) (inject_Z s / inject_Z t * 100).

Definition is_per_second (r : option Z) (s l : Z) : Prop :=
  if (s =? 0) || (l =? 0) then r = Some 0 else
  exists y, near 10 y (inject_Z s / (inject_Z l / 1000000000)) /\
    match r with
    | Some z => 0 <= z < 2 ^ 64 /\ (inject_Z z <= y < inject_Z (z + 1))%Q
    | None => (inject_Z (2 ^ 64) <= y)%Q
    end.

Lemma zero_div lo hi k a x : doubled lo hi k a x -> double_div (S754_zero false) x = S754_zero false.
Proof. by intros (m & e & (p & -> & ->) & _). Qed.

Lemma percentage_column s t : 0 <= s <= t -> t < 2 ^ 64 ->
  is_percentage (if t >? 0 then percentage s t else double_of_Z 0) s t.
Proof.
  intros Hs Ht. unfold is_percentage. destruct (Z.eqb_spec s 0) as [->|Hne].
  - destruct (Z.gtb_spec t 0) as [Hpos|_]; [|done]. unfold percentage.
    change (double_of_Z 0) with (S754_zero false). by rewrite (zero_div _ _ _ _ _ (double_of_Z_ok t ltac:(lia))).
  - replace (t >? 0) with true by lia. apply percentage_ok; lia.
Qed.

Lemma per_second_column s l : 0 <= s < 2 ^ 64 -> 0 <= l < 2 ^ 64 ->
  is_per_second (if l >? 0 then u64_of_double (per_second s l) else Some 0) s l.
Proof.
  intros Hs Hl. unfold is_per_second. destruct (Z.gtb_spec l 0) as [Hpos|Hl0].
  2: { replace (l =? 0) with true by lia. by rewrite orb_true_r. }
  replace (l =? 0) with false by lia. rewrite orb_false_r. destruct (Z.eqb_spec s 0) as [->|Hne].
  - unfold per_second. change (double_of_Z 0) with (S754_zero false).
    pose proof (double_div_ok 1 1 _ _ (-52) 12 (-52) 12 _ _ ltac:(lra) ltac:(lra) (inject_pos l Hpos) (inject_pos 1000000000 ltac:(lia))
      ltac:(lia) (double_of_Z_ok l ltac:(lia)) (double_of_Z_ok 1000000000 ltac:(lia))) as Hd.
    by rewrite (zero_div _ _ _ _ _ Hd).
  - destruct (per_second_ok s l) as (lo & hi & k & Hk & Hd); [lia|lia|].
    assert (Pq : (0 < inject_Z s / (inject_Z l / 1000000000))%Q).
    { pose proof (inject_pos s ltac:(lia)). pose proof (inject_pos l Hpos). apply Qlt_shift_div_l; [apply Qlt_shift_div_l|]; lra. }
    exists (double_value (per_second s l)). split; [by eapply near_weaken, doubled_near|]. exact (u64_of_double_ok _ _ _ _ _ Hd).
Qed.

(** The quotient may be truncated just below the whole number it should be. *)
Lemma per_second_truncated : u64_of_double (per_second 1 1) = Some 999999999.
Proof. reflexivity. Qed.
