(* ===== verification/Metrics.v ===== *)
(** * The metrics store ([include/ds_metrics.h]): per-category rings of latency samples and
    running counters, the macro that times an operation, and the table printer.

    The abstract state of a ring is the log of all samples ever recorded, a pair (latency,
    success flag) each; the ring keeps the last [DS_METRICS_RING_SIZE] of them and the counters
    sum up the whole log, modulo 2^64. *)
From stdpp Require Import base numbers gmap list fin_maps option strings.
From S2P Require Import Prelude Machine Logic Api Owned Ring Doubles.

(** ** Layout *)

Definition DS_METRICS_RING_SIZE : Z := 8192.

Inductive ds_metrics_category :=
  | DS_METRICS_LKMM_PRODUCER | DS_METRICS_USER_CONSUMER
  | DS_METRICS_USER_PRODUCER | DS_METRICS_LKMM_CONSUMER.

#[export] Instance ds_metrics_category_eq_dec : EqDecision ds_metrics_category.
Proof. solve_decision. Defined.

Definition category_index (cat : ds_metrics_category) : Z :=
  match cat with
  | DS_METRICS_LKMM_PRODUCER => 0 | DS_METRICS_USER_CONSUMER => 1
  | DS_METRICS_USER_PRODUCER => 2 | DS_METRICS_LKMM_CONSUMER => 3
  end.

Module MetricsRing.
Definition write_idx (ring : Z) : Z := ring + 0.
Definition count (ring : Z) : Z := ring + 8.
Definition success_count (ring : Z) : Z := ring + 16.
Definition total_latency_ns (ring : Z) : Z := ring + 24.
Definition success_latency_ns (ring : Z) : Z := ring + 32.
Definition samples (ring : Z) : Z := ring + 40.
Definition sizeof : Z := 40 + 16 * DS_METRICS_RING_SIZE.
End MetricsRing.

Module MetricSample.
Definition latency_ns (sample : Z) : Z := sample + 0.
Definition success (sample : Z) : Z := sample + 8.
Definition sizeof : Z := 16.
End MetricSample.

#[export] Hint Unfold MetricsRing.write_idx MetricsRing.count MetricsRing.success_count
  MetricsRing.total_latency_ns MetricsRing.success_latency_ns MetricsRing.samples
  MetricSample.latency_ns MetricSample.success : layout.

Import MetricsRing MetricSample.

(** [&store->rings[cat]] and [&ring->samples[slot]] *)
Definition metrics_ring (store : Z) (cat : ds_metrics_category) : Z :=
  store + MetricsRing.sizeof * category_index cat.
Definition metrics_sample (ring slot : Z) : Z := samples ring + MetricSample.sizeof * slot.

(** ** Operations *)

Definition ds_metrics_record (store : Z) (cat : ds_metrics_category) (latency result : Z) : prog unit :=
  if store =? 0 then Ret tt else
  let ring := metrics_ring store cat in
  old_idx ← arena_atomic_add 64 (write_idx ring) 1 Relaxed;
  let slot := Z.land old_idx (DS_METRICS_RING_SIZE - 1) in
  let ok := if result =? DS_SUCCESS then 1 else 0 in
  Machine.store Plain (latency_ns (metrics_sample ring slot)) latency;;
  Machine.store Plain (success (metrics_sample ring slot)) ok;;
  _ ← arena_atomic_add 64 (count ring) 1 Relaxed;
  _ ← arena_atomic_add 64 (total_latency_ns ring) latency Relaxed;
  if ok =? 0 then Ret tt else
    _ ← arena_atomic_add 64 (success_count ring) 1 Relaxed;
    _ ← arena_atomic_add 64 (success_latency_ns ring) latency Relaxed;
    Ret tt.

(** [DS_METRICS_CLOCK_START()]: [bpf_ktime_get_ns] or [clock_gettime(CLOCK_MONOTONIC)]. *)
Definition DS_METRICS_CLOCK_START : prog Z := call ClockNs.

Definition DS_METRICS_CLOCK_END (start : Z) : prog Z :=
  now ← DS_METRICS_CLOCK_START; Ret (u64 (now - start)).

(** The macro: [result_var] reads the operation's result code off its value. *)
Definition DS_METRICS_RECORD_OP {A} (store : Z) (cat : ds_metrics_category) (op_block : prog A)
    (result_var : A -> Z) : prog A :=
  start ← DS_METRICS_CLOCK_START;
  a ← op_block;
  elapsed ← DS_METRICS_CLOCK_END start;
  ds_metrics_record store cat elapsed (result_var a);;
  Ret a.

Definition ds_metrics_category_names (cat : ds_metrics_category) : string :=
  match cat with
  | DS_METRICS_LKMM_PRODUCER => "LKMM producer"
  | DS_METRICS_USER_CONSUMER => "User consumer"
  | DS_METRICS_USER_PRODUCER => "User producer"
  | DS_METRICS_LKMM_CONSUMER => "LKMM consumer"
  end.

(** The columns of one row of [ds_metrics_print]. The throughput is [None] when the conversion to
    an integer is undefined. *)
Record metrics_row := mk_metrics_row {
  mr_name : string; mr_total : Z; mr_success : Z; mr_rate : double; mr_avg : Z; mr_avg_ok : Z; mr_throughput : option Z
}.

Definition metrics_print_row (store : Z) (cat : ds_metrics_category) : prog metrics_row :=
  let ring := metrics_ring store cat in
  total ← load Plain (count ring);
  succ ← load Plain (success_count ring);
  lat_all ← load Plain (total_latency_ns ring);
  lat_ok ← load Plain (success_latency_ns ring);
  Ret {| mr_name := ds_metrics_category_names cat; mr_total := total; mr_success := succ;
         mr_rate := if total >? 0 then percentage succ total else double_of_Z 0;
         mr_avg := if total >? 0 then lat_all / total else 0;
         mr_avg_ok := if succ >? 0 then lat_ok / succ else 0;
         mr_throughput := if lat_ok >? 0 then u64_of_double (per_second succ lat_ok) else Some 0 |}.

Definition ds_metrics_print (store : Z) : prog (list metrics_row) :=
  if store =? 0 then Ret [] else
  r0 ← metrics_print_row store DS_METRICS_LKMM_PRODUCER;
  r1 ← metrics_print_row store DS_METRICS_USER_CONSUMER;
  r2 ← metrics_print_row store DS_METRICS_USER_PRODUCER;
  r3 ← metrics_print_row store DS_METRICS_LKMM_CONSUMER;
  Ret [r0; r1; r2; r3].

(** ** The log a ring stands for *)

(** A sample is a pair: its latency, and 1 or 0. *)
Definition sample_of (latency result : Z) : ds_kv :=
  mk_kv latency (if result =? DS_SUCCESS then 1 else 0).

Definition succeeded (log : list ds_kv) : list ds_kv := filter (fun e => kv_value e <> 0) log.

Definition total_latency (log : list ds_kv) : Z := foldr (fun e t => kv_key e + t) 0 log.

(** The samples still in the ring. *)
Definition window (log : list ds_kv) : list ds_kv :=
  drop (length log - Z.to_nat DS_METRICS_RING_SIZE) log.

Lemma total_latency_snoc log e : total_latency (log ++ [e]) = total_latency log + kv_key e.
Proof. unfold total_latency. rewrite foldr_app. cbn. induction log as [|x log IH]; cbn; lia. Qed.

Lemma total_latency_nonneg log :
  (forall e, e ∈ log -> 0 <= kv_key e) -> 0 <= total_latency log.
Proof.
  induction log as [|x log IH]; intros H; [done|].
  pose proof (H x ltac:(left)). specialize (IH ltac:(intros e He; apply H; by right)).
  unfold total_latency in *. cbn [foldr]. lia.
Qed.

Lemma succeeded_snoc log e :
  succeeded (log ++ [e]) = if kv_value e =? 0 then succeeded log else succeeded log ++ [e].
Proof.
  unfold succeeded. rewrite filter_app, filter_cons. cbn.
  destruct (Z.eqb_spec (kv_value e) 0) as [E|E]; case_decide; try done. apply app_nil_r.
Qed.

Lemma succeeded_sub log e : e ∈ succeeded log -> e ∈ log.
Proof. by intros [_ H]%list_elem_of_filter. Qed.

Lemma window_length log : Zlen (window log) = Z.min (Zlen log) DS_METRICS_RING_SIZE.
Proof. unfold window, Zlen. rewrite length_drop. unfold DS_METRICS_RING_SIZE. lia. Qed.

(** Recording pushes one sample and, once the ring is full, drops the oldest. *)
Lemma window_snoc log e :
  window (log ++ [e]) =
  (if Zlen log <? DS_METRICS_RING_SIZE then window log else tail (window log)) ++ [e].
Proof.
  pose proof (Zlen_nonneg log) as Hn. unfold window. rewrite length_app. cbn [length].
  set (N := Z.to_nat DS_METRICS_RING_SIZE). assert (HN : N = Z.to_nat 8192) by done.
  destruct (Z.ltb_spec (Zlen log) DS_METRICS_RING_SIZE) as [Hlt|Hge];
    unfold Zlen, DS_METRICS_RING_SIZE in *.
  - replace (length log + 1 - N)%nat with 0%nat by lia. by replace (length log - N)%nat with 0%nat by lia.
  - rewrite drop_app_le by lia. f_equal.
    replace (length log + 1 - N)%nat with (length log - N + 1)%nat by lia.
    rewrite <- drop_drop. by destruct (drop (length log - N) log).
Qed.

(** ** Correctness of recording *)

Section spec.
Context `{K : Kernel}.
Variable store : Z.
Hypothesis store_pos : 0 < store.

Notation ring cat := (metrics_ring store cat).

(** The ring of [cat] after the operations of [log]. *)
Record metrics_repr (cat : ds_metrics_category) (log : list ds_kv) (m : mem) : Prop := {
  mt_idx : m !! write_idx (ring cat) = Some (u64 (Zlen log));
  mt_count : m !! count (ring cat) = Some (u64 (Zlen log));
  mt_total : m !! total_latency_ns (ring cat) = Some (u64 (total_latency log));
  mt_success : m !! success_count (ring cat) = Some (u64 (Zlen (succeeded log)));
  mt_success_lat : m !! success_latency_ns (ring cat) =
                     Some (u64 (total_latency (succeeded log)));
  mt_window : slots_hold (samples (ring cat)) 16 0 DS_METRICS_RING_SIZE m
                (Zlen log - Zlen (window log)) (window log);
  mt_mapped : slots_mapped (samples (ring cat)) 16 0 DS_METRICS_RING_SIZE m
}.

Definition ring_foot (cat : ds_metrics_category) (a : Z) : Prop :=
  in_block (ring cat) MetricsRing.sizeof a.

Lemma rings_apart cat cat' a : cat <> cat' -> ring_foot cat a -> ~ ring_foot cat' a.
Proof.
  unfold ring_foot, in_block, metrics_ring, MetricsRing.sizeof, DS_METRICS_RING_SIZE.
  destruct cat, cat'; cbn; intros; (done || lia).
Qed.

Lemma metrics_repr_frame cat log m m' :
  (forall a, ring_foot cat a -> m' !! a = m !! a) ->
  metrics_repr cat log m -> metrics_repr cat log m'.
Proof.
  unfold ring_foot, MetricsRing.sizeof, DS_METRICS_RING_SIZE.
  intros Hf [E1 E2 E3 E4 E5 Hs Hm].
  assert (Ha : forall a, in_block (samples (ring cat)) (16 * DS_METRICS_RING_SIZE) a ->
            m' !! a = m !! a) by (unfold DS_METRICS_RING_SIZE; intros a Ha; apply Hf; addr).
  split; try (rewrite Hf by addr; done).
  - by eapply slots_hold_frame; [done|lia|exact Ha|].
  - by eapply slots_mapped_frame; [done|lia|exact Ha|].
Qed.

Lemma sample_slot cat n :
  0 <= n -> metrics_sample (ring cat) (Z.land (u64 n) (DS_METRICS_RING_SIZE - 1)) =
            slot (samples (ring cat)) 16 DS_METRICS_RING_SIZE n.
Proof.
  intros Hn. unfold metrics_sample, slot, MetricSample.sizeof.
  change DS_METRICS_RING_SIZE with (2 ^ 13). rewrite land_mask by lia.
  unfold u64. by rewrite mod_pow2_wrap by lia.
Qed.

(** Writing the sample of position [Zlen log] turns the window into the new one. *)
Lemma window_push base m log e :
  slots_hold base 16 0 DS_METRICS_RING_SIZE m (Zlen log - Zlen (window log)) (window log) ->
  let p := slot base 16 DS_METRICS_RING_SIZE (Zlen log) in
  slots_hold base 16 0 DS_METRICS_RING_SIZE
    (<[p + (0 + 8):=kv_value e]> (<[p + 0:=kv_key e]> m))
    (Zlen (log ++ [e]) - Zlen (window (log ++ [e]))) (window (log ++ [e])).
Proof.
  intros Hs p. pose proof (Zlen_nonneg log) as Hn. pose proof (window_length log) as Hw.
  pose proof (window_length (log ++ [e])) as Hw'. rewrite Zlen_snoc in *. rewrite Hw'.
  rewrite window_snoc. unfold DS_METRICS_RING_SIZE in *.
  destruct (Z.ltb_spec (Zlen log) 8192) as [Hlt|Hge].
  - replace (Zlen log + 1 - Z.min (Zlen log + 1) 8192) with 0 by lia.
    replace (Zlen log - Zlen (window log)) with 0 in Hs by lia.
    subst p. replace (Zlen log) with (0 + Zlen (window log)) by lia.
    apply slots_push; try done; lia.
  - destruct (window log) as [|x w] eqn:E; [rewrite Zlen_nil in Hw; lia|]. cbn [tail].
    rewrite Zlen_cons in *. apply slots_tail in Hs.
    replace (Zlen log + 1 - Z.min (Zlen log + 1) 8192) with (Zlen log - (1 + Zlen w) + 1) by lia.
    subst p. replace (Zlen log) with (Zlen log - (1 + Zlen w) + 1 + Zlen w) at 1 2 by lia.
    apply slots_push; try done; lia.
Qed.

Lemma record_ok cat log m b lat result :
  metrics_repr cat log m ->
  wpr (ds_metrics_record store cat lat result) m b (fun _ m' b' => b' = b /\
    metrics_repr cat (log ++ [sample_of lat result]) m' /\ updates (ring_foot cat) m m').
Proof.
  intros [E1 E2 E3 E4 E5 Hs Hm]. pose proof (Zlen_nonneg log) as Hn.
  set (e := sample_of lat result).
  assert (Hidx : (u64 (Zlen log) + 1) mod 2 ^ 64 = u64 (Zlen (log ++ [e])))
    by (rewrite Zlen_snoc; apply u64_add_l).
  assert (Hlat : (u64 (total_latency log) + lat) mod 2 ^ 64 = u64 (total_latency (log ++ [e])))
    by (rewrite total_latency_snoc; apply u64_add_l).
  assert (Hframe : forall a v m d l,
    ~ in_block (samples (ring cat)) (16 * DS_METRICS_RING_SIZE) a ->
    slots_hold (samples (ring cat)) 16 0 DS_METRICS_RING_SIZE m d l ->
    slots_hold (samples (ring cat)) 16 0 DS_METRICS_RING_SIZE (<[a:=v]> m) d l)
    by (intros; apply slots_frame_ins; (done || lia)).
  assert (Hsc : (u64 (Zlen (succeeded log)) + 1) mod 2 ^ 64 = u64 (Zlen (succeeded log ++ [e])))
    by (rewrite Zlen_snoc; apply u64_add_l).
  assert (Hsl : (u64 (total_latency (succeeded log)) + lat) mod 2 ^ 64 =
                u64 (total_latency (succeeded log ++ [e])))
    by (rewrite total_latency_snoc; apply u64_add_l).
  apply (Hframe (write_idx (ring cat)) (u64 (Zlen (log ++ [e])))) in Hs; [|addr].
  pose proof (window_push _ _ log e Hs) as Hpush.
  destruct (Hm (Zlen log)) as [Hk Hv].
  destruct (slot_range (samples (ring cat)) 16 0 DS_METRICS_RING_SIZE ltac:(done) ltac:(lia)
              (Zlen log) 0 16) as [Hb1 Hb2]; try lia.
  unfold ds_metrics_record. pif. prun. rewrite sample_slot by lia.
  set (P := slot (samples (ring cat)) 16 DS_METRICS_RING_SIZE (Zlen log)) in *.
  assert (HP : latency_ns P = P + 0 /\ success P = P + (0 + 8)) by (split; addr).
  destruct HP as [HP1 HP2]. rewrite HP1, HP2. unfold DS_METRICS_RING_SIZE in Hb2.
  unfold e, sample_of in *. cbn [kv_key kv_value] in Hpush.
  destruct (result =? DS_SUCCESS) eqn:Er; cbn [Z.eqb]; prun; cbn [rmw_eval];
    rewrite ?Hidx, ?Hlat, ?Hsc, ?Hsl; (split; [done|split]).
  2,4: repeat (apply updates_insert_trans;
    [unfold ring_foot, MetricsRing.sizeof, DS_METRICS_RING_SIZE; addr|]); apply updates_refl.
  all: split; rewrite ?succeeded_snoc; cbn [kv_value Z.eqb]; try mlook.
  1,3: repeat (apply Hframe; [unfold DS_METRICS_RING_SIZE; addr|]); exact Hpush.
  all: by repeat apply slots_mapped_ins.
Qed.

(** The macro around an operation that keeps clear of the ring. *)
Lemma record_op {A} cat log (op_block : prog A) (result_var : A -> Z) m b Q :
  (forall m, snd (kcall ClockNs m) = m) -> metrics_repr cat log m ->
  wpr op_block m b Q ->
  (forall a m' b', Q a m' b' -> forall c, ring_foot cat c -> m' !! c = m !! c) ->
  wpr (DS_METRICS_RECORD_OP store cat op_block result_var) m b (fun a m' b' =>
    exists m1 lat, Q a m1 b' /\ 0 <= lat < 2 ^ 64 /\ updates (ring_foot cat) m1 m' /\
      metrics_repr cat (log ++ [sample_of lat (result_var a)]) m').
Proof.
  intros Hclk Hr Hop Hfr. unfold DS_METRICS_RECORD_OP, DS_METRICS_CLOCK_END, DS_METRICS_CLOCK_START.
  pose proof (Hclk m) as Hm. apply wpr_bind, wpr_call_ext.
  destruct (kcall ClockNs m) as [t0 m0]. cbn in Hm. subst m0.
  eapply wpr_call; [exact Hop|]. intros a m1 b1 HQ.
  pose proof (Hclk m1) as Hm1. apply wpr_bind, wpr_bind, wpr_call_ext.
  destruct (kcall ClockNs m1) as [t1 m2]. cbn in Hm1. subst m2. apply wpr_ret.
  eapply wpr_call; [apply (record_ok cat log)|].
  - eapply metrics_repr_frame; [by apply (Hfr a m1 b1)|done].
  - intros _ m' b' (-> & Hr' & Hu). apply wpr_ret. exists m1, (u64 (t1 - t0)).
    split; [done|]. split; [apply u64_range|done].
Qed.

(** ** The printed table *)

Definition row_of (cat : ds_metrics_category) (log : list ds_kv) : metrics_row := {|
  mr_name := ds_metrics_category_names cat;
  mr_total := Zlen log;
  mr_success := Zlen (succeeded log);
  mr_rate := if Zlen log >? 0 then percentage (Zlen (succeeded log)) (Zlen log) else double_of_Z 0;
  mr_avg := if Zlen log >? 0 then total_latency log / Zlen log else 0;
  mr_avg_ok := if Zlen (succeeded log) >? 0
               then total_latency (succeeded log) / Zlen (succeeded log) else 0;
  mr_throughput := if total_latency (succeeded log) >? 0
                   then u64_of_double (per_second (Zlen (succeeded log)) (total_latency (succeeded log))) else Some 0
|}.

(** No counter of the log has wrapped. *)
Definition log_fits (log : list ds_kv) : Prop :=
  Zlen log < 2 ^ 64 /\ total_latency log < 2 ^ 64 /\ forall e, e ∈ log -> 0 <= kv_key e.

Lemma succeeded_total log :
  (forall e, e ∈ log -> 0 <= kv_key e) ->
  0 <= total_latency (succeeded log) <= total_latency log /\ Zlen (succeeded log) <= Zlen log.
Proof.
  intros H. split; [|unfold Zlen; pose proof (length_filter (fun e => kv_value e <> 0) log);
    unfold succeeded; lia].
  split; [apply total_latency_nonneg; intros e He; by apply H, succeeded_sub|].
  induction log as [|x log IH]; [done|]. specialize (IH ltac:(intros e He; apply H; by right)).
  pose proof (H x ltac:(left)). unfold succeeded in *. rewrite filter_cons.
  case_decide; unfold total_latency in *; cbn [foldr]; lia.
Qed.

Lemma print_row_ok cat log m b :
  metrics_repr cat log m -> log_fits log ->
  wpr (metrics_print_row store cat) m b (fun row m' b' =>
    m' = m /\ b' = b /\ row = row_of cat log).
Proof.
  intros [E1 E2 E3 E4 E5 Hs Hm] (Hf1 & Hf2 & Hf3).
  pose proof (succeeded_total log Hf3) as [Ht Hc]. pose proof (Zlen_nonneg (succeeded log)).
  pose proof (Zlen_nonneg log). unfold metrics_print_row. prun. unfold row_of.
  by rewrite !u64_id by lia.
Qed.

Lemma print_ok (logs : ds_metrics_category -> list ds_kv) m b :
  (forall cat, metrics_repr cat (logs cat) m) -> (forall cat, log_fits (logs cat)) ->
  wpr (ds_metrics_print store) m b (fun rows m' b' => m' = m /\ b' = b /\
    rows = map (fun cat => row_of cat (logs cat))
      [DS_METRICS_LKMM_PRODUCER; DS_METRICS_USER_CONSUMER; DS_METRICS_USER_PRODUCER;
       DS_METRICS_LKMM_CONSUMER]).
Proof.
  intros Hr Hf. unfold ds_metrics_print. pif.
  do 4 (eapply wpr_call; [by eapply print_row_ok|]; intros ? ? ? (-> & -> & ->)).
  by apply wpr_ret.
Qed.

(** ** A whole measurement *)

Notation measurement := (ds_metrics_category * Z * Z)%type.

Fixpoint record_all (ms : list measurement) : prog unit :=
  match ms with
  | [] => Ret tt
  | (cat, lat, result) :: ms' => ds_metrics_record store cat lat result;; record_all ms'
  end.

(** The samples of one category. *)
Definition log_of (cat : ds_metrics_category) (ms : list measurement) : list ds_kv :=
  omap (fun '(c, lat, result) => if decide (c = cat) then Some (sample_of lat result) else None) ms.

(** The store as the program finds it: all zero. *)
Definition store_zeroed (m : mem) : Prop :=
  forall cat, (forall i, 0 <= i < 5 -> m !! (ring cat + 8 * i) = Some 0) /\
    slots_mapped (samples (ring cat)) 16 0 DS_METRICS_RING_SIZE m.

Lemma zeroed_repr cat m : store_zeroed m -> metrics_repr cat [] m.
Proof.
  intros Hz. destruct (Hz cat) as [H Hm]. split; try done.
  1: apply (H 0). 2: apply (H 1). 3: apply (H 3). 4: apply (H 2). 5: apply (H 4). all: lia.
Qed.

Lemma record_all_ok ms m b (logs : ds_metrics_category -> list ds_kv) :
  (forall cat, metrics_repr cat (logs cat) m) ->
  wpr (record_all ms) m b (fun _ m' b' => b' = b /\
    forall cat, metrics_repr cat (logs cat ++ log_of cat ms) m').
Proof.
  revert m logs. induction ms as [|[[cat lat] result] ms IH]; intros m logs Hr; cbn [record_all].
  { apply wpr_ret. split; [done|]. intros cat. cbn. by rewrite app_nil_r. }
  eapply wpr_call; [by apply (record_ok cat (logs cat))|]. intros _ m1 b1 (-> & Hr1 & Hu & _).
  eapply wpr_mono; [apply (IH m1 (fun c => if decide (c = cat) then logs c ++ [sample_of lat result]
                                           else logs c))|].
  - intros c. case_decide as Hc; [by subst|]. eapply metrics_repr_frame; [|by apply Hr].
    intros a Ha. apply Hu. by apply (rings_apart c cat).
  - intros _ m2 b2 (-> & Hr2). split; [done|]. intros c. specialize (Hr2 c).
    unfold log_of in *. cbn [omap list_omap]. destruct (decide (c = cat)) as [->|Hne].
    + rewrite decide_True by done. rewrite <- app_assoc in Hr2. done.
    + rewrite decide_False by done. done.
Qed.

Lemma row_columns cat log : log_fits log ->
  is_percentage (mr_rate (row_of cat log)) (mr_success (row_of cat log)) (mr_total (row_of cat log)) /\
  is_per_second (mr_throughput (row_of cat log)) (mr_success (row_of cat log)) (total_latency (succeeded log)).
Proof.
  intros (Hf1 & Hf2 & Hf3). pose proof (succeeded_total log Hf3) as [Ht Hc]. pose proof (Zlen_nonneg (succeeded log)).
  cbn [row_of mr_rate mr_success mr_total mr_throughput].
  split; [apply percentage_column; lia|apply per_second_column; lia].
Qed.

(** C35. Whatever is recorded in a zeroed store, the printed table has one row per category with
    the number of its samples, of its successes, and the two average latencies, as long as the
    sums fit in 64 bits; every sample is counted in its own category only. The rate and the
    throughput, computed with doubles, are within a relative error of [2 ^ -48] of the percentage
    and of the successes per second, the latter truncated to an integer. *)
Theorem metrics_table ms m b :
  store_zeroed m -> (forall cat, log_fits (log_of cat ms)) ->
  wpr (record_all ms;; ds_metrics_print store) m b (fun rows _ b' => b' = b /\
    rows = map (fun cat => row_of cat (log_of cat ms))
      [DS_METRICS_LKMM_PRODUCER; DS_METRICS_USER_CONSUMER; DS_METRICS_USER_PRODUCER;
       DS_METRICS_LKMM_CONSUMER]) /\
  forall cat, let row := row_of cat (log_of cat ms) in
    is_percentage (mr_rate row) (mr_success row) (mr_total row) /\
    is_per_second (mr_throughput row) (mr_success row) (total_latency (succeeded (log_of cat ms))).
Proof.
  intros Hz Hf. split; [|intros cat; by apply row_columns].
  eapply wpr_call; [apply (record_all_ok ms m b (fun _ => []))|].
  - intros cat. by apply zeroed_repr.
  - intros _ m1 b1 (-> & Hr).
    eapply wpr_mono; [by apply (print_ok (fun cat => log_of cat ms))|].
    by intros rows m2 b2 (-> & -> & ->).
Qed.
End spec.
