(* ===== verification/Agents.v ===== *)
(** * Threads with memory of their own.

    A thread that shares a structure also runs code that works on memory nobody else touches: its
    other structures, its allocator, its metrics. [agent_local] turns a specification of such
    code, run alone on the thread's part of memory ([part]), into one among other threads.
    [producer_agent] and [consumer_agent] say what the two sides of a [Duet] need for it;
    [timed_part] is the timing macro around an operation on the shared structure or on memory of
    the thread's own. *)
From stdpp Require Import base numbers gmap list fin_maps option relations.
From S2P Require Import Prelude Machine Logic Api Owned Conc Container Duet Ring Metrics.

(** ** Programs that ask the kernel for nothing *)

Fixpoint call_free {A} (p : prog A) : Prop :=
  match p with
  | Ret _ | NoFuel => True
  | Do (Call _) _ => False
  | Do _ k => forall v, call_free (k v)
  end.

Lemma call_free_bind {A B} (p : prog A) (f : A -> prog B) :
  call_free p -> (forall a, call_free (f a)) -> call_free (p ≫= f).
Proof.
  unfold mbind, prog_mbind. intros Hp Hf. induction p as [a|e k IH|]; cbn in *; [done| |done].
  destruct e; try done; intros u; by apply IH.
Qed.

Lemma call_free_loop {S A} fuel (body : S -> prog (S + A)) s :
  (forall s, call_free (body s)) -> call_free (loop fuel body s).
Proof.
  intros Hb. revert s. induction fuel as [|fuel IH]; intros s; [done|]. cbn [loop].
  apply call_free_bind; [apply Hb|]. by intros [s'|a].
Qed.

(** Proves it of straight-line code, branches and loops. *)
Ltac call_free :=
  repeat first
    [ done
    | lazymatch goal with
      | |- call_free (_ ≫= _) => apply call_free_bind; [|intros ?]
      | |- call_free (loop _ _ _) => apply call_free_loop; intros ?
      | |- call_free (if ?c then _ else _) => destruct c
      | |- call_free (match ?x with _ => _ end) => destruct x
      | |- call_free (let '(_, _) := ?x in _) => destruct x
      end
    | progress intros
    | progress cbn beta iota ].

(** ** A part of memory *)

Section part.
Variable cells : Z -> Prop.
Context `{!forall a, Decision (cells a)}.

Definition part (m : mem) : mem := filter (fun av => cells av.1) m.

Lemma part_lookup m a v : part m !! a = Some v <-> m !! a = Some v /\ cells a.
Proof. unfold part. apply map_lookup_filter_Some. Qed.

Lemma part_in m a : cells a -> part m !! a = m !! a.
Proof.
  intros Ha. destruct (m !! a) as [v|] eqn:E; [by apply part_lookup|].
  apply map_lookup_filter_None. by left.
Qed.

Lemma part_insert m a v : cells a -> part (<[a:=v]> m) = <[a:=v]> (part m).
Proof. intros Ha. unfold part. by apply map_filter_insert_True. Qed.

Lemma part_ext m m' : (forall a, cells a -> m' !! a = m !! a) -> part m' = part m.
Proof.
  intros Hsame. apply map_eq. intros a. destruct (decide (cells a)) as [Ha|Ha].
  - by rewrite !part_in, Hsame.
  - unfold part. rewrite !(proj2 (map_lookup_filter_None _ _ _)); [done|by right..].
Qed.

(** What an access of the part does to the whole. *)
Lemma exec_part `{K : Kernel} e m b v m' b' :
  (forall x, e <> Call x) -> exec e (part m) b = Some (v, m', b') ->
  exec e m b = Some (v, m, b') /\ m' = part m \/
  exists a w, cells a /\ is_Some (m !! a) /\ exec e m b = Some (v, <[a:=w]> m, b') /\ m' = part (<[a:=w]> m).
Proof.
  intros Hcall Hx. destruct e as [o a|o a w|o1 o2 a x w|o op a w|o| |x]; cbn in *.
  - destruct (part m !! a) as [u|] eqn:E; [|done]. apply part_lookup in E as [E _]. rewrite E.
    injection Hx as -> <- <-. by left.
  - destruct (part m !! a) as [u|] eqn:E; [|done]. apply part_lookup in E as [E Ha]. rewrite E.
    injection Hx as <- <- <-. right. exists a, w. split_and!; [done|by eexists|done|by rewrite part_insert].
  - destruct (part m !! a) as [u|] eqn:E; [|done]. apply part_lookup in E as [E Ha]. rewrite E.
    injection Hx as <- <- <-. cbn. destruct (u =? x); [|by left]. right. exists a, w.
    split_and!; [done|by eexists|done|by rewrite part_insert].
  - destruct (part m !! a) as [u|] eqn:E; [|done]. apply part_lookup in E as [E Ha]. rewrite E.
    injection Hx as <- <- <-. right. exists a, (rmw_eval op u w).
    split_and!; [done|by eexists|done|by rewrite part_insert].
  - injection Hx as <- <- <-. by left.
  - destruct b as [|b]; injection Hx as <- <- <-; by left.
  - by destruct (Hcall x).
Qed.
End part.

Lemma part_iff (c1 c2 : Z -> Prop) `{!forall a, Decision (c1 a)} `{!forall a, Decision (c2 a)} m :
  (forall a, c1 a <-> c2 a) -> part c1 m = part c2 m.
Proof. intros Hiff. apply map_filter_ext. intros a v _. apply Hiff. Qed.

(** ** Agents *)

Section agent.
Context `{K : Kernel} {G : Type}.
(** What a thread relies on and guarantees, the cells it owns, and what it knows of the structure
    it shares after its operations [I]. *)
Variables (R Gu : mem * G -> mem * G -> Prop) (cells : Z -> Prop) (at_ : list event -> mem * G -> Prop).
Context `{!forall a, Decision (cells a)} `{!PreOrder R} `{!Reflexive Gu}.

Record agent : Prop := {
  ag_stable I : Stable R (at_ I);
  ag_kept I s s' a : at_ I s -> R s s' -> cells a -> s'.1 !! a = s.1 !! a;
  ag_write I m g a v : cells a -> is_Some (m !! a) -> at_ I (m, g) ->
    Gu (m, g) (<[a:=v]> m, g) /\ at_ I (<[a:=v]> m, g)
}.

Hypothesis Ag : agent.

(** The thread is there, with [X] in its own memory. *)
Definition owns (I : list event) (X : mem -> Prop) (s : mem * G) : Prop := at_ I s /\ X (part cells s.1).

#[export] Instance owns_stable I X : Stable R (owns I X).
Proof.
  intros s s' [HI HX] HR. split; [by eapply (ag_stable Ag)|].
  rewrite (part_ext cells s.1 s'.1); [done|]. intros a Ha. by eapply (ag_kept Ag).
Qed.

(** Code that runs in the thread's own memory. *)
Lemma agent_rg {A} (p : prog A) I b m g (Q : A -> mem -> nat -> Prop) :
  call_free p -> at_ I (m, g) -> wpr p (part cells m) b Q ->
  rg R Gu p b (m, g) (fun a b' s => at_ I s /\ Q a (part cells s.1) b').
Proof.
  revert b m g. induction p as [a|e k IH|]; intros b m g Hc HI Hw.
  - intros [m1 g1] HR. assert (Ho : owns I (fun mm => Q a mm b) (m, g)) by by split.
    by apply (owns_stable I (fun mm => Q a mm b) _ _ Ho HR).
  - intros [m1 g1] HR. cbn [fst].
    assert (E1 : part cells m1 = part cells m).
    { apply part_ext. intros a Ha. by eapply (ag_kept Ag I (m, g) (m1, g1)). }
    assert (HI1 : at_ I (m1, g1)) by by eapply (ag_stable Ag).
    rewrite <- E1 in Hw. unfold wpr in Hw. cbn [run] in Hw.
    destruct (exec e (part cells m1) b) as [[[v mm] b']|] eqn:E; [|done].
    assert (Hne : forall x, e <> Call x) by (intros x ->; done).
    assert (Hk : call_free (k v)) by (destruct e; done).
    destruct (exec_part cells e m1 b v mm b' Hne E) as [[-> ->]|(a & w & Ha & Hs & -> & ->)].
    + exists g1. split; [done|]. by apply IH.
    + destruct (ag_write Ag I m1 g1 a w Ha Hs HI1) as [HG HI2]. exists g1. split; [done|]. by apply IH.
  - done.
Qed.

Lemma agent_local {A} (p : prog A) I (X : mem -> Prop) (Y : A -> mem -> Prop) :
  call_free p -> (forall mm b, X mm -> wpr p mm b (fun a mm' _ => Y a mm')) ->
  triple R Gu (owns I X) p (fun a => owns I (Y a)).
Proof.
  intros Hc Hw b [m g] _ [HI HX]. eapply rg_mono; [by apply (agent_rg p I b m g _ Hc HI (Hw _ b HX))|].
  intros a b' s [HI' HY]. split; [lia|by split].
Qed.

(** A service that leaves memory alone. *)
Lemma agent_call e I X : (forall m, snd (kcall e m) = m) ->
  triple R Gu (owns I X) (call e) (fun v s => (exists m, v = fst (kcall e m)) /\ owns I X s).
Proof.
  intros Hp. unfold call. eapply (triple_do _ _ _ _ _ (fun v s => (exists m, v = fst (kcall e m)) /\ owns I X s)).
  - apply _.
  - intros [m g] b Hs. cbn. pose proof (Hp m) as E. destruct (kcall e m) as [v m'] eqn:Ev. cbn in E. subst m'.
    exists v, m. split; [done|]. exists g. split; [done|]. split; [by exists m; rewrite Ev|done].
  - intros v. apply triple_ret; [apply _|done].
Qed.
End agent.

(** ** The two sides of a duet as agents *)

Section duet_agents.
Context `{K : Kernel} {U : Duet} {repr quiet : list ds_kv -> mem -> Prop} {d : discipline}
  {l0 : list ds_kv} {lim : nat} {CP CC : Container}.
Context `{L : !DuetLaws U repr quiet d l0 lim CP CC}.
Context `{!forall a, Decision (du_pcells a)} `{!forall a, Decision (du_ccells a)}.

Lemma producer_agent : agent du_prely du_crely du_pcells du_producing.
Proof.
  split; [apply _|..].
  - intros I [m g] s' a HI HR Ha. apply (du_pcells_kept (m, g) s' a); [by eapply du_producing_ok|done..].
  - intros I m g a v Ha Hs HI. by apply du_pcells_write.
Qed.

Lemma consumer_agent : agent du_crely du_prely du_ccells du_consuming.
Proof.
  split; [apply _|..].
  - intros O [m g] s' a HO HR Ha. apply (du_ccells_kept (m, g) s' a); [by eapply du_consuming_ok|done..].
  - intros O m g a v Ha Hs HO. by apply du_ccells_write.
Qed.

Notation produces := (owns du_pcells du_producing).
Notation consumes := (owns du_ccells du_consuming).

(** What each side does to the shared structure leaves its own memory alone. *)
Lemma agent_produces {A} (p : prog A) I (Q : A -> mem * du_ghost -> Prop) X :
  triple du_prely du_pguar (du_producing I) p Q ->
  triple du_prely du_crely (produces I X) p (fun a s => Q a s /\ X (part du_pcells s.1)).
Proof.
  intros Hop b [m g] Hb [Hp HX]. pose proof (Hop b (m, g) Hb Hp) as Ho.
  assert (Hi : du_inv (m, g)) by by eapply du_producing_ok.
  eapply rg_mono; [apply _..|eapply (rg_frame _ _ _ du_inv (fun s => X (part du_pcells s.1)));
    [| |done..|exact Ho]|intros a b' s' [[H1 H2] H3]; exact (conj H1 (conj H2 H3))].
  - intros s s' Hs HR. split; [by eapply du_prely_inv|]. rewrite (part_ext du_pcells s.1 s'.1); [done|].
    intros a Ha. by apply (du_pcells_kept s s').
  - intros s s' Hs HG. destruct (du_pguar_ok s s' Hs HG) as [HR Hkeep].
    split; [by eapply du_crely_inv|]. split; [done|]. by rewrite (part_ext du_pcells s.1 s'.1).
Qed.

Lemma agent_consumes {A} (p : prog A) O (Q : A -> mem * du_ghost -> Prop) X :
  triple du_crely du_cguar (du_consuming O) p Q ->
  triple du_crely du_prely (consumes O X) p (fun a s => Q a s /\ X (part du_ccells s.1)).
Proof.
  intros Hop b [m g] Hb [Hp HX]. pose proof (Hop b (m, g) Hb Hp) as Ho.
  assert (Hi : du_inv (m, g)) by by eapply du_consuming_ok.
  eapply rg_mono; [apply _..|eapply (rg_frame _ _ _ du_inv (fun s => X (part du_ccells s.1)));
    [| |done..|exact Ho]|intros a b' s' [[H1 H2] H3]; exact (conj H1 (conj H2 H3))].
  - intros s s' Hs HR. split; [by eapply du_crely_inv|]. rewrite (part_ext du_ccells s.1 s'.1); [done|].
    intros a Ha. by apply (du_ccells_kept s s').
  - intros s s' Hs HG. destruct (du_cguar_ok s s' Hs HG) as [HR Hkeep].
    split; [by eapply du_prely_inv|]. split; [done|]. by rewrite (part_ext du_ccells s.1 s'.1).
Qed.

Lemma agent_inserts I e X : (length I < lim)%nat ->
  triple du_prely du_crely (produces I X) (c_insert (Container := CP) (kv_key e) (kv_value e))
    (fun r => produces (I ++ [EInsert e r]) X).
Proof. intros HI. by apply (agent_produces _ I (fun r => du_producing (I ++ [EInsert e r]))), du_insert. Qed.

Lemma agent_pops O x X :
  triple du_crely du_prely (consumes O X) (c_pop (Container := CC) (Some x))
    (fun r => consumes (O ++ [EPop x r.1 r.2]) X).
Proof. by apply (agent_consumes _ O (fun r => du_consuming (O ++ [EPop x r.1 r.2]))), du_pop. Qed.
End duet_agents.

(** ** Timed operations of an agent, whose ring of samples is its own *)

Section timed.
Context `{K : Kernel} {G : Type} (R Gu : mem * G -> mem * G -> Prop) (cells : Z -> Prop)
  (at_ : list event -> mem * G -> Prop).
Context `{!forall a, Decision (cells a)} `{!PreOrder R} `{!Reflexive Gu}.
Hypothesis Ag : agent R Gu cells at_.
Variable metrics : Z.
Hypothesis metrics_pos : 0 < metrics.
Hypothesis clock_pure : forall m, snd (kcall ClockNs m) = m.

Lemma record_call_free cat lat r : call_free (ds_metrics_record metrics cat lat r).
Proof. unfold ds_metrics_record, arena_atomic_add, rmw, store. call_free. Qed.

(** [Y] is what the operation leaves in the agent's memory, [Z] what the sample makes of it. *)
Lemma timed_part {A} cat (op_block : prog A) (result_var : A -> Z) I X (I' : A -> list event) (Y Z : A -> mem -> Prop) :
  triple R Gu (owns cells at_ I X) op_block (fun a => owns cells at_ (I' a) (Y a)) ->
  (forall a lat mm b, Y a mm -> wpr (ds_metrics_record metrics cat lat (result_var a)) mm b (fun _ mm' _ => Z a mm')) ->
  triple R Gu (owns cells at_ I X) (DS_METRICS_RECORD_OP metrics cat op_block result_var)
    (fun a => owns cells at_ (I' a) (Z a)).
Proof.
  intros Hop Hrec. unfold DS_METRICS_RECORD_OP, DS_METRICS_CLOCK_END, DS_METRICS_CLOCK_START.
  pose proof (owns_stable R Gu cells at_ Ag) as Hst.
  eapply triple_bind; [apply _..|by apply (agent_call R Gu cells at_ Ag)|]. intros start.
  apply triple_pure. intros _. eapply triple_bind; [apply _..|exact Hop|]. intros a.
  eapply (triple_bind _ _ _ _ _ _ (fun _ => owns cells at_ (I' a) (Y a))).
  { eapply triple_bind; [apply _..|by apply (agent_call R Gu cells at_ Ag)|]. intros now.
    apply triple_pure. intros _. by apply triple_ret. }
  intros elapsed. eapply (triple_bind _ _ _ _ _ _ (fun _ => owns cells at_ (I' a) (Z a))).
  { apply (agent_local R Gu cells at_ Ag); [apply record_call_free|]. intros mm b HY. by apply Hrec. }
  intros _. by apply triple_ret.
Qed.
End timed.
