(* ===== verification/Relay.v ===== *)
(** * The relay: kernel producer, userspace relay thread, kernel consumer
    ([src/skeleton_*.bpf.c] and [src/skeleton_*.c]).

    A relay has two lanes, each a container in the arena: the kernel side inserts into KU and
    pops from UK, the userspace thread moves pairs from KU to UK. The programs below are those
    of every skeleton but the stack's, over the lane's operations; [Skeletons.v] instantiates
    them. The counters the skeletons keep in global variables are passed as records; the arena
    holds the lanes and the metrics. Each handler runs as a separate program with its own loop
    budget, and [activity_step] runs one of them on the state of the whole system.

    What the handlers do is specified in [RelaySpec.v]; [RelaySystem.v] has the theorems. *)
From stdpp Require Import base numbers gmap list fin_maps option strings.
From S2P Require Import Prelude Machine Logic Api Owned Container Duet Spsc Ring Metrics.

(** ** Lanes *)

(** What a skeleton uses of its data structure: the two builds of the operations, and the
    userspace verifier. *)
Class Lane := {
  ln_bpf : Container;
  ln_user : Container;
  ln_verify : prog Z
}.

(** The two builds are linked with two allocators, over one heap: the laws of [Al] are those of
    the kernel's, [UserOps] are the functions of the userspace build, which keep the same heap
    sound. *)
Class UserOps := {
  user_arena_alloc : Z -> prog Z;
  user_arena_free : Z -> prog unit
}.

Definition user_build (Al : Allocator) `{U : UserOps} : Allocator := {|
  bpf_arena_alloc := user_arena_alloc;
  bpf_arena_free := user_arena_free;
  heap_ok := heap_ok (Allocator := Al);
  in_arena := in_arena (Allocator := Al);
  alloc_pre := alloc_pre (Allocator := Al);
  free_pre := free_pre (Allocator := Al)
|}.

Definition side_build (Al : Allocator) `{U : UserOps} (s : side) : Allocator :=
  match s with BPF => Al | USER => user_build Al end.

Class LaneLaws `{K : Kernel} `{Al : Allocator} `{U : UserOps} (L : Lane) := {
  ln_bpf_laws :: @ContainerLaws K Al BPF ln_bpf;
  ln_user_laws :: @ContainerLaws K (user_build Al) USER ln_user;
  ln_same_spec : c_spec (Container := ln_user) = c_spec (Container := ln_bpf);
  ln_same_home : c_home (Container := ln_user) = c_home (Container := ln_bpf);
  ln_same_ready : c_ready (Container := ln_user) = c_ready (Container := ln_bpf);
  ln_same_blank : c_blank (Container := ln_user) = c_blank (Container := ln_bpf);
  ln_same_inv own l m :
    c_inv (Container := ln_user) own l m <-> c_inv (Container := ln_bpf) own l m
}.

(** How each side tests, in memory, whether the lane is initialised. *)
Class TestLaws `{K : Kernel} (L : Lane) (up : side -> prog bool) := {
  test_blank s m b :
    c_blank (Container := ln_bpf) m ->
    wpr (up s) m b (fun r m' b' => r = false /\ m' = m /\ b' = b);
  test_live s own l m b :
    c_inv (Container := ln_bpf) own l m ->
    wpr (up s) m b (fun r m' b' => r = true /\ m' = m /\ b' = b)
}.

(** A lane whose verifier raises no false alarm. *)
Class VerifyLaws `{K : Kernel} (L : Lane) :=
  verify_law own l m b :
    c_inv (Container := ln_bpf) own l m ->
    wpr ln_verify m b (fun r m' b' => r = DS_SUCCESS /\ m' = m /\ b' = b).

(** ** The global variables of the two programs *)

(** Kernel side: the statistics and the initialisation flags in the BPF program's data section.
    Only the stack's skeleton has [initialized_uk]. *)
Record kernel_state := {
  total_kernel_prod_ops : Z;
  total_kernel_prod_failures : Z;
  total_kernel_consume_ops : Z;
  total_kernel_consume_failures : Z;
  total_kernel_consumed : Z;
  initialized_ku : bool;
  initialized_uk : bool
}.

Definition kernel_start : kernel_state := {|
  total_kernel_prod_ops := 0; total_kernel_prod_failures := 0; total_kernel_consume_ops := 0;
  total_kernel_consume_failures := 0; total_kernel_consumed := 0;
  initialized_ku := false; initialized_uk := false
|}.

Definition bump (c : bool) (n : Z) : Z := if c then u64 (n + 1) else n.

(** [total_kernel_prod_ops++] and [total_kernel_prod_failures++], as far as each is executed. *)
Definition count_prod (op failure : bool) (ks : kernel_state) : kernel_state := {|
  total_kernel_prod_ops := bump op (total_kernel_prod_ops ks);
  total_kernel_prod_failures := bump failure (total_kernel_prod_failures ks);
  total_kernel_consume_ops := total_kernel_consume_ops ks;
  total_kernel_consume_failures := total_kernel_consume_failures ks;
  total_kernel_consumed := total_kernel_consumed ks;
  initialized_ku := initialized_ku ks; initialized_uk := initialized_uk ks
|}.

Definition count_consume (failure consumed : bool) (ks : kernel_state) : kernel_state := {|
  total_kernel_prod_ops := total_kernel_prod_ops ks;
  total_kernel_prod_failures := total_kernel_prod_failures ks;
  total_kernel_consume_ops := bump true (total_kernel_consume_ops ks);
  total_kernel_consume_failures := bump failure (total_kernel_consume_failures ks);
  total_kernel_consumed := bump consumed (total_kernel_consumed ks);
  initialized_ku := initialized_ku ks; initialized_uk := initialized_uk ks
|}.

Definition set_initialized (ku uk : bool) (ks : kernel_state) : kernel_state := {|
  total_kernel_prod_ops := total_kernel_prod_ops ks;
  total_kernel_prod_failures := total_kernel_prod_failures ks;
  total_kernel_consume_ops := total_kernel_consume_ops ks;
  total_kernel_consume_failures := total_kernel_consume_failures ks;
  total_kernel_consumed := total_kernel_consumed ks;
  initialized_ku := ku; initialized_uk := uk
|}.

(** Userspace: which of its two loops the relay thread is in, its local variables and its two
    counters. *)
Record relay_state := {
  relay_started : bool;
  uk_initialized : bool;
  ku_dequeued_count : Z;
  uk_enqueued_count : Z;
  relay_data : ds_kv
}.

Definition relay_fresh (junk : ds_kv) : relay_state := {|
  relay_started := false; uk_initialized := false; ku_dequeued_count := 0; uk_enqueued_count := 0; relay_data := junk
|}.

(** ** The handlers *)

Section handlers.
Variables (KU UK : Lane) (ku_up uk_up : side -> prog bool) (metrics : Z).

(** The second half of [lsm_inode_create], with the lane up. *)
Definition lsm_produce (insert : Z -> Z -> prog Z) (ks : kernel_state) : prog (Z * kernel_state) :=
  pid_tgid ← call PidTgid;
  let pid := Z.shiftr pid_tgid 32 in
  ts ← call ClockNs;
  result ← DS_METRICS_RECORD_OP metrics DS_METRICS_LKMM_PRODUCER (insert pid ts) id;
  Ret (0, count_prod true (negb (result =? DS_SUCCESS)) ks).

Definition lsm_inode_create (ks : kernel_state) : prog (Z * kernel_state) :=
  let C := ln_bpf (Lane := KU) in
  if negb (initialized_ku ks) then
    result ← c_init (Container := C);
    if negb (result =? DS_SUCCESS) then Ret (0, count_prod false true ks)
    else lsm_produce (c_insert (Container := C)) (set_initialized true (initialized_uk ks) ks)
  else lsm_produce (c_insert (Container := C)) ks.

(** The uprobe handler, once UK is up: its answer and the pair it prints. *)
Definition consume_pop (ks : kernel_state) : prog (Z * option ds_kv * kernel_state) :=
  r ← DS_METRICS_RECORD_OP metrics DS_METRICS_LKMM_CONSUMER
        (c_pop (Container := ln_bpf (Lane := UK)) (Some (mk_kv 0 0))) fst;
  let '(ret, out) := r in
  if ret =? DS_SUCCESS then Ret (ret, out, count_consume false true ks)
  else Ret (ret, None, count_consume true false ks).

Definition bpf_consume (ks : kernel_state) : prog (Z * option ds_kv * kernel_state) :=
  ready ← uk_up BPF;
  if negb ready then Ret (DS_ERROR_INVALID, None, count_consume true false ks)
  else consume_pop ks.

(** The relay loop's body after the initialisation of UK. *)
Definition relay_move (rs : relay_state) : prog relay_state :=
  r ← DS_METRICS_RECORD_OP metrics DS_METRICS_USER_CONSUMER
        (c_pop (Container := ln_user (Lane := KU)) (Some (relay_data rs))) fst;
  let '(ret, out) := r in
  let data := default (relay_data rs) out in
  if ret =? DS_SUCCESS then
    ins_ret ← DS_METRICS_RECORD_OP metrics DS_METRICS_USER_PRODUCER
                (c_insert (Container := ln_user (Lane := UK)) (kv_key data) (kv_value data)) id;
    Ret {| relay_started := relay_started rs; uk_initialized := uk_initialized rs;
           ku_dequeued_count := bump true (ku_dequeued_count rs);
           uk_enqueued_count := bump (ins_ret =? DS_SUCCESS) (uk_enqueued_count rs);
           relay_data := data |}
  else
    Ret {| relay_started := relay_started rs; uk_initialized := uk_initialized rs;
           ku_dequeued_count := ku_dequeued_count rs;
           uk_enqueued_count := uk_enqueued_count rs; relay_data := data |}.

Definition relay_up (rs : relay_state) : relay_state := {|
  relay_started := relay_started rs; uk_initialized := true; ku_dequeued_count := ku_dequeued_count rs;
  uk_enqueued_count := uk_enqueued_count rs; relay_data := relay_data rs
|}.

(** One turn of the loop of [relay_worker]. *)
Definition relay_turn (rs : relay_state) : prog relay_state :=
  if negb (uk_initialized rs) then
    up ← uk_up USER;
    if negb up then
      ret ← c_init (Container := ln_user (Lane := UK));
      if negb (ret =? DS_SUCCESS) then Ret rs else relay_move (relay_up rs)
    else relay_move (relay_up rs)
  else relay_move rs.

Definition relay_start (rs : relay_state) : relay_state := {|
  relay_started := true; uk_initialized := uk_initialized rs;
  ku_dequeued_count := ku_dequeued_count rs; uk_enqueued_count := uk_enqueued_count rs;
  relay_data := relay_data rs
|}.

(** One turn of the loop the thread is in: it first waits for the kernel to initialise KU. *)
Definition relay_poll (rs : relay_state) : prog relay_state :=
  if relay_started rs then relay_turn rs
  else
    up ← ku_up USER;
    Ret (if (up : bool) then relay_start rs else rs).

(** The thread: [polls] is how many turns it takes before it finds [stop_test] set. *)
Fixpoint relay_worker (polls : nat) (rs : relay_state) : prog relay_state :=
  match polls with
  | O => Ret rs
  | S polls' => rs' ← relay_poll rs; relay_worker polls' rs'
  end.

Definition lane_verify (L : Lane) (test : side -> prog bool) : prog Z :=
  up ← test USER;
  if (up : bool) then ln_verify (Lane := L) else Ret DS_SUCCESS.

Definition verify_data_structure : prog Z :=
  ku_result ← lane_verify KU ku_up;
  uk_result ← lane_verify UK uk_up;
  Ret (if (ku_result =? DS_SUCCESS) && (uk_result =? DS_SUCCESS) then DS_SUCCESS
       else DS_ERROR_INVALID).
End handlers.

(** ** The system *)

(** The three handlers of a skeleton. *)
Class Skeleton := {
  sk_create : kernel_state -> prog (Z * kernel_state);
  sk_relay : kernel_state -> relay_state -> prog (kernel_state * relay_state);
  sk_consume : kernel_state -> prog (Z * option ds_kv * kernel_state)
}.

Definition lane_skeleton (KU UK : Lane) (ku_up uk_up : side -> prog bool) (metrics : Z) : Skeleton := {|
  sk_create := lsm_inode_create KU metrics;
  sk_relay ks rs := rs' ← relay_poll KU UK ku_up uk_up metrics rs; Ret (ks, rs');
  sk_consume := bpf_consume UK uk_up metrics
|}.

Inductive activity := InodeCreate | RelayTurn | ConsumeTrigger.

#[export] Instance activity_eq_dec : EqDecision activity.
Proof. solve_decision. Defined.

Record system := mk_system { sys_mem : mem; sys_kernel : kernel_state; sys_relay : relay_state }.

Section system.
Context `{K : Kernel} `{Sk : Skeleton}.

(** One handler runs, with loop budget [b]. [None]: it faulted or outlived its fuel. *)
Definition activity_step (b : nat) (a : activity) (s : system) : option system :=
  let '(mk_system m ks rs) := s in
  match a with
  | InodeCreate =>
      match run (sk_create ks) m b with
      | Done (_, ks') m' _ => Some (mk_system m' ks' rs) | _ => None
      end
  | RelayTurn =>
      match run (sk_relay ks rs) m b with
      | Done (ks', rs') m' _ => Some (mk_system m' ks' rs') | _ => None
      end
  | ConsumeTrigger =>
      match run (sk_consume ks) m b with
      | Done (_, _, ks') m' _ => Some (mk_system m' ks' rs) | _ => None
      end
  end.

Fixpoint activities (b : nat) (acts : list activity) (s : system) : option system :=
  match acts with
  | [] => Some s
  | a :: acts' => s' ← activity_step b a s; activities b acts' s'
  end.

(** [trigger_kernel_consumer_on_exit]: the loop that fires the uprobe until the kernel has
    consumed what the relay enqueued. *)
Fixpoint trigger_loop (b fuel : nat) (attempts max_attempts target : Z) (s : system) : option system :=
  match fuel with
  | O => None
  | S fuel' =>
      if (attempts <? max_attempts) && (total_kernel_consumed (sys_kernel s) <? target) then
        s' ← activity_step b ConsumeTrigger s;
        trigger_loop b fuel' (u64 (attempts + 1)) max_attempts target s'
      else Some s
  end.

Definition trigger_kernel_consumer_on_exit (b : nat) (s : system) : option system :=
  let initial_consumed := total_kernel_consumed (sys_kernel s) in
  let enqueued := uk_enqueued_count (sys_relay s) in
  let target_consumed := u64 (initial_consumed + enqueued) in
  let max_attempts := u64 (enqueued + 1024) in
  if enqueued =? 0 then activity_step b ConsumeTrigger s
  else trigger_loop b (S (Z.to_nat max_attempts)) 0 max_attempts target_consumed s.
End system.
