(* ===== verification/RelaySpec.v ===== *)
(** * What the relay guarantees.

    [abs_activity] is the abstract relay: two lanes as abstract containers, with the histories
    of the operations on each. [simulated] relates it to the memory, the counters and the
    metrics of a running system; every handler, in any order, is a step of the abstract relay
    ([create_ok], [relay_ok], [consume_ok]). The invariants of the abstract relay then give the
    end-to-end properties. *)
From stdpp Require Import base numbers gmap list fin_maps option strings relations.
From S2P Require Import Prelude Machine Logic Api Owned Container Duet Spsc Ring Metrics Relay.

(** ** Events *)

Definition event_result (ev : event) : Z :=
  match ev with EInsert _ r => r | EPop _ r _ => r end.

Definition succeeds (ev : event) : bool := event_result ev =? DS_SUCCESS.

Definition failed (H : list event) : list event := List.filter (fun ev => negb (succeeds ev)) H.

(** The pairs a producer offered, accepted or not. *)
Definition offered (H : list event) : list ds_kv :=
  omap (fun ev => match ev with EInsert e _ => Some e | EPop _ _ _ => None end) H.

(** The pairs of the insertions that were refused. *)
Definition refused (H : list event) : list ds_kv := offered (failed (inserts H)).

#[global] Arguments failed : simpl never.
#[global] Arguments offered : simpl never.
#[global] Arguments refused : simpl never.
#[global] Arguments accepted : simpl never.
#[global] Arguments popped : simpl never.

Lemma offered_app H H' : offered (H ++ H') = offered H ++ offered H'.
Proof. apply omap_app. Qed.

Lemma inserts_app H H' : inserts (H ++ H') = inserts H ++ inserts H'.
Proof. apply List.filter_app. Qed.

Lemma pops_app H H' : pops (H ++ H') = pops H ++ pops H'.
Proof. apply List.filter_app. Qed.

Lemma failed_app H H' : failed (H ++ H') = failed H ++ failed H'.
Proof. apply List.filter_app. Qed.

Lemma offered_inserts H : offered (inserts H) = offered H.
Proof.
  induction H as [|[e r|d r o] H IH]; [done| |done].
  change (e :: offered (inserts H) = e :: offered H). by rewrite IH.
Qed.

(** What was accepted is a part of what was offered, in order. *)
Lemma accepted_offered H : accepted H `sublist_of` offered H.
Proof.
  induction H as [|[e r|d r o] H IH]; [done| |done].
  change (EInsert e r :: H) with ([EInsert e r] ++ H). rewrite accepted_app, offered_app.
  apply sublist_app; [|exact IH]. unfold accepted, offered. cbn.
  destruct (r =? DS_SUCCESS); repeat constructor.
Qed.

(** Every pair offered was either accepted or refused. *)
Lemma accepted_refused H : accepted H ++ refused H ≡ₚ offered H.
Proof.
  induction H as [|[e r|d r o] H IH]; [done| |done].
  change (EInsert e r :: H) with ([EInsert e r] ++ H). unfold refused in *.
  rewrite inserts_app, failed_app, accepted_app, !offered_app, <- IH.
  unfold accepted, offered, failed, succeeds, inserts. cbn.
  destruct (r =? DS_SUCCESS); cbn; [done|]. by rewrite <- Permutation_middle.
Qed.

Lemma nothing_refused H : refused H = [] -> accepted H = offered H.
Proof.
  induction H as [|[e r|d r o] H IH]; [done| |done].
  change (EInsert e r :: H) with ([EInsert e r] ++ H). unfold refused in *.
  rewrite inserts_app, failed_app, accepted_app, !offered_app. intros Hr.
  apply app_eq_nil in Hr as [Hr1 Hr2]. rewrite IH by done. f_equal.
  unfold offered, failed, succeeds, inserts in Hr1. unfold accepted, offered. cbn in *.
  by destruct (r =? DS_SUCCESS).
Qed.

(** ** The abstract relay *)

Record arelay := mk_arelay {
  ar_ku : option (list ds_kv);    (** the contents of the lane, once initialised *)
  ar_uk : option (list ds_kv);
  ar_started : bool;              (** has the relay thread seen KU? *)
  ar_hku : list event;            (** every operation on the lane *)
  ar_huk : list event;
  ar_init_failures : Z;           (** file creations that could not initialise KU *)
  ar_not_ready : Z                (** triggers that found UK not initialised *)
}.

Definition arelay_start : arelay := mk_arelay None None false [] [] 0 0.

(** The contents of a lane; an uninitialised one is empty. *)
Definition lane_contents (o : option (list ds_kv)) : list ds_kv := default [] o.

Definition is_up (o : option (list ds_kv)) : bool := if o then true else false.

(** The pairs a file creation makes: the id of a process and a time of the kernel's clock. *)
Definition genuine `{K : Kernel} (e : ds_kv) : Prop := exists m,
  e = mk_kv (Z.shiftr (fst (kcall PidTgid m)) 32) (fst (kcall ClockNs m)).

Inductive abs_activity `{K : Kernel} (dk du : discipline) : activity -> arelay -> arelay -> Prop :=
  | abs_create_nomem ou st hk hu f n :
      abs_activity dk du InodeCreate (mk_arelay None ou st hk hu f n)
        (mk_arelay None ou st hk hu (f + 1) n)
  | abs_create ok ou st hk hu f n e r lk' :
      genuine e -> abs_step dk (lane_contents ok) (EInsert e r) lk' ->
      abs_activity dk du InodeCreate (mk_arelay ok ou st hk hu f n)
        (mk_arelay (Some lk') ou st (hk ++ [EInsert e r]) hu f n)
  | abs_relay_wait ou hk hu f n :
      abs_activity dk du RelayTurn (mk_arelay None ou false hk hu f n)
        (mk_arelay None ou false hk hu f n)
  | abs_relay_start lk ou hk hu f n :
      abs_activity dk du RelayTurn (mk_arelay (Some lk) ou false hk hu f n)
        (mk_arelay (Some lk) ou true hk hu f n)
  | abs_relay_nomem ok hk hu f n :
      abs_activity dk du RelayTurn (mk_arelay ok None true hk hu f n)
        (mk_arelay ok None true hk hu f n)
  | abs_relay_empty ou hk hu f n d :
      abs_activity dk du RelayTurn (mk_arelay (Some []) ou true hk hu f n)
        (mk_arelay (Some []) (Some (lane_contents ou)) true
           (hk ++ [EPop d DS_ERROR_NOT_FOUND (Some d)]) hu f n)
  | abs_relay_move e lk ou lu' hk hu f n d r :
      abs_step du (lane_contents ou) (EInsert e r) lu' ->
      abs_activity dk du RelayTurn (mk_arelay (Some (e :: lk)) ou true hk hu f n)
        (mk_arelay (Some lk) (Some lu') true
           (hk ++ [EPop d DS_SUCCESS (Some e)]) (hu ++ [EInsert e r]) f n)
  | abs_not_ready ok st hk hu f n :
      abs_activity dk du ConsumeTrigger (mk_arelay ok None st hk hu f n)
        (mk_arelay ok None st hk hu f (n + 1))
  | abs_not_counted ok st hk hu f n :
      (** the stack's skeleton does not count the triggers that come too early *)
      abs_activity dk du ConsumeTrigger (mk_arelay ok None st hk hu f n)
        (mk_arelay ok None st hk hu f n)
  | abs_consume ok lu lu' st hk hu f n d r o :
      abs_step du lu (EPop d r o) lu' ->
      abs_activity dk du ConsumeTrigger (mk_arelay ok (Some lu) st hk hu f n)
        (mk_arelay ok (Some lu') st hk (hu ++ [EPop d r o]) f n).

(** A run of the abstract relay. *)
Inductive abs_activities `{K : Kernel} (dk du : discipline) : list activity -> arelay -> arelay -> Prop :=
  | abs_idle a : abs_activities dk du [] a a
  | abs_busy x xs a1 a2 a3 :
      abs_activity dk du x a1 a2 -> abs_activities dk du xs a2 a3 ->
      abs_activities dk du (x :: xs) a1 a3.

Section invariant.
Context `{K : Kernel}.

(** Each lane's contents are those of its history, KU was offered genuine pairs only, UK exactly
    what left KU, and nothing happens on a lane before it is initialised. *)
Definition arelay_inv (dk du : discipline) (a : arelay) : Prop :=
  abs_steps dk [] (ar_hku a) (lane_contents (ar_ku a)) /\
  abs_steps du [] (ar_huk a) (lane_contents (ar_uk a)) /\
  offered (ar_huk a) = popped (ar_hku a) /\
  Forall genuine (offered (ar_hku a)) /\
  (ar_ku a = None -> ar_hku a = []) /\ (ar_uk a = None -> ar_huk a = []).

Lemma genuine_part l H :
  l ⊆+ accepted H -> Forall genuine (offered H) -> Forall genuine l.
Proof.
  rewrite !Forall_forall. intros Hl Hg e He. apply Hg.
  eapply elem_of_submseteq; [exact He|]. etrans; [exact Hl|].
  apply sublist_submseteq, accepted_offered.
Qed.

Lemma arelay_start_inv dk du : arelay_inv dk du arelay_start.
Proof. repeat split; constructor. Qed.

Lemma abs_activity_inv dk du x a a' :
  abs_activity dk du x a a' -> arelay_inv dk du a -> arelay_inv dk du a'.
Proof.
  intros Hs (Hk & Hu & Ho & Hg & Hnk & Hnu). unfold arelay_inv.
  inversion Hs; subst; cbn in *; rewrite ?popped_app, ?offered_app; try done.
  all: split_and!; try done; try (by eapply abs_steps_snoc);
    try (eapply abs_steps_snoc; [done|constructor]); rewrite ?Ho; try done;
    try (by rewrite app_nil_r); apply Forall_app; by split; repeat constructor.
Qed.

Lemma abs_activities_inv dk du xs a a' :
  abs_activities dk du xs a a' -> arelay_inv dk du a -> arelay_inv dk du a'.
Proof. induction 1; eauto using abs_activity_inv. Qed.
End invariant.

(** ** Lane operations, on either side *)

Definition lane_side (s : side) (L : Lane) : Container :=
  match s with BPF => ln_bpf | USER => ln_user end.

Definition lane_spec (L : Lane) : discipline := c_spec (Container := ln_bpf (Lane := L)).

(** A lane in memory, owning [own]: initialised with contents [l], or still blank. *)
Definition lane_ok (L : Lane) (own : list block) (o : option (list ds_kv)) (m : mem) : Prop :=
  match o with
  | None =>
      own = [c_home (Container := ln_bpf (Lane := L))] /\
      c_ready (Container := ln_bpf (Lane := L)) m /\ c_blank (Container := ln_bpf (Lane := L)) m
  | Some l => c_inv (Container := ln_bpf (Lane := L)) own l m
  end.

Section lane.
Context `{K : Kernel} `{Al : Allocator} `{U : UserOps} (L : Lane) `{!LaneLaws L}.

Lemma lane_side_laws s : @ContainerLaws K (side_build Al s) s (lane_side s L).
Proof. destruct s; apply _. Qed.

(** Both builds run on the same heap. *)
Lemma side_holds s own rest m :
  heap_holds (Al := side_build Al s) own rest m <-> heap_holds own rest m.
Proof. by destruct s. Qed.

Lemma side_inv s own l m :
  c_inv (Container := lane_side s L) own l m <-> c_inv (Container := ln_bpf) own l m.
Proof. destruct s; [done|apply ln_same_inv]. Qed.

Lemma side_spec s : c_spec (Container := lane_side s L) = lane_spec L.
Proof. destruct s; [done|apply ln_same_spec]. Qed.

Lemma lane_frame own o m m' :
  (forall a, in_live own a -> m' !! a = m !! a) -> lane_ok L own o m -> lane_ok L own o m'.
Proof.
  destruct o as [l|]; cbn; intros Hf.
  - by apply (c_frame (ContainerLaws := ln_bpf_laws)).
  - intros (-> & Hr & Hb).
    destruct (c_home_frame (ContainerLaws := ln_bpf_laws) m m' Hf) as [Hr' Hb']. auto.
Qed.

Lemma lane_insert s own rest l m b e :
  heap_holds own rest m -> lane_ok L own (Some l) m ->
  budget s (c_budget (Container := lane_side s L)) b ->
  wpr (c_insert (Container := lane_side s L) (kv_key e) (kv_value e)) m b (fun r m' _ =>
    (forall a, in_live rest a -> m' !! a = m !! a) /\
    exists own', heap_holds own' rest m' /\
      exists l', lane_ok L own' (Some l') m' /\ abs_step (lane_spec L) l (EInsert e r) l').
Proof.
  intros Hh Hi Hb. cbn in *.
  pose proof (lane_side_laws s) as HC. apply (side_holds s) in Hh.
  eapply wpr_mono; [apply (@c_insert_law _ _ _ _ HC own rest l); [done|by apply side_inv|done]|].
  intros r m' b' (Hrest & own' & l' & Hh' & Hi' & Hr). apply side_inv in Hi'.
  rewrite side_spec in Hr. apply side_holds in Hh'. split; [done|]. exists own'. split; [done|]. exists l'. split; [done|].
  destruct Hr as [(-> & Ha & ->)|(Hr & Hf & ->)]; auto.
Qed.

Lemma lane_pop s own rest l m b d :
  heap_holds own rest m -> lane_ok L own (Some l) m ->
  budget s (c_budget (Container := lane_side s L)) b ->
  wpr (c_pop (Container := lane_side s L) (Some d)) m b (fun r m' _ =>
    (forall a, in_live rest a -> m' !! a = m !! a) /\
    exists own', heap_holds own' rest m' /\
      exists l', lane_ok L own' (Some l') m' /\
        match l with
        | [] => r = (DS_ERROR_NOT_FOUND, Some d) /\ l' = []
        | e :: l1 => r = (DS_SUCCESS, Some e) /\ l' = l1
        end).
Proof.
  intros Hh Hi Hb. cbn in *.
  pose proof (lane_side_laws s) as HC. apply (side_holds s) in Hh.
  eapply wpr_mono; [apply (@c_pop_law _ _ _ _ HC own rest l); [done|by apply side_inv|done]|].
  intros r m' b' (Hrest & own' & Hh' & Hr). apply side_holds in Hh'.
  split; [done|]. exists own'. split; [done|].
  destruct l as [|e l']; destruct Hr as [-> Hi']; apply side_inv in Hi'; eauto.
Qed.

Lemma lane_init s own rest m b j :
  heap_holds own rest m -> lane_ok L own None m ->
  budget s (c_init_budget (Container := lane_side s L) + j) b ->
  wpr (c_init (Container := lane_side s L)) m b (fun r m' b' => budget s j b' /\
    (forall a, in_live rest a -> m' !! a = m !! a) /\
    exists own', heap_holds own' rest m' /\
      if r =? DS_SUCCESS then lane_ok L own' (Some []) m' else lane_ok L own' None m').
Proof.
  intros Hh (-> & Hr & Hbl) Hb.
  pose proof (lane_side_laws s) as HC. apply (side_holds s) in Hh.
  assert (Hhome : c_home (Container := lane_side s L) = c_home (Container := ln_bpf))
    by (destruct s; [done|apply ln_same_home]).
  assert (Hrd : c_ready (Container := lane_side s L) = c_ready (Container := ln_bpf))
    by (destruct s; [done|apply ln_same_ready]).
  assert (Hblank : c_blank (Container := lane_side s L) = c_blank (Container := ln_bpf))
    by (destruct s; [done|apply ln_same_blank]).
  eapply wpr_mono; [apply (@c_init_law _ _ _ _ HC rest m b j); [by rewrite Hhome|by rewrite Hrd|done]|].
  intros r m' b' (Hb' & Hrest & Hpost). split; [done|]. split; [done|].
  rewrite Hhome, Hrd, Hblank in Hpost.
  destruct Hpost as [(-> & Hh'%side_holds & Hr' & Hbl')|(-> & own & Hh'%side_holds & Hi%side_inv)]; cbn.
  - exists [c_home (Container := ln_bpf)]. auto.
  - by exists own.
Qed.

Lemma lane_test up `{!TestLaws L up} s own o m b :
  lane_ok L own o m ->
  wpr (up s) m b (fun r m' b' => r = is_up o /\ m' = m /\ b' = b).
Proof.
  destruct o as [l|]; cbn; [apply test_live|]. intros (_ & _ & Hb). by apply test_blank.
Qed.

Lemma lane_verify_ok up `{!TestLaws L up} `{!VerifyLaws L} own o m b :
  lane_ok L own o m ->
  wpr (lane_verify L up) m b (fun r m' b' => r = DS_SUCCESS /\ m' = m /\ b' = b).
Proof.
  intros Ho. unfold lane_verify. eapply wpr_call; [by eapply (lane_test up)|].
  intros r m' b' (-> & -> & ->). destruct o as [l|]; [by apply (verify_law own l)|by apply wpr_ret].
Qed.
End lane.

(** ** Timed operations *)

Section timed.
Context `{K : Kernel} `{Al : Allocator} `{!AllocLaws Al}.
Variable metrics : Z.
Hypothesis metrics_pos : 0 < metrics.
Hypothesis clock_pure : forall m, snd (kcall ClockNs m) = m.

(** [sizeof(struct ds_metrics_store)] *)
Definition metrics_block : block := (metrics, MetricsRing.sizeof * 4).

Lemma ring_in_block cat a : ring_foot metrics cat a -> in_live [metrics_block] a.
Proof.
  unfold ring_foot, metrics_ring, in_block. intros Ha. eapply in_live_elem; [left|].
  unfold in_block, MetricsRing.sizeof, DS_METRICS_RING_SIZE in *. destruct cat; cbn in *; lia.
Qed.

Definition log_sample (cat : ds_metrics_category) (x : ds_kv)
    (logs : ds_metrics_category -> list ds_kv) (c : ds_metrics_category) : list ds_kv :=
  if decide (c = cat) then logs c ++ [x] else logs c.

Lemma timed {A} cat logs own rest m b (op : prog A) (res : A -> Z)
    (Q : A -> list block -> mem -> Prop) :
  heap_holds own (metrics_block :: rest) m -> (forall c, metrics_repr metrics c (logs c) m) ->
  wpr op m b (fun a m' _ => (forall c, in_live (metrics_block :: rest) c -> m' !! c = m !! c) /\
    exists own', heap_holds own' (metrics_block :: rest) m' /\ Q a own' m') ->
  (forall a own m m', (forall c, in_live own c -> m' !! c = m !! c) -> Q a own m -> Q a own m') ->
  wpr (DS_METRICS_RECORD_OP metrics cat op res) m b (fun a m' _ =>
    (forall c, in_live rest c -> m' !! c = m !! c) /\
    (exists own', heap_holds own' (metrics_block :: rest) m' /\ Q a own' m') /\
    exists lat, forall c, metrics_repr metrics c (log_sample cat (sample_of lat (res a)) logs c) m').
Proof.
  intros Hh Hm Hop HQ.
  assert (Hin : forall c a, ring_foot metrics c a -> in_live (metrics_block :: rest) a).
  { intros c a Ha. apply ring_in_block in Ha. change (metrics_block :: rest) with ([metrics_block] ++ rest).
    apply in_live_app. by left. }
  eapply wpr_mono; [apply (record_op metrics metrics_pos cat (logs cat)); [done|done|exact Hop|]|].
  { intros a m' _ (Hf & _) c Hc. by apply Hf, (Hin cat). }
  intros a m' b' (m1 & lat & (Hf & own' & Hh1 & HQ1) & _ & Hu & Hr). cbn in *.
  assert (Hv : heap_holds [metrics_block] (own' ++ rest) m1).
  { eapply heap_holds_view; [|exact Hh1]. cbn. symmetry. apply Permutation_middle. }
  destruct (heap_holds_updates _ _ _ _ _ Hv Hu) as [Hh' Hrest]; [apply ring_in_block|].
  split; [intros c Hc; rewrite Hrest by (apply in_live_app; by right); apply Hf, in_live_cons; by right|].
  split; [exists own'; split|].
  - eapply heap_holds_view; [|exact Hh']. cbn. apply Permutation_middle.
  - eapply HQ; [|exact HQ1]. intros c Hc. apply Hrest, in_live_app. by left.
  - exists lat. intros c. unfold log_sample. destruct (decide (c = cat)) as [->|Hne]; [done|].
    eapply metrics_repr_frame; [|eapply metrics_repr_frame; [|by apply Hm]].
    + intros x Hx. apply Hu. by apply (rings_apart metrics c cat).
    + intros x Hx. by apply Hf, (Hin c).
Qed.
End timed.

(** ** The memory of a relay: two lanes, the metrics, and [rest], which belongs to others *)

Section resources.
Context `{K : Kernel} `{Al : Allocator} `{!AllocLaws Al}.
Variables (metrics : Z) (rest : list block).
Hypothesis metrics_pos : 0 < metrics.
Hypothesis clock_pure : forall m, snd (kcall ClockNs m) = m.

Definition resources (L1 L2 : Lane) (o1 o2 : option (list ds_kv))
    (logs : ds_metrics_category -> list ds_kv) (m : mem) : Prop :=
  (exists own1 own2, heap_holds (own1 ++ own2) (metrics_block metrics :: rest) m /\
     lane_ok L1 own1 o1 m /\ lane_ok L2 own2 o2 m) /\
  forall c, metrics_repr metrics c (logs c) m.

Lemma resources_sym L1 L2 o1 o2 logs m :
  resources L1 L2 o1 o2 logs m -> resources L2 L1 o2 o1 logs m.
Proof.
  intros [(own1 & own2 & Hh & H1 & H2) Hm]. split; [|done]. exists own2, own1.
  split; [|done]. eapply heap_holds_perm; [apply Permutation_app_comm|done].
Qed.

Section first.
Context `{U : UserOps} (L1 L2 : Lane) `{!LaneLaws L1} `{!LaneLaws L2}.

(** The blocks of the first lane, and everybody else's. *)
Lemma first_view own1 own2 m :
  heap_holds (own1 ++ own2) (metrics_block metrics :: rest) m <->
  heap_holds own1 (metrics_block metrics :: own2 ++ rest) m.
Proof.
  assert (Hp : (own1 ++ own2) ++ metrics_block metrics :: rest ≡ₚ
    own1 ++ metrics_block metrics :: own2 ++ rest)
    by (rewrite <- app_assoc; f_equiv; symmetry; apply Permutation_middle).
  split; apply heap_holds_view; [done|by symmetry].
Qed.

Lemma timed_first {A} cat o1 o2 logs m b (op : prog A) (res : A -> Z)
    (Q : A -> option (list ds_kv) -> Prop) :
  resources L1 L2 o1 o2 logs m ->
  (forall own rest', heap_holds own rest' m -> lane_ok L1 own o1 m ->
     wpr op m b (fun a m' _ => (forall c, in_live rest' c -> m' !! c = m !! c) /\
       exists own', heap_holds own' rest' m' /\ exists o1', lane_ok L1 own' o1' m' /\ Q a o1')) ->
  wpr (DS_METRICS_RECORD_OP metrics cat op res) m b (fun a m' _ =>
    (forall c, in_live rest c -> m' !! c = m !! c) /\
    exists o1' lat, Q a o1' /\
      resources L1 L2 o1' o2 (log_sample cat (sample_of lat (res a)) logs) m').
Proof.
  intros [(own1 & own2 & Hh & H1 & H2) Hm] Hop. apply first_view in Hh.
  eapply wpr_mono; [eapply (timed metrics metrics_pos clock_pure cat logs own1 (own2 ++ rest) m b op res
    (fun a own m => exists o1', lane_ok L1 own o1' m /\ Q a o1')); [done|done| |]|].
  { by apply (Hop own1). }
  { intros a own m1 m2 Hf (o & Ho & HQ). exists o. split; [by eapply (lane_frame L1)|done]. }
  intros a m' b' (Hrest & (own1' & Hh' & o1' & Ho & HQ) & lat & Hl).
  split; [intros c Hc; apply Hrest, in_live_app; by right|]. exists o1', lat. split; [done|].
  split; [|done]. exists own1', own2. split; [by apply first_view|]. split; [done|].
  eapply (lane_frame L2); [|done]. intros c Hc. apply Hrest, in_live_app. by left.
Qed.

Lemma insert_first s cat l o2 logs m b e :
  resources L1 L2 (Some l) o2 logs m -> budget s (c_budget (Container := lane_side s L1)) b ->
  wpr (DS_METRICS_RECORD_OP metrics cat
         (c_insert (Container := lane_side s L1) (kv_key e) (kv_value e)) id) m b (fun r m' _ =>
    (forall c, in_live rest c -> m' !! c = m !! c) /\
    exists l' lat, abs_step (lane_spec L1) l (EInsert e r) l' /\
      resources L1 L2 (Some l') o2 (log_sample cat (sample_of lat r) logs) m').
Proof.
  intros Hr Hb. eapply wpr_mono; [apply (timed_first cat (Some l) o2 logs m b _ id
    (fun r o => exists l', o = Some l' /\ abs_step (lane_spec L1) l (EInsert e r) l')); [done|]|].
  - intros own rest' Hh Ho. eapply wpr_mono; [by apply (lane_insert L1 s own rest' l)|].
    intros r m' b' (Hf & own' & Hh' & l' & Ho' & Hs). split; [done|]. exists own'. eauto 6.
  - intros r m' b' (Hf & o & lat & (l' & -> & Hs) & Hr'). split; [done|]. by exists l', lat.
Qed.

Lemma pop_first s cat l o2 logs m b d :
  resources L1 L2 (Some l) o2 logs m -> budget s (c_budget (Container := lane_side s L1)) b ->
  wpr (DS_METRICS_RECORD_OP metrics cat (c_pop (Container := lane_side s L1) (Some d)) fst) m b
    (fun r m' _ => (forall c, in_live rest c -> m' !! c = m !! c) /\
      exists l' lat, resources L1 L2 (Some l') o2 (log_sample cat (sample_of lat r.1) logs) m' /\
        match l with
        | [] => r = (DS_ERROR_NOT_FOUND, Some d) /\ l' = []
        | e :: l1 => r = (DS_SUCCESS, Some e) /\ l' = l1
        end).
Proof.
  intros Hr Hb. eapply wpr_mono; [apply (timed_first cat (Some l) o2 logs m b _ fst
    (fun r o => exists l', o = Some l' /\
        match l with
        | [] => r = (DS_ERROR_NOT_FOUND, Some d) /\ l' = []
        | e :: l1 => r = (DS_SUCCESS, Some e) /\ l' = l1
        end)); [done|]|].
  - intros own rest' Hh Ho. eapply wpr_mono; [by apply (lane_pop L1 s own rest' l)|].
    intros r m' b' (Hf & own' & Hh' & l' & Ho' & Hs). split; [done|]. exists own'. eauto 6.
  - intros r m' b' (Hf & o & lat & (l' & -> & Hs) & Hr'). split; [done|]. by exists l', lat.
Qed.

Lemma init_first s o2 logs m b j :
  resources L1 L2 None o2 logs m -> budget s (c_init_budget (Container := lane_side s L1) + j) b ->
  wpr (c_init (Container := lane_side s L1)) m b (fun r m' b' => budget s j b' /\
    (forall c, in_live rest c -> m' !! c = m !! c) /\
    resources L1 L2 (if r =? DS_SUCCESS then Some [] else None) o2 logs m').
Proof.
  intros [(own1 & own2 & Hh & H1 & H2) Hm] Hb. apply first_view in Hh.
  eapply wpr_mono; [by apply (lane_init L1 s own1 (metrics_block metrics :: own2 ++ rest) m b j)|].
  intros r m' b' (Hb' & Hrest & own' & Hh' & Ho). split; [done|].
  split; [intros c Hc; apply Hrest, in_live_cons; right; apply in_live_app; by right|]. split.
  - exists own', own2. split; [by apply first_view|]. split; [by destruct (r =? DS_SUCCESS)|].
    eapply (lane_frame L2); [|done]. intros c Hc. apply Hrest, in_live_cons. right.
    apply in_live_app. by left.
  - intros c. eapply metrics_repr_frame; [|by apply Hm]. intros a Ha. apply Hrest.
    apply ring_in_block in Ha. apply (in_live_app [metrics_block metrics]). by left.
Qed.

Lemma test_first up `{!TestLaws L1 up} s o1 o2 logs m b :
  resources L1 L2 o1 o2 logs m ->
  wpr (up s) m b (fun r m' b' => r = is_up o1 /\ m' = m /\ b' = b).
Proof. intros [(own1 & own2 & Hh & H1 & H2) Hm]. by eapply (lane_test L1 up). Qed.
End first.
End resources.

(** ** Simulation *)

(** The operations each category of the metrics measures. *)
Definition category_events (c : ds_metrics_category) (a : arelay) : list event :=
  match c with
  | DS_METRICS_LKMM_PRODUCER => inserts (ar_hku a)
  | DS_METRICS_USER_CONSUMER => pops (ar_hku a)
  | DS_METRICS_USER_PRODUCER => inserts (ar_huk a)
  | DS_METRICS_LKMM_CONSUMER => pops (ar_huk a)
  end.

(** The success flags of the samples are the outcomes of the measured operations, in order. *)
Definition measures (logs : ds_metrics_category -> list ds_kv) (a : arelay) : Prop :=
  forall c, map kv_value (logs c) = map (fun ev => Z.b2z (succeeds ev)) (category_events c a).

(** The kernel's global variables after the history of [a]; [iu] is the flag only the stack's
    skeleton uses. *)
Definition kernel_of (a : arelay) (iu : bool) : kernel_state := {|
  total_kernel_prod_ops := u64 (Zlen (inserts (ar_hku a)));
  total_kernel_prod_failures := u64 (Zlen (failed (inserts (ar_hku a))) + ar_init_failures a);
  total_kernel_consume_ops := u64 (Zlen (pops (ar_huk a)) + ar_not_ready a);
  total_kernel_consume_failures := u64 (Zlen (failed (pops (ar_huk a))) + ar_not_ready a);
  total_kernel_consumed := u64 (Zlen (popped (ar_huk a)));
  initialized_ku := is_up (ar_ku a);
  initialized_uk := iu
|}.

(** The relay thread's variables. *)
Definition relay_of (a : arelay) (ui : bool) (data : ds_kv) : relay_state := {|
  relay_started := ar_started a;
  uk_initialized := ui;
  ku_dequeued_count := u64 (Zlen (popped (ar_hku a)));
  uk_enqueued_count := u64 (Zlen (accepted (ar_huk a)));
  relay_data := data
|}.

Lemma bump_u64 (c : bool) n k : k = (if c then n + 1 else n) -> bump c (u64 n) = u64 k.
Proof. intros ->. unfold bump. destruct c; [apply u64_add_l|done]. Qed.

(** Appending one event to a history, seen through each of its projections. *)
Lemma failed_one ev : failed [ev] = if succeeds ev then [] else [ev].
Proof. unfold failed. cbn. by destruct (succeeds ev). Qed.

Lemma accepted_insert e r : accepted [EInsert e r] = if r =? DS_SUCCESS then [e] else [].
Proof. unfold accepted. cbn. by destruct (r =? DS_SUCCESS). Qed.

Lemma inserts_insert e r : inserts [EInsert e r] = [EInsert e r].
Proof. done. Qed.

Lemma inserts_pop d r o : inserts [EPop d r o] = [].
Proof. done. Qed.

Lemma pops_insert e r : pops [EInsert e r] = [].
Proof. done. Qed.

Lemma pops_pop d r o : pops [EPop d r o] = [EPop d r o].
Proof. done. Qed.

Lemma popped_insert e r : popped [EInsert e r] = [].
Proof. done. Qed.

Lemma accepted_pop d r o : accepted [EPop d r o] = [].
Proof. done. Qed.

Lemma offered_insert e r : offered [EInsert e r] = [e].
Proof. done. Qed.

Lemma popped_ok d e : popped [EPop d DS_SUCCESS (Some e)] = [e].
Proof. done. Qed.

Lemma popped_none d : popped [EPop d DS_ERROR_NOT_FOUND (Some d)] = [].
Proof. done. Qed.

#[export] Hint Rewrite inserts_app pops_app failed_app accepted_app popped_app offered_app
  inserts_insert inserts_pop pops_insert pops_pop failed_one accepted_insert popped_insert accepted_pop offered_insert popped_ok popped_none
  @app_nil_r @Zlen_snoc : relay.

Section simulation.
Context `{K : Kernel} `{Al : Allocator} `{!AllocLaws Al} `{U : UserOps}.
Variables (metrics : Z) (rest : list block) (KU UK : Lane).
Context `{!LaneLaws KU} `{!LaneLaws UK}.
Hypothesis metrics_pos : 0 < metrics.
Hypothesis clock_pure : forall m, snd (kcall ClockNs m) = m.
Hypothesis pid_pure : forall m, snd (kcall PidTgid m) = m.

(** [flagged]: the skeleton keeps UK's initialisation in [initialized_uk]. *)
Definition simulated (flagged : bool) (a : arelay) (m : mem) (ks : kernel_state) (rs : relay_state) :
    Prop :=
  (exists logs, resources metrics rest KU UK (ar_ku a) (ar_uk a) logs m /\ measures logs a) /\
  (exists iu, ks = kernel_of a iu /\
     (flagged = true -> iu = is_up (ar_uk a))) /\
  (exists ui data, rs = relay_of a ui data /\ (ui = true -> is_Some (ar_uk a))) /\
  (ar_started a = true -> is_Some (ar_ku a)).

Definition handled (x : activity) (flagged : bool) (a : arelay) (m m' : mem)
    (ks : kernel_state) (rs : relay_state) : Prop :=
  (forall c, in_live rest c -> m' !! c = m !! c) /\
  exists a', abs_activity (lane_spec KU) (lane_spec UK) x a a' /\ simulated flagged a' m' ks rs.

Lemma measures_step logs a a' cat lat ev :
  measures logs a ->
  category_events cat a' = category_events cat a ++ [ev] ->
  (forall c, c <> cat -> category_events c a' = category_events c a) ->
  measures (log_sample cat (sample_of lat (event_result ev)) logs) a'.
Proof.
  intros Hm Hc Ho c. unfold log_sample. case_decide as Hd.
  - subst. rewrite Hc, !map_app, Hm. cbn. unfold succeeds. by destruct (event_result ev =? DS_SUCCESS).
  - by rewrite Hm, Ho.
Qed.

(** Creating a file, once the lane is up. *)
Lemma lsm_produce_ok (flagged : bool) (s : side) (l : list ds_kv) ou st hk hu f n b m ks rs logs :
  let a := mk_arelay (Some l) ou st hk hu f n in
  forall ok, (ok = Some l \/ ok = None /\ l = []) ->
  resources metrics rest KU UK (Some l) ou logs m -> measures logs a ->
  (exists iu, ks = kernel_of a iu /\ (flagged = true -> iu = is_up ou)) ->
  (exists ui data, rs = relay_of a ui data /\ (ui = true -> is_Some ou)) ->
  budget s (c_budget (Container := lane_side s KU)) b ->
  wpr (lsm_produce metrics (c_insert (Container := lane_side s KU)) ks) m b (fun r m' _ =>
    r.1 = 0 /\ handled InodeCreate flagged (mk_arelay ok ou st hk hu f n) m m' r.2 rs).
Proof.
  intros a ok Hok Hr Hm (iu & -> & Hiu) Hrs Hb. unfold lsm_produce.
  assert (Hgen : genuine (mk_kv (Z.shiftr (fst (kcall PidTgid m)) 32) (fst (kcall ClockNs m)))) by (by exists m).
  pose proof (pid_pure m) as Hp. apply wpr_bind, wpr_call_ext.
  destruct (kcall PidTgid m) as [pt m1]. cbn in Hp. subst m1.
  pose proof (clock_pure m) as Hc. apply wpr_bind, wpr_call_ext.
  destruct (kcall ClockNs m) as [ts m1]. cbn in Hc. subst m1. cbn [fst] in Hgen.
  set (e := mk_kv (Z.shiftr pt 32) ts) in *.
  eapply wpr_call; [by apply (insert_first metrics rest metrics_pos clock_pure KU UK s _ l ou logs m b e)|].
  intros r m' b' (Hf & l' & lat & Hs & Hr'). apply wpr_ret. split; [done|]. split; [done|].
  exists (mk_arelay (Some l') ou st (hk ++ [EInsert e r]) hu f n). split.
  { apply abs_create; [done|]. destruct Hok as [-> |[-> ->]]; done. }
  split; [|split; [|split; [|done]]].
  - eexists. split; [exact Hr'|]. apply (measures_step logs a _ _ _ (EInsert e r)); [done|..].
    + cbn. by rewrite inserts_app.
    + intros [] Hne; cbn; try done. by rewrite pops_app, app_nil_r.
  - exists iu. split; [|done]. unfold count_prod, kernel_of. cbn.
    autorewrite with relay. unfold succeeds. cbn. f_equal; [apply u64_add_l|apply bump_u64].
    destruct (r =? DS_SUCCESS); cbn; autorewrite with relay; lia.
  - destruct Hrs as (ui & data & -> & Hui). exists ui, data. split; [|done].
    unfold relay_of. cbn. by autorewrite with relay.
Qed.

Lemma create_ok flagged a m ks rs b :
  simulated flagged a m ks rs ->
  budget BPF (c_init_budget (Container := ln_bpf (Lane := KU)) +
              c_budget (Container := ln_bpf (Lane := KU))) b ->
  wpr (lsm_inode_create KU metrics ks) m b (fun r m' _ =>
    r.1 = 0 /\ handled InodeCreate flagged a m m' r.2 rs).
Proof.
  destruct a as [ok ou st hk hu f n]. intros ((logs & Hr & Hm) & Hk & Hrs & Hst) Hb. cbn in *.
  destruct Hk as (iu & -> & Hiu). unfold lsm_inode_create.
  destruct ok as [l|]; cbn [kernel_of initialized_ku ar_ku is_up negb].
  - apply (lsm_produce_ok flagged BPF l ou st hk hu f n b m _ rs logs (Some l)); eauto.
    intros Hs. specialize (Hb Hs). cbn. lia.
  - eapply wpr_call; [by apply (init_first metrics rest KU UK BPF ou logs m b
      (c_budget (Container := ln_bpf (Lane := KU))))|].
    intros r m1 b1 (Hb1 & Hf & Hr1). destruct (r =? DS_SUCCESS) eqn:Er; cbn [negb].
    + eapply wpr_mono; [apply (lsm_produce_ok flagged BPF [] ou st hk hu f n b1 m1 _ rs logs None); eauto|].
      intros r' m' b' (Hr' & Hf' & Ha). split; [done|]. split; [|done].
      intros c Hc. by rewrite Hf', Hf.
    + apply wpr_ret. split; [done|]. split; [done|].
      exists (mk_arelay None ou st hk hu (f + 1) n). split; [constructor|].
      split; [eexists; split; [exact Hr1|done]|]. split; [|done].
      exists iu. split; [|done]. unfold count_prod, kernel_of. cbn. f_equal.
      rewrite Z.add_assoc. apply u64_add_l.
Qed.

Lemma relay_move_ok flagged lk lu ou hk hu f n iu ui data b m logs :
  lane_contents ou = lu ->
  let a := mk_arelay (Some lk) ou true hk hu f n in
  resources metrics rest KU UK (Some lk) (Some lu) logs m -> measures logs a ->
  (flagged = true -> iu = true) -> 
  wpr (relay_move KU UK metrics (relay_of a ui data)) m b (fun rs' m' _ =>
    handled RelayTurn flagged a m m' (kernel_of a iu) rs').
Proof.
  intros Hou a Hr Hm Hiu. unfold relay_move.
  eapply wpr_call; [by apply (pop_first metrics rest metrics_pos clock_pure KU UK USER _ lk (Some lu) logs m b data)|].
  intros r m1 b1 (Hf & l' & lat & Hr1 & Hcase). cbn in Hcase.
  destruct lk as [|e lk']; destruct Hcase as [-> ->]; cbn [fst snd default].
  - cbn [Z.eqb]. apply wpr_ret. split; [done|].
    exists (mk_arelay (Some []) (Some lu) true (hk ++ [EPop data DS_ERROR_NOT_FOUND (Some data)]) hu f n).
    split; [rewrite <- Hou; constructor|].
    split; [|split; [|split; [|done]]].
    + eexists. split; [exact Hr1|].
      apply (measures_step logs a _ _ _ (EPop data DS_ERROR_NOT_FOUND (Some data))); [done|..].
      * cbn. by autorewrite with relay.
      * intros [] Hne; cbn; by autorewrite with relay.
    + exists iu. split; [|done]. unfold kernel_of. cbn. by autorewrite with relay.
    + exists ui, data. split; [|done]. unfold relay_of. cbn. by autorewrite with relay.
  - cbn [Z.eqb]. apply resources_sym in Hr1.
    eapply wpr_call; [eapply (insert_first metrics rest metrics_pos clock_pure UK KU USER _ lu (Some lk') _ m1 b1 e);
      [exact Hr1|done]|].
    intros r m2 b2 (Hf2 & lu' & lat2 & Hs & Hr2). apply resources_sym in Hr2. apply wpr_ret.
    split; [intros c Hc; by rewrite Hf2, Hf|].
    exists (mk_arelay (Some lk') (Some lu') true (hk ++ [EPop data DS_SUCCESS (Some e)])
              (hu ++ [EInsert e r]) f n).
    split; [constructor; by rewrite Hou|].
    split; [|split; [|split; [|done]]].
    + eexists. split; [exact Hr2|].
      apply (measures_step _ (mk_arelay (Some lk') (Some lu) true
               (hk ++ [EPop data DS_SUCCESS (Some e)]) hu f n) _ _ _ (EInsert e r));
        [apply (measures_step logs a _ _ _ (EPop data DS_SUCCESS (Some e))); [done|..]|..].
      1,3: cbn; by autorewrite with relay.
      all: intros [] Hne; cbn; by autorewrite with relay.
    + exists iu. split; [|done]. unfold kernel_of. cbn. by autorewrite with relay.
    + exists ui, e. split; [|done]. unfold relay_of. cbn. autorewrite with relay.
      f_equal; [apply u64_add_l|apply bump_u64].
      destruct (r =? DS_SUCCESS); by autorewrite with relay.
Qed.

Lemma consume_pop_ok flagged a lu m ks rs b :
  simulated flagged a m ks rs -> ar_uk a = Some lu ->
  budget BPF (c_budget (Container := ln_bpf (Lane := UK))) b ->
  wpr (consume_pop UK metrics ks) m b (fun r m' _ =>
    handled ConsumeTrigger flagged a m m' r.2 rs /\
    match lu with
    | e :: _ => r.1 = (DS_SUCCESS, Some e)
    | [] => r.1 = (DS_ERROR_NOT_FOUND, None)
    end).
Proof.
  destruct a as [ok ou st hk hu f n].
  intros ((logs & Hr & Hm) & (iu & -> & Hiu) & (ui & data & -> & Hui) & Hst) Hou Hb. cbn in Hou.
  subst ou. cbn [ar_ku ar_uk ar_started is_up] in *. unfold consume_pop. apply resources_sym in Hr.
  eapply wpr_call; [by apply (pop_first metrics rest metrics_pos clock_pure UK KU BPF _ lu ok logs m b (mk_kv 0 0))|].
  intros r m1 b1 (Hf & l' & lat & Hr1 & Hcase). apply resources_sym in Hr1.
  set (d := mk_kv 0 0) in *.
  assert (Hev : exists rc o, r = (rc, o) /\ abs_step (lane_spec UK) lu (EPop d rc o) l').
  { destruct lu as [|e l1]; destruct Hcase as [-> ->]; eexists _, _; (split; [done|constructor]). }
  destruct Hev as (rc & o & -> & Hs). cbn [fst] in *.
  set (a' := mk_arelay ok (Some l') st hk (hu ++ [EPop d rc o]) f n).
  assert (Hmm : measures (log_sample DS_METRICS_LKMM_CONSUMER (sample_of lat rc) logs) a').
  { apply (measures_step logs (mk_arelay ok (Some lu) st hk hu f n) _ _ _ (EPop d rc o)); [done|..].
    - cbn. by autorewrite with relay.
    - intros [] Hne; cbn; by autorewrite with relay. }
  assert (Hrel : exists ui' data', relay_of (mk_arelay ok (Some lu) st hk hu f n) ui data =
     relay_of a' ui' data' /\ (ui' = true -> is_Some (ar_uk a')))
    by (exists ui, data; split; [unfold relay_of; cbn; by autorewrite with relay|eauto]).
  destruct lu as [|e l1]; destruct Hcase as [[= -> ->] ->]; cbn [Z.eqb]; apply wpr_ret;
    (split; [|done]); (split; [done|]); exists a';
    (split; [by constructor|split; [eexists; split; [exact Hr1|exact Hmm]|]]); (split; [|by split]);
    (exists iu; split; [|done]); unfold count_consume, kernel_of, bump; cbn; autorewrite with relay;
    unfold succeeds; cbn; autorewrite with relay; rewrite !u64_add_l.
  all: f_equal; f_equal; lia.
Qed.

Section tested.
Variables ku_up uk_up : side -> prog bool.
Context `{!TestLaws KU ku_up} `{!TestLaws UK uk_up}.

Lemma relay_ok a m ks rs b :
  simulated false a m ks rs ->
  wpr (relay_poll KU UK ku_up uk_up metrics rs) m b (fun rs' m' _ => handled RelayTurn false a m m' ks rs').
Proof.
  destruct a as [ok ou st hk hu f n].
  intros ((logs & Hr & Hm) & (iu & -> & Hiu) & (ui & data & -> & Hui) & Hst). cbn in *.
  unfold relay_poll. destruct st; cbn [relay_of relay_started ar_started].
  - destruct (Hst eq_refl) as [lk ->]. unfold relay_turn. cbn [relay_of uk_initialized].
    destruct ui; cbn [negb].
    + destruct (Hui eq_refl) as [lu ->].
      by apply (relay_move_ok false lk lu (Some lu) hk hu f n iu true data b m logs).
    + eapply wpr_call; [apply (test_first metrics rest UK KU uk_up USER ou (Some lk) logs);
        by apply resources_sym|].
      intros r m1 b1 (-> & -> & ->). destruct ou as [lu|].
      * cbn [is_up negb].
        by apply (relay_move_ok false lk lu (Some lu) hk hu f n iu true data b m logs).
      * cbn [is_up negb]. apply resources_sym in Hr.
        eapply wpr_call; [by apply (init_first metrics rest UK KU USER (Some lk) logs m b 0)|].
        intros r m1 b1 (_ & Hf & Hr1). apply resources_sym in Hr1.
        destruct (r =? DS_SUCCESS) eqn:Er; cbn [negb].
        -- eapply wpr_mono; [by apply (relay_move_ok false lk [] None hk hu f n iu true data b1 m1 logs)|].
           intros rs' m' b' (Hf' & Ha). split; [intros c Hc; by rewrite Hf', Hf|done].
        -- apply wpr_ret. split; [done|]. exists (mk_arelay (Some lk) None true hk hu f n).
           split; [constructor|]. split; [by eexists|]. split; [by exists iu|].
           split; [|done]. by exists false, data.
  - eapply wpr_call; [by apply (test_first metrics rest KU UK ku_up USER ok ou logs)|].
    intros r m1 b1 (-> & -> & ->). apply wpr_ret. split; [done|].
    destruct ok as [lk|].
    + cbn [is_up]. exists (mk_arelay (Some lk) ou true hk hu f n).
      split; [constructor|]. split; [by eexists|]. split; [by exists iu|].
      split; [by exists ui, data|eauto].
    + cbn [is_up]. exists (mk_arelay None ou false hk hu f n).
      split; [constructor|]. split; [by eexists|]. split; [by exists iu|].
      split; [by exists ui, data|done].
Qed.

Lemma consume_ok flagged a m ks rs b :
  simulated flagged a m ks rs ->
  budget BPF (c_budget (Container := ln_bpf (Lane := UK))) b ->
  wpr (bpf_consume UK uk_up metrics ks) m b (fun r m' _ =>
    handled ConsumeTrigger flagged a m m' r.2 rs /\
    match lane_contents (ar_uk a) with
    | e :: _ => r.1 = (DS_SUCCESS, Some e)
    | [] => r.1 = (if ar_uk a then DS_ERROR_NOT_FOUND else DS_ERROR_INVALID, None)
    end).
Proof.
  intros Hs Hb. pose proof Hs as ((logs & Hr & Hm) & (iu & -> & Hiu) & (ui & data & -> & Hui) & Hst).
  unfold bpf_consume. apply resources_sym in Hr.
  eapply wpr_call; [by apply (test_first metrics rest UK KU uk_up BPF (ar_uk a) (ar_ku a) logs)|].
  intros r m1 b1 (-> & -> & ->). destruct a as [ok [lu|] st hk hu f n]; cbn [ar_uk is_up negb lane_contents].
  - by apply (consume_pop_ok flagged (mk_arelay ok (Some lu) st hk hu f n) lu).
  - apply wpr_ret. split; [|done]. split; [done|]. exists (mk_arelay ok None st hk hu f (n + 1)).
    split; [constructor|]. apply resources_sym in Hr. split; [by eexists|].
    split; [|split; [by exists ui, data|done]].
    exists iu. split; [|done]. unfold count_consume, kernel_of, bump; cbn.
    rewrite !u64_add_l. f_equal; f_equal; lia.
Qed.
End tested.
End simulation.
