(* ===== verification/RelayConc.v ===== *)
(** * The relay while both sides run: file creations and the relay thread, access by access.

    [RelaySystem] runs one handler after the other. Here the kernel's file creations and the relay
    thread interleave in every way, from the moment KU is up. The thread shares KU with the
    kernel, which the lane allows ([DuetLane]); UK, the allocator that serves its initialisation
    and two of the rings of metrics are the thread's own ([Agents]). The consumer of UK is fired
    only after the thread has been joined and is no part of it. *)
From stdpp Require Import base numbers gmap list fin_maps option strings relations.
From S2P Require Import Prelude Machine Logic Api Owned Conc Container Duet Spsc Ring Metrics Agents Relay RelaySpec.

(** ** Lanes between two threads *)

(** A lane that an inserting kernel side and a popping userspace side may share; the cells [pc]
    and [cc] are memory of their own, and the test of the lane is answered at any moment. *)
Class DuetLane `{K : Kernel} (L : Lane) (up : side -> prog bool) :=
  duet_lane lim own l0 m (pc cc : Z -> Prop) :
    c_inv (Container := ln_bpf) own l0 m -> (forall a, pc a -> ~ cc a) ->
    (forall a, pc a \/ cc a -> ~ in_live own a) ->
    exists U repr, exists DL : DuetLaws U repr repr (lane_spec L) l0 lim ln_bpf ln_user, exists g,
      @du_pcells U = pc /\ @du_ccells U = cc /\ du_producing [] (m, g) /\ du_consuming [] (m, g) /\
      (forall O, triple du_crely du_cguar (du_consuming O) (up USER) (fun r s => r = true /\ du_consuming O s)) /\
      (forall l m', repr l m' -> c_inv (Container := ln_bpf) own l m').

(** A lane whose userspace operations make no calls to the kernel. *)
Class QuietLane (L : Lane) (up : side -> prog bool) := {
  quiet_init : call_free (c_init (Container := ln_user));
  quiet_insert k v : call_free (c_insert (Container := ln_user) k v);
  quiet_up : call_free (up USER)
}.

(** ** Samples and pairs *)

(** The success flags of samples are the outcomes of operations. *)
Definition flags (log : list ds_kv) (evs : list event) : Prop :=
  map kv_value log = map (fun ev => Z.b2z (succeeds ev)) evs.

Lemma flags_snoc log evs lat ev :
  flags log evs -> flags (log ++ [sample_of lat (event_result ev)]) (evs ++ [ev]).
Proof.
  unfold flags. intros H. rewrite !map_app, H. cbn. unfold succeeds. by destruct (event_result ev =? DS_SUCCESS).
Qed.

(** The id of a process and a time of the kernel's clock, read one after the other. *)
Definition stamped `{K : Kernel} (e : ds_kv) : Prop := exists m1 m2,
  e = mk_kv (Z.shiftr (fst (kcall PidTgid m1)) 32) (fst (kcall ClockNs m2)).

(** ** The threads *)

(** Files being created one after the other. *)
Fixpoint file_creations (create : kernel_state -> prog (Z * kernel_state)) (n : nat) (ks : kernel_state)
    : prog kernel_state :=
  match n with
  | O => Ret ks
  | S n' => '(_, ks') ← create ks; file_creations create n' ks'
  end.

Section threads.
Context `{K : Kernel} `{Al : Allocator} `{!AllocLaws Al} `{Uo : UserOps}.
Variables (KU UK : Lane) (ku_up uk_up : side -> prog bool) (metrics : Z).
Hypothesis metrics_pos : 0 < metrics.
Hypothesis clock_pure : forall m, snd (kcall ClockNs m) = m.
Hypothesis pid_pure : forall m, snd (kcall PidTgid m) = m.

Definition ring_block (cat : ds_metrics_category) : block := (metrics_ring metrics cat, MetricsRing.sizeof).

Lemma ring_block_in cat a : ring_foot metrics cat a <-> in_live [ring_block cat] a.
Proof.
  unfold ring_block. rewrite in_live_cons. split; [by left|]. intros [Ha|Ha]; [done|by apply in_live_nil in Ha].
Qed.

Context {U : Duet} {repr : list ds_kv -> mem -> Prop} {l0 : list ds_kv} {lim : nat}.
Context `{DL : !DuetLaws U repr repr (lane_spec KU) l0 lim (ln_bpf (Lane := KU)) (ln_user (Lane := KU))}.
Context `{!forall a, Decision (du_pcells a)} `{!forall a, Decision (du_ccells a)}.

Notation produces := (owns du_pcells du_producing).
Notation consumes := (owns du_ccells du_consuming).

(** *** The kernel *)

(** The counters after the insertions [I]. *)
Definition prod_counts (ks0 : kernel_state) (I : list event) (ks : kernel_state) : Prop :=
  total_kernel_prod_ops ks = u64 (total_kernel_prod_ops ks0 + Zlen I) /\
  total_kernel_prod_failures ks = u64 (total_kernel_prod_failures ks0 + Zlen (failed I)) /\
  initialized_ku ks = true.

(** The kernel's ring of metrics: what was there, and a sample for each insertion. *)
Definition prod_metrics (log0 : list ds_kv) (I : list event) (mm : mem) : Prop :=
  exists log, metrics_repr metrics DS_METRICS_LKMM_PRODUCER (log0 ++ log) mm /\ flags log I.

Definition prod_end ks0 log0 n I (ks : kernel_state) s : Prop :=
  exists I', (length I' = length I + n)%nat /\ prod_counts ks0 I' ks /\
    (Forall stamped (offered I) -> Forall stamped (offered I')) /\ produces I' (prod_metrics log0 I') s.

Lemma producer_stable I X : Stable du_prely (produces I X).
Proof. apply (owns_stable du_prely du_crely). apply (producer_agent (L := DL)). Qed.

Lemma create_conc ks0 log0 I ks : (length I < lim)%nat -> prod_counts ks0 I ks ->
  triple du_prely du_crely (produces I (prod_metrics log0 I)) (lsm_inode_create KU metrics ks)
    (fun r => prod_end ks0 log0 1 I r.2).
Proof.
  intros HI (Hops & Hfail & Hup). unfold lsm_inode_create. rewrite Hup. cbn [negb]. unfold lsm_produce.
  pose proof (producer_agent (L := DL)) as Ag. pose proof producer_stable as Hst.
  eapply triple_bind; [apply _..|by apply (agent_call _ _ _ _ Ag)|]. intros pt. apply triple_pure. intros [m1 ->].
  eapply triple_bind; [apply _..|by apply (agent_call _ _ _ _ Ag)|]. intros ts. apply triple_pure. intros [m2 ->].
  set (e := mk_kv (Z.shiftr (fst (kcall PidTgid m1)) 32) (fst (kcall ClockNs m2))).
  eapply triple_bind; [apply _..| |].
  - apply (timed_part _ _ _ _ Ag metrics clock_pure DS_METRICS_LKMM_PRODUCER _ id I _
      (fun r => I ++ [EInsert e r]) (fun _ => prod_metrics log0 I) (fun r => prod_metrics log0 (I ++ [EInsert e r]))).
    + by apply (agent_inserts (L := DL) I e).
    + intros r lat mm b (log & Hr & Hf). eapply wpr_mono; [by apply (record_ok metrics metrics_pos _ (log0 ++ log))|].
      intros _ mm' b' (_ & Hr' & _). exists (log ++ [sample_of lat r]). rewrite app_assoc. split; [done|].
      by apply (flags_snoc log I lat (EInsert e r)).
  - intros r. apply triple_ret; [apply _|]. intros s Hs. exists (I ++ [EInsert e r]).
    split; [by rewrite length_app|]. split; [|split; [|done]].
    + unfold prod_counts, count_prod. cbn. rewrite Hops, Hfail. split; [|split; [|done]].
      * unfold bump. rewrite u64_add_l, Zlen_snoc. f_equal. lia.
      * rewrite failed_app, failed_one, Zlen_app. unfold succeeds. cbn. apply bump_u64.
        destruct (r =? DS_SUCCESS); cbn; rewrite ?Zlen_nil, ?Zlen_cons, ?Zlen_nil; lia.
    + intros Hg. rewrite offered_app. apply Forall_app. split; [done|]. constructor; [|done]. by exists m1, m2.
Qed.

Lemma creations_conc ks0 log0 n I ks : (length I + n <= lim)%nat -> prod_counts ks0 I ks ->
  triple du_prely du_crely (produces I (prod_metrics log0 I)) (file_creations (lsm_inode_create KU metrics) n ks)
    (fun ks' => prod_end ks0 log0 n I ks').
Proof.
  pose proof producer_stable as Hst.
  revert I ks. induction n as [|n IH]; intros I ks HI Hks; cbn [file_creations].
  - apply triple_ret; [apply _|]. intros s Hs. exists I. split; [lia|]. by split_and!.
  - eapply triple_bind; [apply _..|apply (create_conc ks0 log0 I ks); [lia|done]|]. intros [r ks1].
    apply triple_exists. intros I1. apply triple_pure. intros Hlen. apply triple_pure. intros Hks1.
    apply triple_pure. intros Hg1. eapply triple_weaken; [apply _..|apply (IH I1); [lia|done]|lia|lia|].
    intros ks2 s (I2 & Hlen2 & Hks2 & Hg2 & Hs). exists I2. split; [lia|]. split; [done|]. split; [auto|done].
Qed.
(** *** The relay thread *)

(** Its part of memory, after the pops [O] from KU and the insertions [HU] into UK: UK over a sound
    allocator, and the two rings of metrics. *)
Definition relay_rings : list block := [ring_block DS_METRICS_USER_CONSUMER; ring_block DS_METRICS_USER_PRODUCER].

Definition uk_mem (own : list block) (ou : option (list ds_kv)) (logs : ds_metrics_category -> list ds_kv) (mm : mem)
    : Prop :=
  heap_holds own relay_rings mm /\ lane_ok UK own ou mm /\
  metrics_repr metrics DS_METRICS_USER_CONSUMER (logs DS_METRICS_USER_CONSUMER) mm /\
  metrics_repr metrics DS_METRICS_USER_PRODUCER (logs DS_METRICS_USER_PRODUCER) mm.

Definition uk_history (O HU : list event) (ui : bool) (ou : option (list ds_kv)) (logs : ds_metrics_category -> list ds_kv)
    : Prop :=
  abs_steps (lane_spec UK) [] HU (lane_contents ou) /\ (ui = true -> is_Some ou) /\ pops HU = [] /\
  (ou = None -> HU = []) /\
  flags (logs DS_METRICS_USER_CONSUMER) O /\ flags (logs DS_METRICS_USER_PRODUCER) HU.

Definition uk_state (O HU : list event) (ui : bool) (mm : mem) : Prop :=
  exists own ou logs, uk_mem own ou logs mm /\ uk_history O HU ui ou logs.

(** The variables of the thread; it was offered what left KU. *)
Definition relay_counts (O HU : list event) (rs : relay_state) : Prop :=
  ku_dequeued_count rs = u64 (Zlen (popped O)) /\ uk_enqueued_count rs = u64 (Zlen (accepted HU)) /\
  offered HU = popped O.

Definition relay_at (rs : relay_state) s : Prop :=
  exists O HU, relay_counts O HU rs /\ consumes O (uk_state O HU (uk_initialized rs)) s.

Context `{!LaneLaws UK} `{!TestLaws UK uk_up} `{!QuietLane UK uk_up}.

Lemma consumer_stable O X : Stable du_crely (consumes O X).
Proof. apply (owns_stable du_crely du_prely). apply (consumer_agent (L := DL)). Qed.

Lemma relay_ring_view own cat : cat = DS_METRICS_USER_CONSUMER \/ cat = DS_METRICS_USER_PRODUCER ->
  exists rest, own ++ relay_rings ≡ₚ [ring_block cat] ++ own ++ rest.
Proof.
  unfold relay_rings. intros [-> | ->].
  - exists [ring_block DS_METRICS_USER_PRODUCER]. cbn. by rewrite <- Permutation_middle.
  - exists [ring_block DS_METRICS_USER_CONSUMER]. cbn. by rewrite (perm_swap _ _ []), <- Permutation_middle.
Qed.

(** A sample is recorded. *)
Lemma uk_record cat own ou logs lat r mm b :
  cat = DS_METRICS_USER_CONSUMER \/ cat = DS_METRICS_USER_PRODUCER -> uk_mem own ou logs mm ->
  wpr (ds_metrics_record metrics cat lat r) mm b (fun _ mm' _ =>
    uk_mem own ou (log_sample cat (sample_of lat r) logs) mm').
Proof.
  intros Hcat (Hh & Ho & Hc & Hp). destruct (relay_ring_view own cat Hcat) as [rest Hperm].
  assert (Hr : metrics_repr metrics cat (logs cat) mm) by (destruct Hcat as [-> | ->]; done).
  eapply wpr_mono; [by apply (record_ok metrics metrics_pos cat (logs cat))|].
  intros _ mm' b' (_ & Hr' & Hu).
  assert (Hv : heap_holds [ring_block cat] (own ++ rest) mm) by by eapply heap_holds_view.
  destruct (heap_holds_updates _ _ _ _ _ Hv Hu) as [Hh' Hkeep]; [intros a; apply ring_block_in|].
  assert (Hother : forall c, c <> cat -> metrics_repr metrics c (logs c) mm -> metrics_repr metrics c (logs c) mm').
  { intros c Hne. apply metrics_repr_frame. intros a Ha. apply Hu. by apply (rings_apart metrics c cat). }
  split; [eapply heap_holds_view; [symmetry; exact Hperm|exact Hh']|].
  split; [eapply (lane_frame UK); [|exact Ho]; intros a Ha; apply Hkeep, in_live_app; by left|].
  unfold log_sample. destruct Hcat as [-> | ->]; split; rewrite ?decide_True by done; try done;
    rewrite decide_False by done; by apply Hother.
Qed.

(** What a pop answered, from the history it is in. *)
Lemma popped_event O x r o X s : consumes (O ++ [EPop x r o]) X s ->
  (exists e, r = DS_SUCCESS /\ o = Some e) \/ (r = DS_ERROR_NOT_FOUND /\ o = Some x).
Proof.
  destruct s as [m g]. intros [Hc _]. destruct (du_consuming_ok (DuetLaws := DL) _ _ _ Hc) as [Hi HO].
  destruct (du_legal (DuetLaws := DL) _ _ Hi) as [_ Hs].
  eapply legal_pop; [exact Hs|].
  assert (Hin : EPop x r o ∈ pops (du_hist g)) by (rewrite HO; apply elem_of_app; right; left).
  apply list_elem_of_In in Hin. apply list_elem_of_In. by apply List.filter_In in Hin as [Hin _].
Qed.

(** A timed pop from KU. *)
Lemma relay_pops O HU ui data :
  triple du_crely du_prely (consumes O (uk_state O HU ui))
    (DS_METRICS_RECORD_OP metrics DS_METRICS_USER_CONSUMER (c_pop (Container := ln_user (Lane := KU)) (Some data)) fst)
    (fun r s => let O' := O ++ [EPop data r.1 r.2] in consumes O' (uk_state O' HU ui) s).
Proof.
  pose proof (consumer_agent (L := DL)) as Ag.
  apply (timed_part _ _ _ _ Ag metrics clock_pure _ _ fst O _ (fun r => O ++ [EPop data r.1 r.2])
    (fun _ => uk_state O HU ui) (fun r => uk_state (O ++ [EPop data r.1 r.2]) HU ui)).
  - apply (agent_pops (L := DL)).
  - intros r lat mm b (own & ou & logs & Hmem & Hh & Hui & Hp & Hn & Hc & Hu).
    eapply wpr_mono; [by apply (uk_record DS_METRICS_USER_CONSUMER own ou logs); [left|]|].
    intros ? mm' b' Hmem'. exists own, ou. eexists. split; [exact Hmem'|].
    split; [done|]. split; [done|]. split; [done|]. split; [done|]. split; [|done].
    by apply (flags_snoc _ O lat (EPop data r.1 r.2)).
Qed.

(** A timed insertion into UK, which nobody else looks at. *)
Lemma relay_inserts O HU e :
  triple du_crely du_prely (consumes O (uk_state O HU true))
    (DS_METRICS_RECORD_OP metrics DS_METRICS_USER_PRODUCER
       (c_insert (Container := ln_user (Lane := UK)) (kv_key e) (kv_value e)) id)
    (fun r => consumes O (uk_state O (HU ++ [EInsert e r]) true)).
Proof.
  pose proof (consumer_agent (L := DL)) as Ag.
  apply (timed_part _ _ _ _ Ag metrics clock_pure _ _ id O _ (fun _ => O)
    (fun r mm => exists own lu logs, uk_mem own (Some lu) logs mm /\
       abs_steps (lane_spec UK) [] (HU ++ [EInsert e r]) lu /\ pops HU = [] /\
       flags (logs DS_METRICS_USER_CONSUMER) O /\ flags (logs DS_METRICS_USER_PRODUCER) HU)
    (fun r => uk_state O (HU ++ [EInsert e r]) true)).
  - apply (agent_local _ _ _ _ Ag); [apply quiet_insert|].
    intros mm b (own & ou & logs & (Hh & Ho & Hm1 & Hm2) & Hs & Hui & Hp & Hn & Hc & Hu).
    destruct (Hui eq_refl) as [lu ->]. cbn [lane_contents default] in Hs.
    eapply wpr_mono; [apply (lane_insert UK USER own relay_rings lu mm b e); [done|done|done]|].
    intros r mm' b' (Hkeep & own' & Hh' & lu' & Ho' & Hs'). exists own', lu', logs.
    split; [|split; [by eapply abs_steps_snoc|done]].
    split; [done|]. split; [done|]. unfold relay_rings in Hkeep.
    split; (eapply metrics_repr_frame; [|eassumption]); intros a Ha; apply Hkeep;
      apply ring_block_in in Ha; apply (in_live_app [_] [_]); [by left|by right].
  - intros r lat mm b (own & lu & logs & Hmem & Hs & Hp & Hc & Hu).
    eapply wpr_mono; [by apply (uk_record DS_METRICS_USER_PRODUCER own (Some lu) logs); [right|]|].
    intros ? mm' b' Hmem'. exists own, (Some lu). eexists. split; [exact Hmem'|].
    split; [done|]. split; [by eexists|]. split; [by rewrite pops_app, Hp|]. split; [done|].
    cbn. split; [done|]. by apply (flags_snoc _ HU lat (EInsert e r)).
Qed.

(** A turn of the loop, with UK up. *)
Lemma move_conc O HU rs : relay_counts O HU rs -> uk_initialized rs = true ->
  triple du_crely du_prely (consumes O (uk_state O HU true)) (relay_move KU UK metrics rs) relay_at.
Proof.
  intros (Hd & He & Hoff) Hup. unfold relay_move. pose proof consumer_stable as Hst.
  eapply triple_bind; [apply _..|apply relay_pops|]. intros [r o]. cbn [fst snd].
  eapply triple_known; [by apply popped_event|]. intros [(e & -> & ->)|[-> ->]]; cbn [default Z.eqb DS_SUCCESS DS_ERROR_NOT_FOUND].
  - eapply triple_bind; [apply _..|apply relay_inserts|]. intros ri. apply triple_ret; [apply _|].
    intros s Hs. do 2 eexists. split; [|cbn [uk_initialized]; rewrite Hup; exact Hs].
    unfold relay_counts. cbn [ku_dequeued_count uk_enqueued_count]. rewrite Hd, He.
    autorewrite with relay. rewrite Hoff, ?Zlen_app. split; [|split; [|done]]; apply bump_u64; [done|].
    destruct (ri =? DS_SUCCESS); cbn; [done|]. rewrite Zlen_nil. lia.
  - apply triple_ret; [apply _|]. intros s Hs. do 2 eexists. split; [|cbn [uk_initialized]; rewrite Hup; exact Hs].
    unfold relay_counts. by autorewrite with relay.
Qed.

(** The test of UK, which nobody else initialises. *)
Definition uk_tested (O HU : list event) (up : bool) (mm : mem) : Prop :=
  exists own ou logs, is_up ou = up /\ uk_mem own ou logs mm /\ uk_history O HU up ou logs.

Lemma relay_tests O HU :
  triple du_crely du_prely (consumes O (uk_state O HU false)) (uk_up USER) (fun up => consumes O (uk_tested O HU up)).
Proof.
  apply (agent_local _ _ _ _ (consumer_agent (L := DL))); [apply (quiet_up (QuietLane := QuietLane0))|].
  intros mm b (own & ou & logs & (Hh & Ho & Hm) & Hs & _ & Hr).
  eapply wpr_mono; [by apply (lane_test UK uk_up USER own ou)|]. intros r m' b' (-> & -> & _).
  exists own, ou, logs. split; [done|]. split; [done|]. split; [done|]. split; [by destruct ou|done].
Qed.

(** The initialisation of UK. *)
Lemma relay_inits O HU :
  triple du_crely du_prely (consumes O (uk_tested O HU false)) (c_init (Container := ln_user (Lane := UK)))
    (fun r => consumes O (uk_state O HU (r =? DS_SUCCESS))).
Proof.
  apply (agent_local _ _ _ _ (consumer_agent (L := DL))); [apply (quiet_init (QuietLane := QuietLane0))|].
  intros mm b (own & ou & logs & Hou & (Hh & Ho & Hm1 & Hm2) & Hs & _ & Hp & Hn & Hr). destruct ou; [done|].
  eapply wpr_mono; [by apply (lane_init UK USER own relay_rings mm b 0%nat)|].
  intros r m' b' (_ & Hkeep & own' & Hh' & Ho').
  exists own', (if r =? DS_SUCCESS then Some [] else None), logs. split.
  - split; [done|]. split; [by destruct (r =? DS_SUCCESS)|]. unfold relay_rings in Hkeep.
    split; (eapply metrics_repr_frame; [|eassumption]); intros a Ha; apply Hkeep;
      apply ring_block_in in Ha; apply (in_live_app [_] [_]); [by left|by right].
  - rewrite (Hn eq_refl) in *. unfold uk_history. destruct Hr. destruct (r =? DS_SUCCESS); split_and!; try done; apply abs_done.
Qed.

(** A turn of the loop of the thread. *)
Lemma turn_conc O HU rs : relay_counts O HU rs ->
  triple du_crely du_prely (consumes O (uk_state O HU (uk_initialized rs))) (relay_turn KU UK uk_up metrics rs) relay_at.
Proof.
  intros Hc. unfold relay_turn. pose proof consumer_stable as Hst.
  destruct (uk_initialized rs) eqn:Hup; cbn [negb]; [by apply move_conc|].
  assert (Hmove : triple du_crely du_prely (consumes O (uk_state O HU true)) (relay_move KU UK metrics (relay_up rs)) relay_at)
    by (by apply move_conc).
  eapply triple_bind; [apply _..|apply relay_tests|]. intros [|]; cbn [negb].
  - eapply triple_pre; [exact Hmove|]. intros s [Hat (own & ou & logs & _ & Hh)]. split; [done|]. by exists own, ou, logs.
  - eapply triple_bind; [apply _..|apply relay_inits|]. intros r. cbv beta. destruct (r =? DS_SUCCESS); cbn [negb]; [done|].
    apply triple_ret; [apply _|]. intros s Hs. exists O, HU. by rewrite Hup.
Qed.

(** The lane is up: the first look finds it so. *)
Hypothesis ku_polled : forall O, triple du_crely du_cguar (du_consuming O) (ku_up USER)
  (fun r s => r = true /\ du_consuming O s).

Lemma relay_at_stable rs : Stable du_crely (relay_at rs).
Proof.
  intros s s' (O & HU & Hc & Hs) HR. exists O, HU. split; [done|]. by eapply (consumer_stable O _ s).
Qed.

Lemma polled_conc O X :
  triple du_crely du_prely (consumes O X) (ku_up USER) (fun r s => r = true /\ consumes O X s).
Proof.
  eapply triple_weaken; [apply _..|apply (agent_consumes (L := DL)), ku_polled|lia|lia|].
  intros r s [[-> Hs] HX]. split; [done|by split].
Qed.

Lemma poll_conc rs : triple du_crely du_prely (relay_at rs) (relay_poll KU UK ku_up uk_up metrics rs) relay_at.
Proof.
  pose proof consumer_stable as Hst. unfold relay_poll.
  apply triple_exists. intros O. apply triple_exists. intros HU. apply triple_pure. intros Hc.
  destruct (relay_started rs); [by apply turn_conc|].
  eapply triple_bind; [apply _..|apply polled_conc|]. intros up. apply triple_pure. intros ->.
  apply triple_ret; [apply _|]. intros s Hs. by exists O, HU.
Qed.

Lemma worker_conc polls rs :
  triple du_crely du_prely (relay_at rs) (relay_worker KU UK ku_up uk_up metrics polls rs) relay_at.
Proof.
  pose proof relay_at_stable as Hst. revert rs. induction polls as [|polls IH]; intros rs; cbn [relay_worker].
  - by apply triple_ret; [apply _|].
  - eapply triple_bind; [apply _..|apply poll_conc|done].
Qed.

End threads.

(** ** The two of them *)

#[export] Instance in_live_dec bs a : Decision (in_live bs a).
Proof.
  destruct (decide (Exists (fun x => in_block x.1 x.2 a) bs)) as [He|He]; [left|right].
  - apply Exists_exists in He as ([p n] & Hin & Ha). by exists p, n.
  - intros (p & n & Hin & Ha). apply He, Exists_exists. by exists (p, n).
Defined.

Section interleaved.
Context `{K : Kernel} `{Al : Allocator} `{!AllocLaws Al} `{Uo : UserOps}.
Variables (KU UK : Lane) (ku_up uk_up : side -> prog bool) (metrics : Z).
Context `{!DuetLane KU ku_up} `{!LaneLaws UK} `{!TestLaws UK uk_up} `{!QuietLane UK uk_up}.
Hypothesis metrics_pos : 0 < metrics.
Hypothesis clock_pure : forall m, snd (kcall ClockNs m) = m.
Hypothesis pid_pure : forall m, snd (kcall PidTgid m) = m.
Hypothesis ku_fifo : d_add (lane_spec KU) = fifo_add.
Hypothesis uk_fifo : d_add (lane_spec UK) = fifo_add.

(** What the kernel alone writes, KU apart, and what the relay thread alone writes. *)
Definition kernel_cells (a : Z) : Prop := in_live [ring_block metrics DS_METRICS_LKMM_PRODUCER] a.
Definition relay_cells (own : list block) (a : Z) : Prop :=
  ~ in_live (ring_block metrics DS_METRICS_LKMM_PRODUCER :: own) a.

#[export] Instance relay_cells_dec own a : Decision (relay_cells own a).
Proof. unfold relay_cells. apply _. Defined.

(** Creations can begin, and the relay thread can be started. *)
Record relay_ready (own : list block) (l0 log0 : list ds_kv) (ks0 : kernel_state) (m : mem) : Prop := {
  rr_ku : c_inv (Container := ln_bpf (Lane := KU)) own l0 m;
  rr_up : initialized_ku ks0 = true;
  rr_ops : u64 (total_kernel_prod_ops ks0) = total_kernel_prod_ops ks0;
  rr_failures : u64 (total_kernel_prod_failures ks0) = total_kernel_prod_failures ks0;
  rr_apart a : kernel_cells a -> ~ in_live own a;
  rr_log : metrics_repr metrics DS_METRICS_LKMM_PRODUCER log0 m;
  rr_thread : uk_mem UK metrics [c_home (Container := ln_bpf (Lane := UK))] None (fun _ => []) (part (relay_cells own) m)
}.

(** What [n] creations leave. *)
Definition created (ks0 : kernel_state) (log0 : list ds_kv) (n : nat) (H : list event) (ks : kernel_state) (m : mem) :=
  length (inserts H) = n /\ prod_counts ks0 (inserts H) ks /\ Forall stamped (offered H) /\
  prod_metrics metrics log0 (inserts H) m.

(** What the relay thread leaves: it offered UK what left KU, and when UK took all of it, the pairs
    that went into KU are in UK and KU. *)
Definition relayed (own : list block) (l0 : list ds_kv) (H : list event) (lk : list ds_kv) (rs : relay_state) (m : mem) :=
  exists HU ownu ou logs, relay_counts (pops H) HU rs /\
    uk_mem UK metrics ownu ou logs (part (relay_cells own) m) /\
    uk_history UK (pops H) HU (uk_initialized rs) ou logs /\
    (failed HU = [] -> lane_contents ou ++ lk = l0 ++ accepted H).

Definition relay_outcome own l0 log0 ks0 n (ts : list (thread (kernel_state + relay_state))) m : Prop :=
  exists H lk, c_inv (Container := ln_bpf (Lane := KU)) own lk m /\ abs_steps (lane_spec KU) l0 H lk /\
    popped H ++ lk = l0 ++ accepted H /\
    (forall x b, ts !! 0%nat = Some (Ret x, b) -> exists ks, x = inl ks /\ created ks0 log0 n H ks m) /\
    (forall x b, ts !! 1%nat = Some (Ret x, b) -> exists rs, x = inr rs /\ relayed own l0 H lk rs m).

Definition creating n ks0 : prog (kernel_state + relay_state) :=
  ks ← file_creations (lsm_inode_create KU metrics) n ks0; Ret (inl ks).

Definition relaying polls junk : prog (kernel_state + relay_state) :=
  rs ← relay_worker KU UK ku_up uk_up metrics polls (relay_fresh junk); Ret (inr rs).

(** What [uk_state] says once the thread is done. *)
Lemma relay_ends own l0 H lk rs HU m :
  popped H ++ lk = l0 ++ accepted H -> relay_counts (pops H) HU rs ->
  uk_state UK metrics (pops H) HU (uk_initialized rs) (part (relay_cells own) m) -> relayed own l0 H lk rs m.
Proof.
  intros Hfifo Hc (ownu & ou & logs & Hmem & Hh). exists HU, ownu, ou, logs. split_and!; [done..|].
  intros Hall. destruct Hh as (Hs & _ & Hp & _). apply fifo_history in Hs; [|exact uk_fifo].
  destruct Hc as (_ & _ & Hoff). rewrite popped_pops in Hoff. rewrite <- Hfifo. f_equal.
  assert (Hin : inserts HU = HU).
  { clear -Hp. induction HU as [|[e r|d r o] HU IH]; [done| |done].
    change (EInsert e r :: inserts HU = EInsert e r :: HU). f_equal. by apply IH. }
  rewrite <- popped_pops, Hp in Hs. change (lane_contents ou = accepted HU) in Hs. rewrite Hs, <- Hoff. apply nothing_refused. unfold refused. by rewrite Hin, Hall.
Qed.

Section pool.
Context {U : Duet} {repr : list ds_kv -> mem -> Prop} {l0 : list ds_kv} {n : nat} (own : list block).
Context `{DL : !DuetLaws U repr repr (lane_spec KU) l0 n (ln_bpf (Lane := KU)) (ln_user (Lane := KU))}.
Context `{!forall a, Decision (du_pcells a)} `{!forall a, Decision (du_ccells a)}.
Hypothesis pcells_are : forall a, du_pcells a <-> kernel_cells a.
Hypothesis ccells_are : forall a, du_ccells a <-> relay_cells own a.

Lemma creating_conc ks0 log0 : prod_counts ks0 [] ks0 ->
  triple du_prely du_crely (owns du_pcells du_producing [] (prod_metrics metrics log0 [])) (creating n ks0)
    (fun x s => exists ks, x = inl ks /\ prod_end metrics ks0 log0 n [] ks s).
Proof.
  intros Hks. unfold creating. pose proof (owns_stable du_prely du_crely _ _ (producer_agent (L := DL))) as Hst.
  eapply triple_bind; [apply _..|by apply (creations_conc KU metrics metrics_pos clock_pure pid_pure (DL := DL) ks0 log0 n [])|].
  intros ks. apply triple_exists. intros I. repeat (apply triple_pure; intros ?). apply triple_ret; [apply _|].
  intros s Hs. exists ks. split; [done|]. by exists I.
Qed.

Hypothesis ku_polled : forall O, triple du_crely du_cguar (du_consuming O) (ku_up USER)
  (fun r s => r = true /\ du_consuming O s).

Lemma relaying_conc polls junk :
  triple du_crely du_prely (relay_at UK metrics (relay_fresh junk)) (relaying polls junk)
    (fun x s => exists rs, x = inr rs /\ relay_at UK metrics rs s).
Proof.
  pose proof (relay_at_stable KU UK metrics (DL := DL)) as Hst. unfold relaying.
  eapply triple_bind; [apply _..|by apply (worker_conc KU UK ku_up uk_up metrics metrics_pos clock_pure (DL := DL))|].
  intros rs. apply triple_ret; [apply _|]. intros s Hs. by exists rs.
Qed.

Hypothesis ku_holds : forall l m, repr l m -> c_inv (Container := ln_bpf (Lane := KU)) own l m.

Lemma kernel_log log m : metrics_repr metrics DS_METRICS_LKMM_PRODUCER log (part du_pcells m) <->
  metrics_repr metrics DS_METRICS_LKMM_PRODUCER log m.
Proof.
  assert (Hin : forall a, ring_foot metrics DS_METRICS_LKMM_PRODUCER a -> part du_pcells m !! a = m !! a).
  { intros a Ha. apply part_in, pcells_are. by apply ring_block_in. }
  split; apply metrics_repr_frame; intros a Ha; [symmetry|]; by apply Hin.
Qed.

Lemma interleaved_safe log0 ks0 polls junk m g b0 b1 ts m' :
  relay_ready own l0 log0 ks0 m -> du_producing [] (m, g) -> du_consuming [] (m, g) ->
  rtc pool_step ([(creating n ks0, b0); (relaying polls junk, b1)], m) (ts, m') ->
  (forall i t, ts !! i = Some t -> ~ thread_faults t m' /\ t.1 <> NoFuel) /\ relay_outcome own l0 log0 ks0 n ts m'.
Proof.
  intros [Hku Hup Hops Hfail _ Hlog Huk] Hp Hc Hs.
  assert (Hks : prod_counts ks0 [] ks0) by (unfold prod_counts; cbn; by rewrite !Z.add_0_r).
  assert (Hi0 : du_inv (m, g)) by by eapply (du_producing_ok (DuetLaws := DL)).
  assert (HP : owns du_pcells du_producing [] (prod_metrics metrics log0 []) (m, g)).
  { split; [done|]. exists []. rewrite app_nil_r. split; [by apply kernel_log|done]. }
  assert (HC : relay_at UK metrics (relay_fresh junk) (m, g)).
  { exists [], []. split; [done|]. split; [done|].
    exists [c_home (Container := ln_bpf (Lane := UK))], None, (fun _ => []). cbn.
    rewrite (part_iff du_ccells (relay_cells own)) by done. split; [done|]. split_and!; try done; apply abs_done. }
  destruct (duet_pool (L := DL) _ _ _ _ _ _ _ _ _ _ _ _ (creating_conc ks0 log0 Hks)
    (relaying_conc polls junk) Hi0 HP HC Hs) as (Hok & g' & Hi & Hq0 & Hq1).
  split; [done|]. destruct (du_legal (DuetLaws := DL) _ _ Hi) as [Hr Ha].
  pose proof (fifo_history _ _ _ _ ku_fifo Ha) as Hfifo.
  exists (du_hist g'), (du_items g'). split; [by apply ku_holds|]. split; [done|]. split; [done|]. split.
  - intros x b E. destruct (Hq0 _ _ E) as (ks & -> & I & Hlen & Hc' & Hst & Hat & log & Hl & Hf). exists ks. split; [done|].
    destruct (du_producing_ok (DuetLaws := DL) _ _ _ Hat) as (_ & <- & _). split; [done|]. split; [done|].
    rewrite <- offered_inserts. split; [by apply Hst|]. exists log. by rewrite <- kernel_log.
  - intros x b E. destruct (Hq1 _ _ E) as (rs & -> & O & HU & Hcs & Hat & Hst). exists rs. split; [done|].
    destruct (du_consuming_ok (DuetLaws := DL) _ _ _ Hat) as (_ & <-). eapply relay_ends; [done..|].
    by rewrite <- (part_iff du_ccells (relay_cells own)).
Qed.
End pool.

(** C19. File creations and the relay thread, over a lane KU two threads may share and a lane UK
    the thread has to itself: in every interleaving of their accesses, and with any loop budgets,
    both end and nothing faults; at every moment KU is intact and one legal sequential history
    of KU explains it, in which nothing is lost, duplicated or reordered; the creations, once
    done, added their pairs, their counters and one sample each; the relay thread, once done,
    offered UK exactly what it took out of KU, counted and timed it, and, when UK took all of it,
    UK and KU together hold the pairs that went into KU. *)
Theorem relay_interleaved own l0 log0 ks0 n polls junk m b0 b1 :
  relay_ready own l0 log0 ks0 m ->
  let pool := [(creating n ks0, b0); (relaying polls junk, b1)] in
  Acc (flip pool_step) (pool, m) /\
  forall ts m', rtc pool_step (pool, m) (ts, m') ->
    (forall i t, ts !! i = Some t -> ~ thread_faults t m' /\ t.1 <> NoFuel) /\
    relay_outcome own l0 log0 ks0 n ts m'.
Proof.
  intros Hr pool. split; [apply pool_terminates|]. intros ts m' Hs.
  destruct (duet_lane n own l0 m kernel_cells (relay_cells own) (rr_ku _ _ _ _ _ Hr))
    as (U & repr & DL & g & Epc & Ecc & Hp & Hc & Hpoll & Hrepr).
  - intros a Ha Hna. apply Hna, in_live_cons. left. by apply in_live_cons in Ha as [Ha|Ha%in_live_nil].
  - intros a [Ha|Ha]; [by apply (rr_apart _ _ _ _ _ Hr)|]. intros Ho. apply Ha, in_live_cons. by right.
  - assert (Hd0 : forall a, Decision (du_pcells a)) by (intros a; rewrite Epc; unfold kernel_cells; apply _).
    assert (Hd1 : forall a, Decision (du_ccells a)) by (intros a; rewrite Ecc; apply _).
    eapply (interleaved_safe own (DL := DL)); [by rewrite Epc|by rewrite Ecc|done..].
Qed.
End interleaved.
