(* ===== verification/Setup.v ===== *)
(** * Setting up the userspace allocator ([setup_userspace_allocator] of [src/skeleton_*.c]).

    Every skeleton gives its userspace allocator the arena except the first page. *)
From stdpp Require Import base numbers gmap list fin_maps option.
From S2P Require Import Prelude Machine Logic Api Arena Owned Allocators Metrics RelaySpec.

(** [arena] is [skel->arena], [max_entries] the number of pages of the arena map. *)
Definition setup_userspace_allocator (sym arena max_entries : Z) : prog Z :=
  page_size ← call PageSize;
  if page_size <=? 0 then Ret (-1) else
  let arena_bytes := u64 (max_entries * page_size) in
  if arena_bytes <=? page_size then Ret (-1) else
  let alloc_base := u64 (arena + page_size) in
  let alloc_bytes := u64 (arena_bytes - page_size) in
  User.bpf_arena_userspace_set_range sym alloc_base alloc_bytes;;
  Ret 0.

Section fresh_range.
Context `{K : Kernel}.
Variable k : Z.
Hypothesis page_log : 4 <= k <= 30.

Notation ps := (2 ^ k).

Lemma ps_bounds : 16 <= ps <= 2 ^ 30.
Proof. split; [change 16 with (2 ^ 4)|]; apply Z.pow_le_mono_r; lia. Qed.

Lemma aligned_up x : x mod ps = 0 -> x + ps - 1 - (x + ps - 1) mod ps = x.
Proof.
  intros Hx. pose proof ps_bounds. replace (x + ps - 1) with (ps - 1 + x) by lia.
  rewrite Z.add_mod, Hx, Z.add_0_r, Z.mod_mod, (Z.mod_small (ps - 1)) by lia. lia.
Qed.

(** The first block of a fresh range ends at the count word of its first page. *)
Lemma first_alloc sym spin base n sz m b :
  (0 < spin)%nat ->
  user_range_ok sym base n k -> user_state sym base n k m 0 0 0 0 ->
  0 < sz < ps - 8 -> sz mod 8 = 0 ->
  wpr (User.bpf_arena_alloc_user sym spin sz) m b (fun p _ _ => p = base + ps - 8 - sz).
Proof.
  intros Hspin Hok Hst Hsz H8. pose proof Hok as (_ & Hb & _ & Hn & Hlim & Hsym). pose proof ps_bounds.
  assert (1 * ps <= n * ps) by (apply Z.mul_le_mono_nonneg_r; lia).
  pose proof Hst as [E1 E2 E3 E4 E5 E6 E7 Hmap].
  assert (Hps8 : ps mod 8 = 0)
    by (replace k with (k - 3 + 3) by lia; rewrite Z.pow_add_r by lia; apply Z_mod_mult).
  assert (is_Some (m !! (base + ps - 8))).
  { replace (base + ps - 8) with (base + 8 * (ps / 8 - 1)) by (Z.div_mod_to_equations; lia).
    apply Hmap; Z.div_mod_to_equations; lia. }
  unfold User.bpf_arena_alloc_user. prun. pif_false. prun. pif_false. prun. pif_false.
  rewrite round_up_8, (u64_id (ps - 8)) by lia. pif_false. prun.
  eapply lock_acquire_ok; [done..|]. unfold User.user_page_for. prun.
  rewrite ?Z.eqb_refl. prun. rewrite (u64_id (n * ps - 0)) by lia. pif_false. prun.
  unfold User.user_carve, User.lock_release. rewrite !Z.add_0_r. prun.
  rewrite (u64_id (ps - 8)), u64_id by lia. lia.
Qed.
End fresh_range.

Section setup.
Context `{K : Kernel}.
Variables sym arena npages k : Z.
Hypothesis page_log : 4 <= k <= 30.
Hypothesis arena_aligned : 0 < arena /\ arena mod 2 ^ k = 0.
Hypothesis arena_fits : arena + npages * 2 ^ k < 2 ^ 64 - 2 ^ k.
Hypothesis statics_apart : sym + 56 <= arena \/ arena + npages * 2 ^ k <= sym.


Notation ps := (2 ^ k).

Definition setup_ready (m : mem) : Prop :=
  kcall PageSize m = (ps, m) /\ mapped_words sym 56 m /\
  m !! User.bpf_arena_userspace_lock sym = Some 0 /\
  forall a, arena <= a -> a + 8 <= arena + npages * ps -> a mod 8 = 0 -> is_Some (m !! a).

(** An arena of one page is refused. *)
Lemma setup_refused m b :
  npages = 1 -> kcall PageSize m = (ps, m) ->
  wpr (setup_userspace_allocator sym arena npages) m b (fun r m' b' => r = -1 /\ b' = b /\ m' = m).
Proof.
  intros -> Hps. pose proof (ps_bounds k page_log).
  unfold setup_userspace_allocator. apply wpr_bind, wpr_call_ext. rewrite Hps.
  replace (ps <=? 0) with false by lia. rewrite (u64_id (1 * ps)) by lia.
  replace (1 * ps <=? ps) with true by lia. by apply wpr_ret.
Qed.

(** A larger one without its first page becomes the range. *)
Lemma setup_state m b :
  3 <= npages -> setup_ready m ->
  wpr (setup_userspace_allocator sym arena npages) m b (fun r m' b' => r = 0 /\ b' = b /\
    unchanged_outside (in_block sym 56) m m' /\
    user_range_ok sym (arena + ps) (npages - 1) k /\
    user_state sym (arena + ps) (npages - 1) k m' 0 0 0 0).
Proof.
  intros Hn (Hps & Hms & Hlock & Hmap). pose proof (ps_bounds k page_log).
  assert (3 * ps <= npages * ps) by (apply Z.mul_le_mono_nonneg_r; lia).
  unfold setup_userspace_allocator. apply wpr_bind, wpr_call_ext. rewrite Hps.
  replace (ps <=? 0) with false by lia. rewrite (u64_id (npages * ps)) by lia.
  replace (npages * ps <=? ps) with false by lia. rewrite !u64_id by lia.
  assert (Hmod : (arena + ps) mod ps = 0)
    by (rewrite Z.add_mod, (proj2 arena_aligned), Z_mod_same_full by lia; done).
  eapply wpr_call; [apply (set_range_state sym (arena + ps) (npages * ps - ps) k); try done; try lia|].
  { intros a H1 H2 H3. apply Hmap; lia. }
  intros _ m' b' (-> & Hu & Hok & Hst). apply wpr_ret. split; [done|]. split; [done|].
  rewrite aligned_up in Hok, Hst by done.
  replace (npages * ps - ps - (arena + ps - (arena + ps))) with ((npages - 1) * ps) in Hok, Hst by lia.
  rewrite Z.div_mul in Hok, Hst by lia. done.
Qed.

(** What [setup_userspace_allocator] answers, and what it leaves: it changes its statics at most. *)
Definition setup_answer (npages : Z) : Z := if npages =? 1 then -1 else 0.

Lemma setup_answers m b :
  npages = 1 \/ 3 <= npages -> setup_ready m ->
  exists m1 b1, run (setup_userspace_allocator sym arena npages) m b = Done (setup_answer npages) m1 b1 /\
    unchanged_outside (in_block sym 56) m m1 /\
    (3 <= npages -> user_state sym (arena + ps) (npages - 1) k m1 0 0 0 0).
Proof.
  intros [H1|H3] Hready; unfold setup_answer.
  - pose proof (setup_refused m b H1 ltac:(apply Hready)) as H.
    apply wpr_done in H as (r & m1 & b1 & E & -> & -> & ->). exists m, b. rewrite E.
    replace (npages =? 1) with true by lia. split; [done|]. split; [done|lia].
  - pose proof (setup_state m b H3 Hready) as H.
    apply wpr_done in H as (r & m1 & b1 & E & -> & -> & Hu & _ & Hst). exists m1, b. rewrite E.
    by replace (npages =? 1) with false by lia.
Qed.
End setup.

(** C29. Setting up with pages of 4096 bytes: the allocator is sound for every block outside the
    arena's pages from the second on. But the program's global variables in the arena start at
    [skel->arena], and the metrics among them fill 128 pages: the first block the userspace side
    allocates lies inside them. *)
Theorem setup_hands_out_metrics `{K : Kernel} sym spin arena npages metrics sz m b :
  (0 < spin)%nat -> 0 < arena -> arena mod 4096 = 0 -> arena + npages * 4096 < 2 ^ 64 - 4096 ->
  sym + 56 <= arena \/ arena + npages * 4096 <= sym -> 3 <= npages -> setup_ready sym arena npages 12 m ->
  arena <= metrics <= arena + 4096 -> 0 < sz < 4088 -> sz mod 8 = 0 ->
  wpr (setup_userspace_allocator sym arena npages) m b (fun r m1 b1 => r = 0 /\
    (forall live, (forall a, in_live live a -> ~ in_block sym 56 a /\
                     ~ in_block (arena + 4096) ((npages - 1) * 4096) a) ->
       user_heap_ok sym (arena + 4096) (npages - 1) 12 live m1) /\
    wpr (User.bpf_arena_alloc_user sym spin sz) m1 b1 (fun p _ _ =>
      p = arena + 2 * 4096 - 8 - sz /\
      forall a, in_block p sz a -> in_live [metrics_block metrics] a)).
Proof.
  intros Hspin Ha Hmod Hfit Hsym Hn Hready Hg Hsz H8.
  eapply wpr_mono; [apply (setup_state sym arena npages 12 ltac:(lia) (conj Ha Hmod) Hfit Hsym); done|].
  intros r m1 b1 (-> & -> & Hu & Hok & Hst). split; [done|]. split.
  { intros live Hlive. by apply fresh_range_ok. }
  eapply wpr_mono; [eapply (first_alloc 12); done|].
  cbn. intros p _ _ ->. split; [lia|]. intros a Hin. apply in_live_cons. left.
  unfold in_block, MetricsRing.sizeof, DS_METRICS_RING_SIZE in *. lia.
Qed.
