(* ===== verification/RelaySystem.v ===== *)
(** * The relay as a system: any order of file creations, relay turns and consumer triggers.

    [SkeletonLaws] is what a skeleton's three handlers promise; [activities_ok] is the forward
    simulation for whole runs, and the theorems read off the abstract relay: between the lanes
    nothing is lost but the pairs that UK refuses, and nothing is reordered; the counters and the
    metrics agree with what happened, and the shutdown procedure drains the lane to the kernel. *)
From stdpp Require Import base numbers gmap list fin_maps option strings relations.
From S2P Require Import Prelude Machine Logic Api Owned Container Duet Spsc Ring Metrics Relay RelaySpec.

(** What a skeleton promises: with loop budget [b], each handler is a step of the abstract
    relay. *)
Class SkeletonLaws `{K : Kernel} `{Al : Allocator} (Sk : Skeleton) (flagged : bool) (metrics : Z)
    (rest : list block) (KU UK : Lane) (b : nat) := {
  sk_create_law a m ks rs :
    simulated metrics rest KU UK flagged a m ks rs ->
    wpr (sk_create ks) m b (fun r m' _ =>
      r.1 = 0 /\ handled metrics rest KU UK InodeCreate flagged a m m' r.2 rs);
  sk_relay_law a m ks rs :
    simulated metrics rest KU UK flagged a m ks rs ->
    wpr (sk_relay ks rs) m b (fun r m' _ =>
      handled metrics rest KU UK RelayTurn flagged a m m' r.1 r.2);
  sk_consume_law a m ks rs :
    simulated metrics rest KU UK flagged a m ks rs ->
    wpr (sk_consume ks) m b (fun r m' _ =>
      handled metrics rest KU UK ConsumeTrigger flagged a m m' r.2 rs)
}.

(** The skeletons made of two lanes. *)
Section lanes.
Context `{K : Kernel} `{Al : Allocator} `{!AllocLaws Al} `{U : UserOps}.
Context (metrics : Z) (rest : list block) (KU UK : Lane) `{!LaneLaws KU} `{!LaneLaws UK} (b : nat).
Context (ku_up uk_up : side -> prog bool) `{!TestLaws KU ku_up} `{!TestLaws UK uk_up}.
Hypothesis metrics_pos : 0 < metrics.
Hypothesis clock_pure : forall m, snd (kcall ClockNs m) = m.
Hypothesis pid_pure : forall m, snd (kcall PidTgid m) = m.
Hypothesis create_budget :
  (c_init_budget (Container := ln_bpf (Lane := KU)) + c_budget (Container := ln_bpf (Lane := KU)) <= b)%nat.
Hypothesis consume_budget : (c_budget (Container := ln_bpf (Lane := UK)) <= b)%nat.

#[export] Instance lane_skeleton_laws :
  SkeletonLaws (lane_skeleton KU UK ku_up uk_up metrics) false metrics rest KU UK b.
Proof.
  split; intros a m ks rs Hs; cbn [sk_create sk_relay sk_consume lane_skeleton].
  - by apply (create_ok metrics rest KU UK); [..|intros _].
  - eapply wpr_call; [by apply (relay_ok metrics rest KU UK)|]. intros rs' m' b' H. by apply wpr_ret.
  - eapply wpr_mono; [apply (consume_ok metrics rest KU UK metrics_pos clock_pure uk_up false a); [done|by intros _]|].
    by intros r m' b' [H _].
Qed.
End lanes.

Section system.
Context `{K : Kernel} `{Al : Allocator} `{Sk : Skeleton}.
Context {flagged : bool} {metrics : Z} {rest : list block} {KU UK : Lane} {b : nat}.
Context `{SL : !SkeletonLaws Sk flagged metrics rest KU UK b}.

Notation dk := (lane_spec KU).
Notation du := (lane_spec UK).

Definition sys_simulated (a : arelay) (s : system) : Prop :=
  simulated metrics rest KU UK flagged a (sys_mem s) (sys_kernel s) (sys_relay s).

Lemma activity_ok x a s :
  sys_simulated a s ->
  exists s' a', activity_step b x s = Some s' /\ abs_activity dk du x a a' /\ sys_simulated a' s' /\
    forall c, in_live rest c -> sys_mem s' !! c = sys_mem s !! c.
Proof.
  destruct s as [m ks rs]. intros Hs. destruct x; cbn.
  - pose proof (sk_create_law a m ks rs Hs) as H.
    apply wpr_done in H as ([ret ks'] & m' & b' & -> & _ & Hf & a' & Ha & Hs').
    by exists (mk_system m' ks' rs), a'.
  - pose proof (sk_relay_law a m ks rs Hs) as H.
    apply wpr_done in H as ([ks' rs'] & m' & b' & -> & Hf & a' & Ha & Hs').
    by exists (mk_system m' ks' rs'), a'.
  - pose proof (sk_consume_law a m ks rs Hs) as H.
    apply wpr_done in H as ([[ret out] ks'] & m' & b' & -> & Hf & a' & Ha & Hs').
    by exists (mk_system m' ks' rs), a'.
Qed.

Lemma activities_ok xs a s :
  sys_simulated a s ->
  exists s' a', activities b xs s = Some s' /\ abs_activities dk du xs a a' /\ sys_simulated a' s' /\
    forall c, in_live rest c -> sys_mem s' !! c = sys_mem s !! c.
Proof.
  revert a s. induction xs as [|x xs IH]; intros a s Hs.
  { exists s, a. split; [done|]. split; [constructor|done]. }
  destruct (activity_ok x a s Hs) as (s1 & a1 & E1 & Ha1 & Hs1 & Hf1).
  destruct (IH a1 s1 Hs1) as (s2 & a2 & E2 & Ha2 & Hs2 & Hf2).
  exists s2, a2. cbn. rewrite E1. cbn. split; [done|]. split; [by econstructor|].
  split; [done|]. intros c Hc. by rewrite Hf2, Hf1.
Qed.

(** ** Shutdown *)

Lemma consume_step a lu s :
  sys_simulated a s -> ar_uk a = Some lu ->
  exists s' a', activity_step b ConsumeTrigger s = Some s' /\ sys_simulated a' s' /\
    abs_activity dk du ConsumeTrigger a a' /\
    ar_ku a' = ar_ku a /\ ar_hku a' = ar_hku a /\ sys_relay s' = sys_relay s /\
    ar_uk a' = Some (tail lu) /\ popped (ar_huk a') = popped (ar_huk a) ++ take 1 lu /\
    accepted (ar_huk a') = accepted (ar_huk a).
Proof.
  intros Hs Hu. destruct (activity_ok ConsumeTrigger a s Hs) as (s' & a' & E & Ha & Hs' & Hf).
  exists s', a'. split; [done|]. split; [done|]. split; [done|].
  assert (Hrel : sys_relay s' = sys_relay s).
  { destruct s as [m ks rs]. cbn in E. destruct (run (sk_consume ks) m b) as [[[? ?] ?] ? ?| |];
      [by injection E as <-|done|done]. }
  inversion Ha as [| | | | | | | | |ok lu0 lu' st hk hu f n d r o Hstep]; subst; [done|done|].
  cbn in Hu. injection Hu as ->. cbn.
  inversion Hstep; subst; cbn; autorewrite with relay; repeat split; try done.
Qed.

Lemma trigger_loop_ok fuel a lu s attempts max_attempts target :
  sys_simulated a s -> ar_uk a = Some lu ->
  (Z.to_nat (max_attempts - attempts) < fuel)%nat -> 0 <= attempts <= max_attempts ->
  max_attempts < 2 ^ 64 -> Zlen lu <= max_attempts - attempts ->
  Zlen (popped (ar_huk a)) + Zlen lu <= target < 2 ^ 64 ->
  exists s' a', trigger_loop b fuel attempts max_attempts target s = Some s' /\
    sys_simulated a' s' /\ ar_uk a' = Some [] /\
    popped (ar_huk a') = popped (ar_huk a) ++ lu /\ accepted (ar_huk a') = accepted (ar_huk a) /\
    ar_ku a' = ar_ku a /\ ar_hku a' = ar_hku a.
Proof.
  revert a lu s attempts. induction fuel as [|fuel IH]; intros a lu s attempts Hs Hu Hfuel Ha Hmax Hlu Ht;
    [lia|]. cbn [trigger_loop].
  assert (Hcons : total_kernel_consumed (sys_kernel s) = Zlen (popped (ar_huk a))).
  { destruct Hs as (_ & (iu & E & _) & _). rewrite E. cbn. apply u64_id.
    pose proof (Zlen_nonneg (popped (ar_huk a))). pose proof (Zlen_nonneg lu). lia. }
  rewrite Hcons. pose proof (Zlen_nonneg lu).
  destruct (Z.ltb_spec attempts max_attempts) as [Hlt|Hge];
    destruct (Z.ltb_spec (Zlen (popped (ar_huk a))) target) as [Hlt'|Hge']; cbn [andb].
  2,3,4: exists s, a; destruct lu as [|x lu]; [|pose proof (Zlen_nonneg lu); rewrite Zlen_cons in *; lia];
    rewrite app_nil_r; done.
  destruct (consume_step a lu s Hs Hu) as (s1 & a1 & E1 & Hs1 & _ & Hk1 & Hhk1 & _ & Hu1 & Hp1 & Ha1).
  rewrite E1. cbn. rewrite u64_id by lia.
  assert (Hlen : Zlen (popped (ar_huk a1)) + Zlen (tail lu) = Zlen (popped (ar_huk a)) + Zlen lu /\
    Zlen (tail lu) = Z.max 0 (Zlen lu - 1)).
  { rewrite Hp1, Zlen_app. destruct lu as [|x lu]; cbn [tail firstn]; rewrite ?Zlen_cons, ?take_0, ?Zlen_nil in *;
      [lia|]. pose proof (Zlen_nonneg lu). lia. }
  destruct (IH a1 (tail lu) s1 (attempts + 1)) as (s2 & a2 & E2 & Hs2 & Hu2 & Hp2 & Ha2 & Hk2 & Hhk2);
    try done; try lia.
  exists s2, a2. split; [done|]. split; [done|]. split; [done|].
  split; [rewrite Hp2, Hp1, <- app_assoc; by destruct lu|]. split_and!; congruence.
Qed.

Lemma either_history d H l :
  (d_add d = fifo_add \/ d_add d = lifo_add) -> abs_steps d [] H l -> accepted H ≡ₚ popped H ++ l.
Proof.
  intros [Hadd|Hadd] Hs; symmetry;
    [by rewrite (fifo_history _ _ _ _ Hadd Hs)|by rewrite (lifo_history _ _ _ _ Hadd Hs)].
Qed.

Lemma empty_history_start d H l :
  (d_add d = fifo_add \/ d_add d = lifo_add) -> abs_steps d [] H l ->
  Zlen (popped H) + Zlen l = Zlen (accepted H).
Proof.
  intros Hadd Hs. rewrite <- Zlen_app. unfold Zlen. by rewrite (Permutation_length (either_history d H l Hadd Hs)).
Qed.

(** The shutdown procedure, in any state the relay can be in: it ends, and the kernel has taken
    everything that was in UK, in order. *)
Lemma exit_drains a s :
  sys_simulated a s -> arelay_inv dk du a ->
  (d_add du = fifo_add \/ d_add du = lifo_add) ->
  Zlen (popped (ar_huk a)) + Zlen (accepted (ar_huk a)) + 1024 < 2 ^ 64 ->
  exists s' a', trigger_kernel_consumer_on_exit b s = Some s' /\ sys_simulated a' s' /\
    lane_contents (ar_uk a') = [] /\
    popped (ar_huk a') = popped (ar_huk a) ++ lane_contents (ar_uk a) /\
    total_kernel_consumed (sys_kernel s') = Zlen (accepted (ar_huk a)) /\
    ar_ku a' = ar_ku a.
Proof.
  intros Hs Hinv Hadd Hfit. pose proof Hinv as (_ & Hsteps & _ & _ & _ & Hnone).
  pose proof (empty_history_start _ _ _ Hadd Hsteps) as Hlen.
  pose proof (Zlen_nonneg (popped (ar_huk a))) as Hp0.
  pose proof (Zlen_nonneg (accepted (ar_huk a))) as Ha0.
  pose proof (Zlen_nonneg (lane_contents (ar_uk a))) as Hl0.
  assert (Hkern : forall a s, sys_simulated a s -> Zlen (popped (ar_huk a)) < 2 ^ 64 ->
            total_kernel_consumed (sys_kernel s) = Zlen (popped (ar_huk a))).
  { intros a1 s1 (_ & (iu & E & _) & _) Hlt. rewrite E. cbn. apply u64_id.
    pose proof (Zlen_nonneg (popped (ar_huk a1))). lia. }
  assert (Henq : uk_enqueued_count (sys_relay s) = Zlen (accepted (ar_huk a))).
  { destruct Hs as (_ & _ & (ui & data & E & _) & _). rewrite E. cbn. apply u64_id. lia. }
  unfold trigger_kernel_consumer_on_exit. rewrite Henq, (Hkern a s) by (done || lia).
  rewrite !u64_id by lia.
  destruct (ar_uk a) as [lu|] eqn:Hu;
    [change (lane_contents (Some lu)) with lu in *|change (lane_contents None) with (@nil ds_kv) in *].
  - destruct (Z.eqb_spec (Zlen (accepted (ar_huk a))) 0) as [E0|E0].
    + destruct (consume_step a lu s Hs Hu) as (s1 & a1 & E1 & Hs1 & _ & Hk1 & _ & _ & Hu1 & Hp1 & _).
      assert (lu = []) as -> by (destruct lu; [done|rewrite Zlen_cons in *; pose proof (Zlen_nonneg lu); lia]).
      assert (Hp2 : popped (ar_huk a1) = popped (ar_huk a)) by (rewrite Hp1; apply app_nil_r).
      rewrite Zlen_nil in *. exists s1, a1. rewrite Hu1. split_and!; try done.
      rewrite (Hkern a1 s1), Hp2; (done || rewrite ?Hp2; lia).
    + destruct (trigger_loop_ok (S (Z.to_nat (Zlen (accepted (ar_huk a)) + 1024))) a lu s 0
        (Zlen (accepted (ar_huk a)) + 1024) (Zlen (popped (ar_huk a)) + Zlen (accepted (ar_huk a))))
        as (s1 & a1 & E1 & Hs1 & Hu1 & Hp1 & Ha1 & Hk1 & _); try done; try lia.
      exists s1, a1. rewrite Hu1. split_and!; try done.
      assert (Hz : Zlen (popped (ar_huk a1)) = Zlen (accepted (ar_huk a)))
        by (rewrite Hp1, Zlen_app; lia).
      rewrite (Hkern a1 s1); [done|done|lia].
  - rewrite Hnone in * by done. cbn [Z.eqb].
    destruct (activity_ok ConsumeTrigger a s Hs) as (s1 & a1 & E1 & Ha1 & Hs1 & _).
    inversion Ha1; subst; cbn in *; subst; try done.
    all: assert (hu = []) as -> by (by apply Hnone).
    all: exists s1; eexists; split_and!; try done; by rewrite (Hkern _ s1 Hs1).
Qed.

(** ** From boot *)

(** The arena as the loader leaves it: both headers blank, the metrics zero, and the blocks of
    the program separate. *)
Definition relay_booted (m : mem) : Prop :=
  heap_holds [c_home (Container := ln_bpf (Lane := KU)); c_home (Container := ln_bpf (Lane := UK))]
    (metrics_block metrics :: rest) m /\
  lane_ok KU [c_home (Container := ln_bpf (Lane := KU))] None m /\
  lane_ok UK [c_home (Container := ln_bpf (Lane := UK))] None m /\
  store_zeroed metrics m.

Definition boot (junk : ds_kv) (m : mem) : system := mk_system m kernel_start (relay_fresh junk).

Lemma boot_simulated junk m : relay_booted m -> sys_simulated arelay_start (boot junk m).
Proof.
  intros (Hh & HK & HU & Hz). split; [|split; [|split; [|done]]].
  - exists (fun _ => []). split; [split|by intros []].
    + by exists [c_home (Container := ln_bpf (Lane := KU))], [c_home (Container := ln_bpf (Lane := UK))].
    + intros c. by apply zeroed_repr.
  - by exists false.
  - by exists false, junk.
Qed.

(** Each activity adds at most one event to either history. *)
Lemma history_bound xs a a' :
  abs_activities dk du xs a a' ->
  Zlen (ar_hku a') <= Zlen (ar_hku a) + Zlen xs /\ Zlen (ar_huk a') <= Zlen (ar_huk a) + Zlen xs.
Proof.
  induction 1 as [a|x xs a1 a2 a3 Hx _ IH]; [rewrite Zlen_nil; lia|]. rewrite Zlen_cons.
  assert (Zlen (ar_hku a2) <= Zlen (ar_hku a1) + 1 /\ Zlen (ar_huk a2) <= Zlen (ar_huk a1) + 1)
    by (destruct Hx; cbn; rewrite ?Zlen_snoc; lia).
  lia.
Qed.

Lemma accepted_bound H : Zlen (accepted H) <= Zlen H.
Proof.
  induction H as [|ev H IH]; [done|]. rewrite accepted_cons, Zlen_app, Zlen_cons.
  assert (Zlen (accepted [ev]) <= 1); [|lia].
  destruct ev as [e r|]; [rewrite accepted_insert; by destruct (r =? DS_SUCCESS)|done].
Qed.

Lemma popped_bound H : Zlen (popped H) <= Zlen H.
Proof.
  induction H as [|ev H IH]; [done|]. rewrite popped_cons, Zlen_app, Zlen_cons.
  assert (Zlen (popped [ev]) <= 1); [|lia].
  destruct ev as [|d r o]; [done|]. unfold popped. cbn. by destruct (r =? DS_SUCCESS), o.
Qed.

Lemma relay_run junk m acts :
  relay_booted m ->
  exists s' a', activities b acts (boot junk m) = Some s' /\
    abs_activities dk du acts arelay_start a' /\ sys_simulated a' s' /\ arelay_inv dk du a' /\
    (forall c, in_live rest c -> sys_mem s' !! c = m !! c).
Proof.
  intros Hm. destruct (activities_ok acts _ _ (boot_simulated junk m Hm))
    as (s' & a' & E & Ha & Hs & Hf).
  exists s', a'. split; [done|]. split; [done|]. split; [done|]. split; [|done].
  eapply abs_activities_inv; [done|apply arelay_start_inv].
Qed.

(** C16. From a freshly loaded arena, the handlers of the kernel and the turns of the relay
    thread can run in any order and number: none faults or runs out of fuel, and the system is
    always in the state of an abstract relay that made the same steps. Every statistic of the
    kernel program and of the relay thread is the corresponding count over the histories, the
    metrics hold one sample per operation with its outcome, and memory outside the lanes and the
    metrics is untouched. *)
Theorem relay_refines junk m acts :
  relay_booted m ->
  exists s' a', activities b acts (boot junk m) = Some s' /\
    abs_activities dk du acts arelay_start a' /\ sys_simulated a' s' /\
    (forall c, in_live rest c -> sys_mem s' !! c = m !! c).
Proof.
  intros Hm. destruct (relay_run junk m acts Hm) as (s' & a' & E & Ha & Hs & _ & Hf).
  by exists s', a'.
Qed.

(** The relay thread's two counters tell how many pairs UK refused. *)
Lemma refused_counted a s :
  sys_simulated a s -> offered (ar_huk a) = popped (ar_hku a) ->
  u64 (ku_dequeued_count (sys_relay s) - uk_enqueued_count (sys_relay s)) = u64 (Zlen (refused (ar_huk a))).
Proof.
  intros (_ & _ & (ui & data & -> & _) & _) Ho. cbn [relay_of ku_dequeued_count uk_enqueued_count].
  rewrite <- Ho. unfold Zlen. rewrite <- (Permutation_length (accepted_refused (ar_huk a))), length_app.
  unfold u64. rewrite <- Zminus_mod. f_equal. lia.
Qed.

(** C17. Over first-in first-out lanes the relay drops exactly the pairs that UK refuses, and
    neither duplicates nor reorders. What KU accepted from the kernel is what left KU followed by
    what is in it; UK was offered what left KU, in order; what UK accepted is what the kernel
    consumed followed by what is in UK. So each produced pair is consumed, in UK, in KU or was
    refused by UK, in exactly one place; those not refused are in the order of their production;
    and the difference of the relay thread's two counters is the number of pairs that were dropped
    (modulo [2 ^ 64], as the counters are). When UK refused nothing, the produced pairs are those
    consumed, those in UK and those in KU, in this order. *)
Theorem relay_conserves junk m acts :
  d_add dk = fifo_add -> d_add du = fifo_add -> relay_booted m ->
  exists s' a', activities b acts (boot junk m) = Some s' /\ sys_simulated a' s' /\
    let lk := lane_contents (ar_ku a') in let lu := lane_contents (ar_uk a') in
    let dropped := refused (ar_huk a') in
    accepted (ar_hku a') = popped (ar_hku a') ++ lk /\
    offered (ar_huk a') = popped (ar_hku a') /\
    accepted (ar_huk a') = popped (ar_huk a') ++ lu /\
    accepted (ar_hku a') ≡ₚ popped (ar_huk a') ++ lu ++ lk ++ dropped /\
    popped (ar_huk a') ++ lu ++ lk `sublist_of` accepted (ar_hku a') /\
    Forall genuine (accepted (ar_hku a')) /\
    u64 (ku_dequeued_count (sys_relay s') - uk_enqueued_count (sys_relay s')) = u64 (Zlen dropped) /\
    (dropped = [] -> accepted (ar_hku a') = popped (ar_huk a') ++ lu ++ lk).
Proof.
  intros Hdk Hdu Hm.
  destruct (relay_run junk m acts Hm) as (s' & a' & E & _ & Hs & (Hk & Hu & Ho & Hg & _) & _).
  exists s', a'. split; [done|]. split; [done|]. intros lk lu dropped.
  pose proof (fifo_history _ _ _ _ Hdk Hk) as Fk. pose proof (fifo_history _ _ _ _ Hdu Hu) as Fu.
  cbn [app] in Fk, Fu. pose proof (accepted_refused (ar_huk a')) as Hr. pose proof (accepted_offered (ar_huk a')) as Hsub.
  pose proof (nothing_refused (ar_huk a')) as Hnone. rewrite Ho, <- Fu in Hr, Hsub, Hnone.
  split_and!; [done|done|done| | | |by apply refused_counted|].
  - rewrite <- Fk, <- Hr, <- !app_assoc. apply Permutation_app_head, Permutation_app_head, Permutation_app_comm.
  - rewrite <- Fk, app_assoc. by apply sublist_app.
  - by apply (genuine_part _ (ar_hku a')).
  - intros Hf. by rewrite <- Fk, <- (Hnone Hf), <- app_assoc.
Qed.

(** C18. Over lanes of either discipline the same account up to order, so for the stack and the
    append buffer too: each produced pair is consumed, in UK, in KU or was refused by UK, and in
    one place only. Nothing but the refused pairs is lost, their number is the difference of the
    relay thread's counters, and when UK refused nothing every produced pair is consumed or in a
    lane. *)
Theorem relay_conserves_any junk m acts :
  (d_add dk = fifo_add \/ d_add dk = lifo_add) -> (d_add du = fifo_add \/ d_add du = lifo_add) ->
  relay_booted m ->
  exists s' a', activities b acts (boot junk m) = Some s' /\ sys_simulated a' s' /\
    let lk := lane_contents (ar_ku a') in let lu := lane_contents (ar_uk a') in
    let dropped := refused (ar_huk a') in
    accepted (ar_hku a') ≡ₚ popped (ar_hku a') ++ lk /\
    offered (ar_huk a') = popped (ar_hku a') /\
    accepted (ar_huk a') ≡ₚ popped (ar_huk a') ++ lu /\
    accepted (ar_hku a') ≡ₚ popped (ar_huk a') ++ lu ++ lk ++ dropped /\
    Forall genuine (accepted (ar_hku a')) /\
    u64 (ku_dequeued_count (sys_relay s') - uk_enqueued_count (sys_relay s')) = u64 (Zlen dropped) /\
    (dropped = [] -> accepted (ar_hku a') ≡ₚ popped (ar_huk a') ++ lu ++ lk).
Proof.
  intros Hdk Hdu Hm.
  destruct (relay_run junk m acts Hm) as (s' & a' & E & _ & Hs & (Hk & Hu & Ho & Hg & _) & _).
  exists s', a'. split; [done|]. split; [done|]. intros lk lu dropped.
  pose proof (either_history _ _ _ Hdk Hk) as Fk. pose proof (either_history _ _ _ Hdu Hu) as Fu.
  pose proof (accepted_refused (ar_huk a')) as Hr. rewrite Ho, Fu in Hr.
  assert (Hall : accepted (ar_hku a') ≡ₚ popped (ar_huk a') ++ lu ++ lk ++ dropped).
  { rewrite Fk, <- Hr, <- !app_assoc. apply Permutation_app_head, Permutation_app_head, Permutation_app_comm. }
  split_and!; [done|done|done|done| |by apply refused_counted|].
  - by apply (genuine_part _ (ar_hku a')).
  - intros Hf. by rewrite Hall, Hf, app_nil_r.
Qed.

(** C20. Whatever ran before, the shutdown procedure ends, and when it does the kernel has
    consumed every pair the relay thread enqueued: UK is empty and the kernel's count of consumed
    pairs is the thread's count of enqueued ones. *)
Theorem relay_shutdown junk m acts :
  (d_add du = fifo_add \/ d_add du = lifo_add) -> Zlen acts < 2 ^ 62 -> relay_booted m ->
  exists s1 s2 a1 a2, activities b acts (boot junk m) = Some s1 /\ sys_simulated a1 s1 /\
    trigger_kernel_consumer_on_exit b s1 = Some s2 /\ sys_simulated a2 s2 /\
    lane_contents (ar_uk a2) = [] /\
    popped (ar_huk a2) = popped (ar_huk a1) ++ lane_contents (ar_uk a1) /\
    total_kernel_consumed (sys_kernel s2) = uk_enqueued_count (sys_relay s1) /\
    ar_ku a2 = ar_ku a1.
Proof.
  intros Hdu Hn Hm.
  destruct (relay_run junk m acts Hm) as (s1 & a1 & E & Ha & Hs & Hinv & _).
  pose proof (history_bound _ _ _ Ha) as [_ Hb]. cbn in Hb. rewrite Zlen_nil in Hb.
  pose proof (accepted_bound (ar_huk a1)). pose proof (popped_bound (ar_huk a1)).
  pose proof (Zlen_nonneg (accepted (ar_huk a1))).
  destruct (exit_drains a1 s1 Hs Hinv Hdu) as (s2 & a2 & E2 & Hs2 & Hl & Hp & Ht & Hk); [lia|].
  exists s1, s2, a1, a2. split_and!; try done. rewrite Ht.
  destruct Hs as (_ & _ & (ui & data & Er & _) & _). rewrite Er. cbn. symmetry. apply u64_id. lia.
Qed.
(** The check of the lanes in any state the relay can be in, if their verifiers raise no false
    alarm: it passes and changes nothing. *)
Lemma lanes_verified ku_up uk_up `{!TestLaws KU ku_up} `{!TestLaws UK uk_up} `{!VerifyLaws KU}
    `{!VerifyLaws UK} a s b' :
  sys_simulated a s ->
  run (verify_data_structure KU UK ku_up uk_up) (sys_mem s) b' = Done DS_SUCCESS (sys_mem s) b'.
Proof.
  intros ((logs & ((own1 & own2 & _ & HK & HU) & _) & _) & _).
  assert (H : wpr (verify_data_structure KU UK ku_up uk_up) (sys_mem s) b'
    (fun r m' b2 => r = DS_SUCCESS /\ m' = sys_mem s /\ b2 = b')).
  { unfold verify_data_structure. eapply wpr_call; [by eapply (lane_verify_ok KU ku_up)|].
    intros r m1 b1 (-> & -> & ->). eapply wpr_call; [by eapply (lane_verify_ok UK uk_up)|].
    intros r m1 b1 (-> & -> & ->). by apply wpr_ret. }
  by apply wpr_done in H as (r & m2 & b2 & -> & -> & -> & ->).
Qed.

End system.
