(* ===== verification/Skeletons.v ===== *)
(** * The eight skeleton programs ([src/skeleton_*.bpf.c], [src/skeleton_*.c]).

    Each section makes the lanes of one skeleton and instantiates the relay's handlers with
    them, with the capacities the skeleton uses. The stack's skeleton differs (its lanes have no
    pointer to test, so it keeps two flags) and has handlers of its own. Every skeleton
    satisfies [SkeletonLaws], so the theorems of [RelaySystem] hold for all eight. *)
From stdpp Require Import base numbers gmap list fin_maps option strings.
From S2P Require Import Prelude Machine Logic Api Arena Owned Container Linked Ring Vyukhov.
From S2P Require Import FollySpsc CkRing IoUring Kcov CkStack CkFifo MsQueue Metrics.
From S2P Require Import Relay RelaySpec RelaySystem.

(** [!p], the tests the skeletons make on their lanes' pointers. *)
Definition pointer_set (o : order) (cell : Z) : prog bool :=
  p ← load o cell; Ret (negb (p =? 0)).

Lemma pointer_set_ok `{K : Kernel} o cell p m b :
  m !! cell = Some p ->
  wpr (pointer_set o cell) m b (fun r m' b' => r = negb (p =? 0) /\ m' = m /\ b' = b).
Proof. intros E. unfold pointer_set. by prun. Qed.

(** [a && b] on two pointers, the second read only if the first is set. *)
Definition pointers_set (c1 c2 : Z) : prog bool :=
  a ← pointer_set Plain c1;
  if (a : bool) then pointer_set Plain c2 else Ret false.

Lemma pointers_set_ok `{K : Kernel} c1 c2 p1 p2 m b :
  m !! c1 = Some p1 -> m !! c2 = Some p2 ->
  wpr (pointers_set c1 c2) m b (fun r m' b' =>
    r = negb (p1 =? 0) && negb (p2 =? 0) /\ m' = m /\ b' = b).
Proof.
  intros E1 E2. unfold pointers_set. eapply wpr_call; [by apply pointer_set_ok|].
  intros r m' b' (-> & -> & ->). destruct (p1 =? 0); cbn [negb andb]; [by apply wpr_ret|].
  by apply pointer_set_ok.
Qed.

(** The ends of a live FIFO and of a live queue are positive addresses. *)
Lemma fifo_ends `{K : Kernel} `{Al : Allocator} `{!AllocLaws Al} h gs hd ns l m :
  fifo_repr h gs hd ns l m ->
  exists t, m !! Fifo.head h = Some hd /\ m !! Fifo.tail h = Some t /\ 0 < hd /\ 0 < t.
Proof.
  intros [E1 E2 _ (g & ks & k0 & _ & _ & Hc) _ _ _]. exists (List.last (hd :: ns) 0).
  assert (Hpos : forall a, a ∈ hd :: ns -> 0 < a).
  { intros a Ha. eapply chain_pos; [exact Hc|]. apply elem_of_app. by right. }
  split_and!; [done|done|apply Hpos; left|apply Hpos; by apply last_elem].
Qed.

Lemma msq_ends `{K : Kernel} `{Al : Allocator} `{!AllocLaws Al} `{!FreeLaws Al} q ns l lag m :
  msq_repr q ns l lag m ->
  exists hd t, m !! Msqueue.head q = Some hd /\ m !! Msqueue.tail q = Some t /\ 0 < hd /\ 0 < t.
Proof.
  intros [E1 (pre & t & suf & -> & E2 & _) _ (k0 & Hc) _ _]. eexists _, t.
  assert (Hpos : forall a, a ∈ pre ++ t :: suf -> 0 < a).
  { intros a Ha. eapply chain_pos; [exact Hc|done]. }
  split_and!; [done|done|apply Hpos; destruct pre; left|apply Hpos, elem_of_app; right; left].
Qed.

(** The laws of a lane from those of its two containers. *)
Ltac lane_laws bpf user := split; try done; cbn; [by apply bpf|by apply user].

(** The tests of a lane: a zero pointer when blank, a positive one when live. *)
Ltac live_pointer :=
  eapply wpr_mono; [by eapply pointer_set_ok|intros ? ? ? (-> & -> & ->); split; [lia|done]].

(** ** Vyukhov's queue: both lanes hold 128 pairs *)

Section vyukhov.
Context `{Al : Allocator} `{U : UserOps}.

Definition VYUKHOV_QUEUE_CAPACITY_LOG : Z := 7.

Definition vyukhov_lane (head : Z) : Lane := {|
  ln_bpf := vyukhov_container BPF head VYUKHOV_QUEUE_CAPACITY_LOG;
  ln_user := vyukhov_container (Al := user_build Al) USER head VYUKHOV_QUEUE_CAPACITY_LOG;
  ln_verify := ds_vyukhov_verify_c head
|}.

Definition vyukhov_up (head : Z) (s : side) : prog bool := pointer_set Plain (VyukhovHead.buffer head).

Definition vyukhov_lsm_inode_create (ku metrics : Z) : kernel_state -> prog (Z * kernel_state) :=
  lsm_inode_create (vyukhov_lane ku) metrics.

Definition bpf_vyukhov_consume (uk metrics : Z) : kernel_state -> prog (Z * option ds_kv * kernel_state) :=
  bpf_consume (vyukhov_lane uk) (vyukhov_up uk) metrics.

Definition vyukhov_relay_worker (ku uk metrics : Z) : nat -> relay_state -> prog relay_state :=
  relay_worker (vyukhov_lane ku) (vyukhov_lane uk) (vyukhov_up ku) (vyukhov_up uk) metrics.

Definition vyukhov_verify_data_structure (ku uk : Z) : prog Z :=
  verify_data_structure (vyukhov_lane ku) (vyukhov_lane uk) (vyukhov_up ku) (vyukhov_up uk).

Definition vyukhov_skeleton (ku uk metrics : Z) : Skeleton :=
  lane_skeleton (vyukhov_lane ku) (vyukhov_lane uk) (vyukhov_up ku) (vyukhov_up uk) metrics.

Definition vyukhov_trigger_on_exit `{K : Kernel} (ku uk metrics : Z) : nat -> system -> option system :=
  trigger_kernel_consumer_on_exit (Sk := vyukhov_skeleton ku uk metrics).

Context `{K : Kernel} `{!AllocLaws Al} `{!AllocLaws (user_build Al)}.
Hypothesis alloc_ready : forall live sz m, heap_ok live m -> alloc_pre sz m.
Variable head : Z.
Hypothesis head_pos : 0 < head.

#[export] Instance vyukhov_lane_laws : LaneLaws (vyukhov_lane head).
Proof.
  assert (1 <= VYUKHOV_QUEUE_CAPACITY_LOG <= 27) by (unfold VYUKHOV_QUEUE_CAPACITY_LOG; lia).
  lane_laws vyukhov_container_laws (vyukhov_container_laws (Al := user_build Al)).
Qed.

#[export] Instance vyukhov_test_laws : TestLaws (vyukhov_lane head) (vyukhov_up head).
Proof.
  split; cbn.
  - intros s m b E. by apply (pointer_set_ok _ _ 0).
  - intros s own l m b (buf & (_ & Hp & _) & _ & D & Hr). destruct Hr. live_pointer.
Qed.
End vyukhov.

(** ** Folly's ring: records for 128 pairs, 127 of them usable *)

Section folly_spsc.
Context `{Al : Allocator} `{U : UserOps}.

Definition FOLLY_SPSC_QUEUE_SIZE : Z := 128.

Definition folly_spsc_lane (head : Z) : Lane := {|
  ln_bpf := spsc_container BPF head FOLLY_SPSC_QUEUE_SIZE;
  ln_user := spsc_container (Al := user_build Al) USER head FOLLY_SPSC_QUEUE_SIZE;
  ln_verify := ds_spsc_verify_c head
|}.

Definition folly_spsc_up (head : Z) (s : side) : prog bool :=
  pointer_set Plain (SpscHead.records head).

Definition folly_spsc_lsm_inode_create (ku metrics : Z) : kernel_state -> prog (Z * kernel_state) :=
  lsm_inode_create (folly_spsc_lane ku) metrics.

Definition bpf_folly_spsc_consume (uk metrics : Z) : kernel_state -> prog (Z * option ds_kv * kernel_state) :=
  bpf_consume (folly_spsc_lane uk) (folly_spsc_up uk) metrics.

Definition folly_spsc_relay_worker (ku uk metrics : Z) : nat -> relay_state -> prog relay_state :=
  relay_worker (folly_spsc_lane ku) (folly_spsc_lane uk) (folly_spsc_up ku) (folly_spsc_up uk) metrics.

Definition folly_spsc_verify_data_structure (ku uk : Z) : prog Z :=
  verify_data_structure (folly_spsc_lane ku) (folly_spsc_lane uk) (folly_spsc_up ku) (folly_spsc_up uk).

Definition folly_spsc_skeleton (ku uk metrics : Z) : Skeleton :=
  lane_skeleton (folly_spsc_lane ku) (folly_spsc_lane uk) (folly_spsc_up ku) (folly_spsc_up uk) metrics.

Definition folly_spsc_trigger_on_exit `{K : Kernel} (ku uk metrics : Z) : nat -> system -> option system :=
  trigger_kernel_consumer_on_exit (Sk := folly_spsc_skeleton ku uk metrics).

Context `{K : Kernel} `{!AllocLaws Al} `{!AllocLaws (user_build Al)}.

Hypothesis alloc_ready : forall live sz m, heap_ok live m -> alloc_pre sz m.
Variable head : Z.
Hypothesis head_pos : 0 < head.

#[export] Instance folly_spsc_lane_laws : LaneLaws (folly_spsc_lane head).
Proof.
  assert (2 <= FOLLY_SPSC_QUEUE_SIZE < 2 ^ 27) by (unfold FOLLY_SPSC_QUEUE_SIZE; lia).
  lane_laws spsc_container_laws (spsc_container_laws (Al := user_build Al)).
Qed.

#[export] Instance folly_spsc_test_laws : TestLaws (folly_spsc_lane head) (folly_spsc_up head).
Proof.
  split; cbn.
  - intros s m b E. by apply (pointer_set_ok _ _ 0).
  - intros s own l m b (recs & (Hp & _) & _ & D & Hr). destruct Hr. live_pointer.
Qed.

#[export] Instance folly_spsc_verify_laws : VerifyLaws (folly_spsc_lane head).
Proof.
  intros own l m b (recs & Hp & _ & D & Hr). by eapply (spsc_verify_ok _ _ _ Hp USER).
Qed.
End folly_spsc.

(** ** ConcurrencyKit's ring: 128 slots, 127 of them usable *)

Section ck_ring_spsc.
Context `{Al : Allocator} `{U : UserOps}.

Definition CK_RING_SPSC_QUEUE_CAPACITY_LOG : Z := 7.

Definition ck_ring_spsc_lane (head : Z) : Lane := {|
  ln_bpf := ck_ring_container BPF head CK_RING_SPSC_QUEUE_CAPACITY_LOG;
  ln_user := ck_ring_container (Al := user_build Al) USER head CK_RING_SPSC_QUEUE_CAPACITY_LOG;
  ln_verify := ds_ck_ring_spsc_verify_c head
|}.

Definition ck_ring_spsc_up (head : Z) (s : side) : prog bool :=
  pointer_set Plain (CkRingHead.slots head).

Definition ck_ring_spsc_lsm_inode_create (ku metrics : Z) : kernel_state -> prog (Z * kernel_state) :=
  lsm_inode_create (ck_ring_spsc_lane ku) metrics.

Definition bpf_ck_ring_spsc_consume (uk metrics : Z) : kernel_state -> prog (Z * option ds_kv * kernel_state) :=
  bpf_consume (ck_ring_spsc_lane uk) (ck_ring_spsc_up uk) metrics.

Definition ck_ring_spsc_relay_worker (ku uk metrics : Z) : nat -> relay_state -> prog relay_state :=
  relay_worker (ck_ring_spsc_lane ku) (ck_ring_spsc_lane uk) (ck_ring_spsc_up ku) (ck_ring_spsc_up uk) metrics.

Definition ck_ring_spsc_verify_data_structure (ku uk : Z) : prog Z :=
  verify_data_structure (ck_ring_spsc_lane ku) (ck_ring_spsc_lane uk) (ck_ring_spsc_up ku) (ck_ring_spsc_up uk).

Definition ck_ring_spsc_skeleton (ku uk metrics : Z) : Skeleton :=
  lane_skeleton (ck_ring_spsc_lane ku) (ck_ring_spsc_lane uk) (ck_ring_spsc_up ku) (ck_ring_spsc_up uk) metrics.

Definition ck_ring_spsc_trigger_on_exit `{K : Kernel} (ku uk metrics : Z) : nat -> system -> option system :=
  trigger_kernel_consumer_on_exit (Sk := ck_ring_spsc_skeleton ku uk metrics).

Context `{K : Kernel} `{!AllocLaws Al} `{!AllocLaws (user_build Al)}.

Hypothesis alloc_ready : forall live sz m, heap_ok live m -> alloc_pre sz m.
Variable head : Z.
Hypothesis head_pos : 0 < head.

#[export] Instance ck_ring_spsc_lane_laws : LaneLaws (ck_ring_spsc_lane head).
Proof.
  assert (1 <= CK_RING_SPSC_QUEUE_CAPACITY_LOG <= 27) by (unfold CK_RING_SPSC_QUEUE_CAPACITY_LOG; lia).
  lane_laws ck_ring_container_laws (ck_ring_container_laws (Al := user_build Al)).
Qed.

#[export] Instance ck_ring_spsc_test_laws : TestLaws (ck_ring_spsc_lane head) (ck_ring_spsc_up head).
Proof.
  split; cbn.
  - intros s m b E. by apply (pointer_set_ok _ _ 0).
  - intros s own l m b (sl & (_ & Hp & _) & _ & D & Hr). destruct Hr. live_pointer.
Qed.

#[export] Instance ck_ring_spsc_verify_laws : VerifyLaws (ck_ring_spsc_lane head).
Proof.
  intros own l m b (sl & Hp & _ & D & Hr). by eapply (ck_ring_verify_ok _ _ _ Hp USER).
Qed.
End ck_ring_spsc.

(** ** The io_uring-style ring: 128 entries *)

Section io_uring.
Context `{Al : Allocator} `{U : UserOps}.

Definition IO_URING_RING_ENTRIES_LOG : Z := 7.

Definition io_uring_lane (head : Z) : Lane := {|
  ln_bpf := uring_container BPF head IO_URING_RING_ENTRIES_LOG;
  ln_user := uring_container (Al := user_build Al) USER head IO_URING_RING_ENTRIES_LOG;
  ln_verify := ds_io_uring_verify_c head
|}.

Definition io_uring_up (head : Z) (s : side) : prog bool :=
  pointer_set Plain (UringHead.entries head).

Definition io_uring_lsm_inode_create (ku metrics : Z) : kernel_state -> prog (Z * kernel_state) :=
  lsm_inode_create (io_uring_lane ku) metrics.

Definition bpf_io_uring_consume (uk metrics : Z) : kernel_state -> prog (Z * option ds_kv * kernel_state) :=
  bpf_consume (io_uring_lane uk) (io_uring_up uk) metrics.

Definition io_uring_relay_worker (ku uk metrics : Z) : nat -> relay_state -> prog relay_state :=
  relay_worker (io_uring_lane ku) (io_uring_lane uk) (io_uring_up ku) (io_uring_up uk) metrics.

Definition io_uring_verify_data_structure (ku uk : Z) : prog Z :=
  verify_data_structure (io_uring_lane ku) (io_uring_lane uk) (io_uring_up ku) (io_uring_up uk).

Definition io_uring_skeleton (ku uk metrics : Z) : Skeleton :=
  lane_skeleton (io_uring_lane ku) (io_uring_lane uk) (io_uring_up ku) (io_uring_up uk) metrics.

Definition io_uring_trigger_on_exit `{K : Kernel} (ku uk metrics : Z) : nat -> system -> option system :=
  trigger_kernel_consumer_on_exit (Sk := io_uring_skeleton ku uk metrics).

Context `{K : Kernel} `{!AllocLaws Al} `{!AllocLaws (user_build Al)}.

Hypothesis alloc_ready : forall live sz m, heap_ok live m -> alloc_pre sz m.
Variable head : Z.
Hypothesis head_pos : 0 < head.

#[export] Instance io_uring_lane_laws : LaneLaws (io_uring_lane head).
Proof.
  assert (0 <= IO_URING_RING_ENTRIES_LOG <= 27) by (unfold IO_URING_RING_ENTRIES_LOG; lia).
  lane_laws uring_container_laws (uring_container_laws (Al := user_build Al)).
Qed.

#[export] Instance io_uring_test_laws : TestLaws (io_uring_lane head) (io_uring_up head).
Proof.
  split; cbn.
  - intros s m b E. by apply (pointer_set_ok _ _ 0).
  - intros s own l m b (ents & (Hp & _) & _ & D & f & Hr). destruct Hr. live_pointer.
Qed.

#[export] Instance io_uring_verify_laws : VerifyLaws (io_uring_lane head).
Proof.
  intros own l m b (ents & Hp & _ & D & f & Hr). by eapply (uring_verify_ok _ _ _ Hp USER).
Qed.
End io_uring.

(** ** The append buffer: 509 words, 254 pairs *)

Section kcov.
Context `{Al : Allocator} `{U : UserOps}.

Definition config_buf_size : Z := 509.

Definition kcov_lane (head : Z) : Lane := {|
  ln_bpf := kcov_container BPF head config_buf_size;
  ln_user := kcov_container (Al := user_build Al) USER head config_buf_size;
  ln_verify := ds_kcov_verify_c head
|}.

Definition kcov_up (head : Z) (s : side) : prog bool :=
  pointer_set Plain (KcovBuf.area head).

Definition kcov_lsm_inode_create (ku metrics : Z) : kernel_state -> prog (Z * kernel_state) :=
  lsm_inode_create (kcov_lane ku) metrics.

Definition bpf_kcov_consume (uk metrics : Z) : kernel_state -> prog (Z * option ds_kv * kernel_state) :=
  bpf_consume (kcov_lane uk) (kcov_up uk) metrics.

Definition kcov_relay_worker (ku uk metrics : Z) : nat -> relay_state -> prog relay_state :=
  relay_worker (kcov_lane ku) (kcov_lane uk) (kcov_up ku) (kcov_up uk) metrics.

Definition kcov_verify_data_structure (ku uk : Z) : prog Z :=
  verify_data_structure (kcov_lane ku) (kcov_lane uk) (kcov_up ku) (kcov_up uk).

Definition kcov_skeleton (ku uk metrics : Z) : Skeleton :=
  lane_skeleton (kcov_lane ku) (kcov_lane uk) (kcov_up ku) (kcov_up uk) metrics.

Definition kcov_trigger_on_exit `{K : Kernel} (ku uk metrics : Z) : nat -> system -> option system :=
  trigger_kernel_consumer_on_exit (Sk := kcov_skeleton ku uk metrics).

Context `{K : Kernel} `{!AllocLaws Al} `{!AllocLaws (user_build Al)}.

Hypothesis alloc_ready : forall live sz m, heap_ok live m -> alloc_pre sz m.
Variable head : Z.
Hypothesis head_pos : 0 < head.

#[export] Instance kcov_lane_laws : LaneLaws (kcov_lane head).
Proof.
  assert (3 <= config_buf_size < 2 ^ 28) by (unfold config_buf_size; lia).
  lane_laws kcov_container_laws (kcov_container_laws (Al := user_build Al)).
Qed.

#[export] Instance kcov_test_laws : TestLaws (kcov_lane head) (kcov_up head).
Proof.
  split; cbn.
  - intros s m b E. by apply (pointer_set_ok _ _ 0).
  - intros s own l m b (a & (Hp & _) & _ & Hr). destruct Hr. live_pointer.
Qed.

#[export] Instance kcov_verify_laws : VerifyLaws (kcov_lane head).
Proof. intros own l m b (a & Hp & _ & Hr). by eapply (kcov_verify_ok _ _ _ Hp USER). Qed.
End kcov.

(** ** ConcurrencyKit's FIFO *)

Section ck_fifo_spsc.
Context `{Al : Allocator} `{U : UserOps}.

Definition ck_fifo_spsc_lane (head : Z) : Lane := {|
  ln_bpf := fifo_container BPF head;
  ln_user := fifo_container (Al := user_build Al) USER head;
  ln_verify := ds_ck_fifo_spsc_verify_c head
|}.

Definition ck_fifo_spsc_up (head : Z) (s : side) : prog bool :=
  pointers_set (Fifo.head (fifo_of head)) (Fifo.tail (fifo_of head)).

Definition ck_fifo_spsc_lsm_inode_create (ku metrics : Z) : kernel_state -> prog (Z * kernel_state) :=
  lsm_inode_create (ck_fifo_spsc_lane ku) metrics.

Definition bpf_ck_fifo_spsc_consume (uk metrics : Z) : kernel_state -> prog (Z * option ds_kv * kernel_state) :=
  bpf_consume (ck_fifo_spsc_lane uk) (ck_fifo_spsc_up uk) metrics.

Definition ck_fifo_spsc_relay_worker (ku uk metrics : Z) : nat -> relay_state -> prog relay_state :=
  relay_worker (ck_fifo_spsc_lane ku) (ck_fifo_spsc_lane uk) (ck_fifo_spsc_up ku) (ck_fifo_spsc_up uk) metrics.

Definition ck_fifo_spsc_verify_data_structure (ku uk : Z) : prog Z :=
  verify_data_structure (ck_fifo_spsc_lane ku) (ck_fifo_spsc_lane uk) (ck_fifo_spsc_up ku) (ck_fifo_spsc_up uk).

Definition ck_fifo_spsc_skeleton (ku uk metrics : Z) : Skeleton :=
  lane_skeleton (ck_fifo_spsc_lane ku) (ck_fifo_spsc_lane uk) (ck_fifo_spsc_up ku) (ck_fifo_spsc_up uk) metrics.

Definition ck_fifo_spsc_trigger_on_exit `{K : Kernel} (ku uk metrics : Z) : nat -> system -> option system :=
  trigger_kernel_consumer_on_exit (Sk := ck_fifo_spsc_skeleton ku uk metrics).

Context `{K : Kernel} `{!AllocLaws Al} `{!AllocLaws (user_build Al)}.

Hypothesis alloc_ready : forall live sz m, heap_ok live m -> alloc_pre sz m.
Variable head : Z.
Hypothesis head_pos : 0 < head.

#[export] Instance ck_fifo_spsc_lane_laws : LaneLaws (ck_fifo_spsc_lane head).
Proof.
  lane_laws fifo_container_laws (fifo_container_laws (Al := user_build Al)).
Qed.

#[export] Instance ck_fifo_spsc_test_laws : TestLaws (ck_fifo_spsc_lane head) (ck_fifo_spsc_up head).
Proof.
  split; cbn.
  - intros s m b E. destruct E. by apply (pointers_set_ok _ _ 0 0).
  - intros s own l m b (gs & hd & ns & _ & Hr). apply fifo_ends in Hr as (t & E1 & E2 & Hp1 & Hp2).
    eapply wpr_mono; [by apply (pointers_set_ok _ _ hd t)|].
    intros r m' b' (-> & -> & ->). split; [lia|done].
Qed.
End ck_fifo_spsc.

(** ** The Michael-Scott queue *)

Section msqueue.
Context `{Al : Allocator} `{U : UserOps}.
(** What the uninitialised local variable of an insertion holds. *)
Variable junk : Z.

Definition msqueue_lane (head : Z) : Lane := {|
  ln_bpf := msq_container BPF junk head;
  ln_user := msq_container (Al := user_build Al) USER junk head;
  ln_verify := ds_msqueue_verify_c head
|}.

Definition msqueue_up (head : Z) (s : side) : prog bool :=
  match s with
  | BPF =>
      hd ← READ_ONCE (Msqueue.head head);
      tl ← READ_ONCE (Msqueue.tail head);
      Ret (negb (hd =? 0) && negb (tl =? 0))
  | USER => pointers_set (Msqueue.head head) (Msqueue.tail head)
  end.

Definition msqueue_lsm_inode_create (ku metrics : Z) : kernel_state -> prog (Z * kernel_state) :=
  lsm_inode_create (msqueue_lane ku) metrics.

Definition bpf_msq_consume (uk metrics : Z) : kernel_state -> prog (Z * option ds_kv * kernel_state) :=
  bpf_consume (msqueue_lane uk) (msqueue_up uk) metrics.

Definition msqueue_relay_worker (ku uk metrics : Z) : nat -> relay_state -> prog relay_state :=
  relay_worker (msqueue_lane ku) (msqueue_lane uk) (msqueue_up ku) (msqueue_up uk) metrics.

Definition msqueue_verify_data_structure (ku uk : Z) : prog Z :=
  verify_data_structure (msqueue_lane ku) (msqueue_lane uk) (msqueue_up ku) (msqueue_up uk).

Definition msqueue_skeleton (ku uk metrics : Z) : Skeleton :=
  lane_skeleton (msqueue_lane ku) (msqueue_lane uk) (msqueue_up ku) (msqueue_up uk) metrics.

Definition msqueue_trigger_on_exit `{K : Kernel} (ku uk metrics : Z) : nat -> system -> option system :=
  trigger_kernel_consumer_on_exit (Sk := msqueue_skeleton ku uk metrics).

Context `{K : Kernel} `{!AllocLaws Al} `{!AllocLaws (user_build Al)}
  `{!FreeLaws Al} `{!FreeLaws (user_build Al)}.
Hypothesis free_ready : forall p m, in_arena p -> free_pre p m.
Hypothesis alloc_ready : forall live sz m, heap_ok live m -> alloc_pre sz m.
Variable head : Z.
Hypothesis head_pos : 0 < head.

#[export] Instance msqueue_lane_laws : LaneLaws (msqueue_lane head).
Proof.
  split; try done; cbn; [by apply msq_container_laws|by apply (msq_container_laws (Al := user_build Al))|].
  intros own l m. by split; intros (ns & lag & Ho & []); exists ns, lag.
Qed.

#[export] Instance msqueue_test_laws : TestLaws (msqueue_lane head) (msqueue_up head).
Proof.
  split; cbn.
  - intros s m b E. destruct E as [E1 E2]. destruct s; [by unfold msqueue_up; prun|].
    by apply (pointers_set_ok _ _ 0 0).
  - intros s own l m b (ns & lag & _ & Hr). apply msq_ends in Hr as (hd & t & E1 & E2 & Hp1 & Hp2).
    eapply (wpr_mono _ _ _ (fun r m' b' =>
      r = negb (hd =? 0) && negb (t =? 0) /\ m' = m /\ b' = b)).
    + destruct s; [by unfold msqueue_up; prun|by apply pointers_set_ok].
    + intros r m' b' (-> & -> & ->). split; [lia|done].
Qed.
End msqueue.

(** ** ConcurrencyKit's stack: flags instead of pointer tests *)

Section ck_stack.
Context `{Al : Allocator} `{U : UserOps}.
(** Bound on the attempts of the compare-and-swap loops. *)
Variable fuel : nat.

Definition ck_stack_lane (head : Z) : Lane := {|
  ln_bpf := stack_container BPF head fuel;
  ln_user := stack_container (Al := user_build Al) USER head fuel;
  ln_verify := ds_ck_stack_upmc_verify_c fuel head
|}.

Definition ck_stack_lsm_inode_create (ku metrics : Z) (ks : kernel_state) : prog (Z * kernel_state) :=
  if negb (initialized_ku ks) then
    ds_ck_stack_upmc_init_lkmm ku;;
    lsm_produce metrics (ds_ck_stack_upmc_insert_lkmm fuel ku) (set_initialized true (initialized_uk ks) ks)
  else lsm_produce metrics (ds_ck_stack_upmc_insert_lkmm fuel ku) ks.

(** A trigger that comes before UK is initialised is not counted. *)
Definition bpf_ck_stack_upmc_consume (uk metrics : Z) (ks : kernel_state) :
    prog (Z * option ds_kv * kernel_state) :=
  if negb (initialized_uk ks) then Ret (DS_ERROR_INVALID, None, ks)
  else consume_pop (ck_stack_lane uk) metrics ks.

Definition ck_stack_relay_turn (ku uk metrics : Z) (ks : kernel_state) (rs : relay_state) :
    prog (kernel_state * relay_state) :=
  if negb (uk_initialized rs) then
    ks ← (if negb (initialized_uk ks) then
            ds_ck_stack_upmc_init_c uk;; Ret (set_initialized (initialized_ku ks) true ks)
          else Ret ks);
    rs ← relay_move (ck_stack_lane ku) (ck_stack_lane uk) metrics (relay_up rs);
    Ret (ks, rs)
  else
    rs ← relay_move (ck_stack_lane ku) (ck_stack_lane uk) metrics rs;
    Ret (ks, rs).

Definition ck_stack_relay_poll (ku uk metrics : Z) (ks : kernel_state) (rs : relay_state) :
    prog (kernel_state * relay_state) :=
  if relay_started rs then ck_stack_relay_turn ku uk metrics ks rs
  else Ret (ks, if initialized_ku ks then relay_start rs else rs).

Fixpoint ck_stack_relay_worker (ku uk metrics : Z) (polls : nat) (ks : kernel_state)
    (rs : relay_state) : prog (kernel_state * relay_state) :=
  match polls with
  | O => Ret (ks, rs)
  | S polls' =>
      '(ks', rs') ← ck_stack_relay_poll ku uk metrics ks rs;
      ck_stack_relay_worker ku uk metrics polls' ks' rs'
  end.

Definition ck_stack_verify_data_structure (ku uk : Z) : prog Z :=
  ku_result ← ds_ck_stack_upmc_verify_c fuel ku;
  uk_result ← ds_ck_stack_upmc_verify_c fuel uk;
  Ret (if (ku_result =? DS_SUCCESS) && (uk_result =? DS_SUCCESS) then DS_SUCCESS
       else DS_ERROR_INVALID).

Definition ck_stack_skeleton (ku uk metrics : Z) : Skeleton := {|
  sk_create := ck_stack_lsm_inode_create ku metrics;
  sk_relay := ck_stack_relay_poll ku uk metrics;
  sk_consume := bpf_ck_stack_upmc_consume uk metrics
|}.

Definition ck_stack_trigger_on_exit `{K : Kernel} (ku uk metrics : Z) :
    nat -> system -> option system :=
  trigger_kernel_consumer_on_exit (Sk := ck_stack_skeleton ku uk metrics).

Context `{K : Kernel} `{!AllocLaws Al} `{!AllocLaws (user_build Al)}.
Hypothesis fuel_pos : (0 < fuel)%nat.
Hypothesis alloc_ready : forall live sz m, heap_ok live m -> alloc_pre sz m.

Lemma ck_stack_lane_laws head : 0 < head -> LaneLaws (ck_stack_lane head).
Proof. intros Hh. lane_laws stack_container_laws (stack_container_laws (Al := user_build Al)). Qed.

Context (ku uk metrics : Z) (rest : list block) (b : nat).
Hypothesis ku_pos : 0 < ku.
Hypothesis uk_pos : 0 < uk.
Hypothesis metrics_pos : 0 < metrics.
Hypothesis clock_pure : forall m, snd (kcall ClockNs m) = m.
Hypothesis pid_pure : forall m, snd (kcall PidTgid m) = m.
Hypothesis loop_budget : (1 <= b)%nat.

Notation KU := (ck_stack_lane ku).
Notation UK := (ck_stack_lane uk).

Lemma ck_stack_create_ok a m ks rs :
  simulated metrics rest KU UK true a m ks rs ->
  wpr (ck_stack_lsm_inode_create ku metrics ks) m b (fun r m' _ =>
    r.1 = 0 /\ handled metrics rest KU UK InodeCreate true a m m' r.2 rs).
Proof.
  pose proof (ck_stack_lane_laws ku ku_pos) as LK. pose proof (ck_stack_lane_laws uk uk_pos) as LU.
  destruct a as [ok ou st hk hu f n]. intros ((logs & Hr & Hm) & Hk & Hrs & Hst).
  cbn [ar_ku ar_uk ar_started] in *. destruct Hk as (iu & -> & Hiu).
  unfold ck_stack_lsm_inode_create. cbn [kernel_of initialized_ku ar_ku].
  destruct ok as [l|]; cbn [is_up negb].
  - apply (lsm_produce_ok metrics rest KU UK metrics_pos clock_pure pid_pure true BPF l ou st hk hu f n b m
      _ rs logs (Some l)); eauto. by intros _.
  - eapply wpr_call; [apply (wpr_bind_ret _ DS_SUCCESS),
      (init_first metrics rest KU UK BPF ou logs m b b); [done|by intros _]|].
    intros [] m1 b1 (Hb1 & Hf & Hr1). cbn in Hr1. specialize (Hb1 eq_refl).
    eapply wpr_mono; [apply (lsm_produce_ok metrics rest KU UK metrics_pos clock_pure pid_pure true BPF
      [] ou st hk hu f n b1 m1 _ rs logs None); eauto|].
    + intros _. cbn. lia.
    + intros r' m' b' (Hr' & Hf' & Ha). split; [done|]. split; [|done]. intros c Hc. by rewrite Hf', Hf.
Qed.

Lemma ck_stack_relay_ok a m ks rs :
  simulated metrics rest KU UK true a m ks rs ->
  wpr (ck_stack_relay_poll ku uk metrics ks rs) m b (fun r m' _ =>
    handled metrics rest KU UK RelayTurn true a m m' r.1 r.2).
Proof.
  pose proof (ck_stack_lane_laws ku ku_pos) as LK. pose proof (ck_stack_lane_laws uk uk_pos) as LU.
  destruct a as [ok ou st hk hu f n].
  intros ((logs & Hr & Hm) & (iu & -> & Hiu) & (ui & data & -> & Hui) & Hst).
  cbn [ar_ku ar_uk ar_started] in *. specialize (Hiu eq_refl). subst iu.
  unfold ck_stack_relay_poll. cbn [relay_of relay_started ar_started]. destruct st.
  - destruct (Hst eq_refl) as [lk ->].
    pose proof (fun lu ui b m logs H => relay_move_ok metrics rest KU UK metrics_pos clock_pure true lk lu
      ou hk hu f n true ui data b m logs H) as Hmove.
    unfold ck_stack_relay_turn. cbn [relay_of uk_initialized kernel_of initialized_uk].
    destruct ou as [lu|]; cbn [is_up negb].
    + assert (Hgo : forall ui', wpr (rs' ← relay_move KU UK metrics
          (relay_of (mk_arelay (Some lk) (Some lu) true hk hu f n) ui' data);
          Ret (kernel_of (mk_arelay (Some lk) (Some lu) true hk hu f n) true, rs')) m b (fun r m' _ =>
        handled metrics rest KU UK RelayTurn true (mk_arelay (Some lk) (Some lu) true hk hu f n)
          m m' r.1 r.2)).
      { intros ui'. eapply wpr_call; [by apply (Hmove lu ui' b m logs)|].
        intros rs' m' b' H. by apply wpr_ret. }
      destruct ui; cbn [negb]; [apply Hgo|]. apply wpr_bind, wpr_ret. apply Hgo.
    + destruct ui; [by destruct (Hui eq_refl)|]. cbn [negb]. apply resources_sym in Hr.
      apply wpr_bind. eapply wpr_call; [apply (wpr_bind_ret _ DS_SUCCESS),
        (init_first metrics rest UK KU USER (Some lk) logs m b 0); [done|by intros ?]|].
      intros [] m1 b1 (_ & Hf & Hr1). cbn in Hr1. apply resources_sym in Hr1. apply wpr_ret.
      eapply wpr_call; [by apply (Hmove [] true b1 m1 logs)|].
      intros rs' m' b' (Hf' & Ha). apply wpr_ret. split; [intros c Hc; by rewrite Hf', Hf|done].
  - apply wpr_ret. cbn [kernel_of initialized_ku ar_ku]. split; [done|]. destruct ok as [lk|]; cbn [is_up].
    + exists (mk_arelay (Some lk) ou true hk hu f n). split; [constructor|].
      split; [by exists logs|]. split; [by exists (is_up ou)|]. split; [by exists ui, data|eauto].
    + exists (mk_arelay None ou false hk hu f n). split; [constructor|].
      split; [by exists logs|]. split; [by exists (is_up ou)|]. split; [by exists ui, data|done].
Qed.

#[export] Instance ck_stack_skeleton_laws :
  SkeletonLaws (ck_stack_skeleton ku uk metrics) true metrics rest KU UK b.
Proof.
  pose proof (ck_stack_lane_laws ku ku_pos) as LK. pose proof (ck_stack_lane_laws uk uk_pos) as LU.
  split; intros a m ks rs Hs; cbn [sk_create sk_relay sk_consume ck_stack_skeleton].
  - by apply ck_stack_create_ok.
  - by apply ck_stack_relay_ok.
  - unfold bpf_ck_stack_upmc_consume. pose proof Hs as (_ & (iu & -> & Hiu) & _).
    cbn [kernel_of initialized_uk]. specialize (Hiu eq_refl). subst iu.
    destruct (ar_uk a) as [lu|] eqn:Hou; cbn [is_up negb] in *.
    + eapply wpr_mono; [apply (consume_pop_ok metrics rest KU UK metrics_pos clock_pure true a lu);
        [exact Hs|exact Hou|by intros _]|]. by intros r m' b' [H _].
    + apply wpr_ret. split; [done|]. exists a. split; [|done].
      destruct a as [ok ou st hk hu f n]. cbn in Hou. subst ou. apply abs_not_counted.
Qed.
End ck_stack.
