(* ===== verification/Verdicts.v ===== *)
(** * What the check at the end of a run says ([verify_data_structure] of the four skeletons whose
    lanes are arrays: Folly's ring, ConcurrencyKit's ring, the io_uring-style ring and the append
    buffer).

    [reads] is what a header holds, [consistent] when it describes a structure at all. The check
    answers exactly whether every lane that is initialised is consistent, and the relay keeps
    both lanes so. *)
From stdpp Require Import base numbers gmap list fin_maps option strings.
From S2P Require Import Prelude Machine Logic Api Owned Container Ring FollySpsc CkRing IoUring Kcov.
From S2P Require Import Relay RelaySpec RelaySystem Skeletons.

Inductive array_kind := FollyRing | CkSpscRing | UringRing | KcovBuffer.

(** The words of a header that its verifier looks at: the pointer to the array, the capacity, the
    mask, and the positions of the consumer and of the producer; those a kind does not have are
    free. Folly's verifier computes with [int], so its capacity is taken below [2 ^ 31]. *)
Record header := mk_header {
  hd_array : Z; hd_capacity : Z; hd_mask : Z; hd_consumer : Z; hd_producer : Z
}.

(** A variable of [w] bits. *)
Definition holds_word (m : mem) (w a v : Z) : Prop := m !! a = Some v /\ 0 <= v < 2 ^ w.

Definition reads (k : array_kind) (h : Z) (x : header) (m : mem) : Prop :=
  match k with
  | FollyRing =>
      holds_word m 64 (SpscHead.records h) (hd_array x) /\ holds_word m 31 (SpscHead.size h) (hd_capacity x) /\
      holds_word m 32 (SpscHead.read_idx h) (hd_consumer x) /\ holds_word m 32 (SpscHead.write_idx h) (hd_producer x)
  | CkSpscRing =>
      holds_word m 64 (CkRingHead.slots h) (hd_array x) /\ holds_word m 32 (CkRingHead.capacity h) (hd_capacity x) /\
      holds_word m 32 (CkRingHead.mask h) (hd_mask x) /\
      holds_word m 32 (CkRingHead.c_head h) (hd_consumer x) /\ holds_word m 32 (CkRingHead.p_tail h) (hd_producer x)
  | UringRing =>
      holds_word m 64 (UringHead.entries h) (hd_array x) /\ holds_word m 32 (UringHead.ring_entries h) (hd_capacity x) /\
      holds_word m 32 (UringHead.ring_mask h) (hd_mask x) /\
      holds_word m 32 (UringHead.cons_head h) (hd_consumer x) /\ holds_word m 32 (UringHead.prod_tail h) (hd_producer x)
  | KcovBuffer =>
      holds_word m 64 (KcovBuf.area h) (hd_array x) /\ holds_word m 64 (KcovBuf.size h) (hd_capacity x) /\
      (hd_array x <> 0 -> holds_word m 64 (area_word (hd_array x) 0) (hd_producer x))
  end.

Definition power_from (lo n : Z) : Prop := exists j, lo <= j <= 31 /\ n = 2 ^ j.

(** The positions are positions of the array; for the free-running ones of io_uring, their
    distance fits; the buffer has room for its counter and for the entries counted. *)
Definition consistent (k : array_kind) (x : header) : Prop :=
  match k with
  | FollyRing => hd_consumer x < hd_capacity x /\ hd_producer x < hd_capacity x
  | CkSpscRing => power_from 1 (hd_capacity x) /\ hd_mask x = hd_capacity x - 1 /\
      hd_consumer x < hd_capacity x /\ hd_producer x < hd_capacity x
  | UringRing => power_from 0 (hd_capacity x) /\ hd_mask x = hd_capacity x - 1 /\
      (hd_producer x - hd_consumer x) mod 2 ^ 32 <= hd_capacity x
  | KcovBuffer => 1 <= hd_capacity x /\ hd_producer x <= (hd_capacity x - 1) / 2
  end.

(** A lane passes: it has not been initialised, or it is consistent. *)
Definition passes (k : array_kind) (x : header) : Prop := hd_array x = 0 \/ consistent k x.

(** ** The verifiers, on any header *)

(** [p] only reads, and answers success exactly if [P]. *)
Definition decides `{K : Kernel} (p : prog Z) (P : Prop) (m : mem) (b : nat) : Prop :=
  wpr p m b (fun r m' b' => m' = m /\ b' = b /\ (r = DS_SUCCESS <-> P)).

Section verifiers.
Context `{K : Kernel}.

Lemma decides_ret v P m b : (v = DS_SUCCESS <-> P) -> decides (Ret v) P m b.
Proof. intros H. by apply wpr_ret. Qed.

Lemma decides_load {o a v} {f : Z -> prog Z} {P m b w} :
  holds_word m w a v -> decides (f v) P m b -> decides (x ← load o a; f x) P m b.
Proof. intros [E _] H. apply wpr_bind. by apply (wpr_load _ _ _ _ v). Qed.

(** A guard that answers corrupt. *)
Lemma decides_guard (c : bool) p (P : Prop) m b :
  (c = true -> ~ P) -> (c = false -> decides p P m b) ->
  decides (if c then Ret DS_ERROR_CORRUPT else p) P m b.
Proof.
  intros Hc Hp. destruct c; [|by apply Hp]. apply decides_ret. split; [done|]. intros HP. by destruct Hc.
Qed.

Lemma spsc_verify_decides h x m b :
  reads FollyRing h x m -> decides (ds_spsc_verify_c h) (consistent FollyRing x) m b.
Proof.
  intros (_ & Hn & Hr & Hw). unfold ds_spsc_verify_c.
  apply (decides_load Hr), (decides_load Hw), (decides_load Hn), decides_ret.
  destruct Hn as [_ Hn], Hr as [_ Hr], Hw as [_ Hw]. unfold spsc_check, consistent.
  destruct (Z.geb_spec (hd_consumer x) (hd_capacity x)); cbn [orb]; [by split; [|lia]|].
  destruct (Z.geb_spec (hd_producer x) (hd_capacity x)); [by split; [|lia]|].
  unfold spsc_distance. rewrite !(s32_id (hd_consumer x)), !(s32_id (hd_producer x)), (s32_id (_ - _)),
    (u32_id (_ - 1)), (s32_id (_ - 1)) by lia.
  destruct (Z.ltb_spec (hd_producer x - hd_consumer x) 0); rewrite ?u32_id, ?s32_id by lia;
    match goal with |- context [?a >? ?c] => destruct (Z.gtb_spec a c); [lia|by split] end.
Qed.

Lemma power_of_two_decides n : 0 <= n < 2 ^ 32 -> ds_ck_ring_spsc_is_power_of_two n = true <-> power_from 1 n.
Proof.
  intros Hn. unfold ds_ck_ring_spsc_is_power_of_two, power_from. rewrite andb_true_iff, Z.eqb_eq. split.
  - intros [Hge Hl]. apply pow2_test_word in Hl as (j & Hj & ->); [|lia]. exists j. split; [|done].
    assert (j <> 0) by (intros ->; lia). lia.
  - intros (j & Hj & ->). assert (2 ^ 1 <= 2 ^ j) by (apply Z.pow_le_mono_r; lia).
    split; [lia|]. apply pow2_test_word; [lia|]. exists j. lia.
Qed.

(** A position survives the mask exactly if it is one of the array. *)
Lemma masked_position v n : 0 <= v -> power_from 0 n -> Z.land v (n - 1) = v <-> v < n.
Proof.
  intros Hv (j & Hj & ->). pose proof (Z.pow_pos_nonneg 2 j ltac:(lia) ltac:(lia)).
  rewrite land_mask by lia. split; [intros <-; apply Z.mod_pos_bound; lia|intros; apply Z.mod_small; lia].
Qed.

Lemma ck_ring_verify_decides h x m b : h <> 0 -> hd_array x <> 0 ->
  reads CkSpscRing h x m -> decides (ds_ck_ring_spsc_verify_c h) (consistent CkSpscRing x) m b.
Proof.
  intros Hh Hx (Ha & Hn & Hm & Hc & Hp). unfold ds_ck_ring_spsc_verify_c.
  replace (h =? 0) with false by lia. apply (decides_load Ha). replace (hd_array x =? 0) with false by lia.
  apply (decides_load Hn), (decides_load Hm). destruct Hn as [_ Hn], Hm as [_ Hm]. cbn [consistent].
  apply decides_guard; [intros Hpow (Hpow' & _); apply power_of_two_decides in Hpow'; [by rewrite Hpow' in Hpow|done]|].
  intros Hpow. apply negb_false_iff, power_of_two_decides in Hpow; [|done].
  assert (1 < hd_capacity x) by (destruct Hpow as (j & Hj & ->); pose proof (Z.pow_gt_1 2 j); lia).
  assert (Hpow0 : power_from 0 (hd_capacity x)) by (destruct Hpow as (j & Hj & ->); exists j; lia).
  rewrite u32_id by lia. apply decides_guard; [lia|]. intros Emask. assert (E : hd_mask x = hd_capacity x - 1) by lia.
  apply (decides_load Hc), (decides_load Hp). destruct Hc as [_ Hc], Hp as [_ Hp]. rewrite E.
  pose proof (masked_position (hd_consumer x) _ (proj1 Hc) Hpow0).
  pose proof (masked_position (hd_producer x) _ (proj1 Hp) Hpow0).
  apply decides_guard; [lia|]. intros Ec. apply decides_guard; [lia|]. intros Ep.
  apply decides_guard; [|intros _; apply decides_ret; split; [|done]; intros _; split_and!; (done || lia)].
  destruct Hpow0 as (j & Hj & Ej). rewrite Ej, land_mask by lia.
  pose proof (Z.mod_pos_bound (u32 (hd_producer x - hd_consumer x)) (2 ^ j) ltac:(lia)). lia.
Qed.

Lemma io_uring_verify_decides h x m b :
  reads UringRing h x m -> decides (ds_io_uring_verify_c h) (consistent UringRing x) m b.
Proof.
  intros (_ & Hn & Hm & Hc & Hp). unfold ds_io_uring_verify_c.
  apply (decides_load Hn). destruct Hn as [_ Hn]. cbn [consistent].
  assert (Hpow : (hd_capacity x =? 0) || negb (Z.land (hd_capacity x) (u32 (hd_capacity x - 1)) =? 0) = false <->
    power_from 0 (hd_capacity x)).
  { destruct (Z.eqb_spec (hd_capacity x) 0) as [->|Hne]; cbn [orb].
    - split; [done|]. intros (j & Hj & Ej). pose proof (Z.pow_pos_nonneg 2 j). lia.
    - rewrite negb_false_iff, Z.eqb_eq. apply pow2_test_word. lia. }
  apply decides_guard; [intros E (Hp0 & _); apply Hpow in Hp0; congruence|]. intros E. apply Hpow in E.
  assert (0 < hd_capacity x) by (destruct E as (j & Hj & ->); apply Z.pow_pos_nonneg; lia).
  apply (decides_load Hm). rewrite u32_id by lia. apply decides_guard; [lia|]. intros Emask.
  apply (decides_load Hp), (decides_load Hc). unfold u32.
  apply decides_guard; [lia|]. intros Ed. apply decides_ret. split; [|done]. intros _. split_and!; (done || lia).
Qed.

Lemma kcov_verify_decides h x m b : hd_array x <> 0 ->
  reads KcovBuffer h x m -> decides (ds_kcov_verify_c h) (consistent KcovBuffer x) m b.
Proof.
  intros Hx (Ha & Hn & Hp). specialize (Hp Hx). unfold ds_kcov_verify_c.
  apply (decides_load Ha). replace (hd_array x =? 0) with false by lia.
  apply (decides_load Hp), (decides_load Hn). destruct Hn as [_ Hn]. cbn [consistent].
  apply decides_guard; [lia|]. intros E. rewrite u64_id by lia. unfold KCOV_WORDS_PER_ENTRY.
  apply decides_guard; [lia|]. intros E2. apply decides_ret. split; [|done]. intros _. lia.
Qed.

(** A lane that is not initialised passes unseen. *)
Lemma lane_verify_decides L up x (P : Prop) m b :
  wpr (up USER) m b (fun r m' b' => r = negb (x =? 0) /\ m' = m /\ b' = b) ->
  (x <> 0 -> decides (ln_verify (Lane := L)) P m b) -> decides (lane_verify L up) (x = 0 \/ P) m b.
Proof.
  intros Hup Hv. unfold lane_verify. eapply wpr_call; [exact Hup|]. intros r m' b' (-> & -> & ->).
  destruct (Z.eqb_spec x 0) as [->|Hx]; cbn [negb]; [apply decides_ret; split; [by left|done]|].
  eapply wpr_mono; [by apply Hv|]. intros r m' b' (-> & -> & Hr). split_and!; [done..|]. rewrite Hr.
  split; [by right|]. by intros [?|?].
Qed.

(** The answer of the two checks together. *)
Lemma verify_data_structure_decides KU UK ku_up uk_up (P Q : Prop) m b :
  decides (lane_verify KU ku_up) P m b -> decides (lane_verify UK uk_up) Q m b ->
  wpr (verify_data_structure KU UK ku_up uk_up) m b (fun r m' b' => m' = m /\ b' = b /\
    (r = DS_SUCCESS /\ P /\ Q \/ r = DS_ERROR_INVALID /\ ~ (P /\ Q))).
Proof.
  intros HK HU. unfold verify_data_structure. eapply wpr_call; [exact HK|]. intros rk m1 b1 (-> & -> & Hk).
  eapply wpr_call; [exact HU|]. intros ru m1 b1 (-> & -> & Hu). apply wpr_ret. split; [done|]. split; [done|].
  destruct (Z.eqb_spec rk DS_SUCCESS) as [E|E]; cbn [andb]; [|right; split; [done|]; by intros [?%Hk _]].
  destruct (Z.eqb_spec ru DS_SUCCESS) as [E'|E']; [left|right; split; [done|]; by intros [_ ?%Hu]].
  split; [done|]. by rewrite <- Hk, <- Hu.
Qed.
End verifiers.

(** ** The relay over two lanes of a kind *)

Section relay.
Context `{K : Kernel} `{Al : Allocator} `{!AllocLaws Al} `{U : UserOps} `{!AllocLaws (user_build Al)}.
Hypothesis alloc_ready : forall live sz m, heap_ok live m -> alloc_pre sz m.

Definition array_lane (k : array_kind) : Z -> Lane :=
  match k with
  | FollyRing => folly_spsc_lane | CkSpscRing => ck_ring_spsc_lane
  | UringRing => io_uring_lane | KcovBuffer => kcov_lane
  end.

Definition array_up (k : array_kind) : Z -> side -> prog bool :=
  match k with
  | FollyRing => folly_spsc_up | CkSpscRing => ck_ring_spsc_up
  | UringRing => io_uring_up | KcovBuffer => kcov_up
  end.

Definition array_skeleton (k : array_kind) : Z -> Z -> Z -> Skeleton :=
  match k with
  | FollyRing => folly_spsc_skeleton | CkSpscRing => ck_ring_spsc_skeleton
  | UringRing => io_uring_skeleton | KcovBuffer => kcov_skeleton
  end.

Definition array_verify_data_structure (k : array_kind) : Z -> Z -> prog Z :=
  match k with
  | FollyRing => folly_spsc_verify_data_structure | CkSpscRing => ck_ring_spsc_verify_data_structure
  | UringRing => io_uring_verify_data_structure | KcovBuffer => kcov_verify_data_structure
  end.

Lemma array_skeleton_is k ku uk metrics :
  array_skeleton k ku uk metrics =
    lane_skeleton (array_lane k ku) (array_lane k uk) (array_up k ku) (array_up k uk) metrics.
Proof. by destruct k. Qed.

Lemma array_verify_is k ku uk :
  array_verify_data_structure k ku uk =
    verify_data_structure (array_lane k ku) (array_lane k uk) (array_up k ku) (array_up k uk).
Proof. by destruct k. Qed.

Lemma array_lane_laws k h : 0 < h -> LaneLaws (array_lane k h).
Proof.
  intros Hh. destruct k; [by apply folly_spsc_lane_laws|by apply ck_ring_spsc_lane_laws
    |by apply io_uring_lane_laws|by apply kcov_lane_laws].
Qed.

Lemma array_test_laws k h : TestLaws (array_lane k h) (array_up k h).
Proof.
  destruct k; [apply folly_spsc_test_laws|apply ck_ring_spsc_test_laws
    |apply io_uring_test_laws|apply kcov_test_laws].
Qed.

Lemma array_verify_laws k h : VerifyLaws (array_lane k h).
Proof.
  destruct k; [apply folly_spsc_verify_laws|apply ck_ring_spsc_verify_laws
    |apply io_uring_verify_laws|apply kcov_verify_laws].
Qed.

Lemma array_lane_decides k h x m b : h <> 0 -> reads k h x m ->
  decides (lane_verify (array_lane k h) (array_up k h)) (passes k x) m b.
Proof.
  intros Hh Hx. apply lane_verify_decides.
  - destruct k; apply pointer_set_ok; apply Hx.
  - intros Ha. destruct k; [by apply spsc_verify_decides|by apply ck_ring_verify_decides
      |by apply io_uring_verify_decides|by apply kcov_verify_decides].
Qed.

Context (ku uk metrics : Z) (rest : list block).
Hypothesis ku_pos : 0 < ku.
Hypothesis uk_pos : 0 < uk.
Hypothesis metrics_pos : 0 < metrics.
Hypothesis clock_pure : forall m, snd (kcall ClockNs m) = m.
Hypothesis pid_pure : forall m, snd (kcall PidTgid m) = m.

Lemma array_skeleton_laws k b :
  SkeletonLaws (array_skeleton k ku uk metrics) false metrics rest (array_lane k ku) (array_lane k uk) b.
Proof.
  pose proof (array_lane_laws k ku ku_pos). pose proof (array_lane_laws k uk uk_pos).
  pose proof (array_test_laws k ku). pose proof (array_test_laws k uk). rewrite array_skeleton_is.
  apply lane_skeleton_laws; try done; destruct k; cbn; lia.
Qed.

(** C21. The check at the end of a run, for the four skeletons whose lanes are arrays. Whatever
    ran before, it passes on the lanes as the relay left them, and changes nothing. And it is not
    blind: on any two headers (for Folly's ring, with capacities below [2 ^ 31]) it answers
    [DS_SUCCESS] exactly if each lane is either not initialised or consistent, and
    [DS_ERROR_INVALID] if one of them is not. *)
Theorem relay_verified k junk m acts b b' :
  relay_booted (metrics := metrics) (rest := rest) (KU := array_lane k ku) (UK := array_lane k uk) m ->
  exists s', activities (Sk := array_skeleton k ku uk metrics) b acts (boot junk m) = Some s' /\
    run (array_verify_data_structure k ku uk) (sys_mem s') b' = Done DS_SUCCESS (sys_mem s') b' /\
    forall m1 xk xu, reads k ku xk m1 -> reads k uk xu m1 ->
      exists v, run (array_verify_data_structure k ku uk) m1 b' = Done v m1 b' /\
        (v = DS_SUCCESS /\ passes k xk /\ passes k xu \/
         v = DS_ERROR_INVALID /\ ~ (passes k xk /\ passes k xu)).
Proof.
  intros Hm. pose proof (array_skeleton_laws k b) as SL.
  pose proof (array_test_laws k ku). pose proof (array_test_laws k uk).
  pose proof (array_verify_laws k ku). pose proof (array_verify_laws k uk).
  destruct (relay_run (SL := SL) junk m acts Hm) as (s' & a' & E & _ & Hs & _). exists s'. split; [exact E|].
  rewrite array_verify_is. split; [exact (lanes_verified (array_up k ku) (array_up k uk) a' s' b' Hs)|].
  intros m1 xk xu Hk Hu.
  pose proof (verify_data_structure_decides _ _ _ _ _ _ m1 b' (array_lane_decides k ku xk m1 b' ltac:(lia) Hk)
    (array_lane_decides k uk xu m1 b' ltac:(lia) Hu)) as H'.
  apply wpr_done in H' as (v & m2 & b2 & -> & -> & -> & Hv). by exists v.
Qed.
End relay.
