(* ===== verification/RelayRings.v ===== *)
(** * The rings' skeletons while both sides run.

    Folly's ring, ConcurrencyKit's and the io_uring-style one are lanes two threads may share
    ([DuetLane]), and their userspace operations ask the kernel for nothing ([QuietLane]), so
    that [relay_interleaved] holds for the three skeletons. *)
From stdpp Require Import base numbers gmap list fin_maps option strings relations.
From S2P Require Import Prelude Machine Logic Api Arena Owned Conc Container Duet Spsc Ring FollySpsc CkRing IoUring SpscRings.
From S2P Require Import Metrics Agents Relay RelaySpec RelayConc Skeletons.

(** ** Rings as lanes *)

Section ring_lane.
Context `{K : Kernel} {R : SpscRing} `{!SpscRingLaws R}.
Variables (l0 : list ds_kv) (lim : nat) (own : list block).
Context (L : Lane) (cell p : Z).
Hypothesis pointer_live : forall D l m, sp_repr D l m -> m !! cell = Some p.
Hypothesis pointer_pos : 0 < p.
#[local] Existing Instance ring_duet.

(** The pointer a skeleton tests does not change while the ring is in use. *)
Lemma ring_polled O : triple du_crely du_cguar (du_consuming (Duet := ring_duet l0) O) (pointer_set Plain cell)
  (fun r s => r = true /\ du_consuming (Duet := ring_duet l0) O s).
Proof.
  cbn. apply triple_exists. intros D. unfold pointer_set.
  eapply (triple_load _ _ _ _ p); [apply _|intros s ([Hr _] & _); by eapply pointer_live|].
  apply triple_ret; [apply _|]. intros s Hs. split; [|by exists D].
  destruct (Z.eqb_spec p 0); [lia|done].
Qed.

Hypothesis lane_disc : lane_spec L = bounded fifo_add sp_cap DS_ERROR_FULL.
Hypothesis lane_inserts : insert_spec l0 (ln_bpf (Lane := L)).
Hypothesis lane_pops : pop_spec l0 (ln_user (Lane := L)).
Hypothesis lane_holds : forall D l m, sp_repr D l m -> c_inv (Container := ln_bpf (Lane := L)) own l m.

Lemma ring_duet_lane D m : sp_repr D l0 m ->
  exists U repr, exists DL : DuetLaws U repr repr (lane_spec L) l0 lim (ln_bpf (Lane := L)) (ln_user (Lane := L)), exists g,
    @du_pcells U = sp_pcells /\ @du_ccells U = sp_ccells /\ du_producing [] (m, g) /\ du_consuming [] (m, g) /\
    (forall O, triple du_crely du_cguar (du_consuming O) (pointer_set Plain cell) (fun r s => r = true /\ du_consuming O s)) /\
    (forall l m', repr l m' -> c_inv (Container := ln_bpf (Lane := L)) own l m').
Proof.
  intros Hr. rewrite lane_disc. exists (ring_duet l0), (ring_holds sp_repr).
  exists (ring_duet_laws l0 lim _ _ lane_inserts lane_pops), (mk_view D l0 []).
  destruct (ring_start l0 D m Hr) as [Hp Hc]. split_and!; try done; [apply ring_polled|].
  intros l m' (D' & Hr'). by eapply lane_holds.
Qed.
End ring_lane.

(** ** The userspace allocator asks the kernel for nothing *)

Lemma user_alloc_call_free sym spin sz : call_free (User.bpf_arena_alloc_user sym spin sz).
Proof.
  unfold User.bpf_arena_alloc_user, User.lock_acquire, User.user_page_for, User.user_carve, User.lock_release.
  call_free.
Qed.

(** ** The three rings *)

Section rings.
Context `{K : Kernel} `{Al : Allocator} `{U : UserOps}.
Variable head : Z.

#[export] Instance folly_duet_lane : DuetLane (folly_spsc_lane head) (folly_spsc_up head).
Proof.
  intros lim own l0 m pc cc (recs & Hp & -> & D & Hr) Hapart Hout.
  pose (R := folly_ring head recs FOLLY_SPSC_QUEUE_SIZE pc cc).
  assert (HL : SpscRingLaws R) by by apply folly_ring_laws.
  apply (ring_duet_lane (R := R) l0 lim _ (folly_spsc_lane head) (SpscHead.records head) recs) with D; [| |done| | | |done].
  - intros D' l m' Hr'. by destruct Hr'.
  - destruct Hp. lia.
  - by apply folly_insert_spec.
  - by apply (folly_pop_spec (Al := user_build Al)).
  - intros D' l m' Hr'. exists recs. split; [done|]. split; [done|]. by exists D'.
Qed.

#[export] Instance ck_duet_lane : DuetLane (ck_ring_spsc_lane head) (ck_ring_spsc_up head).
Proof.
  intros lim own l0 m pc cc (sl & Hp & -> & D & Hr) Hapart Hout.
  pose (R := ck_ring head sl CK_RING_SPSC_QUEUE_CAPACITY_LOG pc cc).
  assert (HL : SpscRingLaws R) by by apply ck_ring_laws.
  apply (ring_duet_lane (R := R) l0 lim _ (ck_ring_spsc_lane head) (CkRingHead.slots head) sl) with D; [| |done| | | |done].
  - intros D' l m' Hr'. by destruct Hr'.
  - destruct Hp as (_ & ? & _). lia.
  - by apply ck_insert_spec.
  - by apply (ck_pop_spec (Al := user_build Al)).
  - intros D' l m' Hr'. exists sl. split; [done|]. split; [done|]. by exists D'.
Qed.

#[export] Instance io_uring_duet_lane : DuetLane (io_uring_lane head) (io_uring_up head).
Proof.
  intros lim own l0 m pc cc (ents & Hp & -> & D & f & Hr) Hapart Hout.
  pose (R := uring_ring head ents IO_URING_RING_ENTRIES_LOG pc cc).
  assert (HL : SpscRingLaws R) by by apply uring_ring_laws.
  apply (ring_duet_lane (R := R) l0 lim _ (io_uring_lane head) (UringHead.entries head) ents) with D; [| |done| | | |by exists f].
  - intros D' l m' [f' Hr']. by destruct Hr'.
  - destruct Hp. lia.
  - by apply uring_insert_spec.
  - by apply (uring_pop_spec (Al := user_build Al)).
  - intros D' l m' (f' & Hr'). exists ents. split; [done|]. split; [done|]. by exists D', f'.
Qed.

Hypothesis user_alloc_quiet : forall sz, call_free (user_arena_alloc sz).

#[export] Instance folly_quiet_lane : QuietLane (folly_spsc_lane head) (folly_spsc_up head).
Proof.
  split; cbn.
  - unfold ds_spsc_init, ds_spsc_init_c, bpf_arena_alloc. cbn. call_free.
  - intros k v. unfold ds_spsc_insert, ds_spsc_insert_c. call_free.
  - done.
Qed.

#[export] Instance ck_quiet_lane : QuietLane (ck_ring_spsc_lane head) (ck_ring_spsc_up head).
Proof.
  split; cbn.
  - unfold ds_ck_ring_spsc_init, ds_ck_ring_spsc_init_c, bpf_arena_alloc. cbn. call_free.
  - intros k v. unfold ds_ck_ring_spsc_insert, ds_ck_ring_spsc_insert_c. call_free.
  - done.
Qed.

#[export] Instance io_uring_quiet_lane : QuietLane (io_uring_lane head) (io_uring_up head).
Proof.
  split; cbn.
  - unfold ds_io_uring_init, ds_io_uring_init_c, bpf_arena_alloc. cbn. call_free.
  - intros k v. unfold ds_io_uring_insert, ds_io_uring_insert_c. call_free.
  - done.
Qed.
End rings.
