(* ===== verification/Report.v ===== *)
(** * The statistics a skeleton prints when it ends ([print_statistics] of [src/skeleton_*.c]).

    [print_statistics] reads the counters of the two programs, the state of the two lanes and the
    metrics table; what a skeleton shows of a lane is its own reader. [relay_report] says what
    the printed numbers are after any run. *)
From stdpp Require Import base numbers gmap list fin_maps option strings.
From S2P Require Import Prelude Machine Logic Api Arena Owned Container Linked Ring Vyukhov.
From S2P Require Import FollySpsc CkRing IoUring Kcov CkStack CkFifo MsQueue Metrics.
From S2P Require Import Duet Spsc Relay RelaySpec RelaySystem Skeletons.

(** ** The numbers *)

Record report := {
  rp_prod_ops : Z; rp_prod_failures : Z;
  rp_consume_ops : Z; rp_consume_failures : Z; rp_consumed : Z;
  rp_ku_popped : Z; rp_uk_pushed : Z;
  rp_ku_state : Z; rp_uk_state : Z;
  rp_metrics : list metrics_row
}.

Definition print_statistics (ku_state uk_state : prog Z) (metrics : Z) (ks : kernel_state)
    (rs : relay_state) : prog report :=
  ku ← ku_state;
  uk ← uk_state;
  rows ← ds_metrics_print metrics;
  Ret {| rp_prod_ops := total_kernel_prod_ops ks; rp_prod_failures := total_kernel_prod_failures ks;
         rp_consume_ops := total_kernel_consume_ops ks;
         rp_consume_failures := total_kernel_consume_failures ks;
         rp_consumed := total_kernel_consumed ks;
         rp_ku_popped := ku_dequeued_count rs; rp_uk_pushed := uk_enqueued_count rs;
         rp_ku_state := ku; rp_uk_state := uk; rp_metrics := rows |}.

(** [p ? state : dflt] *)
Definition state_if (test : prog bool) (dflt : Z) (state : prog Z) : prog Z :=
  up ← test;
  if (up : bool) then state else Ret dflt.

(** ** What each skeleton shows of a lane *)

Definition vyukhov_state (head : Z) : prog Z := load Plain (VyukhovHead.count head).

Definition msqueue_state (queue : Z) : prog Z := load Plain (Msqueue.count queue).

Definition ck_stack_state (head : Z) : prog Z := load Plain (StackHead.count head).

Definition folly_spsc_state (head : Z) : prog Z :=
  state_if (folly_spsc_up head USER) 0 (ds_spsc_size_c head).

Definition ck_ring_spsc_state (head : Z) : prog Z :=
  state_if (ck_ring_spsc_up head USER) 0 (ds_ck_ring_spsc_size_c head).

Definition io_uring_state (head : Z) : prog Z :=
  state_if (io_uring_up head USER) 0
    (t ← load Plain (UringHead.prod_tail head);
     h ← load Plain (UringHead.cons_head head);
     Ret (u32 (t - h))).

(** Whether the queue is empty. *)
Definition ck_fifo_spsc_state (head : Z) : prog Z :=
  state_if (ck_fifo_spsc_up head USER) 1
    (e ← ds_ck_fifo_spsc_isempty_c (fifo_of head); Ret (Z.b2z e)).

(** The buffer's skeleton prints no number. *)
Definition kcov_state (head : Z) : prog Z := Ret 0.

Section skeletons.
Variables ku uk metrics : Z.

Definition vyukhov_print_statistics := print_statistics (vyukhov_state ku) (vyukhov_state uk) metrics.
Definition msqueue_print_statistics := print_statistics (msqueue_state ku) (msqueue_state uk) metrics.
Definition ck_stack_print_statistics := print_statistics (ck_stack_state ku) (ck_stack_state uk) metrics.
Definition folly_spsc_print_statistics :=
  print_statistics (folly_spsc_state ku) (folly_spsc_state uk) metrics.
Definition ck_ring_spsc_print_statistics :=
  print_statistics (ck_ring_spsc_state ku) (ck_ring_spsc_state uk) metrics.
Definition io_uring_print_statistics :=
  print_statistics (io_uring_state ku) (io_uring_state uk) metrics.
Definition ck_fifo_spsc_print_statistics :=
  print_statistics (ck_fifo_spsc_state ku) (ck_fifo_spsc_state uk) metrics.
Definition kcov_print_statistics := print_statistics (kcov_state ku) (kcov_state uk) metrics.
End skeletons.

(** [shows l] is what the reader answers for a lane with contents [l]; a lane that is not
    initialised has a state that can be read. *)
Class StateLaws `{K : Kernel} (L : Lane) (state : prog Z) (shows : list ds_kv -> Z) := {
  state_blank m b :
    c_ready (Container := ln_bpf) m -> c_blank (Container := ln_bpf) m ->
    wpr state m b (fun _ m' b' => m' = m /\ b' = b);
  state_live own l m b :
    c_inv (Container := ln_bpf) own l m ->
    wpr state m b (fun r m' b' => r = shows l /\ m' = m /\ b' = b)
}.

Section state.
Context `{K : Kernel} `{Al : Allocator} `{U : UserOps}.

Lemma state_if_ok (test : prog bool) dflt state (up : bool) (v : Z) m b :
  wpr test m b (fun r m' b' => r = up /\ m' = m /\ b' = b) ->
  (up = true -> wpr state m b (fun r m' b' => r = v /\ m' = m /\ b' = b)) ->
  wpr (state_if test dflt state) m b (fun r m' b' =>
    r = (if up then v else dflt) /\ m' = m /\ b' = b).
Proof.
  intros Ht Hs. unfold state_if. eapply wpr_call; [exact Ht|]. intros r m' b' (-> & -> & ->).
  destruct up; [by apply Hs|by apply wpr_ret].
Qed.

(** A reader behind a test of the lane's pointers. *)
Lemma tested_state_laws L up `{!TestLaws L up} dflt state shows :
  (forall own l m b, c_inv (Container := ln_bpf (Lane := L)) own l m ->
     wpr state m b (fun r m' b' => r = shows l /\ m' = m /\ b' = b)) ->
  StateLaws L (state_if (up USER) dflt state) shows.
Proof.
  intros Hs. split.
  - intros m b _ Hb. eapply wpr_mono; [by apply (state_if_ok _ _ _ false 0); [apply test_blank|]|].
    by intros r m' b' (_ & -> & ->).
  - intros own l m b Hi. eapply (state_if_ok _ _ _ true); [by eapply test_live|]. intros _. by eapply Hs.
Qed.

#[export] Instance vyukhov_state_laws head :
  StateLaws (vyukhov_lane head) (vyukhov_state head) Zlen.
Proof.
  split; cbn; unfold vyukhov_state.
  - intros m b (_ & _ & _ & _ & [v E]) _. by eapply wpr_load.
  - intros own l m b (buf & _ & _ & D & []). by eapply wpr_load.
Qed.

#[export] Instance msqueue_state_laws junk head :
  StateLaws (msqueue_lane junk head) (msqueue_state head) (fun l => u64 (Zlen l)).
Proof.
  split; cbn; unfold msqueue_state.
  - intros m b Hr _. destruct (Hr 2) as [v E]; [lia|lia|]. by eapply wpr_load.
  - intros own l m b (ns & lag & _ & []). by eapply wpr_load.
Qed.

#[export] Instance ck_stack_state_laws fuel head :
  StateLaws (ck_stack_lane fuel head) (ck_stack_state head) (fun l => u64 (Zlen l)).
Proof.
  split; cbn; unfold ck_stack_state.
  - intros m b [_ [v E]] _. by eapply wpr_load.
  - intros own l m b (ns & _ & []). by eapply wpr_load.
Qed.

#[export] Instance folly_spsc_state_laws head :
  StateLaws (folly_spsc_lane head) (folly_spsc_state head) Zlen.
Proof.
  apply tested_state_laws; [apply _|]. intros own l m b (recs & Hp & _ & D & Hr).
  by eapply (spsc_size_ok _ _ _ Hp USER).
Qed.

#[export] Instance ck_ring_spsc_state_laws head :
  StateLaws (ck_ring_spsc_lane head) (ck_ring_spsc_state head) Zlen.
Proof.
  apply tested_state_laws; [apply _|]. intros own l m b (sl & Hp & _ & D & Hr).
  by eapply (ck_ring_size_ok _ _ _ Hp USER).
Qed.

#[export] Instance io_uring_state_laws head :
  StateLaws (io_uring_lane head) (io_uring_state head) Zlen.
Proof.
  apply tested_state_laws; [apply _|]. intros own l m b (ents & Hp & _ & D & f & []).
  pose proof (uring_cap _ _ _ Hp). pose proof (Zlen_nonneg l).
  prun. rewrite u32_sub. replace (D + Zlen l - D) with (Zlen l) by lia.
  split; [apply u32_id; lia|done].
Qed.

#[export] Instance ck_fifo_spsc_state_laws `{!AllocLaws Al} head :
  StateLaws (ck_fifo_spsc_lane head) (ck_fifo_spsc_state head) (fun l => Z.b2z (Zlen l =? 0)).
Proof.
  apply tested_state_laws; [apply _|]. intros own l m b (gs & hd & ns & _ & Hr).
  eapply wpr_call; [by eapply (fifo_isempty_ok head USER gs)|]. intros r m' b' (-> & -> & ->).
  by apply wpr_ret.
Qed.

#[export] Instance kcov_state_laws head : StateLaws (kcov_lane head) (kcov_state head) (fun _ => 0).
Proof. split; intros; by apply wpr_ret. Qed.
End state.

(** ** The numbers are those of the histories *)

Definition categories : list ds_metrics_category :=
  [DS_METRICS_LKMM_PRODUCER; DS_METRICS_USER_CONSUMER; DS_METRICS_USER_PRODUCER;
   DS_METRICS_LKMM_CONSUMER].

(** The counting columns of the table. *)
Definition counted (row : metrics_row) : string * Z * Z := (mr_name row, mr_total row, mr_success row).

Section report.
Context `{K : Kernel} `{Al : Allocator} `{U : UserOps} `{Sk : Skeleton}.
Context {flagged : bool} {metrics : Z} {rest : list block} {KU UK : Lane} {b : nat}.
Context `{SL : !SkeletonLaws Sk flagged metrics rest KU UK b}.
Hypothesis metrics_pos : 0 < metrics.

Lemma print_row_counts cat log m b' :
  metrics_repr metrics cat log m ->
  wpr (metrics_print_row metrics cat) m b' (fun row m' b2 => m' = m /\ b2 = b' /\
    counted row = (ds_metrics_category_names cat, u64 (Zlen log), u64 (Zlen (succeeded log)))).
Proof. intros []. unfold metrics_print_row. by prun. Qed.

Lemma print_counts (logs : ds_metrics_category -> list ds_kv) m b' :
  (forall c, metrics_repr metrics c (logs c) m) ->
  wpr (ds_metrics_print metrics) m b' (fun rows m' b2 => m' = m /\ b2 = b' /\
    map counted rows = map (fun c =>
      (ds_metrics_category_names c, u64 (Zlen (logs c)), u64 (Zlen (succeeded (logs c))))) categories).
Proof.
  intros Hr. unfold ds_metrics_print. replace (metrics =? 0) with false by lia.
  do 4 (eapply wpr_call; [by apply (print_row_counts _ _ _ _ (Hr _))|]; intros ? ? ? (-> & -> & ?)).
  apply wpr_ret. split; [done|]. split; [done|]. cbn [map categories]. congruence.
Qed.

(** The samples of a category, counted through the operations they measured. *)
Lemma measured_counts logs a c :
  measures logs a ->
  Zlen (logs c) = Zlen (category_events c a) /\
  Zlen (succeeded (logs c)) = Zlen (List.filter succeeds (category_events c a)).
Proof.
  intros Hm. specialize (Hm c). split.
  { unfold Zlen. by rewrite <- (length_map kv_value), Hm, length_map. }
  revert Hm. generalize (category_events c a). unfold succeeded. induction (logs c) as [|x l IH];
    intros [|ev evs] H; try done. cbn in H. injection H as Hx H. specialize (IH evs H).
  rewrite filter_cons. cbn [List.filter]. destruct (succeeds ev); cbn in Hx.
  - rewrite decide_True by lia. rewrite !Zlen_cons. lia.
  - by rewrite decide_False by lia.
Qed.

Lemma lane_state_ok L state shows `{!StateLaws L state shows} own o m b' :
  lane_ok L own o m ->
  wpr state m b' (fun r m' b2 => (forall l, o = Some l -> r = shows l) /\ m' = m /\ b2 = b').
Proof.
  destruct o as [l|]; cbn.
  - intros Hi. eapply wpr_mono; [by eapply state_live|]. intros r m' b2 (-> & -> & ->).
    split; [by intros l' [= <-]|done].
  - intros (_ & Hr & Hb). eapply wpr_mono; [by eapply state_blank|]. by intros r m' b2 (-> & ->).
Qed.

(** The numbers of a report, read off the abstract relay. *)
Definition report_true (shows_ku shows_uk : list ds_kv -> Z) (a : arelay) (r : report) : Prop :=
  rp_prod_ops r = u64 (Zlen (inserts (ar_hku a))) /\
  rp_prod_failures r = u64 (Zlen (failed (inserts (ar_hku a))) + ar_init_failures a) /\
  rp_consume_ops r = u64 (Zlen (pops (ar_huk a)) + ar_not_ready a) /\
  rp_consume_failures r = u64 (Zlen (failed (pops (ar_huk a))) + ar_not_ready a) /\
  rp_consumed r = u64 (Zlen (popped (ar_huk a))) /\
  rp_ku_popped r = u64 (Zlen (popped (ar_hku a))) /\
  rp_uk_pushed r = u64 (Zlen (accepted (ar_huk a))) /\
  (forall l, ar_ku a = Some l -> rp_ku_state r = shows_ku l) /\
  (forall l, ar_uk a = Some l -> rp_uk_state r = shows_uk l) /\
  map counted (rp_metrics r) = map (fun c =>
    (ds_metrics_category_names c, u64 (Zlen (category_events c a)),
     u64 (Zlen (List.filter succeeds (category_events c a))))) categories.

(** Printing in any state the relay can be in. *)
Lemma report_ok (ku_state uk_state : prog Z) (shows_ku shows_uk : list ds_kv -> Z)
    `{!StateLaws KU ku_state shows_ku} `{!StateLaws UK uk_state shows_uk} a s b' :
  sys_simulated (flagged := flagged) (metrics := metrics) (rest := rest) (KU := KU) (UK := UK) a s ->
  wpr (print_statistics ku_state uk_state metrics (sys_kernel s) (sys_relay s)) (sys_mem s) b'
    (fun r m' b2 => m' = sys_mem s /\ b2 = b' /\ report_true shows_ku shows_uk a r).
Proof.
  intros ((logs & ((own1 & own2 & _ & HK & HU) & Hrep) & Hmeas) & (iu & Eks & _) &
    (ui & data & Ers & _) & _).
  unfold print_statistics.
  eapply wpr_call; [by eapply (lane_state_ok KU ku_state)|]. intros ku m1 b1 (Hku & -> & ->).
  eapply wpr_call; [by eapply (lane_state_ok UK uk_state)|]. intros uk m1 b1 (Huk & -> & ->).
  eapply wpr_call; [by apply print_counts|]. intros rows m1 b1 (-> & -> & Hrows).
  apply wpr_ret. rewrite Eks, Ers. unfold report_true. cbn [rp_prod_ops rp_prod_failures rp_consume_ops
    rp_consume_failures rp_consumed rp_ku_popped rp_uk_pushed rp_ku_state rp_uk_state rp_metrics].
  split_and!; try done. rewrite Hrows. apply map_ext. intros c.
  by destruct (measured_counts logs a c Hmeas) as [-> ->].
Qed.

(** C22. The statistics printed at the end of a run are true: the counters of the kernel program and
    of the relay thread are the numbers of operations, of failures (the file creations that could
    not initialise KU and the triggers that came too early among them) and of pairs moved; the
    state of an initialised lane is read off its contents; and each row of the metrics table
    counts the operations of its category and the successful ones. Printing changes nothing. *)
Theorem relay_report (ku_state uk_state : prog Z) (shows_ku shows_uk : list ds_kv -> Z)
    `{!StateLaws KU ku_state shows_ku} `{!StateLaws UK uk_state shows_uk} junk m acts b' :
  relay_booted (KU := KU) (UK := UK) (metrics := metrics) (rest := rest) m ->
  exists s' a', activities b acts (boot junk m) = Some s' /\
    sys_simulated (flagged := flagged) (metrics := metrics) (rest := rest) (KU := KU) (UK := UK) a' s' /\
    wpr (print_statistics ku_state uk_state metrics (sys_kernel s') (sys_relay s')) (sys_mem s') b'
      (fun r m' b2 => m' = sys_mem s' /\ b2 = b' /\ report_true shows_ku shows_uk a' r).
Proof.
  intros Hm. destruct (relay_run junk m acts Hm) as (s' & a' & E & _ & Hs & _ & _).
  exists s', a'. split; [done|]. split; [done|]. by apply report_ok.
Qed.
End report.
