(* ===== verification/Main.v ===== *)
(** * The userspace programs from the command line to the exit code ([src/skeleton_*.c]).

    [main] of the eight programs is one text up to names: it parses its options, loads the kernel
    program, hands the arena to the allocator, attaches, starts the relay thread, waits for a
    signal, joins the thread, fires the consumer until UK is drained, verifies, prints and destroys
    the skeleton. What the environment answers ([libbpf], [pthread_create], the file creations and
    turns of the relay thread while it waits) is an [environment]; [io] threads the running system
    and a log of what the program did. Progress messages are not modelled, the usage text is. *)
From Stdlib Require Import Ascii.
From stdpp Require Import base numbers gmap list fin_maps option strings.
From S2P Require Import Prelude Machine Logic Api Arena Owned Container Metrics Spsc Relay RelaySpec.
From S2P Require Import RelaySystem Setup Skeletons Report.

#[local] Open Scope string_scope.

(** ** Options *)

(** [getopt] of the C library, for options without arguments: the options of [argv[1..]] in turn,
    [?] for an unknown one; operands are skipped and [--] ends the options. *)
Fixpoint string_chars (s : string) : list Ascii.ascii :=
  match s with EmptyString => [] | String c s' => c :: string_chars s' end.

Definition short_option (optstring : string) (c : Ascii.ascii) : Ascii.ascii :=
  if decide (c ∈ string_chars optstring) then c else "?"%char.

Fixpoint getopt (optstring : string) (argv : list string) : list Ascii.ascii :=
  match argv with
  | [] => []
  | arg :: argv' =>
      if decide (arg = "--") then [] else
      match arg with
      | String "-"%char (String c s) => map (short_option optstring) (c :: string_chars s) ++ getopt optstring argv'
      | _ => getopt optstring argv'
      end
  end.

Record test_config := mk_config { cfg_verify : bool; cfg_print_stats : bool }.

Definition config : test_config := mk_config false true.

(** How [parse_args] ends: it returns 0 or -1, or leaves the program with 0. *)
Inductive parsed := Accepted (config : test_config) | Refused | Helped.

#[export] Instance parsed_eq_dec : EqDecision parsed.
Proof. unfold EqDecision, Decision. repeat decide equality. Defined.

Fixpoint parse_opts (opts : list Ascii.ascii) (config : test_config) : parsed :=
  match opts with
  | [] => Accepted config
  | opt :: opts' =>
      if decide (opt = "v"%char) then parse_opts opts' (mk_config true (cfg_print_stats config))
      else if decide (opt = "s"%char) then parse_opts opts' (mk_config (cfg_verify config) true)
      else if decide (opt = "h"%char) then Helped
      else Refused
  end.

(** The loop of [parse_args], on [argv[1..]]. *)
Definition parse_options (argv : list string) : parsed := parse_opts (getopt "vsh" argv) config.

(** ** A program *)

(** What the eight files differ in: their texts, the function the consumer's uprobe is attached
    to, and what they call on the arena. *)
Class Program := {
  pg_title : string;
  pg_structures : string;
  pg_lane : string;
  pg_trigger : string;
  pg_setup : prog Z;
  pg_verify : prog Z;
  pg_statistics : kernel_state -> relay_state -> prog report
}.

(** The lines of the usage text; [prog] is [argv[0]]. *)
Definition print_usage `{Pg : Program} (prog : string) : list string :=
  [ "Usage: " ++ prog ++ " [OPTIONS]"; "";
    pg_title ++ " relay test (kernel->user->kernel lanes)"; "";
    "OPTIONS:";
    "  -v      Verify both " ++ pg_structures ++ " on exit";
    "  -s      Print statistics on exit (default: enabled)";
    "  -h      Show this help"; "";
    "Flow:";
    "  inode_create -> " ++ pg_lane ++ " (kernel producer)";
    "  UserThread relays KU -> UK (busy loop)";
    "  Ctrl+C triggers uprobe-based kernel consumer on UK" ].

#[local] Close Scope string_scope.

Inductive signal := SIGINT | SIGTERM.

(** What a program does, besides working on the arena. *)
Inductive action :=
  | PrintUsage (lines : list string)
  | OnSignal (sig : signal)
  | OpenAndLoad (ok : bool)
  | SetupAllocator (err : Z)
  | AttachLsm (err : Z)
  | AttachUprobe (func_name : string) (err : Z)
  | CreateThread (err : Z)
  | JoinThread
  | TriggerConsumer
  | VerifyLanes (result : Z)
  | PrintStatistics (r : report)
  | DestroySkeleton.

(** What the environment does: the command line, the answers of the libraries, the files created
    between the attachment of the producer and that of the consumer, what happens while [main]
    waits for a signal, and the files created after the thread has been joined. *)
Record environment := {
  ev_prog : string;
  ev_argv : list string;
  ev_load : bool;
  ev_lsm : Z;
  ev_uprobe : Z;
  ev_thread : Z;
  ev_early : nat;
  ev_running : list activity;
  ev_late : nat
}.

(** ** Running *)

Record world := mk_world { w_system : system; w_log : list action }.

(** [None]: an access faulted or a loop outlived its fuel. *)
Definition io (A : Type) : Type := world -> option (A * world).

Definition io_ret {A} (a : A) : io A := fun w => Some (a, w).
Definition io_bind {A B} (p : io A) (f : A -> io B) : io B := fun w =>
  match p w with Some (a, w') => f a w' | None => None end.

Declare Scope io_scope.
Delimit Scope io_scope with io.
Notation "x <- p ; q" := (io_bind p%io (fun x => q%io))
  (at level 100, p at next level, q at level 200, right associativity) : io_scope.
Notation "p ;;; q" := (io_bind p%io (fun _ => q%io)) (at level 100, q at level 200, right associativity) : io_scope.

#[local] Open Scope io_scope.

Definition act (a : action) : io unit := fun w => Some (tt, mk_world (w_system w) (w_log w ++ [a])).

(** [parse_args]: what is no use of the program prints how to use it. *)
Definition parse_args `{Pg : Program} (prog : string) (argv : list string) : io parsed :=
  match parse_options argv with
  | Accepted config => io_ret (Accepted config)
  | Helped => act (PrintUsage (print_usage prog));;; io_ret Helped
  | Refused => act (PrintUsage (print_usage prog));;; io_ret Refused
  end.

Section main.
Context `{K : Kernel} `{Sk : Skeleton} `{Pg : Program}.
(** The loop budget of the kernel program, and the environment. *)
Variables (b : nat) (ev : environment).

(** A program works on the arena. *)
Definition arena {A} (p : prog A) : io A := fun w =>
  let s := w_system w in
  match run p (sys_mem s) b with
  | Done a m _ => Some (a, mk_world (mk_system m (sys_kernel s) (sys_relay s)) (w_log w))
  | _ => None
  end.

(** The system moves. *)
Definition moves (f : system -> option system) : io unit := fun w =>
  match f (w_system w) with Some s => Some (tt, mk_world s (w_log w)) | None => None end.

Definition happen (acts : list activity) : io unit := moves (activities b acts).

Definition creations (n : nat) : list activity := replicate n InodeCreate.

Definition attach_programs : io Z :=
  act (AttachLsm (ev_lsm ev));;;
  if negb (ev_lsm ev =? 0) then io_ret (ev_lsm ev) else
  happen (creations (ev_early ev));;;
  act (AttachUprobe pg_trigger (ev_uprobe ev));;;
  io_ret (ev_uprobe ev).

(** From the signal on. *)
Definition main_shutdown (config : test_config) : io Z :=
  act JoinThread;;;
  happen (creations (ev_late ev));;;
  act TriggerConsumer;;;
  moves (trigger_kernel_consumer_on_exit b);;;
  (if cfg_verify config then r <- arena pg_verify; act (VerifyLanes r) else io_ret tt);;;
  (if cfg_print_stats config then
     w <- (fun w => Some (w_system w, w));
     r <- arena (pg_statistics (sys_kernel w) (sys_relay w)); act (PrintStatistics r)
   else io_ret tt);;;
  io_ret 0.

(** What happens between the loading of the skeleton and its destruction. *)
Definition main_session (config : test_config) : io Z :=
  err <- arena pg_setup;
  act (SetupAllocator err);;;
  if negb (err =? 0) then io_ret err else
  err <- attach_programs;
  if negb (err =? 0) then io_ret err else
  act (CreateThread (ev_thread ev));;;
  if negb (ev_thread ev =? 0) then io_ret (-1) else
  happen (ev_running ev);;;
  main_shutdown config.

Definition main : io Z :=
  p <- parse_args (ev_prog ev) (ev_argv ev);
  match p with
  | Refused => io_ret 1
  | Helped => io_ret 0
  | Accepted config =>
      act (OnSignal SIGINT);;;
      act (OnSignal SIGTERM);;;
      act (OpenAndLoad (ev_load ev));;;
      if negb (ev_load ev) then io_ret 1 else
      err <- main_session config;
      act DestroySkeleton;;;
      io_ret err
  end.
End main.

(** ** Command lines that are accepted *)

Inductive flag := FlagV | FlagS.

#[export] Instance flag_eq_dec : EqDecision flag.
Proof. solve_decision. Defined.

Definition flag_char (f : flag) : ascii := match f with FlagV => "v" | FlagS => "s" end.

(** A word of a command line: a cluster of flags, or an operand. *)
Inductive word := Cluster (f : flag) (fs : list flag) | Operand (s : string).

Fixpoint of_chars (cs : list ascii) : string :=
  match cs with [] => EmptyString | c :: cs' => String c (of_chars cs') end.

Definition render (w : word) : string :=
  match w with
  | Cluster f fs => String "-" (of_chars (map flag_char (f :: fs)))
  | Operand s => s
  end.

Definition word_flags (w : word) : list flag :=
  match w with Cluster f fs => f :: fs | Operand _ => [] end.

(** Nothing that looks like an option. *)
Definition word_ok (w : word) : Prop :=
  match w with Operand (String "-" (String _ _)) => False | _ => True end.

Lemma chars_of cs : string_chars (of_chars cs) = cs.
Proof. induction cs as [|c cs IH]; [done|]. cbn. by rewrite IH. Qed.

Lemma of_chars_of s : of_chars (string_chars s) = s.
Proof. induction s as [|c s IH]; [done|]. cbn. by rewrite IH. Qed.

Lemma known_flags fs : map (short_option "vsh") (map flag_char fs) = map flag_char fs.
Proof. induction fs as [|[] fs IH]; [done|..]; cbn; rewrite IH; done. Qed.

Definition has (f : flag) (fs : list flag) : bool := existsb (fun g => bool_decide (g = f)) fs.

(** What the loop of [parse_args] makes of flags. *)
Lemma parse_flags fs c :
  parse_opts (map flag_char fs) c =
  Accepted (mk_config (cfg_verify c || has FlagV fs) (cfg_print_stats c || has FlagS fs)).
Proof.
  revert c. induction fs as [|[] fs IH]; intros c; cbn.
  - rewrite !orb_false_r. by destruct c.
  - rewrite IH. cbn. by rewrite orb_true_r.
  - destruct (decide ("s"%char = "v"%char)) as [?|_]; [done|]. rewrite decide_True by done.
    rewrite IH. cbn. by rewrite orb_true_r.
Qed.

(** It accepts nothing else. *)
Lemma accepted_flags opts c c' : parse_opts opts c = Accepted c' -> exists fs, opts = map flag_char fs.
Proof.
  revert c. induction opts as [|o opts IH]; intros c H; [by exists []|]. cbn in H.
  destruct (decide (o = "v"%char)) as [->|_].
  { destruct (IH _ H) as [fs ->]. by exists (FlagV :: fs). }
  destruct (decide (o = "s"%char)) as [->|_].
  { destruct (IH _ H) as [fs ->]. by exists (FlagS :: fs). }
  by destruct (decide (o = "h"%char)).
Qed.

(** The end of the options: the end of the command line, or a double dash. *)
Definition ends_options (argv : list string) : Prop := match argv with [] => True | a :: _ => a = "--"%string end.

Lemma getopt_end optstring argv : ends_options argv -> getopt optstring argv = [].
Proof. destruct argv as [|a argv]; [done|]. cbn. by intros ->. Qed.

Lemma getopt_word w argv : word_ok w -> getopt "vsh" (render w :: argv) = map flag_char (word_flags w) ++ getopt "vsh" argv.
Proof.
  destruct w as [f fs|s]; intros Hw.
  - cbn [render word_flags getopt]. destruct f; cbn [map of_chars flag_char]; rewrite decide_False by (intros H; discriminate H);
      cbn [map]; rewrite chars_of, known_flags; done.
  - cbn [render word_flags map app getopt]. destruct s as [|c [|c' s]]; [done| |].
    + rewrite decide_False by done. by destruct c as [[] [] [] [] [] [] [] []].
    + cbn in Hw. rewrite decide_False by (intros [= -> _]; done).
      by destruct c as [[] [] [] [] [] [] [] []].
Qed.

Lemma flags_back cs fs : map (short_option "vsh") cs = map flag_char fs -> cs = map flag_char fs.
Proof.
  revert fs. induction cs as [|c cs IH]; intros [|f fs] H; try done. cbn in H |- *. injection H as Hc H.
  f_equal; [|by apply IH]. unfold short_option in Hc. destruct (decide _); [done|by destruct f].
Qed.

(** Words whose options are all flags are printed clusters or operands. *)
Lemma word_back s fs argv : s <> "--"%string -> getopt "vsh" (s :: argv) = map flag_char fs ->
  exists w fs', render w = s /\ word_ok w /\ fs = (word_flags w ++ fs')%list /\ getopt "vsh" argv = map flag_char fs'.
Proof.
  intros Hs H.
  assert (Hop : word_ok (Operand s) -> exists w fs', render w = s /\ word_ok w /\ fs = (word_flags w ++ fs')%list /\
    getopt "vsh" argv = map flag_char fs').
  { intros Hw. exists (Operand s), fs. split; [done|]. split; [done|]. split; [done|].
    rewrite <- H. symmetry. by apply (getopt_word (Operand s)). }
  destruct s as [|c [|c' s]]; [by apply Hop|by apply Hop; destruct c as [[] [] [] [] [] [] [] []]|].
  destruct (decide (c = "-"%char)) as [->|Hc].
  2:{ apply Hop. cbn. by destruct c as [[] [] [] [] [] [] [] []]. }
  cbn [getopt] in H. rewrite decide_False in H by done.
  symmetry in H. apply map_eq_app in H as (fs1 & fs2 & -> & H1 & H2). symmetry in H1. apply flags_back in H1.
  destruct fs1 as [|f fs1]; [done|]. cbn [map] in H1. injection H1 as -> H1.
  exists (Cluster f fs1), fs2. split; [|by split_and!].
  cbn [render map of_chars]. by rewrite <- H1, of_chars_of.
Qed.

(** The command lines whose options are [fs]. *)
Definition prints (fs : list flag) (argv : list string) : Prop :=
  exists ws tl, argv = (map render ws ++ tl)%list /\ Forall word_ok ws /\ ends_options tl /\ fs = concat (map word_flags ws).

Lemma getopt_flags fs argv : getopt "vsh" argv = map flag_char fs <-> prints fs argv.
Proof.
  split.
  - revert fs. induction argv as [|s argv IH]; intros fs H.
    { destruct fs; [|done]. by exists [], []. }
    destruct (decide (s = "--"%string)) as [->|Hs].
    { destruct fs; [|done]. by exists [], ("--"%string :: argv). }
    destruct (word_back s fs argv Hs H) as (w & fs' & <- & Hw & -> & H').
    destruct (IH fs' H') as (ws & tl & -> & Hws & Htl & ->). exists (w :: ws), tl. by split_and!; [|constructor|..].
  - intros (ws & tl & -> & Hws & Htl & ->). induction Hws as [|w ws Hw _ IH]; [by apply getopt_end|].
    cbn [map concat app]. by rewrite getopt_word, IH, map_app.
Qed.

(** C25. Parsing inverts printing: the command lines that [parse_options] accepts are exactly those
    that consist of clusters of the flags v and s and of operands, up to a double dash, and the
    configuration is then to verify if some cluster contains v, and always to print statistics. *)
Theorem parse_options_roundtrip argv cfg :
  parse_options argv = Accepted cfg <-> exists fs, prints fs argv /\ cfg = mk_config (has FlagV fs) true.
Proof.
  unfold parse_options. split.
  - intros H. destruct (accepted_flags _ _ _ H) as [fs E]. rewrite E, parse_flags in H. injection H as <-.
    exists fs. split; [by apply getopt_flags|done].
  - intros (fs & Hp & ->). apply getopt_flags in Hp. by rewrite Hp, parse_flags.
Qed.

(** Whatever is accepted, the statistics are printed. *)
Lemma accepted_prints argv cfg : parse_options argv = Accepted cfg -> cfg_print_stats cfg = true.
Proof.
  unfold parse_options. intros H. destruct (accepted_flags _ _ _ H) as [fs E]. rewrite E, parse_flags in H.
  by injection H as <-.
Qed.

(** ** What a program holds, and in which order *)

(** The skeleton is loaded, the producer and the consumer are attached, the thread runs; and the
    thread has been joined. *)
Record held := mk_held {
  h_loaded : bool; h_producer : bool; h_consumer : bool; h_thread : bool; h_joined : bool
}.

Definition released (joined : bool) : held := mk_held false false false false joined.

(** What an action needs, and what it changes. *)
Definition act_step (h : held) (a : action) : option held :=
  let '(mk_held l p c t j) := h in
  match a with
  | PrintUsage _ | OnSignal _ => if l then None else Some h
  | OpenAndLoad ok => if l then None else Some (mk_held ok false false false j)
  | SetupAllocator _ => if l && negb p then Some h else None
  | AttachLsm err => if l && negb p then Some (mk_held l (err =? 0) c t j) else None
  | AttachUprobe _ err => if l && p && negb c then Some (mk_held l p (err =? 0) t j) else None
  | CreateThread err => if l && p && c && negb t then Some (mk_held l p c (err =? 0) j) else None
  | JoinThread => if t then Some (mk_held l p c false true) else None
  | TriggerConsumer => if l && c && negb t then Some h else None
  | VerifyLanes _ | PrintStatistics _ => if l && negb t then Some h else None
  | DestroySkeleton => if l && negb t then Some (released j) else None
  end.

Definition holds_after (log : list action) : option held :=
  foldl (fun o a => h ← o; act_step h a) (Some (released false)) log.

Lemma holds_snoc log a : holds_after (log ++ [a])%list = (h ← holds_after log; act_step h a).
Proof. unfold holds_after. by rewrite foldl_app. Qed.

(** What is held after a program that ends, in terms of what was held before. *)
Definition keeps {A} (h : held) (p : io A) (Q : A -> held -> Prop) : Prop := forall w a w',
  holds_after (w_log w) = Some h -> p w = Some (a, w') -> exists h', holds_after (w_log w') = Some h' /\ Q a h'.

Lemma keeps_ret {A} h (a : A) (Q : A -> held -> Prop) : Q a h -> keeps h (io_ret a) Q.
Proof. intros HQ w a' w' Hw [= <- <-]. by exists h. Qed.

Lemma keeps_bind {A B} h (p : io A) (f : A -> io B) Q R :
  keeps h p Q -> (forall a h', Q a h' -> keeps h' (f a) R) -> keeps h (io_bind p f) R.
Proof.
  intros Hp Hf w b w2 Hw H. unfold io_bind in H. destruct (p w) as [[a w1]|] eqn:E; [|done].
  destruct (Hp w a w1 Hw E) as (h1 & Hw1 & HQ). by apply (Hf a h1 HQ w1).
Qed.

Lemma keeps_act {A} h a h' (q : io A) Q :
  act_step h a = Some h' -> keeps h' q Q -> keeps h (act a;;; q) Q.
Proof.
  intros Ha Hq w x w' Hw H. cbn in H. eapply Hq; [|exact H]. cbn. by rewrite holds_snoc, Hw.
Qed.

Lemma keeps_last h a h' (Q : unit -> held -> Prop) : act_step h a = Some h' -> Q tt h' -> keeps h (act a) Q.
Proof. intros Ha HQ. by apply (keeps_act h a h' (io_ret tt)), keeps_ret. Qed.

(** Work on the arena changes nothing that is held. *)
Definition silent {A} (p : io A) : Prop := forall w a w', p w = Some (a, w') -> w_log w' = w_log w.

Lemma keeps_silent {A B} h (p : io A) (f : A -> io B) Q :
  silent p -> (forall a, keeps h (f a) Q) -> keeps h (io_bind p f) Q.
Proof.
  intros Hp Hf. apply (keeps_bind _ _ _ (fun _ h' => h' = h)); [|by intros a h' ->].
  intros w a w' Hw H. exists h. by rewrite (Hp _ _ _ H).
Qed.

Section lifecycle.
Context `{K : Kernel} `{Sk : Skeleton} `{Pg : Program}.
Variables (b : nat) (ev : environment).

Lemma arena_silent {A} (p : prog A) : silent (arena b p).
Proof. intros w a w' H. unfold arena in H. by destruct (run _ _ _) as [? ? ?| |]; [injection H as <- <-|..]. Qed.

Lemma moves_silent f : silent (moves f).
Proof. intros w a w' H. unfold moves in H. by destruct (f _); [injection H as <- <-|]. Qed.

Lemma keeps_parse :
  keeps (released false) (parse_args (ev_prog ev) (ev_argv ev)) (fun p h =>
    h = released false /\ p = parse_options (ev_argv ev)).
Proof.
  unfold parse_args. destruct (parse_options (ev_argv ev)); [by apply keeps_ret|eapply keeps_act; [done|]..];
    by apply keeps_ret.
Qed.

Lemma keeps_attach :
  keeps (mk_held true false false false false) (attach_programs b ev) (fun err h => exists p c,
    h = mk_held true p c false false /\ (err = 0 -> p = true /\ c = true)).
Proof.
  unfold attach_programs. eapply keeps_act; [done|]. destruct (ev_lsm ev =? 0) eqn:El; cbn [negb].
  - apply keeps_silent; [apply moves_silent|]. intros []. eapply keeps_act; [done|]. apply keeps_ret.
    exists true, (ev_uprobe ev =? 0). split; [done|]. intros ->. done.
  - apply keeps_ret. exists false, false. split; [done|]. lia.
Qed.

Lemma keeps_shutdown config :
  keeps (mk_held true true true true false) (main_shutdown b ev config) (fun err h =>
    err = 0 /\ h = mk_held true true true false true).
Proof.
  unfold main_shutdown. eapply keeps_act; [done|]. apply keeps_silent; [apply moves_silent|]. intros [].
  eapply keeps_act; [done|]. apply keeps_silent; [apply moves_silent|]. intros [].
  apply (keeps_bind _ _ _ (fun _ h => h = mk_held true true true false true)).
  { destruct (cfg_verify config); [|by apply keeps_ret]. apply keeps_silent; [apply arena_silent|]. intros r.
    by eapply keeps_last. }
  intros [] h ->. apply (keeps_bind _ _ _ (fun _ h => h = mk_held true true true false true)).
  { destruct (cfg_print_stats config); [|by apply keeps_ret]. apply keeps_silent; [by intros w a w' [= <- <-]|]. intros w.
    apply keeps_silent; [apply arena_silent|]. intros r.
    by eapply keeps_last. }
  intros [] h ->. by apply keeps_ret.
Qed.

Lemma keeps_session config :
  keeps (mk_held true false false false false) (main_session b ev config) (fun err h => exists p c j,
    h = mk_held true p c false j /\ (err = 0 <-> j = true)).
Proof.
  unfold main_session. apply keeps_silent; [apply arena_silent|]. intros err. eapply keeps_act; [done|].
  destruct (err =? 0) eqn:E0; cbn [negb].
  2:{ apply keeps_ret. exists false, false, false. split; [done|]. split; [lia|done]. }
  eapply keeps_bind; [apply keeps_attach|]. cbn. intros err1 h (p & c & -> & Hpc). destruct (err1 =? 0) eqn:E1; cbn [negb].
  2:{ apply keeps_ret. exists p, c, false. split; [done|]. split; [lia|done]. }
  destruct Hpc as [-> ->]; [lia|]. eapply keeps_act; [done|]. destruct (ev_thread ev =? 0); cbn [negb].
  2:{ apply keeps_ret. exists true, true, false. split; [done|]. by split. }
  apply keeps_silent; [apply moves_silent|]. intros [] w a w' Hw H.
  destruct (keeps_shutdown config w a w' Hw H) as (h & Hh & -> & ->). eexists. split; [exact Hh|].
  exists true, true, true. by split.
Qed.

(** C24. Whatever the environment answers, a program that ends has done things in the right order
    and left nothing behind: it uses and destroys the skeleton only if it was loaded, fires the
    consumer only when it is attached, verifies, prints and destroys only when no relay thread is
    running, joins the thread exactly when it was created, and in the end holds neither skeleton,
    attachments nor thread. It exits with 0 exactly if help was asked for or the relay ran. *)
Theorem main_releases w code w' : w_log w = [] -> main b ev w = Some (code, w') ->
  exists joined, holds_after (w_log w') = Some (released joined) /\
    (code = 0 <-> parse_options (ev_argv ev) = Helped \/ joined = true).
Proof.
  intros Hw H.
  assert (Hk : keeps (released false) (main b ev) (fun code h => exists joined,
    h = released joined /\ (code = 0 <-> parse_options (ev_argv ev) = Helped \/ joined = true))).
  { unfold main. eapply keeps_bind; [apply keeps_parse|]. cbn beta. intros p h [-> ->].
    destruct (parse_options (ev_argv ev)) as [config| |].
    - eapply keeps_act; [done|]. eapply keeps_act; [done|]. eapply keeps_act; [done|].
      destruct (ev_load ev); cbn [negb]; [|apply keeps_ret; exists false; split; [done|]; by split; [|intros []]].
      eapply keeps_bind; [apply keeps_session|]. intros err h (p & c & j & -> & Hj).
      eapply keeps_act; [done|]. apply keeps_ret. exists j. split; [done|]. rewrite Hj. split; [by right|by intros []].
    - apply keeps_ret. exists false. split; [done|]. by split; [|intros []].
    - apply keeps_ret. exists false. split; [done|]. split; [by left|done]. }
  destruct (Hk w code w' ltac:(by rewrite Hw) H) as (h & Hh & j & -> & Hj). by exists j.
Qed.
End lifecycle.

(** ** How a program exits *)

Section exits.
Context `{K : Kernel} `{Sk : Skeleton} `{Pg : Program}.
Variables (b : nat) (ev : environment).

(** What a loaded program tries, in this order, each with the exit code if it fails; [err] is what
    [setup_userspace_allocator] answers. *)
Definition attempts (err : Z) : list (action * Z) :=
  [(SetupAllocator err, err); (AttachLsm (ev_lsm ev), ev_lsm ev);
   (AttachUprobe pg_trigger (ev_uprobe ev), ev_uprobe ev);
   (CreateThread (ev_thread ev), if ev_thread ev =? 0 then 0 else -1)].

Fixpoint first_failure (l : list (action * Z)) : option Z :=
  match l with
  | [] => None
  | (_, code) :: l' => if code =? 0 then first_failure l' else Some code
  end.

(** What has been tried when the first failure ends it. *)
Fixpoint attempted (l : list (action * Z)) : list action :=
  match l with
  | [] => []
  | (a, code) :: l' => a :: if code =? 0 then attempted l' else []
  end.

(** Files may be created from the moment the producer is attached. *)
Definition early_steps (err : Z) : list activity :=
  if (err =? 0) && (ev_lsm ev =? 0) then creations (ev_early ev) else [].

Definition opening : list action := [OnSignal SIGINT; OnSignal SIGTERM; OpenAndLoad (ev_load ev)].

(** A whole run over the arena [m1] that the setup leaves: every file creation and turn of the relay
    thread, the shutdown procedure, then the verification if it is asked for and the statistics, on the state
    they find. *)
Definition whole_run (cfg : test_config) (junk : ds_kv) (m1 : mem) (w : world) : Prop :=
  exists s1 s2 v m3 m4 r b1 b2,
    activities b (creations (ev_early ev) ++ ev_running ev ++ creations (ev_late ev)) (boot junk m1) = Some s1 /\
    trigger_kernel_consumer_on_exit b s1 = Some s2 /\
    (if cfg_verify cfg then run pg_verify (sys_mem s2) b = Done v m3 b1 else m3 = sys_mem s2) /\
    run (pg_statistics (sys_kernel s2) (sys_relay s2)) m3 b = Done r m4 b2 /\
    w = mk_world (mk_system m4 (sys_kernel s2) (sys_relay s2))
      (opening ++ attempted (attempts 0) ++ [JoinThread; TriggerConsumer] ++
       (if cfg_verify cfg then [VerifyLanes v] else []) ++ [PrintStatistics r; DestroySkeleton]).

Lemma activities_app xs ys s :
  activities b (xs ++ ys) s = (s' ← activities b xs s; activities b ys s').
Proof. revert s. induction xs as [|x xs IH]; intros s; [done|]. cbn. destruct (activity_step b x s); [apply IH|done]. Qed.

Lemma after_happen {A} acts (f : unit -> io A) s l :
  io_bind (happen b acts) f (mk_world s l) = (s' ← activities b acts s; f tt (mk_world s' l)).
Proof. unfold io_bind, happen, moves. cbn. by destruct (activities b acts s). Qed.

Lemma after_act {A} a (q : io A) s l : (act a;;; q) (mk_world s l) = q (mk_world s (l ++ [a])).
Proof. done. Qed.

Lemma bind_bind {A B C} (p : io A) (f : A -> io B) (g : B -> io C) w :
  io_bind (io_bind p f) g w = io_bind p (fun a => io_bind (f a) g) w.
Proof. unfold io_bind. by destruct (p w) as [[a w']|]. Qed.

(** The attachment, in front of the rest of the session. *)
Lemma after_attach {A} (f : Z -> io A) s l :
  io_bind (attach_programs b ev) f (mk_world s l) =
    if negb (ev_lsm ev =? 0) then f (ev_lsm ev) (mk_world s (l ++ [AttachLsm (ev_lsm ev)])) else
    s' ← activities b (creations (ev_early ev)) s;
    f (ev_uprobe ev) (mk_world s' (l ++ [AttachLsm (ev_lsm ev); AttachUprobe pg_trigger (ev_uprobe ev)])).
Proof.
  unfold attach_programs. rewrite bind_bind, after_act. destruct (ev_lsm ev =? 0); cbn [negb]; [|done].
  rewrite bind_bind, after_happen. destruct (activities _ _ _) as [s1|]; [|done]. cbn.
  by rewrite <- app_assoc.
Qed.

(** The session of a loaded program whose setup answers [err] and leaves [m1]. *)
Lemma session_fails cfg junk m m1 b1 err code :
  run pg_setup m b = Done err m1 b1 -> first_failure (attempts err) = Some code ->
  main_session b ev cfg (mk_world (boot junk m) opening) =
    (s ← activities b (early_steps err) (boot junk m1); Some (code, mk_world s (opening ++ attempted (attempts err)))).
Proof.
  intros E Hf. unfold main_session, early_steps. unfold io_bind at 1, arena. cbn [w_system boot sys_mem]. rewrite E.
  rewrite after_act. cbn [attempts first_failure attempted] in *.
  destruct (err =? 0); cbn [negb andb]; [|by injection Hf as <-].
  rewrite after_attach. destruct (Z.eqb_spec (ev_lsm ev) 0) as [El|El]; cbn [negb].
  2:{ replace (ev_lsm ev =? 0) with false by lia. injection Hf as <-. by rewrite <- app_assoc. }
  destruct (activities _ _ _) as [s1|]; [|done]. cbn [option_bind mbind].
  destruct (Z.eqb_spec (ev_uprobe ev) 0) as [Eu|Eu]; cbn [negb].
  2:{ replace (ev_uprobe ev =? 0) with false by lia. injection Hf as <-. by rewrite <- app_assoc. }
  rewrite after_act. destruct (ev_thread ev =? 0) eqn:Et; cbn [negb]; [done|].
  injection Hf as <-. by rewrite <- !app_assoc.
Qed.
(** The session of a program for which everything comes up. *)
Lemma session_comes_up cfg junk m m1 b1 :
  run pg_setup m b = Done 0 m1 b1 -> first_failure (attempts 0) = None ->
  main_session b ev cfg (mk_world (boot junk m) opening) =
    (s ← activities b (creations (ev_early ev) ++ ev_running ev) (boot junk m1);
     main_shutdown b ev cfg (mk_world s (opening ++ attempted (attempts 0)))).
Proof.
  intros E Hf. unfold main_session. unfold io_bind at 1, arena. cbn [w_system boot sys_mem]. rewrite E.
  rewrite after_act, activities_app. cbn [attempts first_failure attempted Z.eqb negb] in *. rewrite after_attach.
  destruct (ev_lsm ev =? 0); [|done]. cbn [negb]. change (mk_system m1 _ _) with (boot junk m1).
  destruct (activities b (creations _) _) as [s1|]; [|done]. cbn [option_bind mbind].
  destruct (ev_uprobe ev =? 0); [|done]. cbn [negb]. rewrite after_act.
  destruct (ev_thread ev =? 0); [|done]. cbn [negb]. rewrite after_happen. cbn [w_log Z.eqb]. by rewrite <- !app_assoc.
Qed.

Lemma bound {A B} (p : io A) (f : A -> io B) w x :
  io_bind p f w = Some x <-> exists a w1, p w = Some (a, w1) /\ f a w1 = Some x.
Proof.
  unfold io_bind. destruct (p w) as [[a w1]|].
  - split; [by exists a, w1|]. by intros (? & ? & [= <- <-] & ?).
  - split; [done|]. by intros (? & ? & ? & _).
Qed.

Lemma moved {A} f (g : unit -> io A) s l x :
  io_bind (moves f) g (mk_world s l) = Some x <-> exists s', f s = Some s' /\ g tt (mk_world s' l) = Some x.
Proof.
  unfold io_bind, moves. cbn. destruct (f s) as [s'|].
  - split; [by exists s'|]. by intros (? & [= <-] & ?).
  - split; [done|]. by intros (? & ? & _).
Qed.

Lemma worked {A B} (p : prog A) (g : A -> io B) s l x :
  io_bind (arena b p) g (mk_world s l) = Some x <-> exists a m b1,
    run p (sys_mem s) b = Done a m b1 /\ g a (mk_world (mk_system m (sys_kernel s) (sys_relay s)) l) = Some x.
Proof.
  unfold io_bind, arena. cbn. destruct (run p (sys_mem s) b) as [a m b1| |].
  - split; [by exists a, m, b1|]. by intros (? & ? & ? & [= <- <- <-] & ?).
  - split; [done|]. by intros (? & ? & ? & ? & _).
  - split; [done|]. by intros (? & ? & ? & ? & _).
Qed.

(** What the verification and the statistics come to. *)
Lemma checks_run cfg s l code w : cfg_print_stats cfg = true ->
  ((if cfg_verify cfg then r <- arena b pg_verify; act (VerifyLanes r) else io_ret tt);;;
   (if cfg_print_stats cfg then
      w <- (fun w => Some (w_system w, w));
      r <- arena b (pg_statistics (sys_kernel w) (sys_relay w)); act (PrintStatistics r)
    else io_ret tt);;;
   io_ret 0) (mk_world s l) = Some (code, w) <->
  code = 0 /\ exists v m3 m4 r b1 b2,
    (if cfg_verify cfg then run pg_verify (sys_mem s) b = Done v m3 b1 else m3 = sys_mem s) /\
    run (pg_statistics (sys_kernel s) (sys_relay s)) m3 b = Done r m4 b2 /\
    w = mk_world (mk_system m4 (sys_kernel s) (sys_relay s))
      (l ++ (if cfg_verify cfg then [VerifyLanes v] else []) ++ [PrintStatistics r]).
Proof.
  intros ->. assert (Hstats : forall m3 l', ((w <- (fun w => Some (w_system w, w));
      r <- arena b (pg_statistics (sys_kernel w) (sys_relay w)); act (PrintStatistics r));;; io_ret 0)
      (mk_world (mk_system m3 (sys_kernel s) (sys_relay s)) l') = Some (code, w) <-> exists m4 r b2,
    code = 0 /\ run (pg_statistics (sys_kernel s) (sys_relay s)) m3 b = Done r m4 b2 /\
    w = mk_world (mk_system m4 (sys_kernel s) (sys_relay s)) (l' ++ [PrintStatistics r])).
  { intros m3 l'. rewrite !bind_bind. unfold io_bind at 1. cbn [w_system sys_kernel sys_relay]. rewrite bind_bind, worked.
    split; intros (r & m4 & b2 & E & H); [|destruct H as [H ->]]. 
    - injection H as <- <-. by exists m4, r, b2.
    - subst code. by exists m4, r, b2. }
  destruct (cfg_verify cfg).
  - rewrite bind_bind, worked. split.
    + intros (v & m3 & b1 & Ev & H). rewrite after_act in H. apply Hstats in H as (m4 & r & b2 & -> & Er & ->).
      split; [done|]. exists v, m3, m4, r, b1, b2. by rewrite <- app_assoc.
    + intros (-> & v & m3 & m4 & r & b1 & b2 & Ev & Er & ->). exists v, m3, b1. split; [done|]. rewrite after_act.
      apply Hstats. exists m4, r, b2. by rewrite <- app_assoc.
  - cbn. destruct s as [m ks rs]. rewrite (Hstats m l). cbn. split.
    + intros (m4 & r & b2 & -> & Er & ->). split; [done|]. by exists 0, m, m4, r, 0%nat, b2.
    + intros (-> & v & m3 & m4 & r & b1 & b2 & -> & Er & ->). by exists m4, r, b2.
Qed.

(** From the signal on: exactly when the steps end does the program, and with 0, whatever the verification says. *)
Lemma shutdown_runs cfg s l code w : cfg_print_stats cfg = true ->
  main_shutdown b ev cfg (mk_world s l) = Some (code, w) <->
  code = 0 /\ exists s1 s2 v m3 m4 r b1 b2,
    activities b (creations (ev_late ev)) s = Some s1 /\ trigger_kernel_consumer_on_exit b s1 = Some s2 /\
    (if cfg_verify cfg then run pg_verify (sys_mem s2) b = Done v m3 b1 else m3 = sys_mem s2) /\
    run (pg_statistics (sys_kernel s2) (sys_relay s2)) m3 b = Done r m4 b2 /\
    w = mk_world (mk_system m4 (sys_kernel s2) (sys_relay s2))
      (l ++ [JoinThread; TriggerConsumer] ++ (if cfg_verify cfg then [VerifyLanes v] else []) ++ [PrintStatistics r]).
Proof.
  intros Hp. unfold main_shutdown. rewrite after_act, after_happen, bind_Some. split.
  - intros (s1 & E1 & H). rewrite after_act in H. apply moved in H as (s2 & E2 & H).
    apply checks_run in H as (-> & v & m3 & m4 & r & b1 & b2 & Ev & Er & ->); [|done]. split; [done|].
    exists s1, s2, v, m3, m4, r, b1, b2. by rewrite <- !app_assoc.
  - intros (-> & s1 & s2 & v & m3 & m4 & r & b1 & b2 & E1 & E2 & Ev & Er & ->). exists s1. split; [done|].
    rewrite after_act. apply moved. exists s2. split; [done|]. apply checks_run; [done|]. split; [done|].
    exists v, m3, m4, r, b1, b2. by rewrite <- !app_assoc.
Qed.

Lemma first_failure_code l code : first_failure l = Some code -> code <> 0.
Proof.
  induction l as [|[a c] l IH]; [done|]. cbn. destruct (Z.eqb_spec c 0); [done|]. by intros [= <-].
Qed.

Lemma session_whole cfg junk m m1 b1 : cfg_print_stats cfg = true ->
  run pg_setup m b = Done 0 m1 b1 -> first_failure (attempts 0) = None -> forall code w,
  (err <- main_session b ev cfg; act DestroySkeleton;;; io_ret err) (mk_world (boot junk m) opening) = Some (code, w) <->
  code = 0 /\ whole_run cfg junk m1 w.
Proof.
  intros Hp E Hf code w. pose proof (session_comes_up cfg junk m m1 b1 E Hf) as Hs. split.
  - intros (c & w1 & H1 & H2)%bound. rewrite Hs in H1. apply bind_Some in H1 as (s & Es & H1).
    apply shutdown_runs in H1 as (-> & s1 & s2 & v & m3 & m4 & r & b2 & b3 & E1 & E2 & Ev & Er & ->); [|done].
    injection H2 as <- <-. split; [done|]. exists s1, s2, v, m3, m4, r, b2, b3.
    rewrite app_assoc, activities_app, Es. split_and!; [done..|].
    cbn [w_system w_log]. rewrite <- !app_assoc. cbn [app]. by rewrite <- !app_assoc.
  - intros (-> & s1 & s2 & v & m3 & m4 & r & b2 & b3 & E1 & E2 & Ev & Er & ->).
    rewrite app_assoc, activities_app in E1. apply bind_Some in E1 as (s & Es & E1).
    apply bound. eexists 0, _. rewrite Hs, Es. split; [|cbn [io_ret]; rewrite after_act].
    { apply shutdown_runs; [done|]. split; [done|]. exists s1, s2, v, m3, m4, r, b2, b3. by split_and!. }
    unfold io_ret. by rewrite <- !app_assoc.
Qed.

Lemma main_loaded cfg s : parse_options (ev_argv ev) = Accepted cfg -> ev_load ev = true ->
  main b ev (mk_world s []) = (err <- main_session b ev cfg; act DestroySkeleton;;; io_ret err) (mk_world s opening).
Proof. intros Hp Hl. unfold main, opening, io_bind at 1, parse_args. by rewrite Hp, !Hl. Qed.

Lemma main_not_loaded s :
  match parse_options (ev_argv ev) with
  | Refused => main b ev (mk_world s []) = Some (1, mk_world s [PrintUsage (print_usage (ev_prog ev))])
  | Helped => main b ev (mk_world s []) = Some (0, mk_world s [PrintUsage (print_usage (ev_prog ev))])
  | Accepted _ => ev_load ev = false -> main b ev (mk_world s []) = Some (1, mk_world s opening)
  end.
Proof.
  unfold main, opening, io_bind at 1, parse_args. destruct (parse_options (ev_argv ev)); [|done..].
  intros Hl. by rewrite Hl.
Qed.

(** C23. How a program exits, in every environment, over a freshly loaded arena of [npages] pages at
    [base]. A bad option prints the usage and exits with 1, asking for help prints it and exits
    with 0, a skeleton that cannot be loaded exits with 1. Otherwise the allocator is set up, over
    every page of the arena but the first (an arena of one page is refused), and nothing outside
    its statics is touched. If then the setup or a later attempt fails, the program has made the
    attempts up to the first that failed, has destroyed the skeleton and exits with the code of
    that failure, which is not 0; of the relay only the files created in the meantime have been
    seen. If everything comes up, the program ends exactly if the steps of the relay, the shutdown
    procedure, the verification asked for and the statistics do, it has done these things in this
    order, and it exits with 0, even if the verification failed. *)
Theorem main_exits sym base npages k junk m :
  pg_setup = setup_userspace_allocator sym base npages -> 4 <= k <= 30 ->
  0 < base -> base mod 2 ^ k = 0 -> base + npages * 2 ^ k < 2 ^ 64 - 2 ^ k ->
  sym + 56 <= base \/ base + npages * 2 ^ k <= sym -> npages = 1 \/ 3 <= npages ->
  setup_ready sym base npages k m ->
  let start := mk_world (boot junk m) [] in let err := setup_answer npages in
  match parse_options (ev_argv ev) with
  | Refused => main b ev start = Some (1, mk_world (boot junk m) [PrintUsage (print_usage (ev_prog ev))])
  | Helped => main b ev start = Some (0, mk_world (boot junk m) [PrintUsage (print_usage (ev_prog ev))])
  | Accepted cfg =>
      if negb (ev_load ev) then main b ev start = Some (1, mk_world (boot junk m) opening) else
      exists m1, unchanged_outside (in_block sym 56) m m1 /\
        (3 <= npages -> user_state sym (base + 2 ^ k) (npages - 1) k m1 0 0 0 0) /\
        match first_failure (attempts err) with
        | Some code =>
            code <> 0 /\
            main b ev start = (s ← activities b (early_steps err) (boot junk m1);
              Some (code, mk_world s (opening ++ attempted (attempts err) ++ [DestroySkeleton])))
        | None => forall code w, main b ev start = Some (code, w) <-> code = 0 /\ whole_run cfg junk m1 w
        end
  end.
Proof.
  intros Hsetup Hk Hb Hal Hfit Hsym Hn Hready start err. pose proof (main_not_loaded (boot junk m)) as Hout.
  destruct (parse_options (ev_argv ev)) as [cfg| |] eqn:Hparse; [|done..].
  destruct (ev_load ev) eqn:Hl; cbn [negb]; [|by apply Hout]. clear Hout.
  destruct (setup_answers sym base npages k Hk (conj Hb Hal) Hfit Hsym m b Hn Hready) as (m1 & b1 & E & Hu & Hst).
  rewrite <- Hsetup in E. exists m1. split; [done|]. split; [done|]. unfold start. rewrite (main_loaded cfg) by done.
  destruct (first_failure (attempts err)) as [code|] eqn:Hf.
  - split; [by eapply first_failure_code|]. unfold io_bind at 1. rewrite (session_fails cfg junk m m1 b1 err code E Hf).
    destruct (activities _ _ _) as [s1|]; [|done].
    cbn [option_bind mbind]. rewrite after_act. cbn [io_ret]. by rewrite <- app_assoc.
  - assert (err = 0) as E0 by (unfold attempts in Hf; cbn in Hf; destruct (Z.eqb_spec err 0); done).
    unfold err in *. rewrite E0 in *. by apply (session_whole cfg junk m m1 b1 (accepted_prints _ _ Hparse)).
Qed.
End exits.

(** ** From the signal on, over lanes and metrics that are apart from the allocator's range *)

(** [p] ends, with [Q]. *)
Definition ends {A} (p : io A) (w : world) (Q : A -> world -> Prop) : Prop :=
  exists a w', p w = Some (a, w') /\ Q a w'.

Lemma ends_ret {A} (a : A) w (Q : A -> world -> Prop) : Q a w -> ends (io_ret a) w Q.
Proof. by exists a, w. Qed.

Lemma ends_bind {A B} (p : io A) (f : A -> io B) w Q R :
  ends p w Q -> (forall a w', Q a w' -> ends (f a) w' R) -> ends (io_bind p f) w R.
Proof.
  intros (a & w' & E & HQ) Hf. destruct (Hf a w' HQ) as (c & w2 & E2 & HR).
  exists c, w2. unfold io_bind. by rewrite E.
Qed.

Lemma ends_act {A} a (q : io A) s l Q :
  ends q (mk_world s (l ++ [a])) Q -> ends (act a;;; q) (mk_world s l) Q.
Proof. done. Qed.

(** The laws of a program over two lanes; [verdict] says what its verification answers. *)
Class ProgramLaws `{K : Kernel} `{Al : Allocator} (Pg : Program) (flagged : bool) (metrics : Z)
    (rest : list block) (KU UK : Lane) (verdict : arelay -> Z -> Prop) (shows_ku shows_uk : list ds_kv -> Z) := {
  pg_verify_law a s b :
    sys_simulated (flagged := flagged) (metrics := metrics) (rest := rest) (KU := KU) (UK := UK) a s ->
    wpr pg_verify (sys_mem s) b (fun r m' b' => m' = sys_mem s /\ b' = b /\ verdict a r);
  pg_statistics_law a s b :
    sys_simulated (flagged := flagged) (metrics := metrics) (rest := rest) (KU := KU) (UK := UK) a s ->
    wpr (pg_statistics (sys_kernel s) (sys_relay s)) (sys_mem s) b (fun r m' b' =>
      m' = sys_mem s /\ b' = b /\ report_true shows_ku shows_uk a r)
}.

Section run.
Context `{K : Kernel} `{Al : Allocator} `{Sk : Skeleton} `{Pg : Program}.
Context {flagged : bool} {metrics : Z} {rest : list block} {KU UK : Lane} {b : nat}.
Context {verdict : arelay -> Z -> Prop} {shows_ku shows_uk : list ds_kv -> Z}.
Context `{SL : !SkeletonLaws Sk flagged metrics rest KU UK b}
  `{PL : !ProgramLaws Pg flagged metrics rest KU UK verdict shows_ku shows_uk}.
Variables (ev : environment).

Notation dk := (lane_spec KU).
Notation du := (lane_spec UK).
Notation sim := (sys_simulated (flagged := flagged) (metrics := metrics) (rest := rest) (KU := KU) (UK := UK)).

(** The relay has made the steps [acts] since it was loaded. *)
Definition after_steps acts (l : list action) (w : world) : Prop :=
  w_log w = l /\ exists a, abs_activities dk du acts arelay_start a /\ sim a (w_system w).

Lemma abs_activities_app xs ys a1 a2 a3 :
  abs_activities dk du xs a1 a2 -> abs_activities dk du ys a2 a3 -> abs_activities dk du (xs ++ ys) a1 a3.
Proof. induction 1 as [|x xs a1 a a2 Hx _ IH]; [done|]. intros Hy. econstructor; [exact Hx|by apply IH]. Qed.

Lemma ends_happen {A} acts acts' l (f : unit -> io A) w Q : after_steps acts l w ->
  (forall w', after_steps (acts ++ acts') l w' -> ends (f tt) w' Q) -> ends (io_bind (happen b acts') f) w Q.
Proof.
  intros (Hl & a & Ha & Hs) Hf. destruct (activities_ok (KU := KU) (UK := UK) acts' a (w_system w) Hs)
    as (s' & a' & E & Ha' & Hs' & _).
  apply (ends_bind _ _ _ (fun _ w' => after_steps (acts ++ acts') l w')); [|by intros []].
  exists tt, (mk_world s' (w_log w)). split; [unfold happen, moves; by rewrite E|].
  split; [done|]. exists a'. split; [by eapply abs_activities_app|done].
Qed.

Lemma ends_does {A} acts l x (q : io A) w Q : after_steps acts l w ->
  (forall w', after_steps acts (l ++ [x]) w' -> ends q w' Q) -> ends (act x;;; q) w Q.
Proof. intros (Hl & Ha) Hq. destruct w as [s l']. cbn in Hl. subst l'. apply ends_act, Hq. by split. Qed.

(** UK has been drained: the relay is in a state that the shutdown procedure leaves. *)
Definition drained acts (l : list action) (w : world) : Prop :=
  w_log w = l /\ exists a1 a2, abs_activities dk du acts arelay_start a1 /\ sim a2 (w_system w) /\
    lane_contents (ar_uk a2) = [] /\ ar_ku a2 = ar_ku a1 /\
    popped (ar_huk a2) = popped (ar_huk a1) ++ lane_contents (ar_uk a1) /\
    total_kernel_consumed (sys_kernel (w_system w)) = Zlen (accepted (ar_huk a1)).

Hypothesis uk_order : d_add du = fifo_add \/ d_add du = lifo_add.

Lemma ends_trigger {A} acts l (f : unit -> io A) w Q : after_steps acts l w -> Zlen acts < 2 ^ 62 ->
  (forall w', drained acts l w' -> ends (f tt) w' Q) ->
  ends (io_bind (moves (trigger_kernel_consumer_on_exit b)) f) w Q.
Proof.
  intros (Hl & a & Ha & Hs) Hn Hf.
  pose proof (abs_activities_inv _ _ _ _ _ Ha (arelay_start_inv _ _)) as Hinv.
  pose proof (history_bound _ _ _ Ha) as [_ Hb]. cbn in Hb. rewrite Zlen_nil in Hb.
  pose proof (accepted_bound (ar_huk a)). pose proof (popped_bound (ar_huk a)).
  destruct (exit_drains a (w_system w) Hs Hinv uk_order ltac:(lia)) as (s' & a' & E & Hs' & Hu & Hp & Ht & Hk).
  apply (ends_bind _ _ _ (fun _ w' => drained acts l w')); [|by intros []].
  exists tt, (mk_world s' (w_log w)). split; [unfold moves; by rewrite E|]. split; [done|]. exists a, a'. done.
Qed.

(** What a program has done, from the signal on, when the relay had made the steps [acts]: it drained UK,
    verified if it was asked to, and printed the truth. *)
Definition shut_down acts (config : test_config) (l : list action) (w : world) : Prop :=
  exists a1 a2 v r, abs_activities dk du (acts ++ creations (ev_late ev)) arelay_start a1 /\ sim a2 (w_system w) /\
    lane_contents (ar_uk a2) = [] /\ ar_ku a2 = ar_ku a1 /\
    popped (ar_huk a2) = popped (ar_huk a1) ++ lane_contents (ar_uk a1) /\
    total_kernel_consumed (sys_kernel (w_system w)) = Zlen (accepted (ar_huk a1)) /\
    verdict a2 v /\ report_true shows_ku shows_uk a2 r /\
    w_log w = l ++ [JoinThread; TriggerConsumer] ++ (if cfg_verify config then [VerifyLanes v] else []) ++ [PrintStatistics r].

(** What is left to do once UK is drained. *)
Lemma ends_finish cfg acts l w : cfg_print_stats cfg = true ->
  drained (acts ++ creations (ev_late ev)) (l ++ [JoinThread; TriggerConsumer]) w ->
  ends ((if cfg_verify cfg then r <- arena b pg_verify; act (VerifyLanes r) else io_ret tt);;;
        (if cfg_print_stats cfg then
           w <- (fun w => Some (w_system w, w));
           r <- arena b (pg_statistics (sys_kernel w) (sys_relay w)); act (PrintStatistics r)
         else io_ret tt);;;
        io_ret 0) w (fun code w' => code = 0 /\ shut_down acts cfg l w').
Proof.
  intros Hprint (Hl & a1 & a2 & Ha & Hs & Hrest). rewrite Hprint. destruct w as [s l']. cbn in Hl, Hs. subst l'.
  pose proof (pg_verify_law a2 s b Hs) as Hv. apply wpr_done in Hv as (v & m1 & b1 & Ev & -> & -> & Hv).
  apply (ends_bind _ _ _ (fun _ w' =>
    w' = mk_world s ((l ++ [JoinThread; TriggerConsumer]) ++ if cfg_verify cfg then [VerifyLanes v] else []))).
  { destruct (cfg_verify cfg); [|by apply ends_ret; rewrite app_nil_r].
    eexists tt, _. split; [|done]. unfold io_bind, arena. cbn. rewrite Ev. by destruct s. }
  intros [] w' ->. pose proof (pg_statistics_law a2 s b Hs) as H. apply wpr_done in H as (r & m' & b' & E & -> & -> & Hr).
  exists 0. eexists. split.
  { unfold io_bind, arena. cbn. rewrite E. reflexivity. }
  split; [done|]. exists a1, a2, v, r. cbn. destruct s. destruct Hrest as (H1 & H2 & H3 & H4).
  split_and!; try done. by rewrite <- !app_assoc.
Qed.

(** From the signal on, if the relay is then in a state it can be in: the program ends with 0, and has
    done all of [shut_down], in this order. *)
Lemma shutdown_ok cfg acts l w : cfg_print_stats cfg = true -> Zlen (acts ++ creations (ev_late ev)) < 2 ^ 62 ->
  after_steps acts l w ->
  ends (main_shutdown b ev cfg) w (fun code w' => code = 0 /\ shut_down acts cfg l w').
Proof.
  intros Hprint Hn Hw. unfold main_shutdown. eapply ends_does; [exact Hw|]. intros w1 Hw1.
  eapply ends_happen; [exact Hw1|]. intros w2 Hw2. eapply ends_does; [exact Hw2|]. intros w3 Hw3.
  eapply ends_trigger; [exact Hw3|exact Hn|]. intros w4 Hw4. rewrite <- app_assoc in Hw4.
  by apply ends_finish.
Qed.
End run.

(** The laws of a program from those of its lanes, when no verifier raises a false alarm. *)
Lemma lane_program_laws `{K : Kernel} `{Al : Allocator} {Pg : Program} {flagged metrics rest KU UK} ku_up uk_up
    ku_state uk_state shows_ku shows_uk `{!TestLaws KU ku_up} `{!TestLaws UK uk_up} `{!VerifyLaws KU} `{!VerifyLaws UK}
    `{!StateLaws KU ku_state shows_ku} `{!StateLaws UK uk_state shows_uk} :
  0 < metrics -> pg_verify = verify_data_structure KU UK ku_up uk_up ->
  pg_statistics = print_statistics ku_state uk_state metrics ->
  ProgramLaws Pg flagged metrics rest KU UK (fun _ r => r = DS_SUCCESS) shows_ku shows_uk.
Proof.
  intros Hm Hv Hp. split.
  - intros a s b Hs. rewrite Hv. unfold wpr. by rewrite (lanes_verified ku_up uk_up a s b Hs).
  - intros a s b Hs. rewrite Hp. exact (report_ok Hm ku_state uk_state shows_ku shows_uk a s b Hs).
Qed.

(** ** The eight programs

    [sym] is where the statics of the userspace allocator are, [base] is [skel->arena] and [pages]
    the size of the arena map. The two headers and the metrics are members of [skel->arena], at the
    offsets [at_ku], [at_uk] and [at_metrics] that the compiler and the loader choose; the setup gives the
    allocator everything from the second page on, and the metrics alone fill 128 pages (see
    [setup_hands_out_metrics]). *)

Section programs.
Context `{K : Kernel} `{Al : Allocator} `{U : UserOps}.
Variables sym base pages at_ku at_uk at_metrics : Z.

#[local] Notation ku := (base + at_ku).
#[local] Notation uk := (base + at_uk).
#[local] Notation metrics := (base + at_metrics).

Definition msqueue_setup_userspace_allocator : prog Z := setup_userspace_allocator sym base pages.

Definition msqueue_program (junk : Z) : Program := {|
  pg_title := "MSQueue"; pg_structures := "queues"; pg_lane := "MSQueueKU";
  pg_trigger := "msq_kernel_consume_trigger";
  pg_setup := msqueue_setup_userspace_allocator;
  pg_verify := msqueue_verify_data_structure junk ku uk;
  pg_statistics := msqueue_print_statistics ku uk metrics
|}.

Definition msqueue_print_usage (junk : Z) : string -> list string := print_usage (Pg := msqueue_program junk).

Definition msqueue_parse_args (junk : Z) : string -> list string -> io parsed := parse_args (Pg := msqueue_program junk).

Definition msqueue_attach_programs (junk : Z) : nat -> environment -> io Z :=
  attach_programs (Sk := msqueue_skeleton junk ku uk metrics) (Pg := msqueue_program junk).

Definition msqueue_main (junk : Z) : nat -> environment -> io Z :=
  main (Sk := msqueue_skeleton junk ku uk metrics) (Pg := msqueue_program junk).

Definition vyukhov_setup_userspace_allocator : prog Z := setup_userspace_allocator sym base pages.

Definition vyukhov_program : Program := {|
  pg_title := "Vyukhov"; pg_structures := "queues"; pg_lane := "VyukhovKU";
  pg_trigger := "vyukhov_kernel_consume_trigger";
  pg_setup := vyukhov_setup_userspace_allocator;
  pg_verify := vyukhov_verify_data_structure ku uk;
  pg_statistics := vyukhov_print_statistics ku uk metrics
|}.

Definition vyukhov_print_usage : string -> list string := print_usage (Pg := vyukhov_program).

Definition vyukhov_parse_args : string -> list string -> io parsed := parse_args (Pg := vyukhov_program).

Definition vyukhov_attach_programs : nat -> environment -> io Z :=
  attach_programs (Sk := vyukhov_skeleton ku uk metrics) (Pg := vyukhov_program).

Definition vyukhov_main : nat -> environment -> io Z :=
  main (Sk := vyukhov_skeleton ku uk metrics) (Pg := vyukhov_program).

Definition folly_spsc_setup_userspace_allocator : prog Z := setup_userspace_allocator sym base pages.

Definition folly_spsc_program : Program := {|
  pg_title := "Folly SPSC"; pg_structures := "queues"; pg_lane := "FollySPSCKU";
  pg_trigger := "folly_spsc_kernel_consume_trigger";
  pg_setup := folly_spsc_setup_userspace_allocator;
  pg_verify := folly_spsc_verify_data_structure ku uk;
  pg_statistics := folly_spsc_print_statistics ku uk metrics
|}.

Definition folly_spsc_print_usage : string -> list string := print_usage (Pg := folly_spsc_program).

Definition folly_spsc_parse_args : string -> list string -> io parsed := parse_args (Pg := folly_spsc_program).

Definition folly_spsc_attach_programs : nat -> environment -> io Z :=
  attach_programs (Sk := folly_spsc_skeleton ku uk metrics) (Pg := folly_spsc_program).

Definition folly_spsc_main : nat -> environment -> io Z :=
  main (Sk := folly_spsc_skeleton ku uk metrics) (Pg := folly_spsc_program).

Definition ck_fifo_spsc_setup_userspace_allocator : prog Z := setup_userspace_allocator sym base pages.

Definition ck_fifo_spsc_program : Program := {|
  pg_title := "CK FIFO SPSC"; pg_structures := "queues"; pg_lane := "CKFifoSPSCKU";
  pg_trigger := "ck_fifo_spsc_kernel_consume_trigger";
  pg_setup := ck_fifo_spsc_setup_userspace_allocator;
  pg_verify := ck_fifo_spsc_verify_data_structure ku uk;
  pg_statistics := ck_fifo_spsc_print_statistics ku uk metrics
|}.

Definition ck_fifo_spsc_print_usage : string -> list string := print_usage (Pg := ck_fifo_spsc_program).

Definition ck_fifo_spsc_parse_args : string -> list string -> io parsed := parse_args (Pg := ck_fifo_spsc_program).

Definition ck_fifo_spsc_attach_programs : nat -> environment -> io Z :=
  attach_programs (Sk := ck_fifo_spsc_skeleton ku uk metrics) (Pg := ck_fifo_spsc_program).

Definition ck_fifo_spsc_main : nat -> environment -> io Z :=
  main (Sk := ck_fifo_spsc_skeleton ku uk metrics) (Pg := ck_fifo_spsc_program).

Definition ck_ring_spsc_setup_userspace_allocator : prog Z := setup_userspace_allocator sym base pages.

Definition ck_ring_spsc_program : Program := {|
  pg_title := "CK Ring SPSC"; pg_structures := "queues"; pg_lane := "CKRingSPSCKU";
  pg_trigger := "ck_ring_spsc_kernel_consume_trigger";
  pg_setup := ck_ring_spsc_setup_userspace_allocator;
  pg_verify := ck_ring_spsc_verify_data_structure ku uk;
  pg_statistics := ck_ring_spsc_print_statistics ku uk metrics
|}.

Definition ck_ring_spsc_print_usage : string -> list string := print_usage (Pg := ck_ring_spsc_program).

Definition ck_ring_spsc_parse_args : string -> list string -> io parsed := parse_args (Pg := ck_ring_spsc_program).

Definition ck_ring_spsc_attach_programs : nat -> environment -> io Z :=
  attach_programs (Sk := ck_ring_spsc_skeleton ku uk metrics) (Pg := ck_ring_spsc_program).

Definition ck_ring_spsc_main : nat -> environment -> io Z :=
  main (Sk := ck_ring_spsc_skeleton ku uk metrics) (Pg := ck_ring_spsc_program).

Definition ck_stack_setup_userspace_allocator : prog Z := setup_userspace_allocator sym base pages.

Definition ck_stack_program (fuel : nat) : Program := {|
  pg_title := "CK Stack UPMC"; pg_structures := "lanes"; pg_lane := "CKStackUPMCKU";
  pg_trigger := "ck_stack_upmc_kernel_consume_trigger";
  pg_setup := ck_stack_setup_userspace_allocator;
  pg_verify := ck_stack_verify_data_structure fuel ku uk;
  pg_statistics := ck_stack_print_statistics ku uk metrics
|}.

Definition ck_stack_print_usage (fuel : nat) : string -> list string := print_usage (Pg := ck_stack_program fuel).

Definition ck_stack_parse_args (fuel : nat) : string -> list string -> io parsed := parse_args (Pg := ck_stack_program fuel).

Definition ck_stack_attach_programs (fuel : nat) : nat -> environment -> io Z :=
  attach_programs (Sk := ck_stack_skeleton fuel ku uk metrics) (Pg := ck_stack_program fuel).

Definition ck_stack_main (fuel : nat) : nat -> environment -> io Z :=
  main (Sk := ck_stack_skeleton fuel ku uk metrics) (Pg := ck_stack_program fuel).

Definition io_uring_setup_userspace_allocator : prog Z := setup_userspace_allocator sym base pages.

Definition io_uring_program : Program := {|
  pg_title := "IO_URING"; pg_structures := "rings"; pg_lane := "IO_URING KU";
  pg_trigger := "io_uring_kernel_consume_trigger";
  pg_setup := io_uring_setup_userspace_allocator;
  pg_verify := io_uring_verify_data_structure ku uk;
  pg_statistics := io_uring_print_statistics ku uk metrics
|}.

Definition io_uring_print_usage : string -> list string := print_usage (Pg := io_uring_program).

Definition io_uring_parse_args : string -> list string -> io parsed := parse_args (Pg := io_uring_program).

Definition io_uring_attach_programs : nat -> environment -> io Z :=
  attach_programs (Sk := io_uring_skeleton ku uk metrics) (Pg := io_uring_program).

Definition io_uring_main : nat -> environment -> io Z :=
  main (Sk := io_uring_skeleton ku uk metrics) (Pg := io_uring_program).

Definition kcov_setup_userspace_allocator : prog Z := setup_userspace_allocator sym base pages.

Definition kcov_program : Program := {|
  pg_title := "KCOV"; pg_structures := "buffers"; pg_lane := "KCOV KU";
  pg_trigger := "kcov_kernel_consume_trigger";
  pg_setup := kcov_setup_userspace_allocator;
  pg_verify := kcov_verify_data_structure ku uk;
  pg_statistics := kcov_print_statistics ku uk metrics
|}.

Definition kcov_print_usage : string -> list string := print_usage (Pg := kcov_program).

Definition kcov_parse_args : string -> list string -> io parsed := parse_args (Pg := kcov_program).

Definition kcov_attach_programs : nat -> environment -> io Z :=
  attach_programs (Sk := kcov_skeleton ku uk metrics) (Pg := kcov_program).

Definition kcov_main : nat -> environment -> io Z :=
  main (Sk := kcov_skeleton ku uk metrics) (Pg := kcov_program).
End programs.
