(* ===== verification/Histories.v ===== *)
(** * The life of each data structure, from an uninitialised header on.

    For every structure: booting it and serving any sequence of inserts and pops, on the BPF or
    on the userspace side, with any allocator that keeps the allocator's laws, faults nowhere,
    ends every loop, and answers as the abstract container does; the blocks of the rest of the
    program are not touched. *)
From stdpp Require Import base numbers gmap list fin_maps option.
From S2P Require Import Prelude Machine Logic Api Owned Container Ring Linked.
From S2P Require Import Vyukhov FollySpsc CkRing IoUring Kcov CkStack CkFifo MsQueue.

(** What goes in comes out in the same order; the rest is still inside. *)
Definition in_order (evs : list event) (l : list ds_kv) : Prop := popped evs ++ l = accepted evs.

(** Nothing is lost and nothing is invented. *)
Definition nothing_lost (evs : list event) (l : list ds_kv) : Prop := popped evs ++ l ≡ₚ accepted evs.

Section histories.
Context `{K : Kernel} `{Al : Allocator} `{!AllocLaws Al}.
Hypothesis alloc_ready : forall live sz m, heap_ok live m -> alloc_pre sz m.

(** C1. Vyukhov's queue of capacity [2 ^ k] is a bounded FIFO: every answer, including the
    refusals of a full queue and the pops of an empty one, is that of the reference queue. *)
Theorem vyukhov_history s h k rest m b ops :
  0 < h -> 1 <= k <= 27 -> heap_holds [(h, 152)] rest m -> head_mapped h m ->
  budget s (Z.to_nat (2 ^ k)) b -> budget s 1 b ->
  behaves_like_ref fifo_add (2 ^ k) DS_ERROR_NOMEM rest m ops
    (lifetime (C := vyukhov_container s h k) b ops m).
Proof.
  intros Hh Hk Hheap Hm Hb1 Hb2.
  pose proof (vyukhov_container_laws s h k Hh Hk alloc_ready).
  by apply (bounded_behaves_like_ref s (C := vyukhov_container s h k)).
Qed.

(** C2. The Michael-Scott queue is an unbounded FIFO: elements leave in the order in which they
    entered, none is lost or duplicated, and an insert fails only for want of memory. *)
Theorem msqueue_history `{!FreeLaws Al} s junk q rest m b ops :
  0 < q -> (forall p m, in_arena p -> free_pre p m) ->
  heap_holds [(q, 24)] rest m -> mapped_words q 24 m -> budget s 2 b ->
  history_ok (unbounded fifo_add) in_order rest m ops
    (lifetime (C := msq_container s junk q) b ops m).
Proof.
  intros Hq Hfree Hheap Hm Hb.
  pose proof (msq_container_laws s junk q Hq Hfree alloc_ready).
  apply (history_refines s (C := msq_container s junk q)); try done; try (intros ?; cbn; lia).
  intros evs l Hs. by apply (fifo_history (unbounded fifo_add) []).
Qed.

(** C3. The Treiber stack is an unbounded LIFO: a pop takes the most recent element left, and
    none is lost or duplicated. *)
Theorem ck_stack_history s h fuel rest m b ops :
  0 < h -> (0 < fuel)%nat -> heap_holds [(h, 16)] rest m ->
  is_Some (m !! CkStack.StackHead.head h) /\ is_Some (m !! CkStack.StackHead.count h) ->
  budget s 1 b ->
  history_ok (unbounded lifo_add) nothing_lost rest m ops
    (lifetime (C := stack_container s h fuel) b ops m).
Proof.
  intros Hh Hf Hheap Hm Hb. pose proof (stack_container_laws s h fuel Hh Hf alloc_ready).
  apply (history_refines s (C := stack_container s h fuel)); try done; try (intros ?; cbn; lia).
  intros evs l Hs. by apply (lifo_history (unbounded lifo_add) []).
Qed.

(** C4. The CK SPSC FIFO, which recycles its consumed entries, is an unbounded FIFO. *)
Theorem ck_fifo_history s h rest m b ops :
  0 < h -> heap_holds [(h, 32)] rest m -> mapped_words h 32 m ->
  history_ok (unbounded fifo_add) in_order rest m ops
    (lifetime (C := fifo_container s h) b ops m).
Proof.
  intros Hh Hheap Hm. pose proof (fifo_container_laws s h Hh alloc_ready).
  apply (history_refines s (C := fifo_container s h)); try done; try (intros ?; cbn; lia).
  intros evs l Hs. by apply (fifo_history (unbounded fifo_add) []).
Qed.

(** C5. Folly's SPSC ring of [n] records is a FIFO bounded by [n - 1]. *)
Theorem folly_spsc_history s h n rest m b ops :
  2 <= n < 2 ^ 27 -> heap_holds [(h, 128)] rest m -> spsc_head_mapped h m ->
  behaves_like_ref fifo_add (n - 1) DS_ERROR_FULL rest m ops
    (lifetime (C := spsc_container s h n) b ops m).
Proof.
  intros Hn Hheap Hm. pose proof (spsc_container_laws s h n Hn alloc_ready).
  apply (bounded_behaves_like_ref s (C := spsc_container s h n)); try done; intros ?; cbn; lia.
Qed.

(** C6. The CK SPSC ring of [2 ^ k] slots is a FIFO bounded by [2 ^ k - 1]. *)
Theorem ck_ring_history s h k rest m b ops :
  0 < h -> 1 <= k <= 27 -> heap_holds [(h, 24)] rest m -> ck_ring_head_mapped h m ->
  behaves_like_ref fifo_add (2 ^ k - 1) DS_ERROR_FULL rest m ops
    (lifetime (C := ck_ring_container s h k) b ops m).
Proof.
  intros Hh Hk Hheap Hm. pose proof (ck_ring_container_laws s h k Hh Hk alloc_ready).
  apply (bounded_behaves_like_ref s (C := ck_ring_container s h k)); try done; intros ?; cbn; lia.
Qed.

(** C7. The io_uring-style submission ring of [2 ^ k] entries is a FIFO bounded by [2 ^ k], also
    when its 32-bit positions wrap around. *)
Theorem io_uring_history s h k rest m b ops :
  0 <= k <= 27 -> heap_holds [(h, 128)] rest m -> uring_head_mapped h m ->
  behaves_like_ref fifo_add (2 ^ k) DS_ERROR_FULL rest m ops
    (lifetime (C := uring_container s h k) b ops m).
Proof.
  intros Hk Hheap Hm. pose proof (uring_container_laws s h k Hk alloc_ready).
  apply (bounded_behaves_like_ref s (C := uring_container s h k)); try done; intros ?; cbn; lia.
Qed.

(** C8. The kcov-style buffer of [n] words is a LIFO bounded by the number of pairs that fit
    behind its counter word. *)
Theorem kcov_history s h n rest m b ops :
  3 <= n < 2 ^ 28 -> heap_holds [(h, 16)] rest m -> kcov_head_mapped h m ->
  behaves_like_ref lifo_add (kcov_max_entries n) DS_ERROR_FULL rest m ops
    (lifetime (C := kcov_container s h n) b ops m).
Proof.
  intros Hn Hheap Hm. pose proof (kcov_container_laws s h n Hn alloc_ready).
  apply (bounded_behaves_like_ref s (C := kcov_container s h n)); try done; intros ?; cbn; lia.
Qed.
End histories.
