(* ===== verification/Readers.v ===== *)
(** * The read-only operations of the structures, gathered.

    Searching, iterating, counting and verifying change nothing and answer according to the
    contents, on either side. Each theorem collects the lemmas of the structures it names. *)
From stdpp Require Import base numbers gmap list fin_maps option.
From S2P Require Import Prelude Machine Logic Api Owned Container Ring Linked.
From S2P Require Import Vyukhov FollySpsc CkRing IoUring Kcov CkStack CkFifo MsQueue.

Section readers.
Context `{K : Kernel}.

(** C36. Vyukhov's queue, as long as its position counters have not wrapped: searching finds a
    key exactly when some queued pair carries it; iterating calls the callback on the queued
    pairs from the oldest on, until it answers non-zero, threads its context through, and returns
    the number of pairs it accepted: that of the calls, less one if a call stopped the iteration. *)
Theorem vyukhov_readers {Ctx} h buf k s D l m b key (fn : ds_vyukhov_iter_fn) (ctx : Ctx) :
  vyukhov_placed h buf k -> vyukhov_repr h buf k D l m ->
  0 <= D -> D + Zlen l < 2 ^ 64 -> budget s (length l) b ->
  wpr (ds_vyukhov_search s h key) m b (fun r m' _ => r = search_result key l /\ m' = m) /\
  wpr (ds_vyukhov_iterate s h (Some fn) ctx) m b (fun r m' _ => m' = m /\ r = visit fn l 0 ctx /\
    r.1 = Zlen (answers fn l ctx) - (if stopped (answers fn l ctx) then 1 else 0)).
Proof.
  intros Hp Hr HD Hw Hb. split; [by eapply search_ok|].
  eapply wpr_mono; [by eapply iterate_ok|]. intros r m' b' [-> ->]. by rewrite visit_counts.
Qed.

(** C37. The Michael-Scott queue: searching finds a key exactly when one of the first
    [MSQUEUE_MAX_ITERATIONS] queued pairs carries it; iterating visits the oldest pairs in order,
    but only the first [MSQUEUE_ITERATE_MAX]. *)
Theorem msqueue_readers `{Al : Allocator} `{!AllocLaws Al} `{!FreeLaws Al} {Ctx} q s ns l lag m b key
    (fn : ds_msqueue_iter_fn) (ctx : Ctx) :
  0 < q -> msq_repr q ns l lag m -> budget s (length l) b ->
  wpr (ds_msqueue_search s q key) m b (fun r m' _ =>
    r = search_result key (take (Z.to_nat MSQUEUE_MAX_ITERATIONS) l) /\ m' = m) /\
  wpr (ds_msqueue_iterate s q (Some fn) ctx) m b (fun r m' _ =>
    r = visit fn (take (Z.to_nat MSQUEUE_ITERATE_MAX) l) 0 ctx /\ m' = m).
Proof. intros Hq Hr Hb. split; [by eapply msq_search_ok|by eapply msq_iterate_ok]. Qed.

(** The stack: searching finds a key exactly when one of the topmost [STACK_MAX_STEPS] pairs
    has it, [isempty] answers whether there is no element, and [stats] reports their number. *)
Lemma ck_stack_readers `{Al : Allocator} `{!AllocLaws Al} h s ns l m b key st :
  0 < h -> stack_repr h ns l m -> budget s (length l) b -> Zlen l < 2 ^ 64 ->
  wpr (ds_ck_stack_upmc_search s h key) m b (fun r m' _ =>
    r = search_result key (take (Z.to_nat STACK_MAX_STEPS) l) /\ m' = m) /\
  wpr (ds_ck_stack_upmc_isempty s h) m b
    (fun r m' b' => r = (Zlen l =? 0) /\ m' = m /\ b' = b) /\
  wpr (ds_ck_stack_upmc_stats s h (Some st)) m b (fun r m' b' =>
    r = (DS_SUCCESS, Some (with_current st (Zlen l))) /\ m' = m /\ b' = b).
Proof.
  intros Hh Hr Hb Hl. split; [by apply (stack_search_ok h 1 Hh ltac:(lia) s ns)|].
  by apply (stack_observers h 1 Hh ltac:(lia) s ns).
Qed.

(** The rings with indices, Folly's and ConcurrencyKit's: [size] is the number of elements,
    [is_empty] and [is_full] say whether it is zero and whether it is the capacity, also after
    the indices wrapped. *)
Lemma ring_observers s :
  (forall h recs n D l m b, spsc_placed h recs n -> spsc_repr h recs n D l m ->
    wpr (ds_spsc_size s h) m b (fun r m' b' => r = Zlen l /\ m' = m /\ b' = b) /\
    wpr (ds_spsc_is_empty s h) m b (fun r m' b' => r = (Zlen l =? 0) /\ m' = m /\ b' = b) /\
    wpr (ds_spsc_is_full s h) m b (fun r m' b' => r = (Zlen l =? n - 1) /\ m' = m /\ b' = b)) /\
  (forall h sl k D l m b, ck_ring_placed h sl k -> ck_ring_repr h sl k D l m ->
    wpr (ds_ck_ring_spsc_size s h) m b (fun r m' b' => r = Zlen l /\ m' = m /\ b' = b) /\
    wpr (ds_ck_ring_spsc_is_empty s h) m b
      (fun r m' b' => r = (Zlen l =? 0) /\ m' = m /\ b' = b) /\
    wpr (ds_ck_ring_spsc_is_full s h) m b
      (fun r m' b' => r = (Zlen l =? 2 ^ k - 1) /\ m' = m /\ b' = b)).
Proof.
  split; intros h a n D l m b Hp Hr; [by eapply spsc_observers|by eapply ck_ring_observers].
Qed.

(** The verifiers of the four array structures without allocated nodes accept every
    well-formed one, across every wrap of their positions, and change nothing. *)
Lemma ring_verifiers s :
  (forall h recs n D l m b, spsc_placed h recs n -> spsc_repr h recs n D l m ->
    wpr (ds_spsc_verify s h) m b (fun r m' b' => r = DS_SUCCESS /\ m' = m /\ b' = b)) /\
  (forall h sl k D l m b, ck_ring_placed h sl k -> ck_ring_repr h sl k D l m ->
    wpr (ds_ck_ring_spsc_verify s h) m b (fun r m' b' => r = DS_SUCCESS /\ m' = m /\ b' = b)) /\
  (forall h ents k D l f m b, uring_placed h ents k -> uring_repr h ents k D l f m ->
    wpr (ds_io_uring_verify s h) m b (fun r m' b' => r = DS_SUCCESS /\ m' = m /\ b' = b)) /\
  (forall h a n l m b, kcov_placed h a n -> kcov_repr h a n l m ->
    wpr (ds_kcov_verify s h) m b (fun r m' b' => r = DS_SUCCESS /\ m' = m /\ b' = b)).
Proof.
  split_and!; intros *; intros Hp Hr;
    [by eapply spsc_verify_ok|by eapply ck_ring_verify_ok|by eapply uring_verify_ok
    |by eapply kcov_verify_ok].
Qed.

(** C39. The verifiers of the two structures of linked entries end and accept every well-formed
    one: the stack's two-speed walk given one turn more than there are elements, the queue's walk
    of a queue shorter than its step limit. *)
Theorem linked_verifiers `{Al : Allocator} `{!AllocLaws Al} s :
  (forall h fuel ns l m b, 0 < h -> (0 < fuel)%nat -> stack_repr h ns l m -> (length l < fuel)%nat ->
    wpr (ds_ck_stack_upmc_verify fuel s h) m b (fun r m' _ => r = DS_SUCCESS /\ m' = m)) /\
  (forall h gs hd ns l m b, 0 < h -> fifo_repr h gs hd ns l m -> Zlen l < FIFO_MAX_STEPS ->
    budget s (S (length l)) b ->
    wpr (ds_ck_fifo_spsc_verify s h) m b (fun r m' _ => r = DS_SUCCESS /\ m' = m)).
Proof.
  split; intros *; [intros Hh Hf Hr Hl|intros Hh Hr Hl Hb];
    [by eapply stack_verify_ok|by eapply fifo_verify_ok].
Qed.
End readers.
