(* ===== verification/Examples.v ===== *)
(** * Concrete instances of the theorems.

    A kernel whose services leave memory alone, an arena of one page with the userspace
    allocator on it, and small data structures laid out in it: each theorem applied to one of
    them shows that its hypotheses can hold together. *)
From stdpp Require Import base numbers gmap list fin_maps option strings.
From Stdlib Require Import SpecFloat.
From S2P Require Import Prelude Machine Logic Api Arena Owned Container Allocators Ring Linked.
From S2P Require Import Vyukhov FollySpsc CkRing IoUring Kcov CkStack CkFifo MsQueue.
From S2P Require Import Doubles Metrics Histories.

(** ** The world *)

(** Pages of 4096 bytes, one cpu, a clock that stands still; freed pages are unmapped cell by
    cell. *)
Definition quiet_call (e : ext) (m : mem) : Z * mem :=
  match e with
  | PageSize => (4096, m)
  | CpuId => (0, m)
  | FreePages a n => (0, filter (fun c => ~ in_block a (4096 * n) c.1) m)
  | _ => (7, m)
  end.

#[export] Instance quiet : Kernel := quiet_call.

(** [n] zero cells from [p], [step] apart, on top of [m]. *)
Fixpoint zeros (n : nat) (p step : Z) (m : mem) : mem :=
  match n with O => m | S n' => <[p:=0]> (zeros n' (p + step) step m) end.

Lemma zeros_in n p step m i :
  0 < step -> 0 <= i < Z.of_nat n -> zeros n p step m !! (p + step * i) = Some 0.
Proof.
  intros Hs. revert p i. induction n as [|n IH]; intros p i Hi; [lia|]. cbn [zeros].
  destruct (decide (i = 0)) as [->|Hne]; [rewrite Z.mul_0_r, Z.add_0_r; apply lookup_insert_eq|].
  rewrite lookup_insert_ne by nia. replace (p + step * i) with (p + step + step * (i - 1)) by lia. apply IH. lia.
Qed.

(** Cells below are kept. *)
Lemma zeros_below n p step m a : 0 < step -> a < p -> zeros n p step m !! a = m !! a.
Proof.
  intros Hs. revert p. induction n as [|n IH]; intros p Ha; [done|]. cbn [zeros]. rewrite lookup_insert_ne by lia.
  apply IH. lia.
Qed.

(** So are cells above. *)
Lemma zeros_out n p step m a :
  0 < step -> p + step * Z.of_nat n <= a -> zeros n p step m !! a = m !! a.
Proof.
  intros Hs. revert p. induction n as [|n IH]; intros p Ha; [done|]. cbn [zeros]. rewrite lookup_insert_ne by nia.
  apply IH. nia.
Qed.

Lemma zeros_updates n p step m :
  0 < step -> updates (in_block p (step * Z.of_nat n)) m (zeros n p step m).
Proof.
  intros Hs. revert p. induction n as [|n IH]; intros p; [apply updates_refl|]. cbn [zeros].
  apply updates_insert_trans; [unfold in_block; nia|].
  eapply updates_mono; [apply IH|]. unfold in_block. nia.
Qed.

#[global] Arguments zeros : simpl never.

(** An arena page at 4096 of which the allocator has handed out the bytes from [4096 + co] on
    ([nx = 0]: none yet), its statics at 64, and a zeroed header area at 16384. *)
Definition arena (nx cp co : Z) : mem :=
  <[64:=4096]> (<[72:=4096]> (<[80:=4096]> (<[88:=nx]> (<[96:=cp]> (<[104:=co]> (<[112:=0]>
    (zeros 512 4096 8 (zeros 64 16384 4 ∅)))))))).

Notation fresh_arena := (arena 0 0 0).
Notation used_arena := (arena 4096 4096 2048).

Notation page_allocator := (user_allocator 64 1 4096 1 12).

Lemma page_range : user_range_ok 64 4096 1 12.
Proof. unfold user_range_ok. cbn. split_and!; try done; lia. Qed.

#[export] Instance page_laws : AllocLaws page_allocator.
Proof. apply user_alloc_laws; [lia|apply page_range]. Qed.

#[export] Instance page_free_laws : FreeLaws page_allocator.
Proof. apply user_free_laws; [lia|apply page_range]. Qed.

Definition mapped_check (p : Z) (n : nat) (m : mem) : bool :=
  forallb (fun i => bool_decide (is_Some (m !! (p + 8 * Z.of_nat i)))) (seq 0 n).

Lemma mapped_checked p n m : mapped_check p n m = true -> mapped_words p (8 * Z.of_nat n) m.
Proof.
  intros H i Hi Hn. unfold mapped_check in H. rewrite forallb_forall in H.
  specialize (H (Z.to_nat i)). rewrite Z2Nat.id, bool_decide_eq_true in H by lia.
  apply H, in_seq. lia.
Qed.

(** Reading a concrete cell; a concrete cell that is there. *)
Ltac look := vm_compute; reflexivity.
Ltac there := eexists; vm_compute; reflexivity.

(** Blocks that start after the page. *)
Lemma fresh_heap own :
  (forall a, in_live own a -> 8192 <= a) -> user_heap_ok 64 4096 1 12 own fresh_arena.
Proof.
  intros Hown. exists 0, 0, 0. split.
  - split; try look. by apply (mapped_checked 4096 512).
  - split; [split; [by exists 0|by left]|].
    unfold user_private, in_block. intros a Ha Hl. pose proof (Hown a Hl). cbn in *.
    destruct Ha as [Ha|[Ha|[Ha|(i & Hi & Ha)]]]; lia.
Qed.

(** Blocks among those handed out. *)
Lemma used_heap own :
  (forall a, in_live own a -> 6144 <= a < 8184 \/ 8192 <= a) ->
  user_heap_ok 64 4096 1 12 own used_arena.
Proof.
  intros Hown. exists 4096, 4096, 2048. split.
  - split; try look. by apply (mapped_checked 4096 512).
  - split; [split; [by exists 1|right; by vm_compute]|].
    unfold user_private, in_block. intros a Ha Hl. pose proof (Hown a Hl). cbn in *.
    destruct Ha as [Ha|[Ha|[Ha|(i & Hi & Ha)]]]; lia.
Qed.

Lemma fresh_head h n :
  8192 <= h -> heap_holds (Al := page_allocator) [(h, n)] [] fresh_arena.
Proof.
  intros Hh. split.
  - apply fresh_heap. cbn. intros a [Ha|Ha]%in_live_cons; [unfold in_block in Ha; lia|].
    by apply in_live_nil in Ha.
  - cbn. split; [|done]. intros a _ Ha. by apply in_live_nil in Ha.
Qed.

Lemma page_ready : forall live sz m,
  heap_ok (Allocator := page_allocator) live m -> alloc_pre (Allocator := page_allocator) sz m.
Proof. done. Qed.

(** ** Histories: insertions and pops, one of them of an empty container *)

Definition script : list op :=
  [OInsert (mk_kv 1 10); OPop (mk_kv 0 0); OInsert (mk_kv 2 20); OPop (mk_kv 0 0); OPop (mk_kv 0 0)].

Ltac ready := repeat split; there.
Ltac budgeted := intros _; vm_compute; lia.

Lemma vyukhov_history_witness :
  behaves_like_ref fifo_add 4 DS_ERROR_NOMEM [] fresh_arena script
    (lifetime (C := vyukhov_container (Al := page_allocator) BPF 16384 2) 100 script fresh_arena).
Proof.
  apply (vyukhov_history page_ready BPF 16384 2 [] fresh_arena 100 script);
    [lia|lia|by apply fresh_head|ready|budgeted|budgeted].
Defined.

Lemma msqueue_history_witness :
  history_ok (unbounded fifo_add) in_order [] fresh_arena script
    (lifetime (C := msq_container (Al := page_allocator) BPF 0 16384) 2 script fresh_arena).
Proof.
  apply (msqueue_history page_ready BPF 0 16384 [] fresh_arena 2 script);
    [lia|done|by apply fresh_head|by apply (mapped_checked 16384 3)|budgeted].
Defined.

Lemma ck_stack_history_witness :
  history_ok (unbounded lifo_add) nothing_lost [] fresh_arena script
    (lifetime (C := stack_container (Al := page_allocator) BPF 16384 1) 1 script fresh_arena).
Proof.
  apply (ck_stack_history page_ready BPF 16384 1 [] fresh_arena 1 script);
    [lia|lia|by apply fresh_head|ready|budgeted].
Defined.

Lemma ck_fifo_history_witness :
  history_ok (unbounded fifo_add) in_order [] fresh_arena script
    (lifetime (C := fifo_container (Al := page_allocator) USER 16384) 0 script fresh_arena).
Proof.
  apply (ck_fifo_history page_ready USER 16384 [] fresh_arena 0 script);
    [lia|by apply fresh_head|by apply (mapped_checked 16384 4)].
Defined.

Lemma folly_spsc_history_witness :
  behaves_like_ref fifo_add 4 DS_ERROR_FULL [] fresh_arena script
    (lifetime (C := spsc_container (Al := page_allocator) USER 16384 5) 0 script fresh_arena).
Proof.
  apply (folly_spsc_history page_ready USER 16384 5 [] fresh_arena 0 script);
    [lia|by apply fresh_head|ready].
Defined.

Lemma ck_ring_history_witness :
  behaves_like_ref fifo_add 3 DS_ERROR_FULL [] fresh_arena script
    (lifetime (C := ck_ring_container (Al := page_allocator) USER 16384 2) 0 script fresh_arena).
Proof.
  apply (ck_ring_history page_ready USER 16384 2 [] fresh_arena 0 script);
    [lia|lia|by apply fresh_head|ready].
Defined.

Lemma io_uring_history_witness :
  behaves_like_ref fifo_add 1 DS_ERROR_FULL [] fresh_arena script
    (lifetime (C := uring_container (Al := page_allocator) BPF 16384 0) 0 script fresh_arena).
Proof.
  apply (io_uring_history page_ready BPF 16384 0 [] fresh_arena 0 script);
    [lia|by apply fresh_head|ready].
Defined.

Lemma kcov_history_witness :
  behaves_like_ref lifo_add 2 DS_ERROR_FULL [] fresh_arena script
    (lifetime (C := kcov_container (Al := page_allocator) BPF 16384 5) 0 script fresh_arena).
Proof.
  apply (kcov_history page_ready BPF 16384 5 [] fresh_arena 0 script);
    [lia|by apply fresh_head|ready].
Defined.

(** ** Allocators *)

Lemma user_session_witness :
  wpr (session (Al := page_allocator) [RAlloc 24; RFree 8160; RAlloc 4064; RAlloc 8]) fresh_arena 0
    (fun bs m' b' => b' = 0%nat /\
      (forall a, in_live [(16384, 24)] a -> m' !! a = fresh_arena !! a) /\
      Forall (fun '(p, _) => 0 < p /\ p mod 8 = 0 /\ in_block 4096 4096 p) bs /\
      separated (bs ++ [(16384, 24)]) /\
      user_heap_ok 64 4096 1 12 (bs ++ [(16384, 24)]) m').
Proof.
  apply (user_session 64 1 4096 1 12 [RAlloc 24; RFree 8160; RAlloc 4064; RAlloc 8]);
    [lia|apply page_range| |apply (fresh_head 16384 24); lia|apply (fresh_head 16384 24); lia].
  repeat (apply Forall_cons_2; [vm_compute; by repeat split|]). by apply Forall_nil_2.
Defined.

(** One cpu, whose current page is 4096, with [off] free bytes and [n] objects. *)
Definition kernel_page (off n : Z) : mem := <[64:=4096]> (<[128:=off]> (<[8184:=n]> ∅)).

Lemma kernel_page_fragment off n : fragment 64 128 0 4096 off n (kernel_page off n).
Proof. by unfold fragment. Qed.

Lemma kernel_page_apart : fragment_apart 64 128 0 4096.
Proof. unfold fragment_apart, Kern.page_frag_cur_page, Kern.page_frag_cur_offset, PAGE_SIZE. lia. Qed.

Lemma kernel_alloc_carves_witness :
  wpr (alloc_all 64 128 [24; 16]) (kernel_page 40 3) 0 (fun ps m' b' => b' = 0%nat /\
    ps = [4112; 4096] /\ Forall (fun p => 4096 <= p < 4096 + PAGE_SIZE - 8) ps /\
    fragment 64 128 0 4096 0 5 m').
Proof.
  apply (kernel_alloc_carves 64 128 0 4096 40 3 [24; 16]);
    [done|apply kernel_page_fragment|apply kernel_page_apart|done| |done|lia|done].
  repeat (apply Forall_cons_2; [vm_compute; by repeat split|]). by apply Forall_nil_2.
Defined.

Lemma kernel_alloc_underflows_witness :
  wpr (Kern.bpf_arena_alloc_bpf 64 128 24) (kernel_page 8 170) 0 (fun p m' b' => b' = 0%nat /\
    p < 4096 /\ p + 24 = 4096 + 8 /\ fragment 64 128 0 4096 (-16) 171 m').
Proof.
  apply (kernel_alloc_underflows 64 128 0 4096 8 170 24);
    [done|apply kernel_page_fragment|apply kernel_page_apart|lia|unfold PAGE_SIZE; lia|done].
Defined.

Lemma freed_outside a n m c : ~ in_block a (4096 * n) c ->
  (filter (fun c : Z * Z => ~ in_block a (4096 * n) c.1) m : mem) !! c = m !! c.
Proof.
  intros Hc. rewrite map_lookup_filter. destruct (m !! c) as [v|]; [|done]. cbn.
  by rewrite option_guard_True.
Qed.

Lemma kernel_free_then_alloc_faults_witness :
  run (Kern.bpf_arena_free_bpf 4136;; Kern.bpf_arena_alloc_bpf 64 128 24) (kernel_page 40 1) 0 = Fault.
Proof.
  eapply (kernel_free_then_alloc_faults 64 128 0 4096 40 24 4136);
    [done|apply kernel_page_fragment|apply kernel_page_apart|done|unfold PAGE_SIZE; lia|lia
    |unfold PAGE_SIZE; lia|done|reflexivity| |look].
  intros a Ha. rewrite freed_outside by done. apply lookup_insert_ne. intros <-.
  apply Ha. unfold in_block, PAGE_SIZE. lia.
Defined.

(** ** Metrics *)

Definition with_metrics (m : mem) : mem := zeros (Z.to_nat 65556) 1048576 8 m.

Notation zeroed_store := (with_metrics ∅).

Lemma with_metrics_cell m i : 0 <= i < 65556 -> with_metrics m !! (1048576 + 8 * i) = Some 0.
Proof. intros Hi. apply zeros_in; lia. Qed.

(** [sizeof(struct ds_metrics_store)] bytes of zeros. *)
Lemma zeroed_metrics p m : (forall i, 0 <= i < 65556 -> m !! (p + 8 * i) = Some 0) -> store_zeroed p m.
Proof.
  intros Hz.
  assert (Hc : forall a, (a - p) mod 8 = 0 -> p <= a < p + 524448 -> m !! a = Some 0).
  { intros a H8 Ha. replace a with (p + 8 * ((a - p) / 8)) by (Z.div_mod_to_equations; lia).
    apply Hz. Z.div_mod_to_equations. lia. }
  intros cat. unfold metrics_ring, MetricsRing.sizeof, MetricsRing.samples, DS_METRICS_RING_SIZE.
  assert (Hi : 0 <= category_index cat <= 3) by (destruct cat; cbn; lia).
  split.
  - intros i Hi'. apply Hc; [|lia].
    replace (p + (40 + 16 * 8192) * category_index cat + 8 * i - p)
      with ((16389 * category_index cat + i) * 8) by lia. apply Z_mod_mult.
  - intros q. unfold slot. pose proof (Z.mod_pos_bound q 8192 ltac:(lia)).
    split; exists 0; (apply Hc; [|lia]).
    + replace (_ - p) with ((16389 * category_index cat + 5 + 2 * (q mod 8192)) * 8) by lia.
      apply Z_mod_mult.
    + replace (_ - p) with ((16389 * category_index cat + 6 + 2 * (q mod 8192)) * 8) by lia.
      apply Z_mod_mult.
Qed.

Lemma with_metrics_zeroed m : store_zeroed 1048576 (with_metrics m).
Proof. apply zeroed_metrics. apply with_metrics_cell. Qed.

Definition measured : list (ds_metrics_category * Z * Z) :=
  [(DS_METRICS_LKMM_PRODUCER, 30, DS_SUCCESS); (DS_METRICS_LKMM_PRODUCER, 10, DS_ERROR_FULL);
   (DS_METRICS_USER_CONSUMER, 5, DS_SUCCESS)].

(** Half of the first category succeeded, at 33333333.3 in a second; 50 and 100 in binary64. *)
Definition fifty : double := S754_finite false 7036874417766400 (-47).
Definition hundred : double := S754_finite false 7036874417766400 (-46).
Definition no_row (name : string) : metrics_row := mk_metrics_row name 0 0 (S754_zero false) 0 0 (Some 0).

Lemma metrics_table_witness :
  wpr (record_all 1048576 measured;; ds_metrics_print 1048576) zeroed_store 0
    (fun rows _ b' => b' = 0%nat /\
      rows = [mk_metrics_row "LKMM producer" 2 1 fifty 20 30 (Some 33333333);
              mk_metrics_row "User consumer" 1 1 hundred 5 5 (Some 200000000);
              no_row "User producer"; no_row "LKMM consumer"]).
Proof.
  destruct (metrics_table 1048576 ltac:(lia) measured zeroed_store 0) as [H _]; [apply with_metrics_zeroed| |].
  - intros cat. unfold log_fits. destruct cat; (split; [done|split; [done|]]); cbn;
      intros e He; repeat (apply elem_of_cons in He as [->|He]; [cbn; lia|]); by apply elem_of_nil in He.
  - eapply wpr_mono; [exact H|]. intros rows m' b' [-> ->]. clear H. split; vm_compute; reflexivity.
Defined.
