(* ===== verification/ExamplesRings.v ===== *)
(** * Concrete array-based structures, and the theorems on their read-only operations applied to
    them.

    All live in a fresh arena: the header at 16384, the array at the start of the page. *)
From stdpp Require Import base numbers gmap list fin_maps option.
From S2P Require Import Prelude Machine Logic Api Arena Owned Container Ring.
From S2P Require Import Vyukhov FollySpsc CkRing IoUring Kcov.
From S2P Require Import Readers Examples.

Definition pair : ds_kv := mk_kv 7 70.

Lemma page_words n : 0 <= n <= 512 -> forall m,
  (forall a, in_block 4096 4096 a -> m !! a = fresh_arena !! a) -> mapped_words 4096 (8 * n) m.
Proof.
  intros Hn m Hm i Hi Hin. rewrite Hm by (unfold in_block; lia).
  apply (mapped_checked 4096 512 fresh_arena); [by vm_compute|lia|lia].
Qed.

(** Header fields are not in the page. *)
Ltac off_page m :=
  intros a Ha; unfold in_block in Ha; unfold m; rewrite !lookup_insert_ne by lia; reflexivity.

(** ** Vyukhov: four cells *)

Definition vyukhov_empty : mem :=
  <[16384 + 128:=3]> (<[16384 + 136:=4096]> (<[4096 + 24 * 1:=1]> (<[4096 + 24 * 2:=2]>
    (<[4096 + 24 * 3:=3]> fresh_arena)))).

Lemma vyukhov_place : vyukhov_placed 16384 4096 2.
Proof. unfold vyukhov_placed. cbn. lia. Qed.

Lemma vyukhov_empty_repr : vyukhov_repr 16384 4096 2 0 [] vyukhov_empty.
Proof.
  split; [look|look|look|look|look|done|by apply slots_nil| | |].
  - intros p. unfold slot. change (2 ^ 2) with 4. pose proof (Z.mod_pos_bound p 4 ltac:(lia)).
    assert (Hp : p mod 4 = 0 \/ p mod 4 = 1 \/ p mod 4 = 2 \/ p mod 4 = 3) by lia.
    destruct Hp as [->|[->|[->| ->]]]; split; there.
  - intros p Hp. unfold Zlen in Hp. cbn [length Z.of_nat] in Hp. lia.
  - intros p Hp. unfold Zlen in Hp. cbn [length Z.of_nat] in Hp.
    change (0 + 2 ^ 2) with 4 in Hp. assert (Hc : p = 0 \/ p = 1 \/ p = 2 \/ p = 3) by lia.
    destruct Hc as [->|[->|[->| ->]]]; look.
Qed.

Definition vyukhov_one : mem := vyukhov_after_insert 16384 4096 2 0 0 pair vyukhov_empty.

Lemma vyukhov_one_repr : vyukhov_repr 16384 4096 2 0 [pair] vyukhov_one.
Proof.
  apply (vyukhov_repr_insert 16384 4096 2 vyukhov_place 0 []); [apply vyukhov_empty_repr|done].
Qed.


(** A callback that sums keys and values up and stops at the key 7. *)
Definition sum_up : ds_vyukhov_iter_fn (Ctx := Z) := fun key value acc =>
  (if key =? 7 then 1 else 0, acc + key + value).

Lemma vyukhov_readers_witness :
  wpr (ds_vyukhov_search BPF 16384 7) vyukhov_one 1 (fun r m' _ =>
    r = search_result 7 [pair] /\ m' = vyukhov_one) /\
  wpr (ds_vyukhov_iterate BPF 16384 (Some sum_up) 1) vyukhov_one 1 (fun r m' _ =>
    m' = vyukhov_one /\ r = visit sum_up [pair] 0 1 /\
    r.1 = Zlen (answers sum_up [pair] 1) - (if stopped (answers sum_up [pair] 1) then 1 else 0)).
Proof.
  apply (vyukhov_readers 16384 4096 2 BPF 0 [pair] vyukhov_one 1 7 sum_up 1);
    [apply vyukhov_place|apply vyukhov_one_repr|lia|look|intros _; cbn; lia].
Defined.

(** The callback is called once, on the only pair, and the number returned is zero. *)
Lemma stopped_at_once : answers sum_up [pair] 1 = [1] /\ visit sum_up [pair] 0 1 = (0, 78).
Proof. split; vm_compute; reflexivity. Qed.

(** ** Folly's ring: five records, the next insertion wraps *)

Definition spsc_empty : mem :=
  <[16384 + 0:=4]> (<[16384 + 64:=4]> (<[16384 + 68:=5]> (<[16384 + 72:=4096]> fresh_arena))).

Lemma spsc_place : spsc_placed 16384 4096 5.
Proof. unfold spsc_placed. cbn. lia. Qed.

Lemma spsc_empty_repr : spsc_repr 16384 4096 5 4 [] spsc_empty.
Proof.
  split; [look|look|look|look|done|by apply slots_nil|].
  apply slots_mapped_words; [lia|]. apply (page_words 10); [lia|]. off_page spsc_empty.
Qed.

Definition spsc_one : mem := spsc_after_insert 16384 4096 5 4 pair spsc_empty.

Lemma spsc_one_repr : spsc_repr 16384 4096 5 4 [pair] spsc_one.
Proof. apply (spsc_repr_insert 16384 4096 5 spsc_place 4 []); [apply spsc_empty_repr|done]. Qed.


(** ** The CK ring: four slots *)

Definition ck_ring_empty : mem :=
  <[16384 + 0:=4]> (<[16384 + 4:=3]> (<[16384 + 8:=3]> (<[16384 + 12:=3]>
    (<[16384 + 16:=4096]> fresh_arena)))).

Lemma ck_ring_place : ck_ring_placed 16384 4096 2.
Proof. unfold ck_ring_placed. cbn. lia. Qed.

Lemma ck_ring_empty_repr : ck_ring_repr 16384 4096 2 3 [] ck_ring_empty.
Proof.
  split; [look|look|look|look|look|done|by apply slots_nil|].
  apply slots_mapped_words; [lia|]. apply (page_words 8); [lia|]. off_page ck_ring_empty.
Qed.

Definition ck_ring_one : mem := ck_after_insert 16384 4096 2 3 pair ck_ring_empty.

Lemma ck_ring_one_repr : ck_ring_repr 16384 4096 2 3 [pair] ck_ring_one.
Proof. apply (ck_repr_insert 16384 4096 2 ck_ring_place 3 []); [apply ck_ring_empty_repr|done]. Qed.


Lemma is_power_of_two_iff_witness :
  ds_ck_ring_spsc_is_power_of_two 12 = true <-> exists k, 1 <= k <= 31 /\ 12 = 2 ^ k.
Proof. apply (is_power_of_two_iff 12). lia. Defined.

(** ** io_uring: two entries, the 32-bit tail has wrapped *)

Definition uring_empty : mem :=
  <[16384 + 0:=2 ^ 32 - 1]> (<[16384 + 64:=2 ^ 32 - 1]> (<[16384 + 68:=2]> (<[16384 + 72:=1]>
    (<[16384 + 80:=4096]> fresh_arena)))).

Lemma uring_place : uring_placed 16384 4096 1.
Proof. unfold uring_placed. cbn. lia. Qed.

Lemma uring_empty_repr : uring_repr 16384 4096 1 (2 ^ 32 - 1) [] 0 uring_empty.
Proof.
  split; [look|look|look|look|look|look|done|by apply slots_nil|].
  apply slots_mapped_words; [lia|]. apply (page_words 4); [lia|]. off_page uring_empty.
Qed.

Definition uring_one : mem := uring_after_insert 16384 4096 1 (2 ^ 32 - 1) pair 0 uring_empty.

Lemma uring_one_repr : uring_repr 16384 4096 1 (2 ^ 32 - 1) [pair] 0 uring_one.
Proof.
  apply (uring_repr_insert 16384 4096 1 uring_place (2 ^ 32 - 1) [] 0); [apply uring_empty_repr|done].
Qed.


(** ** kcov: a buffer of five words, room for two pairs *)

Definition kcov_empty : mem := <[16384 + 0:=5]> (<[16384 + 8:=4096]> fresh_arena).

Lemma kcov_place : kcov_placed 16384 4096 5.
Proof. unfold kcov_placed. cbn. lia. Qed.

Lemma kcov_empty_repr : kcov_repr 16384 4096 5 [] kcov_empty.
Proof.
  split; [look|look|look|done|by apply slots_nil|].
  apply slots_mapped_words; [done|]. intros i Hi Hin. change (16 * kcov_max_entries 5) with 32 in Hin.
    assert (Hm : mapped_words 4096 40 kcov_empty) by (apply (page_words 5); [lia|]; off_page kcov_empty).
    replace (4096 + 8 + 8 * i) with (4096 + 8 * (i + 1)) by lia. apply Hm; lia.
Qed.

Definition kcov_one : mem := kcov_after_insert 4096 5 [] pair kcov_empty.

Lemma kcov_one_repr : kcov_repr 16384 4096 5 [pair] kcov_one.
Proof. apply (kcov_repr_insert 16384 4096 5 kcov_place []); [apply kcov_empty_repr|done]. Qed.

(** ** All rings together *)

