(* ===== verification/ExamplesLists.v ===== *)
(** * Concrete linked structures, and the theorems on their operations applied to them.

    All live in an arena page of which the upper half has been handed out: the header at 16384,
    the nodes at 6144 and 6208. *)
From stdpp Require Import base numbers gmap list fin_maps option.
From S2P Require Import Prelude Machine Logic Api Arena Owned Container Ring Linked.
From S2P Require Import CkStack CkFifo MsQueue Readers Examples.

Definition pair : ds_kv := mk_kv 7 70.

(** Sums keys and values up and goes on. *)
Definition sum_up (key value acc : Z) : Z * Z := (0, acc + key + value).

Ltac separate :=
  cbn; repeat split; intros a Ha Hl;
  repeat (apply in_live_cons in Hl as [Hl|Hl]; [unfold in_block in *; lia|]);
  by apply in_live_nil in Hl.

(** Structures made of handed-out blocks are sound, whatever their bytes hold. *)
Lemma used_holds own m :
  separated own -> Forall (fun '(p, n) => 6144 <= p /\ p + n <= 8184 \/ 8192 <= p) own ->
  unchanged_outside (in_live own) used_arena m -> grows used_arena m ->
  heap_holds (Al := page_allocator) own [] m.
Proof.
  intros Hs Hp Hu Hg. refine (proj1 (heap_holds_update (Al := page_allocator) own [] used_arena m _ Hu Hg)).
  unfold heap_holds. rewrite app_nil_r. split; [|done]. apply used_heap.
  intros a (p & n & Hin & Ha). rewrite Forall_forall in Hp. apply list_elem_of_In in Hin. specialize (Hp _ Hin). cbn in Hp.
  unfold in_block in Ha. lia.
Qed.

Ltac own_bytes :=
  repeat (apply unchanged_insert_trans;
    [repeat (apply in_live_cons; first [left; unfold in_block; lia|right]); fail|]);
  apply unchanged_refl.

(** ** A stack of one pair *)

Definition stack_mem : mem :=
  <[16384 + 0:=6144]> (<[16384 + 8:=1]> (<[6144 + 8:=7]> (<[6144 + 16:=70]> used_arena))).

Lemma stack_mem_repr : stack_repr 16384 [6144] [pair] stack_mem.
Proof.
  split; [|look|separate]. exists 6144. split; [look|]. cbn [chain].
  split; [done|]. split; [lia|]. split; [look|]. split; [look|]. exists 0. split; [look|done].
Qed.


Definition no_stats : ds_stats := {| st_ops := []; st_current_elements := 0; st_max_elements := 0; st_memory_used := 0 |}.


(** ** CK FIFOs: one pair behind the stub; and an empty queue with one consumed entry *)

Definition fifo_mem : mem :=
  <[16384 + 0:=6144]> (<[16384 + 8:=6208]> (<[16384 + 16:=6144]> (<[16384 + 24:=6144]>
    (<[6144 + 8:=6208]> (<[6208 + 0:=6224]> (<[6208 + 16:=7]> (<[6208 + 24:=70]> used_arena))))))).

Lemma fifo_mem_repr : fifo_repr 16384 [] 6144 [6208] [pair] fifo_mem.
Proof.
  split; [look|look| | | | |separate].
  - exists 6144. split; [look|left].
  - exists 6144, [], (mk_kv 0 0). split; [look|]. split; [done|]. cbn [chain app].
    split; [done|]. split; [lia|]. split; [look|]. split; [look|]. exists 6208. split; [look|].
    split; [done|]. split; [lia|]. split; [look|]. split; [look|]. exists 0. split; [look|done].
  - intros a Ha. apply list_elem_of_singleton in Ha as ->. look.
  - intros a Ha. apply elem_of_cons in Ha as [->|Ha]; [there|].
    apply list_elem_of_singleton in Ha as ->. there.
Qed.


Lemma linked_verifiers_witness :
  wpr (ds_ck_stack_upmc_verify 2 USER 16384) stack_mem 0 (fun r m' _ =>
    r = DS_SUCCESS /\ m' = stack_mem) /\
  wpr (ds_ck_fifo_spsc_verify USER 16384) fifo_mem 0 (fun r m' _ => r = DS_SUCCESS /\ m' = fifo_mem).
Proof.
  destruct (linked_verifiers (Al := page_allocator) USER) as [Hstack Hfifo]. split.
  - apply (Hstack 16384 2%nat [6144] [pair]); [lia|lia|apply stack_mem_repr|cbn; lia].
  - apply (Hfifo 16384 [] 6144 [6208] [pair]); [lia|apply fifo_mem_repr|look|done].
Defined.

Definition consumed_mem : mem :=
  <[16384 + 0:=6208]> (<[16384 + 8:=6208]> (<[16384 + 16:=6144]> (<[16384 + 24:=6144]>
    (<[6144 + 8:=6208]> (<[6208 + 16:=7]> (<[6208 + 24:=70]> used_arena)))))).

Lemma consumed_mem_repr : fifo_repr 16384 [6144] 6208 [] [] consumed_mem.
Proof.
  split; [look|look| | | | |separate].
  - exists 6144. split; [look|left].
  - exists 6144, [mk_kv 0 0], pair. split; [look|]. split; [done|]. cbn [chain app].
    split; [done|]. split; [lia|]. split; [look|]. split; [look|]. exists 6208. split; [look|].
    split; [done|]. split; [lia|]. split; [look|]. split; [look|]. exists 0. split; [look|done].
  - intros a Ha. by apply elem_of_nil in Ha.
  - intros a Ha. apply elem_of_cons in Ha as [->|Ha]; [there|].
    apply list_elem_of_singleton in Ha as ->. there.
Qed.

Lemma consumed_holds :
  heap_holds (Al := page_allocator) (fifo_own 16384 [6144] 6208 []) [] consumed_mem.
Proof.
  apply used_holds; [separate| |unfold consumed_mem, fifo_own; cbn|unfold consumed_mem; do 7 apply grows_insert; apply grows_refl].
  - repeat (apply Forall_cons_2; [lia|]). by apply Forall_nil_2.
  - own_bytes.
Qed.

(** ** Michael-Scott queues of one pair, with the tail up to date or lagging *)

Definition msq_mem (t : Z) : mem :=
  <[16384 + 0:=6144]> (<[16384 + 8:=t]> (<[16384 + 16:=1]> (<[6144 + 0:=6208]>
    (<[6208 + 8:=7]> (<[6208 + 16:=70]> used_arena))))).

Lemma msq_mem_repr (lag : bool) :
  msq_repr (Al := page_allocator) 16384 [6144; 6208] [pair] lag (msq_mem (if lag then 6144 else 6208)).
Proof.
  split; [look| |look| | |separate].
  - destruct lag.
    + exists [], 6144, [6208]. split; [done|]. split; [look|done].
    + exists [6144], 6208, []. split; [done|]. split; [look|done].
  - exists (mk_kv 0 0). cbn [chain List.hd].
    split; [done|]. split; [lia|]. split; [look|]. split; [look|]. exists 6208. split; [look|].
    split; [done|]. split; [lia|]. split; [look|]. split; [look|]. exists 0. split; [look|done].
  - repeat (apply Forall_cons_2; [cbn; unfold in_block; lia|]). by apply Forall_nil_2.
Qed.


Lemma msqueue_readers_witness :
  wpr (ds_msqueue_search BPF 16384 7) (msq_mem 6208) 1 (fun r m' _ =>
    r = search_result 7 (take (Z.to_nat MSQUEUE_MAX_ITERATIONS) [pair]) /\ m' = msq_mem 6208) /\
  wpr (ds_msqueue_iterate BPF 16384 (Some sum_up) 1) (msq_mem 6208) 1 (fun r m' _ =>
    r = visit sum_up (take (Z.to_nat MSQUEUE_ITERATE_MAX) [pair]) 0 1 /\ m' = msq_mem 6208).
Proof.
  apply (msqueue_readers (Al := page_allocator) 16384 BPF [6144; 6208] [pair] false (msq_mem 6208) 1
    7 sum_up 1); [lia|apply (msq_mem_repr false)|intros _; cbn; lia].
Defined.

Lemma msq_holds t : heap_holds (Al := page_allocator) (msq_own 16384 [6144; 6208]) [] (msq_mem t).
Proof.
  apply used_holds; [separate| |unfold msq_mem, msq_own; cbn|unfold msq_mem; do 6 apply grows_insert; apply grows_refl].
  - repeat (apply Forall_cons_2; [lia|]). by apply Forall_nil_2.
  - own_bytes.
Qed.

Lemma msq_insert_exhausted_witness :
  wpr (ds_msqueue_insert_lkmm (Al := page_allocator) 0 16384 8 80) (msq_mem 6208) 0 (fun r m' _ =>
    r = DS_ERROR_NOMEM \/
    (r = DS_SUCCESS /\ m' !! Msqueue.count 16384 = Some (u64 2) /\
     heap_holds (Al := page_allocator) (msq_own 16384 [6144; 6208]) [] m' /\
     msq_repr (Al := page_allocator) 16384 [6144; 6208] [pair] false
       (<[Msqueue.count 16384:=u64 1]> m'))).
Proof.
  apply (msq_insert_exhausted (Al := page_allocator) 16384 ltac:(lia) 0 [6144; 6208] [pair] false []
    (msq_mem 6208) (mk_kv 8 80)); [apply msq_holds|apply (msq_mem_repr false)|done|by vm_compute].
Defined.
