(* ===== verification/ExamplesSystem.v ===== *)
(** * A small system: two rings and two buffers at work, and a relay from boot to shutdown.

    The relay's arena is at 4096; the kernel leaves memory alone. Each run that a theorem is applied to is
    also executed, so that one sees what it does: pairs are relayed, some are dropped, some consumed. *)
From stdpp Require Import base numbers gmap list fin_maps option strings relations.
From S2P Require Import Prelude Machine Logic Api Arena Owned Conc Container Allocators Ring Duet Spsc.
From S2P Require Import FollySpsc CkRing IoUring SpscRings Kcov KcovRace Metrics.
From S2P Require Import Linked Threads Vyukhov VyukhovConc CkStack CkStackConc.
From S2P Require Import Relay RelaySpec Setup RelaySystem Skeletons Verdicts Report Main Examples ExamplesRings.

(** ** Several producers and consumers *)

Definition vyukhov_clients : list vyukhov_client :=
  [mk_vclient BPF [OInsert (mk_kv 1 10); OInsert (mk_kv 2 20)] 5;
   mk_vclient USER [OInsert (mk_kv 3 30); OPop (mk_kv 0 0)] 0;
   mk_vclient USER [OPop (mk_kv 0 0); OPop (mk_kv 0 0)] 0].

Lemma vyukhov_mpmc_witness :
  let pool := vyukhov_pool (Al := page_allocator) 16384 2 vyukhov_clients in
  Acc (flip pool_step) (pool, vyukhov_one) /\
  forall ts m', rtc pool_step (pool, vyukhov_one) (ts, m') ->
    (forall i t, ts !! i = Some t -> ~ thread_faults t m' /\ t.1 <> NoFuel) /\
    vyukhov_outcome 16384 4096 2 [pair] vyukhov_clients ts m'.
Proof.
  apply (vyukhov_mpmc (Al := page_allocator) 16384 4096 2 0 [pair] vyukhov_clients vyukhov_one vyukhov_place);
    [cbn; lia|apply vyukhov_one_repr].
Defined.

(** A refusal that is looser than the documentation: the first thread has taken a ticket, the
    second has inserted a pair, and the third is told that the queue is empty. *)
Definition slow_insert : list vyukhov_client :=
  [mk_vclient BPF [OInsert (mk_kv 1 10)] 5; mk_vclient USER [OInsert (mk_kv 2 20)] 0;
   mk_vclient USER [OPop (mk_kv 0 0)] 0].

Definition slow_schedule : list nat := replicate 8 0%nat ++ replicate 10 1%nat ++ replicate 5 2%nat.

Lemma vyukhov_spurious_empty : exists ts m',
  rtc pool_step (vyukhov_pool (Al := page_allocator) 16384 2 slow_insert, vyukhov_empty) (ts, m') /\
  (ts !! 1%nat) ≫= thread_done = Some [EInsert (mk_kv 2 20) DS_SUCCESS] /\
  (ts !! 2%nat) ≫= thread_done = Some [EPop (mk_kv 0 0) DS_ERROR_NOT_FOUND (Some (mk_kv 0 0))].
Proof.
  destruct (run_schedule_outcome slow_schedule (vyukhov_pool (Al := page_allocator) 16384 2 slow_insert)
    vyukhov_empty (fun c => ((c.1 !! 1%nat) ≫= thread_done, (c.1 !! 2%nat) ≫= thread_done))
    (Some [EInsert (mk_kv 2 20) DS_SUCCESS], Some [EPop (mk_kv 0 0) DS_ERROR_NOT_FOUND (Some (mk_kv 0 0))]))
    as (ts & m' & Hs & Ho); [vm_compute; reflexivity|].
  exists ts, m'. split; [exact Hs|]. split; [exact (f_equal fst Ho)|exact (f_equal snd Ho)].
Qed.

(** A stack of one pair, in an entry at 6144; the threads push entries at 6208 and 6272. *)
Definition stack_one : mem :=
  <[16384 + 0:=6144]> (<[16384 + 8:=1]> (<[6144 + 8:=7]> (<[6144 + 16:=70]> used_arena))).

Definition stack_clients : list stack_client :=
  [mk_client BPF [SPush 6208 (mk_kv 1 10); SPop (mk_kv 0 0)] 12;
   mk_client USER [SPop (mk_kv 0 0); SPush 6272 (mk_kv 2 20)] 0;
   mk_client USER [SPop (mk_kv 0 0)] 0].

Lemma stack_one_repr : stack_repr 16384 [6144] [pair] stack_one.
Proof.
  split; [|look|].
  - exists 6144. split; [look|]. cbn [chain].
    split; [done|]. split; [lia|]. split; [look|]. split; [look|]. exists 0. split; [look|done].
  - cbn. repeat split; intros a Ha Hl;
      repeat (apply in_live_cons in Hl as [Hl|Hl]; [unfold in_block in *; lia|]); by apply in_live_nil in Hl.
Qed.

Lemma stack_clients_ready : clients_ready 16384 [6144] stack_clients stack_one.
Proof.
  split.
  - cbn. repeat split; intros a Ha Hl;
      repeat (apply in_live_cons in Hl as [Hl|Hl]; [unfold in_block in *; lia|]); by apply in_live_nil in Hl.
  - intros a Ha. cbn in Ha.
    assert (Hin : a = 6208 \/ a = 6272)
      by (repeat (apply elem_of_cons in Ha as [->|Ha]; [by auto|]); by apply elem_of_nil in Ha).
    destruct Hin as [->| ->]; (split; [lia|]); intros j Hj1 Hj2;
      assert (Hj : j = 0 \/ j = 1 \/ j = 2) by lia; destruct Hj as [->|[->| ->]]; there.
  - intros c Hc. cbn in Hc.
    repeat (apply elem_of_cons in Hc as [->|Hc]; [cbn; lia|]); by apply elem_of_nil in Hc.
Qed.

Lemma ck_stack_linearizable_witness :
  Acc (flip pool_step) (stack_pool 6 16384 stack_clients, stack_one) /\
  forall ts m', rtc pool_step (stack_pool 6 16384 stack_clients, stack_one) (ts, m') ->
    (forall i t, ts !! i = Some t -> ~ thread_faults t m' /\ t.1 <> NoFuel) /\
    stack_outcome 16384 [pair] stack_clients ts m'.
Proof.
  apply (ck_stack_linearizable 16384 [6144] [pair] stack_clients stack_one);
    [lia|apply stack_one_repr|apply stack_clients_ready|cbn; lia].
Defined.

(** ** A producer and a consumer *)

Definition to_insert : list ds_kv := [mk_kv 1 10; mk_kv 2 20].
Definition outputs : list ds_kv := [mk_kv 0 0; mk_kv 0 0; mk_kv 0 0].

Lemma folly_spsc_linearizable_witness :
  spsc_linearizable (ring_holds (spsc_repr 16384 4096 5)) (ring_holds (spsc_repr 16384 4096 5))
    (bounded fifo_add 4 DS_ERROR_FULL) [pair] to_insert outputs
    (perform (spsc_container (Al := page_allocator) BPF 16384 5) (map OInsert to_insert))
    (perform (spsc_container (Al := page_allocator) USER 16384 5) (map OPop outputs)) spsc_one.
Proof.
  apply (folly_spsc_linearizable (Al := page_allocator) 16384 4096 5 BPF USER 4 [pair]);
    [apply spsc_place|apply spsc_one_repr].
Defined.

Lemma ck_ring_linearizable_witness :
  spsc_linearizable (ring_holds (ck_ring_repr 16384 4096 2)) (ring_holds (ck_ring_repr 16384 4096 2))
    (bounded fifo_add 3 DS_ERROR_FULL) [pair] to_insert outputs
    (perform (ck_ring_container (Al := page_allocator) USER 16384 2) (map OInsert to_insert))
    (perform (ck_ring_container (Al := page_allocator) BPF 16384 2) (map OPop outputs)) ck_ring_one.
Proof.
  apply (ck_ring_linearizable (Al := page_allocator) 16384 4096 2 USER BPF 3 [pair]);
    [apply ck_ring_place|apply ck_ring_one_repr].
Defined.

Lemma io_uring_linearizable_witness :
  spsc_linearizable (ring_holds (uring_repr_any 16384 4096 1)) (ring_holds (uring_repr_any 16384 4096 1))
    (bounded fifo_add 2 DS_ERROR_FULL) [pair] to_insert outputs
    (perform (uring_container (Al := page_allocator) BPF 16384 1) (map OInsert to_insert))
    (perform (uring_container (Al := page_allocator) USER 16384 1) (map OPop outputs)) uring_one.
Proof.
  apply (io_uring_linearizable (Al := page_allocator) 16384 4096 1 BPF USER (2 ^ 32 - 1) [pair] 0);
    [apply uring_place|apply uring_one_repr].
Defined.

Lemma kcov_torn_entry_witness :
  exists m', rtc pool_step
    ([(perform (kcov_container (Al := page_allocator) BPF 16384 5) [OInsert (mk_kv 1 10)], 0%nat);
      (perform (kcov_container (Al := page_allocator) USER 16384 5) [OPop (mk_kv 3 3)], 0%nat)], kcov_empty)
    ([(Ret [EInsert (mk_kv 1 10) DS_SUCCESS], 0%nat);
      (Ret [EPop (mk_kv 3 3) DS_SUCCESS (Some (mk_kv 0 0))], 0%nat)], m') /\
    kcov_repr 16384 4096 5 [] m'.
Proof.
  apply (kcov_torn_entry (Al := page_allocator) 16384 4096 5 kcov_place BPF USER);
    [apply kcov_empty_repr|look|look].
Defined.

(** ** Setting up: an arena at 4096, the headers and the metrics from its start on *)

Definition blank_arena (pages : nat) : mem := zeros (512 * pages) 4096 8 (zeros 64 4096 4 (zeros 7 64 8 ∅)).

Lemma blank_static pages i : 0 <= i < 7 -> blank_arena pages !! (64 + 8 * i) = Some 0.
Proof. intros Hi. unfold blank_arena. rewrite !zeros_below by lia. apply zeros_in; lia. Qed.

Lemma blank_arena_ready pages : setup_ready 64 4096 (Z.of_nat pages) 12 (blank_arena pages).
Proof.
  split; [done|]. split; [intros i Hi Hn; exists 0; apply blank_static; lia|].
  split; [exact (blank_static pages 6 ltac:(lia))|].
  intros a H1 H2 H3. exists 0. unfold blank_arena.
  replace a with (4096 + 8 * ((a - 4096) / 8)) by (Z.div_mod_to_equations; lia).
  apply zeros_in; [lia|]. Z.div_mod_to_equations. lia.
Qed.

Notation raw_arena := (blank_arena 3).

Lemma setup_hands_out_metrics_witness :
  wpr (setup_userspace_allocator 64 4096 3) raw_arena 0 (fun r m1 b1 => r = 0 /\
    (forall live, (forall a, in_live live a -> ~ in_block 64 56 a /\ ~ in_block 8192 (2 * 4096) a) ->
       user_heap_ok 64 8192 2 12 live m1) /\
    wpr (User.bpf_arena_alloc_user 64 1 24) m1 b1 (fun p _ _ =>
      p = 12256 /\ forall a, in_block p 24 a -> in_live [metrics_block 4352] a)).
Proof.
  apply (setup_hands_out_metrics 64 1 4096 3 4352 24);
    [lia|lia|done|lia|lia|lia|apply (blank_arena_ready 3)|lia|lia|done].
Defined.

(** ** Relays

    One arena map from 4096 on: KU's header, UK's 128 bytes further and the metrics at 4352, in the
    first 129 pages, then two pages for the allocator, whose statics are at 64. The setup of the skeletons
    would give the allocator pages of the metrics too; these examples have a range behind them. *)

#[export] Instance page_ops : UserOps := {|
  user_arena_alloc := User.bpf_arena_alloc_user 64 1;
  user_arena_free := User.bpf_arena_free_user 64
|}.

Notation arena_allocator := (user_allocator 64 1 532480 2 12).

Lemma arena_range : user_range_ok 64 532480 2 12.
Proof. unfold user_range_ok. cbn. split_and!; try done; lia. Qed.

#[export] Instance arena_laws : AllocLaws arena_allocator.
Proof. apply user_alloc_laws; [lia|apply arena_range]. Qed.

#[export] Instance arena_user_laws : AllocLaws (user_build arena_allocator).
Proof. exact arena_laws. Qed.

Lemma arena_ready : forall live sz m,
  heap_ok (Allocator := arena_allocator) live m -> alloc_pre (Allocator := arena_allocator) sz m.
Proof. done. Qed.

#[local] Opaque zeros.

(** The globals of the loaded program, all zero, and the allocator's pages. *)
Definition globals : mem := zeros (Z.to_nat 65556) 4352 8 (zeros 64 4096 4 ∅).
Definition relay_pages : mem := zeros 1024 532480 8 globals.
Definition relay_arena : mem :=
  <[64:=532480]> (<[72:=8192]> (<[80:=4096]> (<[88:=0]> (<[96:=0]> (<[104:=0]> (<[112:=0]> relay_pages)))))).

Lemma relay_arena_above a : 112 < a -> relay_arena !! a = relay_pages !! a.
Proof. intros Ha. unfold relay_arena. do 7 rewrite lookup_insert_ne by lia. reflexivity. Qed.

Lemma relay_header i : 0 <= i < 64 -> relay_arena !! (4096 + 4 * i) = Some 0.
Proof.
  intros Hi. rewrite relay_arena_above by lia. unfold relay_pages, globals.
  rewrite !zeros_below by lia. apply zeros_in; lia.
Qed.

Lemma relay_metrics : store_zeroed 4352 relay_arena.
Proof.
  apply zeroed_metrics. intros i Hi. rewrite relay_arena_above by lia. unfold relay_pages, globals.
  rewrite zeros_below by lia. apply zeros_in; lia.
Qed.

Lemma relay_fresh : user_state 64 532480 2 12 relay_arena 0 0 0 0.
Proof.
  split; [unfold relay_arena; repeat (rewrite lookup_insert_ne by discriminate); apply lookup_insert_eq..|].
  intros i Hi Hn. rewrite relay_arena_above by lia. exists 0. apply zeros_in; lia.
Qed.

(** Two headers of [n] bytes and the metrics. *)
Lemma relay_holds n :
  0 < n <= 128 ->
  heap_holds (Al := arena_allocator) [(4096, n); (4224, n)] [metrics_block 4352] relay_arena.
Proof.
  intros Hn. split.
  - apply (fresh_range_ok 64 532480 2 12); [apply arena_range|apply relay_fresh|]. intros a Ha. cbn in Ha.
    repeat (apply in_live_cons in Ha as [Ha|Ha];
      [unfold in_block, MetricsRing.sizeof, DS_METRICS_RING_SIZE in *; cbn in Ha; lia|]).
    by apply in_live_nil in Ha.
  - cbn. repeat split; intros a Ha Hl;
      repeat (apply in_live_cons in Hl as [Hl|Hl]; [unfold in_block in *; cbn in *; lia|]);
      by apply in_live_nil in Hl.
Qed.

#[global] Opaque relay_arena.

(** A trigger that comes too early, two pairs on their way through the relay, the first of them
    consumed, and a third pair that stays in KU. *)
Definition day : list activity :=
  [ConsumeTrigger; RelayTurn; InodeCreate; RelayTurn; RelayTurn; ConsumeTrigger; InodeCreate; RelayTurn; InodeCreate].

(** How many pairs were produced, taken from KU, put into UK and consumed. *)
Definition tallies (s : system) : Z * Z * Z * Z :=
  (total_kernel_prod_ops (sys_kernel s), ku_dequeued_count (sys_relay s), uk_enqueued_count (sys_relay s),
   total_kernel_consumed (sys_kernel s)).

Notation KU_ring := (folly_spsc_lane (Al := arena_allocator) 4096).
Notation UK_ring := (folly_spsc_lane (Al := arena_allocator) 4224).
Notation ring_skeleton := (folly_spsc_skeleton (Al := arena_allocator) 4096 4224 4352).

#[export] Instance ring_lane_laws h : LaneLaws (Al := arena_allocator) (folly_spsc_lane (Al := arena_allocator) h).
Proof. apply (folly_spsc_lane_laws (Al := arena_allocator)). done. Qed.

#[export] Instance ring_skeleton_laws :
  SkeletonLaws (Al := arena_allocator) ring_skeleton false 4352 [] KU_ring UK_ring 0.
Proof. apply (lane_skeleton_laws (Al := arena_allocator)); try done; apply _. Qed.

Lemma ring_booted :
  relay_booted (Al := arena_allocator) (metrics := 4352) (rest := []) (KU := KU_ring) (UK := UK_ring)
    relay_arena.
Proof.
  split; [by apply (relay_holds 128)|]. split; [|split; [|apply relay_metrics]].
  - split; [done|]. split; [|by apply (relay_header 18)].
    repeat split; eexists.
    1: by apply (relay_header 0). 1: by apply (relay_header 16). 1: by apply (relay_header 17).
    by apply (relay_header 18).
  - split; [done|]. split; [|by apply (relay_header 50)].
    repeat split; eexists.
    1: by apply (relay_header 32). 1: by apply (relay_header 48). 1: by apply (relay_header 49).
    by apply (relay_header 50).
Qed.

(** Three pairs produced, two relayed, one consumed. *)
Lemma ring_day :
  option_map tallies (activities (Sk := ring_skeleton) 0 day (boot pair relay_arena)) = Some (3, 2, 2, 1).
Proof. vm_compute. reflexivity. Qed.

(** Nobody consumes for a while: once UK is full, the pairs that the thread still takes from KU are
    dropped. Then two are consumed. *)
Definition crowded (n : nat) : list activity :=
  [InodeCreate; RelayTurn] ++ concat (replicate n [RelayTurn; InodeCreate]) ++ [ConsumeTrigger; ConsumeTrigger].

(** UK has room for 127 pairs: three are dropped. *)
Notation crowded_day := (crowded 130).

Lemma ring_drops :
  option_map tallies (activities (Sk := ring_skeleton) 0 crowded_day (boot pair relay_arena)) = Some (131, 130, 127, 2).
Proof. vm_compute. reflexivity. Qed.

Notation ring_system_ok := (sys_simulated (Al := arena_allocator) (flagged := false)
  (metrics := 4352) (rest := []) (KU := KU_ring) (UK := UK_ring)).

Lemma relay_refines_witness :
  exists s' a', activities (Sk := ring_skeleton) 0 day (boot pair relay_arena) = Some s' /\
    abs_activities (lane_spec KU_ring) (lane_spec UK_ring) day arelay_start a' /\
    ring_system_ok a' s' /\
    (forall c, in_live [] c -> sys_mem s' !! c = relay_arena !! c).
Proof. apply (relay_refines (Al := arena_allocator) pair relay_arena day ring_booted). Defined.

Lemma relay_conserves_witness :
  exists s' a', activities (Sk := ring_skeleton) 0 crowded_day (boot pair relay_arena) = Some s' /\
    ring_system_ok a' s' /\
    let lk := lane_contents (ar_ku a') in let lu := lane_contents (ar_uk a') in
    let dropped := refused (ar_huk a') in
    accepted (ar_hku a') = popped (ar_hku a') ++ lk /\
    offered (ar_huk a') = popped (ar_hku a') /\
    accepted (ar_huk a') = popped (ar_huk a') ++ lu /\
    accepted (ar_hku a') ≡ₚ popped (ar_huk a') ++ lu ++ lk ++ dropped /\
    popped (ar_huk a') ++ lu ++ lk `sublist_of` accepted (ar_hku a') /\
    Forall genuine (accepted (ar_hku a')) /\
    u64 (ku_dequeued_count (sys_relay s') - uk_enqueued_count (sys_relay s')) = u64 (Zlen dropped) /\
    (dropped = [] -> accepted (ar_hku a') = popped (ar_huk a') ++ lu ++ lk).
Proof.
  apply (relay_conserves (Al := arena_allocator) (KU := KU_ring) (UK := UK_ring) pair relay_arena crowded_day
    eq_refl eq_refl ring_booted).
Defined.

Lemma relay_shutdown_witness :
  exists s1 s2 a1 a2, activities (Sk := ring_skeleton) 0 crowded_day (boot pair relay_arena) = Some s1 /\
    ring_system_ok a1 s1 /\
    trigger_kernel_consumer_on_exit (Sk := ring_skeleton) 0 s1 = Some s2 /\ ring_system_ok a2 s2 /\
    lane_contents (ar_uk a2) = [] /\
    popped (ar_huk a2) = popped (ar_huk a1) ++ lane_contents (ar_uk a1) /\
    total_kernel_consumed (sys_kernel s2) = uk_enqueued_count (sys_relay s1) /\
    ar_ku a2 = ar_ku a1.
Proof.
  apply (relay_shutdown (Al := arena_allocator) (KU := KU_ring) (UK := UK_ring) pair relay_arena crowded_day
    (or_introl eq_refl) eq_refl ring_booted).
Defined.

(** There the shutdown procedure takes the other 125 pairs. *)
Lemma ring_shutdown :
  option_map tallies (s ← activities (Sk := ring_skeleton) 0 crowded_day (boot pair relay_arena);
    trigger_kernel_consumer_on_exit (Sk := ring_skeleton) 0 s) = Some (131, 130, 127, 127).
Proof. vm_compute. reflexivity. Qed.

#[export] Instance ring_test_laws h :
  TestLaws (folly_spsc_lane (Al := arena_allocator) h) (folly_spsc_up h).
Proof. apply (folly_spsc_test_laws (Al := arena_allocator)). Qed.

#[export] Instance ring_verify_laws h : VerifyLaws (folly_spsc_lane (Al := arena_allocator) h).
Proof. apply (folly_spsc_verify_laws (Al := arena_allocator)). Qed.

Notation ring_verify := (array_verify_data_structure (Al := arena_allocator) FollyRing 4096 4224).

Lemma relay_verified_witness :
  exists s', activities (Sk := array_skeleton (Al := arena_allocator) FollyRing 4096 4224 4352) 0 day
      (boot pair relay_arena) = Some s' /\
    run ring_verify (sys_mem s') 0 = Done DS_SUCCESS (sys_mem s') 0 /\
    forall m1 xk xu, reads FollyRing 4096 xk m1 -> reads FollyRing 4224 xu m1 ->
      exists v, run ring_verify m1 0 = Done v m1 0 /\
        (v = DS_SUCCESS /\ passes FollyRing xk /\ passes FollyRing xu \/
         v = DS_ERROR_INVALID /\ ~ (passes FollyRing xk /\ passes FollyRing xu)).
Proof.
  apply (relay_verified (Al := arena_allocator) arena_ready 4096 4224 4352 []); [lia|lia|lia|done|done|exact ring_booted].
Defined.

(** After that day, UK's write position is set to its capacity: the check fails. *)
Definition answer {A} (o : outcome A) : option A := match o with Done a _ _ => Some a | _ => None end.

Lemma scribbled :
  (s ← activities (Sk := ring_skeleton) 0 day (boot pair relay_arena);
   answer (run ring_verify (<[4224 + 0:=128]> (sys_mem s)) 0)) = Some DS_ERROR_INVALID.
Proof. vm_compute. reflexivity. Qed.

Lemma relay_report_witness :
  exists s' a', activities (Sk := ring_skeleton) 0 day (boot pair relay_arena) = Some s' /\
    ring_system_ok a' s' /\
    wpr (folly_spsc_print_statistics 4096 4224 4352 (sys_kernel s') (sys_relay s')) (sys_mem s') 0
      (fun r m' b2 => m' = sys_mem s' /\ b2 = 0%nat /\ report_true Zlen Zlen a' r).
Proof.
  apply (relay_report (Al := arena_allocator) (metrics := 4352) (KU := KU_ring) (UK := UK_ring) eq_refl
    (folly_spsc_state 4096) (folly_spsc_state 4224) Zlen Zlen pair relay_arena day 0 ring_booted).
Defined.

(** *** Over the append buffers, whose lanes are stacks *)

Notation KU_buf := (kcov_lane (Al := arena_allocator) 4096).
Notation UK_buf := (kcov_lane (Al := arena_allocator) 4224).
Notation buf_skeleton := (kcov_skeleton (Al := arena_allocator) 4096 4224 4352).

#[export] Instance buf_lane_laws h : LaneLaws (Al := arena_allocator) (kcov_lane (Al := arena_allocator) h).
Proof. apply (kcov_lane_laws (Al := arena_allocator)). done. Qed.

#[export] Instance buf_skeleton_laws :
  SkeletonLaws (Al := arena_allocator) buf_skeleton false 4352 [] KU_buf UK_buf 0.
Proof. apply (lane_skeleton_laws (Al := arena_allocator)); try done; apply _. Qed.

Lemma buf_booted :
  relay_booted (Al := arena_allocator) (metrics := 4352) (rest := []) (KU := KU_buf) (UK := UK_buf)
    relay_arena.
Proof.
  split; [by apply (relay_holds 16)|]. split; [|split; [|apply relay_metrics]].
  - split; [done|]. split; [|by apply (relay_header 2)].
    split; eexists; [by apply (relay_header 0)|by apply (relay_header 2)].
  - split; [done|]. split; [|by apply (relay_header 34)].
    split; eexists; [by apply (relay_header 32)|by apply (relay_header 34)].
Qed.

(** UK has room for 254 pairs. *)
Lemma buf_drops :
  option_map tallies (activities (Sk := buf_skeleton) 0 (crowded 257) (boot pair relay_arena)) = Some (258, 257, 254, 2).
Proof. vm_compute. reflexivity. Qed.

Lemma relay_conserves_any_witness :
  exists s' a', activities (Sk := buf_skeleton) 0 (crowded 257) (boot pair relay_arena) = Some s' /\
    sys_simulated (Al := arena_allocator) (flagged := false) (metrics := 4352) (rest := [])
      (KU := KU_buf) (UK := UK_buf) a' s' /\
    let lk := lane_contents (ar_ku a') in let lu := lane_contents (ar_uk a') in
    let dropped := refused (ar_huk a') in
    accepted (ar_hku a') ≡ₚ popped (ar_hku a') ++ lk /\
    offered (ar_huk a') = popped (ar_hku a') /\
    accepted (ar_huk a') ≡ₚ popped (ar_huk a') ++ lu /\
    accepted (ar_hku a') ≡ₚ popped (ar_huk a') ++ lu ++ lk ++ dropped /\
    Forall genuine (accepted (ar_hku a')) /\
    u64 (ku_dequeued_count (sys_relay s') - uk_enqueued_count (sys_relay s')) = u64 (Zlen dropped) /\
    (dropped = [] -> accepted (ar_hku a') ≡ₚ popped (ar_huk a') ++ lu ++ lk).
Proof.
  apply (relay_conserves_any (Al := arena_allocator) (KU := KU_buf) (UK := UK_buf) pair relay_arena (crowded 257)
    (or_intror eq_refl) (or_intror eq_refl) buf_booted).
Defined.

(** *** A program from its command line on

    131 pages at 4096, laid out as in the skeletons: the headers and the metrics fill the first 129 pages
    and a little, the setup gives the allocator all pages but the first. *)

Notation ring_program := (folly_spsc_program (Al := arena_allocator) 64 4096 131 0 128 256).
Notation ring_main := (folly_spsc_main (Al := arena_allocator) 64 4096 131 0 128 256 0).
Notation loaded_arena := (blank_arena 131).

(** [relay -v]; a file is created, then the consumer cannot be attached. *)
Definition unattached : environment := {|
  ev_prog := "relay"; ev_argv := ["-v"]; ev_load := true; ev_lsm := 0; ev_uprobe := -2; ev_thread := 0;
  ev_early := 1; ev_running := []; ev_late := 0
|}.

Definition unattached_log : list action :=
  [OnSignal SIGINT; OnSignal SIGTERM; OpenAndLoad true; SetupAllocator 0; AttachLsm 0;
   AttachUprobe "folly_spsc_kernel_consume_trigger" (-2); DestroySkeleton].

Lemma main_exits_witness :
  exists m1, unchanged_outside (in_block 64 56) loaded_arena m1 /\
    (3 <= 131 -> user_state 64 (4096 + 2 ^ 12) (131 - 1) 12 m1 0 0 0 0) /\
    (-2 <> 0 /\ ring_main unattached (mk_world (boot pair loaded_arena) []) =
       (s ← activities (Sk := folly_spsc_skeleton (Al := arena_allocator) 4096 4224 4352) 0 [InodeCreate] (boot pair m1);
        Some (-2, mk_world s unattached_log))).
Proof.
  apply (main_exits (Pg := ring_program) (Sk := folly_spsc_skeleton (Al := arena_allocator) 4096 4224 4352) 0 unattached
    64 4096 131 12 pair loaded_arena eq_refl); [lia|lia|done|lia|lia|lia|apply (blank_arena_ready 131)].
Defined.

(** That file is counted, with its pair in KU. *)
Lemma unattached_run :
  option_map (fun '(code, w) => (code, w_log w, tallies (w_system w)))
    (ring_main unattached (mk_world (boot pair loaded_arena) [])) = Some (-2, unattached_log, (1, 0, 0, 0)).
Proof. vm_compute. reflexivity. Qed.

(** *** From the signal on *)

#[export] Instance ring_program_laws :
  ProgramLaws (Al := arena_allocator) ring_program false 4352 [] KU_ring UK_ring (fun _ r => r = DS_SUCCESS) Zlen Zlen.
Proof.
  apply (lane_program_laws (Al := arena_allocator) (folly_spsc_up 4096) (folly_spsc_up 4224)
    (folly_spsc_state 4096) (folly_spsc_state 4224));
    try done; first [apply _|apply (folly_spsc_state_laws (Al := arena_allocator))].
Qed.

(** Over the arena whose allocator has pages of its own, after a crowded day. *)
Lemma crowded_evening :
  exists s, activities (Sk := ring_skeleton) 0 crowded_day (boot pair relay_arena) = Some s /\
    ends (main_shutdown (Sk := ring_skeleton) (Pg := ring_program) 0 unattached (mk_config true true)) (mk_world s [])
      (fun code w => code = 0 /\
        shut_down (Al := arena_allocator) (KU := KU_ring) (UK := UK_ring) (flagged := false) (metrics := 4352)
          (rest := []) (verdict := fun _ r => r = DS_SUCCESS) (shows_ku := Zlen) (shows_uk := Zlen)
          unattached crowded_day (mk_config true true) [] w).
Proof.
  destruct (relay_run (Al := arena_allocator) (Sk := ring_skeleton) (b := 0%nat) (KU := KU_ring) (UK := UK_ring) pair relay_arena crowded_day
    ring_booted) as (s & a & E & Ha & Hs & _). exists s. split; [exact E|].
  apply (shutdown_ok (Al := arena_allocator) (Sk := ring_skeleton) (Pg := ring_program) (KU := KU_ring) (UK := UK_ring));
    [left; reflexivity|reflexivity|reflexivity|]. split; [reflexivity|]. exists a. split; [exact Ha|exact Hs].
Qed.

(** One page of arena only: the allocator cannot be set up. *)
Definition unlucky : environment := {|
  ev_prog := "relay"; ev_argv := ["-s"; "now"]; ev_load := true; ev_lsm := 0; ev_uprobe := 0; ev_thread := 0;
  ev_early := 0; ev_running := []; ev_late := 0
|}.

Definition unlucky_log : list action :=
  [OnSignal SIGINT; OnSignal SIGTERM; OpenAndLoad true; SetupAllocator (-1); DestroySkeleton].

Lemma unlucky_run : folly_spsc_main (Al := arena_allocator) 64 4096 1 0 128 256 0 unlucky (mk_world (boot pair ∅) []) =
  Some (-1, mk_world (boot pair ∅) unlucky_log).
Proof. vm_compute. reflexivity. Qed.

Lemma main_releases_witness :
  exists joined, holds_after unlucky_log = Some (released joined) /\
    (-1 = 0 <-> parse_options ["-s"; "now"] = Helped \/ joined = true).
Proof.
  apply (main_releases (Sk := folly_spsc_skeleton (Al := arena_allocator) 4096 4224 4352)
    (Pg := folly_spsc_program (Al := arena_allocator) 64 4096 1 0 128 256) 0 unlucky
    (mk_world (boot pair ∅) []) (-1) (mk_world (boot pair ∅) unlucky_log) eq_refl unlucky_run).
Defined.
