(* ===== verification/ExamplesUser.v ===== *)
(** * The userspace side at work: the linked FIFO between two threads, and the tests.

    The tests' arena has 1024 bytes at 4096, its statics at 64; [struct ctx] is at 16384. *)
From stdpp Require Import base numbers gmap list fin_maps option relations.
From S2P Require Import Prelude Machine Logic Api Owned Conc Container SoleAlloc UsertestArena Duet Spsc.
From S2P Require Import Ring FollySpsc CkRing SpscRings Linked CkFifo FifoConc MsQueue MsQueueConc Usertest UsertestSpsc Examples ExamplesLists.

Definition small_arena (off : Z) : mem :=
  <[64:=off]> (<[72:=4096]> (<[80:=1024]> (zeros 128 4096 8 (zeros 64 16384 4 ∅)))).

Notation small_allocator := (usertest_allocator 64 4096 1024).

Lemma small_base : 0 < 4096 /\ 4096 mod 8 = 0 /\ 0 <= 1024 < 2 ^ 63.
Proof. by vm_compute. Qed.

Lemma small_apart : 64 + 24 <= 4096 \/ 4096 + 1024 <= 64.
Proof. by left. Qed.

#[export] Instance small_laws : AllocLaws small_allocator := usertest_alloc_laws 64 4096 1024 small_base small_apart.
#[export] Instance small_fresh : FreshAllocLaws small_allocator (arena_room 64) :=
  usertest_fresh_laws 64 4096 1024 small_base small_apart.
#[export] Instance small_sole : SoleAllocLaws small_allocator (arena_room 64) :=
  usertest_sole_laws 64 4096 1024 small_base small_apart.

(** Blocks among those handed out, or beyond the arena. *)
Lemma small_heap off own m :
  0 <= off < 2 ^ 64 -> off mod 8 = 0 ->
  (forall a, in_live own a -> 4096 <= a < 4096 + off \/ 8192 <= a) ->
  unchanged_outside (in_live own) (small_arena off) m -> grows (small_arena off) m ->
  arena_heap_ok 64 4096 1024 own m.
Proof.
  intros Ho H8 Hown Hu Hg.
  assert (Hs : forall a, 64 <= a < 88 -> m !! a = small_arena off !! a).
  { intros a Ha. apply Hu. intros Hl. specialize (Hown a Hl). lia. }
  exists off. split.
  - split; try (rewrite Hs; [|unfold usertest_arena_off, usertest_arena_base, usertest_arena_bytes; lia];
      unfold small_arena, usertest_arena_off, usertest_arena_base, usertest_arena_bytes; cbn; mlook).
    + intros i Hi Hn. apply Hg. unfold small_arena. do 3 apply lookup_ins_is_Some.
      eexists. apply (zeros_in 128 4096 8); lia.
    + done.
  - intros a Ha Hl. specialize (Hown a Hl). unfold arena_private, in_block in Ha. lia.
Qed.

(** A FIFO with one pair in it; two blocks have been taken. *)
Definition small_fifo : mem :=
  <[16384 + 0:=4096]> (<[16384 + 8:=4128]> (<[16384 + 16:=4096]> (<[16384 + 24:=4096]>
    (<[4096 + 8:=4128]> (<[4128 + 0:=4144]> (<[4128 + 16:=7]> (<[4128 + 24:=70]> (small_arena 64)))))))).

Lemma small_fifo_repr : fifo_repr 16384 [] 4096 [4128] [pair] small_fifo.
Proof.
  split; [look|look| | | | |].
  - exists 4096. split; [look|left].
  - exists 4096, [], (mk_kv 0 0). split; [look|]. split; [done|]. cbn [chain app].
    split; [done|]. split; [lia|]. split; [look|]. split; [look|]. exists 4128. split; [look|].
    split; [done|]. split; [lia|]. split; [look|]. split; [look|]. exists 0. split; [look|done].
  - intros a Ha. apply list_elem_of_singleton in Ha as ->. look.
  - intros a Ha. apply elem_of_cons in Ha as [->|Ha]; [there|].
    apply list_elem_of_singleton in Ha as ->. there.
  - separate.
Qed.

Lemma small_fifo_holds : heap_holds (Al := small_allocator) (fifo_own 16384 [] 4096 [4128]) [] small_fifo.
Proof.
  split; [|separate]. apply (small_heap 64); [lia|done| | |].
  - intros a Ha. unfold fifo_own, node_blocks in Ha. cbn in Ha.
    repeat (apply in_live_cons in Ha as [Ha|Ha]; [unfold in_block in Ha; lia|]). by apply in_live_nil in Ha.
  - unfold small_fifo, fifo_own; cbn; own_bytes.
  - unfold small_fifo. do 8 apply grows_insert. apply grows_refl.
Qed.

Definition to_insert : list ds_kv := [mk_kv 1 10; mk_kv 2 20].
Definition outputs : list ds_kv := [mk_kv 0 0; mk_kv 0 0; mk_kv 0 0].

Lemma ck_fifo_linearizable_witness :
  spsc_linearizable (fifo_shared 16384) (fifo_quiet 16384) (unbounded fifo_add) [pair] to_insert outputs
    (perform (fifo_container (Al := small_allocator) BPF 16384) (map OInsert to_insert))
    (perform (fifo_container (Al := small_allocator) USER 16384) (map OPop outputs)) small_fifo.
Proof.
  apply (ck_fifo_linearizable (Al := small_allocator) (arena_room 64) 16384 BPF USER [] 4096 [4128] [pair] []);
    [lia|apply small_fifo_repr|apply small_fifo_holds|]. exists 64. split; [look|done].
Defined.

(** A Michael-Scott queue with one pair in it; [tail] lags, two blocks have been taken. *)
Definition small_msq : mem :=
  <[16384 + 0:=4096]> (<[16384 + 8:=4096]> (<[16384 + 16:=1]>
    (<[4096 + 0:=4120]> (<[4120 + 8:=7]> (<[4120 + 16:=70]> (small_arena 48)))))).

Lemma small_msq_repr : msq_repr (Al := small_allocator) 16384 [4096; 4120] [pair] true small_msq.
Proof.
  split; [look| |look| | |].
  - exists [], 4096, [4120]. split; [done|]. split; [look|done].
  - exists (mk_kv 0 0). cbn [chain List.hd]. split; [done|]. split; [lia|]. split; [look|]. split; [look|].
    exists 4120. split; [look|]. split; [done|]. split; [lia|]. split; [look|]. split; [look|]. exists 0. split; [look|done].
  - repeat constructor; lia.
  - separate.
Qed.

Lemma small_msq_holds : heap_holds (Al := small_allocator) (msq_own 16384 [4096; 4120]) [] small_msq.
Proof.
  split; [|separate]. apply (small_heap 48); [lia|done| | |].
  - intros a Ha. unfold msq_own, node_blocks in Ha. cbn in Ha.
    repeat (apply in_live_cons in Ha as [Ha|Ha]; [unfold in_block in Ha; lia|]). by apply in_live_nil in Ha.
  - unfold small_msq, msq_own; cbn; own_bytes.
  - unfold small_msq. do 6 apply grows_insert. apply grows_refl.
Qed.

Definition msq_clients : list msqueue_client :=
  [mk_mclient BPF 5 [OInsert (mk_kv 1 10); OPop (mk_kv 0 0)] 20; mk_mclient USER 0 [OPop (mk_kv 0 0); OInsert (mk_kv 2 20)] 0;
   mk_mclient BPF 0 [OPop (mk_kv 3 3)] 10].

Lemma msqueue_linearizable_witness :
  Acc (flip pool_step) (msqueue_pool (Al := small_allocator) 16384 msq_clients, small_msq) /\
  forall ts m', rtc pool_step (msqueue_pool (Al := small_allocator) 16384 msq_clients, small_msq) (ts, m') ->
    (forall i t, ts !! i = Some t -> ~ thread_faults t m' /\ t.1 <> NoFuel) /\
    msqueue_outcome (Al := small_allocator) 16384 [] [pair] msq_clients ts m'.
Proof.
  apply (msqueue_linearizable (Al := small_allocator) (room := arena_room 64) 16384 [] [4096; 4120] [pair] true
    msq_clients small_msq); [lia|apply small_msq_repr|apply small_msq_holds| |].
  - exists 48. split; [look|done].
  - repeat constructor.
Defined.

(** ** The tests *)

Lemma test_starts t : test_start 64 4096 1024 16384 t (small_arena 0).
Proof.
  split.
  - split.
    + apply (small_heap 0); [lia|done| |apply unchanged_refl|apply grows_refl].
      intros a Ha. unfold test_block in Ha. destruct t; cbn in Ha;
        repeat (apply in_live_cons in Ha as [Ha|Ha]; [unfold in_block in Ha; cbn in Ha; lia|]);
        by apply in_live_nil in Ha.
    + unfold test_block. destruct t; separate.
  - destruct t; cbn.
    + ready.
    + ready.
    + apply (mapped_checked 16384 4). look.
  - destruct t; repeat split; look.
  - look.
Qed.

Lemma spsc_tests_pass_witness :
  let ok t := test_start 64 4096 1024 16384 t (small_arena 0) /\
    test_passes (test_main 64 4096 1024 16384 t) spsc_key (test_items t) 3 20 (mk_kv 0 0)
      (test_quiet 16384 t) (small_arena 0) in
  ok TestFolly /\ ok TestCkRing /\ ok TestCkFifo.
Proof.
  intros ok. assert (Hok : forall t, ok t).
  { intros t. split; [apply test_starts|].
    apply (spsc_tests_pass 64 4096 1024 16384 ltac:(lia) small_base small_apart t 3 20 (mk_kv 0 0) (small_arena 0));
      [done|apply test_starts]. }
  split_and!; apply Hok.
Defined.

(** The threads can be joined: a run in which the producer goes first. *)
Definition whole_test (T : user_test) (m : mem) (sched : list nat) : option (Z * list (option (status * list event))) :=
  match run (ut_setup T) m 0 with
  | Done r m1 _ =>
      option_map (fun c => (r, map thread_done c.1))
        (run_schedule sched [(ut_producer T 3, 0%nat); (ut_consumer T 20 (mk_kv 0 0), 0%nat)] m1)
  | _ => None
  end.

Definition statuses (x : option (Z * list (option (status * list event)))) : option (Z * list (option status)) :=
  option_map (fun x => (x.1, map (option_map fst) x.2)) x.

Notation small_test t := (whole_test (test_main 64 4096 1024 16384 t) (small_arena 0)).

Lemma spsc_tests_complete :
  statuses (small_test TestFolly (replicate 18 0%nat ++ replicate 22 1%nat)) = Some (0, [Some (Some 0); Some (Some 0)]) /\
  statuses (small_test TestCkRing (replicate 20 0%nat ++ replicate 26 1%nat)) = Some (0, [Some (Some 0); Some (Some 0)]) /\
  statuses (small_test TestCkFifo (replicate 144 0%nat ++ replicate 74 1%nat)) = Some (0, [Some (Some 0); Some (Some 0)]).
Proof. split_and!; look. Qed.

(** In an arena too small for its eight entries the FIFO's test does not end: the producer gives
    up, and the consumer is left polling. *)
Lemma starved_fifo_hangs :
  statuses (whole_test (ck_fifo_main 64 4096 64 16384) (<[80:=64]> (small_arena 0))
    (replicate 27 0%nat ++ replicate 85 1%nat)) = Some (0, [Some (Some 1); Some None]).
Proof. look. Qed.
