(* ===== verification/ExamplesRelay.v ===== *)
(** * A kernel and a relay thread at work on Folly's rings.

    The relay thread's heap is the page at 4096, UK's header is at 16512 and the metrics at
    1048576; KU, up and holding one pair, has its header at 20480 and its records at 20736. *)
From stdpp Require Import base numbers gmap list fin_maps option strings relations.
From S2P Require Import Prelude Machine Logic Api Arena Owned Conc Container Allocators Ring Duet Spsc FollySpsc.
From S2P Require Import Metrics Agents Relay RelaySpec RelayConc Skeletons RelayRings Report Examples ExamplesRings ExamplesSystem.

#[export] Instance page_user_laws : AllocLaws (user_build page_allocator).
Proof. exact page_laws. Qed.

Definition booted_mem : mem := with_metrics fresh_arena.

Lemma booted_header i : 0 <= i < 64 -> booted_mem !! (16384 + 4 * i) = Some 0.
Proof.
  intros Hi. unfold booted_mem, with_metrics. rewrite zeros_below by lia.
  unfold arena. rewrite !lookup_insert_ne by lia. rewrite zeros_out by lia. apply zeros_in; lia.
Qed.

(** Two headers of [n] bytes and the metrics. *)
Lemma booted_holds n :
  0 < n <= 128 ->
  heap_holds (Al := page_allocator) [(16384, n); (16512, n)] [metrics_block 1048576] booted_mem.
Proof.
  intros Hn. split.
  - pose proof (zeros_updates (Z.to_nat 65556) 1048576 8 fresh_arena ltac:(lia)) as [Hu Hg].
    eapply (heap_ok_frame (Al := page_allocator)); [apply fresh_heap| |exact Hg].
    + intros a Ha. cbn in Ha.
      repeat (apply in_live_cons in Ha as [Ha|Ha]; [unfold in_block in Ha; lia|]).
      by apply in_live_nil in Ha.
    + eapply unchanged_mono; [exact Hu|]. intros a Ha.
      do 2 (apply in_live_cons; right). apply in_live_cons. left. exact Ha.
  - cbn. repeat split; intros a Ha Hl;
      repeat (apply in_live_cons in Hl as [Hl|Hl]; [unfold in_block in *; cbn in *; lia|]);
      by apply in_live_nil in Hl.
Qed.

#[export] Instance page_ring_laws h : LaneLaws (Al := page_allocator) (folly_spsc_lane (Al := page_allocator) h).
Proof. apply (folly_spsc_lane_laws (Al := page_allocator)). done. Qed.

Notation UK_ring := (folly_spsc_lane (Al := page_allocator) 16512).

Definition ku_empty (m : mem) : mem :=
  <[20480 + 0:=0]> (<[20480 + 64:=0]> (<[20480 + 68:=128]> (<[20480 + 72:=20736]> (zeros 256 20736 8 m)))).

Definition ku_with (m : mem) : mem := spsc_after_insert 20480 20736 128 0 pair (ku_empty m).

Definition ku_one : mem := ku_with booted_mem.

Notation KU_live := (folly_spsc_lane (Al := page_allocator) 20480).
Notation ku_own := (spsc_own 20480 128 20736).
Notation others := (relay_cells 1048576 ku_own).

Lemma ku_place : spsc_placed 20480 20736 128.
Proof. unfold spsc_placed. cbn. lia. Qed.

Lemma ku_with_repr m : spsc_repr 20480 20736 128 0 [pair] (ku_with m).
Proof.
  apply (spsc_repr_insert 20480 20736 128 ku_place 0 []); [|done].
  unfold ku_empty. pose proof (fun i => zeros_in 256 20736 8 m i) as Hz.
  generalize dependent (zeros 256 20736 8 m). intros m1 Hz.
  split; [mlookv|mlookv|mlookv|mlookv|done|by apply slots_nil|].
  apply slots_mapped_words; [lia|]. intros i Hi Hin. exists 0. rewrite !lookup_insert_ne by lia. apply Hz; lia.
Qed.

(** What booting left is still there, outside KU. *)
Lemma ku_with_outside m : unchanged_outside (in_live ku_own) m (ku_with m).
Proof.
  assert (Hin : forall a, in_block 20480 128 a \/ in_block 20736 2048 a -> in_live ku_own a)
    by (intros a [Ha|Ha]; [by apply in_own_head|by apply in_own_array]).
  unfold ku_with, spsc_after_insert, ku_empty.
  do 7 (apply unchanged_insert_trans; [apply Hin; vm_compute; intuition congruence|]).
  eapply unchanged_mono; [apply zeros_updates; lia|]. intros a Ha. apply Hin. right. exact Ha.
Qed.

Lemma others_keep a : others a -> part others ku_one !! a = booted_mem !! a.
Proof.
  intros Ha. rewrite part_in by done. apply ku_with_outside. intros Ho. apply Ha, in_live_cons. by right.
Qed.

(** Below KU, and from the second ring of metrics on. *)
Lemma below_others a : a < 20480 -> others a.
Proof.
  intros Ha Hl. unfold ring_block, spsc_own, metrics_ring, MetricsRing.sizeof in Hl.
  repeat (apply in_live_cons in Hl as [Hl|Hl]; [unfold in_block in Hl; cbn in Hl; lia|]).
  by apply in_live_nil in Hl.
Qed.

Lemma ring_others cat a : cat <> DS_METRICS_LKMM_PRODUCER -> ring_foot 1048576 cat a -> others a.
Proof.
  intros Hne Ha Hl. apply in_live_cons in Hl as [Hl|Hl]; [by eapply (rings_apart 1048576 cat)|].
  unfold ring_foot, metrics_ring, in_block in Ha.
  assert (0 <= category_index cat) by (destruct cat; cbn; lia).
  unfold MetricsRing.sizeof, DS_METRICS_RING_SIZE in Ha. unfold spsc_own in Hl.
  repeat (apply in_live_cons in Hl as [Hl|Hl]; [unfold in_block in Hl; lia|]). by apply in_live_nil in Hl.
Qed.

Lemma booted_metrics cat : metrics_repr 1048576 cat [] booted_mem.
Proof. apply zeroed_repr. unfold booted_mem. apply with_metrics_zeroed. Qed.

#[local] Opaque booted_mem ku_with.

Lemma others_metrics cat : cat <> DS_METRICS_LKMM_PRODUCER -> metrics_repr 1048576 cat [] (part others ku_one).
Proof.
  intros Hne. apply (metrics_repr_frame 1048576 cat [] booted_mem); [|apply booted_metrics].
  intros a Ha. apply others_keep. exact (ring_others cat a Hne Ha).
Qed.

(** The heap of the relay thread, seen in its part of memory. *)
Lemma heap_in_part (cells : Z -> Prop) `{!forall a, Decision (cells a)} m live :
  (forall a, 64 <= a < 8192 -> cells a) -> user_heap_ok 64 4096 1 12 live m -> user_heap_ok 64 4096 1 12 live (part cells m).
Proof.
  intros Hc (nx & cp & co & [E1 E2 E3 E4 E5 E6 E7 Hm] & Hcur & Hp). exists nx, cp, co. split; [|done].
  split; try (rewrite part_in by (apply Hc; vm_compute; intuition congruence); done).
  intros i Hi Hin. rewrite part_in by (apply Hc; lia). by apply Hm.
Qed.

Lemma thread_part : part others ku_one = part others booted_mem.
Proof. apply part_ext. intros a Ha. rewrite <- (part_in others ku_one a Ha). by apply others_keep. Qed.

Lemma thread_blocks a : in_live ((16512, 128) :: relay_rings 1048576) a ->
  in_live [(16512, 128); metrics_block 1048576] a.
Proof.
  intros Hl. apply in_live_cons in Hl as [Hl|Hl]; [by apply in_own_head|]. apply in_live_cons. right.
  unfold relay_rings in Hl. apply (in_live_app [_] [_]) in Hl as [Hl|Hl]; apply ring_block_in in Hl; by eapply ring_in_block.
Qed.

Lemma thread_heap : heap_holds (Al := page_allocator) [(16512, 128)] (relay_rings 1048576) (part others ku_one).
Proof.
  rewrite thread_part. split.
  - apply heap_in_part; [intros a Ha; apply below_others; lia|].
    destruct (heap_holds_drop _ _ _ _ (booted_holds 128 ltac:(lia))) as [(nx & cp & co & Hst & Hcur & Hp) _].
    exists nx, cp, co. split; [exact Hst|]. split; [exact Hcur|]. intros a Ha Hl. by apply (Hp a Ha), thread_blocks.
  - unfold relay_rings, ring_block, metrics_ring, MetricsRing.sizeof. cbn. repeat split; intros a Ha Hl;
      repeat (apply in_live_cons in Hl as [Hl|Hl]; [unfold in_block in *; cbn in *; lia|]);
      by apply in_live_nil in Hl.
Qed.

Definition ks_up : kernel_state := set_initialized true false kernel_start.

Lemma ku_ready : relay_ready (Al := page_allocator) KU_live UK_ring 1048576 ku_own [pair] [] ks_up ku_one.
Proof.
  split; [|done..| | |].
  - exists 20736. split; [apply ku_place|]. split; [done|]. exists 0. apply ku_with_repr.
  - intros a Ha Hl. apply in_live_cons in Ha as [Ha|Ha]; [|by apply in_live_nil in Ha].
    unfold ring_block, metrics_ring, MetricsRing.sizeof, spsc_own in *. unfold in_block in Ha. cbn in Ha.
    repeat (apply in_live_cons in Hl as [Hl|Hl]; [unfold in_block in Hl; lia|]). by apply in_live_nil in Hl.
  - apply (metrics_repr_frame 1048576 _ [] booted_mem); [|apply booted_metrics].
    intros a Ha. apply ku_with_outside. intros Hl. unfold ring_foot, metrics_ring, in_block, spsc_own in *. cbn in Ha.
    repeat (apply in_live_cons in Hl as [Hl|Hl]; [unfold in_block in Hl; lia|]). by apply in_live_nil in Hl.
  - split; [apply thread_heap|]. split; [|split; by apply others_metrics].
    split; [done|]. assert (Hhd : forall i, 32 <= i < 64 -> part others ku_one !! (16384 + 4 * i) = Some 0).
    { intros i Hi. rewrite others_keep by (apply below_others; lia). apply booted_header. lia. }
    split; [|by apply (Hhd 50)].
    repeat split; eexists.
    1: by apply (Hhd 32). 1: by apply (Hhd 48). 1: by apply (Hhd 49). by apply (Hhd 50).
Qed.

#[export] Instance uk_quiet : QuietLane (folly_spsc_lane (Al := page_allocator) 16512) (folly_spsc_up 16512).
Proof.
  apply (folly_quiet_lane (Al := page_allocator)). intros sz. apply user_alloc_call_free.
Qed.

Lemma relay_interleaved_witness :
  let create := creating KU_live 1048576 2 ks_up in
  let relay := relaying KU_live UK_ring (folly_spsc_up 20480) (folly_spsc_up 16512) 1048576 4 pair in
  let pool := [(create, 0%nat); (relay, 0%nat)] in
  Acc (flip pool_step) (pool, ku_one) /\
  forall ts m', rtc pool_step (pool, ku_one) (ts, m') ->
    (forall i t, ts !! i = Some t -> ~ thread_faults t m' /\ t.1 <> NoFuel) /\
    relay_outcome (Al := page_allocator) KU_live UK_ring 1048576 ku_own [pair] [] ks_up 2 ts m'.
Proof.
  intros create relay pool.
  apply (relay_interleaved (Al := page_allocator) KU_live UK_ring (folly_spsc_up 20480) (folly_spsc_up 16512) 1048576
    ltac:(lia) ltac:(done) ltac:(done) eq_refl eq_refl ku_own [pair] [] ks_up 2 4 pair ku_one 0 0).
  apply ku_ready.
Defined.
