(* ===== verification/ExamplesMpmc.v ===== *)
(** * The userspace tests with several producers and consumers at work.

    As in [ExamplesUser], with an arena of 2048 bytes. *)
From stdpp Require Import base numbers gmap list fin_maps option relations.
From S2P Require Import Prelude Machine Logic Api Owned Conc Container SoleAlloc UsertestArena Threads Crowd.
From S2P Require Import Ring Vyukhov VyukhovConc VyukhovCrowd Linked MsQueue MsQueueConc MsQueueCrowd.
From S2P Require Import CkStack CkStackConc StackCrowd Usertest UsertestCrowd UsertestMpmc UsertestStack Examples ExamplesLists ExamplesUser.

Definition wide_arena : mem :=
  <[64:=0]> (<[72:=4096]> (<[80:=2048]> (zeros 256 4096 8 (zeros 64 16384 4 ∅)))).

Lemma wide_base : 0 < 4096 /\ 4096 mod 8 = 0 /\ 0 <= 2048 < 2 ^ 63.
Proof. by vm_compute. Qed.

Lemma wide_apart : 64 + 24 <= 4096 \/ 4096 + 2048 <= 64.
Proof. by left. Qed.

Lemma wide_state : arena_state 64 4096 2048 0 wide_arena.
Proof.
  split; [look..| |done].
  intros i Hi Hn. unfold wide_arena. do 3 apply lookup_ins_is_Some. eexists. apply (zeros_in 256 4096 8); lia.
Qed.

Lemma mpmc_starts t : mpmc_start 64 4096 2048 16384 0 t wide_arena.
Proof.
  split.
  - split.
    + exists 0. split; [apply wide_state|]. intros a Ha Hl. unfold mpmc_block in Hl.
      assert (8192 <= a); [|unfold arena_private, in_block in Ha; lia]. destruct t; cbn in Hl;
        repeat (apply in_live_cons in Hl as [Hl|Hl]; [unfold in_block in Hl; cbn in Hl; lia|]);
        by apply in_live_nil in Hl.
    + unfold mpmc_block. destruct t; separate.
  - destruct t; cbn; [ready|]. apply (mapped_checked 16384 3). look.
  - destruct t; repeat split; look.
  - look.
Qed.

Lemma mpmc_tests_pass_witness :
  let ok t := mpmc_start 64 4096 2048 16384 0 t wide_arena /\
    crowd_passes (mpmc_main 64 4096 2048 16384 0 t) mpmc_key (mpmc_items t) (mpmc_few 64 4096 2048 16384 0 t)
      (mpmc_quiet 64 4096 2048 16384 t) wide_arena in
  ok TestVyukhov /\ ok TestMsqueue.
Proof.
  intros ok. assert (Hok : forall t, ok t).
  { intros t. split; [apply mpmc_starts|].
    apply (mpmc_tests_pass 64 4096 2048 16384 0 ltac:(lia) wide_base wide_apart ltac:(done) t wide_arena). apply mpmc_starts. }
  split; apply Hok.
Defined.

(** All threads can be joined: a run in which they go one after the other, [sched] times. *)
Definition whole_crowd (T : crowd_test) (m : mem) (sched : list (nat * nat)) : option (Z * list (option status)) :=
  match run (ct_setup T) m 0 with
  | Done r m1 _ =>
      let pa := mk_patience (fun _ => 30%nat) (fun _ => mk_kv 0 0) (fun _ => 0%nat) in
      option_map (fun c => (r, map (option_map fst) (map thread_done c.1)))
        (run_schedule (concat (map (fun x => replicate x.2 x.1) sched)) (ct_pool T pa) m1)
  | _ => None
  end.

Lemma mpmc_tests_complete :
  whole_crowd (mpmc_main 64 4096 2048 16384 0 TestVyukhov) wide_arena [(2, 24); (3, 24); (0, 54); (1, 2)]%nat =
    Some (0, replicate 4 (Some (Some 0))) /\
  whole_crowd (mpmc_main 64 4096 2048 16384 0 TestMsqueue) wide_arena [(1, 130); (2, 130); (0, 222)]%nat =
    Some (0, replicate 3 (Some (Some 0))).
Proof. split; look. Qed.

(** In an arena too small for its entries the test of the Michael-Scott queue does not end: the
    producers give up, and the consumer is left polling. *)
Lemma starved_msqueue_hangs :
  whole_crowd (mpmc_main 64 4096 240 16384 0 TestMsqueue) (<[80:=240]> wide_arena) [(1, 120); (2, 3); (0, 225)]%nat =
    Some (0, [Some None; Some (Some 1); Some (Some 1)]).
Proof. look. Qed.

(** ** The test of the stack *)

(** [struct ctx c = {0}] at 16384. *)
Definition stack_memory : mem := zeros 24 17008 1 (zeros 82 16384 8 ∅).

Lemma stack_starts : stack_start 16384 stack_memory.
Proof.
  assert (Hw : forall i, 0 <= i < 78 -> is_Some (stack_memory !! (16384 + 8 * i))).
  { intros i Hi. unfold stack_memory. rewrite zeros_below by lia. eexists. apply (zeros_in 82 16384 8); lia. }
  split.
  - split; eexists; look.
  - intros a (j & Hj & ->)%ctx_entries_in k Hk1 Hk2. unfold ctx_entry.
    replace (16384 + 48 + 24 * Z.of_nat j + 8 * k) with (16384 + 8 * (6 + 3 * Z.of_nat j + k)) by lia. apply Hw. lia.
  - repeat split; look.
  - split; look.
  - intros lk Hlk. unfold stack_memory, seen_keys. replace (16384 + 624 + lk) with (17008 + 1 * lk) by lia.
    by apply (zeros_in 24 17008 1).
Qed.

Lemma stack_test_passes_witness :
  stack_start 16384 stack_memory /\
  crowd_passes (stack_main 16384 200) mpmc_key 8 (stack_few 200) (stack_quiet 16384 []) stack_memory.
Proof.
  split; [apply stack_starts|].
  apply (stack_test_passes 16384 200 ltac:(lia) ltac:(done) stack_memory). apply stack_starts.
Defined.

(** A producer is beaten to the head and tries again; two consumers stop in the middle of an entry. *)
Lemma stack_test_completes :
  whole_crowd (stack_main 16384 200) stack_memory [(3, 4); (4, 64); (3, 65); (0, 8); (1, 30); (5, 64); (2, 202); (0, 4); (1, 2)]%nat =
    Some (0, replicate 6 (Some (Some 0))).
Proof. look. Qed.
